(** * Flowchart agent: the diagram synthesis and repair pipeline

    A shallow embedding of [agents/flowchart_agent.py] (class
    [FlowchartAgent]) and of the part of [agents/base_agent.py] it uses,
    followed by the properties of the pipeline.

    Text.  A Python [str] is modelled as a list of characters, a character
    being a code point below 256 (the type [ascii] read as Latin-1).  The
    classifications Python applies to characters ([str.isspace], the regular
    expression classes [\s] and [\w], [str.lower]) are written out for that
    range.  The bullet U+2022 in the argument of [lstrip] in
    [_generate_fallback_flowchart] lies outside the range: it does not occur
    in a modelled text and is left out of the set.

    Regular expressions.  The patterns of the source are kept as syntax
    trees and run by a backtracking matcher with the priorities of Python's
    [re]: alternatives left to right, greedy and lazy repetition, capture
    groups, [^], [$] and [\b].

    Effects.  The text generation service and the writing of output files
    are collaborators of the agent: they are parameters of [process], each
    returning a value or raising an exception. *)

From Stdlib Require Import Ascii String List ZArith NArith Lia Bool DecimalString.
From stdpp Require Import base strings gmap.
Import ListNotations.
Open Scope string_scope.
Open Scope list_scope.

(** ** Python strings *)

Abbreviation str := (list ascii).
Coercion list_ascii_of_string : string >-> list.

Module Py.

Definition nl : ascii := "010"%char.
Definition tab : ascii := "009"%char.
Definition dquote : ascii := "034"%char.
Definition squote : ascii := "039"%char.
Definition backquote : ascii := "096"%char.

Definition code (c : ascii) : N := N_of_ascii c.

Definition between (lo hi : N) (c : ascii) : bool :=
  ((lo <=? code c) && (code c <=? hi))%N.

(** [str.isspace] on one character: the white space of Unicode below 256. *)
Definition isspace (c : ascii) : bool :=
  between 9 13 c || between 28 32 c || (code c =? 133)%N || (code c =? 160)%N.

Definition isdigit_ascii (c : ascii) : bool := between 48 57 c.

Definition isalpha_ascii (c : ascii) : bool := between 65 90 c || between 97 122 c.

(** [str.lower] on one character: A-Z and the upper case letters of Latin-1. *)
Definition lower_chr (c : ascii) : ascii :=
  if between 65 90 c || (between 192 222 c && negb (code c =? 215)%N)
  then ascii_of_N (code c + 32) else c.

Definition lower (s : str) : str := map lower_chr s.

Definition chr (n : nat) : ascii := ascii_of_nat n.

(** [str(n)] for a natural number. *)
Definition str_of_nat (n : nat) : str :=
  list_ascii_of_string (NilZero.string_of_uint (Nat.to_uint n)).

Definition mem (c : ascii) (chars : str) : bool := existsb (Ascii.eqb c) chars.

(** [a == b] on texts *)
Fixpoint eqb (a b : str) : bool :=
  match a, b with
  | [], [] => true
  | x :: a', y :: b' => Ascii.eqb x y && eqb a' b'
  | _, _ => false
  end.

(** [not s] and [bool(s)] *)
Definition is_empty {A} (l : list A) : bool :=
  match l with [] => true | _ => false end.

(** [s.startswith(p)] *)
Fixpoint startswith (s p : str) {struct p} : bool :=
  match p, s with
  | [], _ => true
  | a :: p', b :: s' => Ascii.eqb a b && startswith s' p'
  | _ :: _, [] => false
  end.

Definition endswith (s p : str) : bool := startswith (rev s) (rev p).

(** [sub in s] *)
Fixpoint contains (s sub : str) : bool :=
  startswith s sub ||
  match s with
  | [] => false
  | _ :: s' => contains s' sub
  end.

(** [s.find(sub)]: the index of the first occurrence, or -1. *)
Fixpoint find_from (i : Z) (s sub : str) : Z :=
  if startswith s sub then i
  else match s with
       | [] => (-1)%Z
       | _ :: s' => find_from (i + 1)%Z s' sub
       end.

Definition find (s sub : str) : Z := find_from 0%Z s sub.

(** [s.count(c)] for a one-character [c] *)
Definition count (s : str) (c : ascii) : nat :=
  length (List.filter (Ascii.eqb c) s).

(** Slices with non-negative bounds: [s[:n]], [s[i:]] and [s[i:j]]. *)
Definition upto (n : nat) (s : str) : str := firstn n s.
Definition from (i : nat) (s : str) : str := skipn i s.
Definition slice (i j : nat) (s : str) : str := firstn (j - i) (skipn i s).

Fixpoint lstrip_by (p : ascii -> bool) (s : str) : str :=
  match s with
  | [] => []
  | c :: s' => if p c then lstrip_by p s' else s
  end.

Definition rstrip_by (p : ascii -> bool) (s : str) : str :=
  rev (lstrip_by p (rev s)).

(** [s.strip()], [s.lstrip()], [s.lstrip(chars)] and [s.rstrip(chars)] *)
Definition lstrip (s : str) : str := lstrip_by isspace s.
Definition strip (s : str) : str := rstrip_by isspace (lstrip_by isspace s).
Definition lstrip_chars (s chars : str) : str := lstrip_by (fun c => mem c chars) s.
Definition rstrip_chars (s chars : str) : str := rstrip_by (fun c => mem c chars) s.

(** [s.split(c)] for a separator of one character *)
Fixpoint split_chr (c : ascii) (s : str) : list str :=
  match s with
  | [] => [[]]
  | x :: s' =>
      if Ascii.eqb x c then [] :: split_chr c s'
      else match split_chr c s' with
           | l :: ls => (x :: l) :: ls
           | [] => [[x]]
           end
  end.

(** [s.split(sep)] for any non-empty separator: the occurrences are taken
    from the left and do not overlap.  [skip] counts the characters of an
    occurrence still to pass, [cur] holds the current piece reversed. *)
Fixpoint split_go (sep : str) (skip : nat) (cur : str) (s : str) : list str :=
  match s with
  | [] => [rev cur]
  | c :: s' =>
      match skip with
      | S n => split_go sep n cur s'
      | O => if startswith s sep
             then rev cur :: split_go sep (length sep - 1) [] s'
             else split_go sep 0 (c :: cur) s'
      end
  end.

Definition split (s sep : str) : list str := split_go sep 0 [] s.

(** [s.split(sep, 1)]: cut at the first occurrence only *)
Definition split1 (s sep : str) : list str :=
  let i := find s sep in
  if (i <? 0)%Z then [s]
  else [upto (Z.to_nat i) s; from (Z.to_nat i + length sep) s].

(** [s.split(None, 1)]: the first word and the rest without its leading
    white space; one piece when nothing follows the first word, none when
    the text is blank. *)
Fixpoint span_by (p : ascii -> bool) (s : str) : str * str :=
  match s with
  | [] => ([], [])
  | c :: s' => if p c then let '(a, b) := span_by p s' in (c :: a, b) else ([], s)
  end.

Definition split_ws1 (s : str) : list str :=
  match lstrip s with
  | [] => []
  | t => let '(w, r) := span_by (fun c => negb (isspace c)) t in
         match lstrip r with
         | [] => [w]
         | r' => [w; r']
         end
  end.

(** [sep.join(pieces)] *)
Fixpoint join (sep : str) (pieces : list str) : str :=
  match pieces with
  | [] => []
  | [x] => x
  | x :: rest => x ++ sep ++ join sep rest
  end.

(** [s.replace(old, new)] for a non-empty [old] *)
Definition replace (s old new : str) : str := join new (split s old).

(** [s.splitlines()]: the line boundaries below 256 are \n, \r, \r\n, \v,
    \f, \x1c, \x1d, \x1e and \x85; a final boundary opens no empty line. *)
Definition is_linebreak (c : ascii) : bool :=
  between 10 13 c || between 28 30 c || (code c =? 133)%N.

Fixpoint splitlines_go (cur : str) (s : str) : list str :=
  match s with
  | [] => match cur with [] => [] | _ => [rev cur] end
  | c :: s' =>
      if is_linebreak c then
        match s' with
        | d :: s'' =>
            if Ascii.eqb c "013"%char && Ascii.eqb d nl
            then rev cur :: splitlines_go [] s''
            else rev cur :: splitlines_go [] s'
        | [] => [rev cur]
        end
      else splitlines_go (c :: cur) s'
  end.

Definition splitlines (s : str) : list str := splitlines_go [] s.

Definition lines (s : str) : list str := split_chr nl s.
Definition unlines (ls : list str) : str := join [nl] ls.

End Py.

(** ** Exceptions *)

(** An exception carries its class and its message; [str(exc)] is the
    message. *)
Record exn := Exn { exn_class : str; exn_msg : str }.

Definition ValueError (msg : str) : exn := Exn "ValueError" msg.
Definition AttributeError (msg : str) : exn := Exn "AttributeError" msg.
Definition TypeError (msg : str) : exn := Exn "TypeError" msg.
Definition re_error (msg : str) : exn := Exn "re.error" msg.

Definition str_of_exn (e : exn) : str := exn_msg e.

Inductive result (A : Type) : Type :=
| Ok (a : A)
| Raise (e : exn).
Arguments Ok {A} a.
Arguments Raise {A} e.

Definition bind {A B} (x : result A) (f : A -> result B) : result B :=
  match x with
  | Ok a => f a
  | Raise e => Raise e
  end.

Notation "'let!' x ':=' c 'in' k" := (bind c (fun x => k))
  (at level 10, x name, c at level 100, k at level 200).

(** ** Regular expressions *)

Module Re.

Import Py.

(** The constructs the patterns of the source use.  A repetition applies to
    a character class in each of them. *)
Inductive regex : Type :=
| Eps
| Cls (p : ascii -> bool)
| Seq (a b : regex)
| Alt (a b : regex)
| Star (greedy : bool) (p : ascii -> bool)
| Grp (n : nat) (a : regex)
| Bol
| Eol
| Wordb.

(** A position of the matcher in the subject: the offset, the character
    before it, the text after it, and the groups captured so far (latest
    first). *)
Record mstate := MState {
  pos : nat;
  prev : option ascii;
  rest : str;
  caps : list (nat * str)
}.

Definition start_of (s : str) : mstate := MState 0 None s [].

Definition advance (c : ascii) (s' : str) (m : mstate) : mstate :=
  MState (S (pos m)) (Some c) s' (caps m).

Definition capture (n : nat) (m0 m1 : mstate) : mstate :=
  MState (pos m1) (prev m1) (rest m1)
         ((n, firstn (pos m1 - pos m0) (rest m0)) :: caps m1).

(** [\w]: the alphanumeric characters of Unicode below 256 and the
    underscore. *)
Definition isword (c : ascii) : bool :=
  isdigit_ascii c || isalpha_ascii c || Ascii.eqb c "_"%char
  || (code c =? 170)%N || (code c =? 178)%N || (code c =? 179)%N
  || (code c =? 181)%N || (code c =? 185)%N || (code c =? 186)%N
  || between 188 190 c || between 192 214 c || between 216 246 c
  || between 248 255 c.

Definition word_before (m : mstate) : bool :=
  match prev m with Some c => isword c | None => false end.

Definition word_after (m : mstate) : bool :=
  match rest m with c :: _ => isword c | [] => false end.

Section Matcher.

Variable k : mstate -> option mstate.

Fixpoint star_greedy (p : ascii -> bool) (m : mstate) (s : str) : option mstate :=
  match s with
  | c :: s' =>
      if p c then
        match star_greedy p (advance c s' m) s' with
        | Some r => Some r
        | None => k m
        end
      else k m
  | [] => k m
  end.

Fixpoint star_lazy (p : ascii -> bool) (m : mstate) (s : str) : option mstate :=
  match k m with
  | Some r => Some r
  | None =>
      match s with
      | c :: s' => if p c then star_lazy p (advance c s' m) s' else None
      | [] => None
      end
  end.

End Matcher.

(** [run r k m]: the first way, in the order of a backtracking matcher, to
    match [r] at [m] and then succeed with [k]. *)
Fixpoint run (r : regex) (k : mstate -> option mstate) (m : mstate) : option mstate :=
  match r with
  | Eps => k m
  | Cls p =>
      match rest m with
      | c :: s' => if p c then k (advance c s' m) else None
      | [] => None
      end
  | Seq a b => run a (run b k) m
  | Alt a b =>
      match run a k m with
      | Some r => Some r
      | None => run b k m
      end
  | Star true p => star_greedy k p m (rest m)
  | Star false p => star_lazy k p m (rest m)
  | Grp n a => run a (fun m' => k (capture n m m')) m
  | Bol => match prev m with None => k m | Some _ => None end
  | Eol =>
      match rest m with
      | [] => k m
      | [c] => if Ascii.eqb c nl then k m else None
      | _ => None
      end
  | Wordb => if xorb (word_before m) (word_after m) then k m else None
  end.

(** A match object: where the match began and the state at its end. *)
Record rmatch := RMatch { m_start : mstate; m_end : mstate }.

(** [m.group(n)]; every group of the source's patterns takes part in every
    match, a missing one reads as the empty text. *)
Definition group (m : rmatch) (n : nat) : str :=
  match n with
  | O => firstn (pos (m_end m) - pos (m_start m)) (rest (m_start m))
  | _ => match List.find (fun e => Nat.eqb (fst e) n) (caps (m_end m)) with
         | Some e => snd e
         | None => []
         end
  end.

Definition match_at (r : regex) (m : mstate) : option rmatch :=
  match run r Some m with
  | Some e => Some (RMatch m e)
  | None => None
  end.

(** [re.match(r, s)] *)
Definition re_match (r : regex) (s : str) : option rmatch :=
  match_at r (start_of s).

(** [re.search(r, s)]: the leftmost position with a match *)
Fixpoint search_from (r : regex) (m : mstate) (s : str) : option rmatch :=
  match match_at r m with
  | Some x => Some x
  | None =>
      match s with
      | c :: s' => search_from r (advance c s' m) s'
      | [] => None
      end
  end.

Definition re_search (r : regex) (s : str) : option rmatch :=
  search_from r (start_of s) s.

Definition found (o : option rmatch) : bool :=
  match o with Some _ => true | None => false end.

(** [re.sub(r, repl, s)] with a function [repl] of the match.  [skip]
    counts the characters of the last match still to pass.  After an empty
    match the same position admits one more match, which must not be
    empty. *)
Definition width (x : rmatch) : nat := pos (m_end x) - pos (m_start x).

Definition match_nonempty_at (r : regex) (m : mstate) : option rmatch :=
  match run r (fun e => if Nat.eqb (pos e) (pos m) then None else Some e) m with
  | Some e => Some (RMatch m e)
  | None => None
  end.

Fixpoint sub_go (r : regex) (repl : rmatch -> str) (skip : nat)
                (m : mstate) (s : str) : str :=
  match skip with
  | S n =>
      match s with
      | c :: s' => sub_go r repl n (advance c s' m) s'
      | [] => []
      end
  | O =>
      let copy :=
        match s with
        | c :: s' => c :: sub_go r repl 0 (advance c s' m) s'
        | [] => []
        end in
      let replace_then (x : rmatch) :=
        repl x ++
        match s with
        | c :: s' => sub_go r repl (width x - 1) (advance c s' m) s'
        | [] => []
        end in
      match match_at r m with
      | None => copy
      | Some x =>
          match width x with
          | S _ => replace_then x
          | O =>
              repl x ++
              match match_nonempty_at r m with
              | Some y => replace_then y
              | None => copy
              end
          end
      end
  end.

Definition re_sub (r : regex) (repl : rmatch -> str) (s : str) : str :=
  sub_go r repl 0 (start_of s) s.

(** *** Pattern syntax *)

Fixpoint seq (rs : list regex) : regex :=
  match rs with
  | [] => Eps
  | [r] => r
  | r :: rs' => Seq r (seq rs')
  end.

Fixpoint alt (rs : list regex) : regex :=
  match rs with
  | [] => Cls (fun _ => false)
  | [r] => r
  | r :: rs' => Alt r (alt rs')
  end.

Definition is_chr (c : ascii) : ascii -> bool := Ascii.eqb c.
Definition is_chr_i (c : ascii) : ascii -> bool := fun x => Ascii.eqb (lower_chr x) (lower_chr c).

(** a literal text, and the same under [re.IGNORECASE] *)
Definition lit (s : str) : regex := seq (map (fun c => Cls (is_chr c)) s).
Definition lit_i (s : str) : regex := seq (map (fun c => Cls (is_chr_i c)) s).

(** [[...]] and [[^...]]: a union of classes and of single characters *)
Definition one_of (classes : list (ascii -> bool)) (chars : str) : ascii -> bool :=
  fun c => existsb (fun p => p c) classes || mem c chars.
Definition none_of (classes : list (ascii -> bool)) (chars : str) : ascii -> bool :=
  fun c => negb (one_of classes chars c).

(** [[a-zA-Z0-9_]] *)
Definition ident_chr (c : ascii) : bool :=
  isalpha_ascii c || isdigit_ascii c || Ascii.eqb c "_"%char.

(** [.] *)
Definition dot (c : ascii) : bool := negb (Ascii.eqb c nl).

Definition star (p : ascii -> bool) : regex := Star true p.
Definition plus (p : ascii -> bool) : regex := Seq (Cls p) (Star true p).
Definition star_l (p : ascii -> bool) : regex := Star false p.
Definition plus_l (p : ascii -> bool) : regex := Seq (Cls p) (Star false p).

(** *** Replacement templates

    [re.sub] parses a template before it searches: backslash and digits name
    a group, three octal digits a character, and a reference to a group the
    pattern does not have raises [re.error].  No template of the source
    uses the named form; the message of an error is given without the
    position that follows it. *)
Inductive titem := TLit (c : ascii) | TGroup (n : nat).

Definition isoct (c : ascii) : bool := between 48 55 c.
Definition digit_val (c : ascii) : nat := N.to_nat (code c) - 48.

Fixpoint parse_template (fuel : nat) (groups : nat) (t : str) : result (list titem) :=
  match fuel with
  | O => Ok []
  | S fuel' =>
  match t with
  | [] => Ok []
  | b :: t0 =>
    if negb (Ascii.eqb b "\"%char) then
      let! r := parse_template fuel' groups t0 in Ok (TLit b :: r)
    else
    match t0 with
    | [] => Raise (re_error "bad escape (end of pattern)")
    | c :: t' =>
      if Ascii.eqb c "g"%char then Raise (re_error "named group reference")
      else if Ascii.eqb c "0"%char then
        match t' with
        | d :: t'' =>
            if isoct d then
              match t'' with
              | e :: t3 =>
                  if isoct e then
                    let! r := parse_template fuel' groups t3 in
                    Ok (TLit (chr ((digit_val d * 8 + digit_val e) mod 256)) :: r)
                  else
                    let! r := parse_template fuel' groups t'' in
                    Ok (TLit (chr (digit_val d)) :: r)
              | [] => Ok [TLit (chr (digit_val d))]
              end
            else
              let! r := parse_template fuel' groups t' in
              Ok (TLit (chr 0) :: r)
        | [] => Ok [TLit (chr 0)]
        end
      else if isdigit_ascii c then
        let one :=
          if Nat.ltb groups (digit_val c)
          then Raise (re_error ("invalid group reference " ++ str_of_nat (digit_val c)))
          else let! r := parse_template fuel' groups t' in Ok (TGroup (digit_val c) :: r) in
        match t' with
        | d :: t'' =>
            if isdigit_ascii d then
              let two :=
                let n := digit_val c * 10 + digit_val d in
                if Nat.ltb groups n
                then Raise (re_error ("invalid group reference " ++ str_of_nat n))
                else let! r := parse_template fuel' groups t'' in Ok (TGroup n :: r) in
              match t'' with
              | e :: t3 =>
                  if isoct c && isoct d && isoct e then
                    let v := digit_val c * 64 + digit_val d * 8 + digit_val e in
                    if Nat.ltb 255 v
                    then Raise (re_error "octal escape value outside of range 0-0o377")
                    else let! r := parse_template fuel' groups t3 in Ok (TLit (chr v) :: r)
                  else two
              | [] => two
              end
            else one
        | [] => one
        end
      else if isalpha_ascii c then
        if mem c "abfnrtv" then
          let v := if Ascii.eqb c "a"%char then 7 else if Ascii.eqb c "b"%char then 8
                   else if Ascii.eqb c "f"%char then 12 else if Ascii.eqb c "n"%char then 10
                   else if Ascii.eqb c "r"%char then 13 else if Ascii.eqb c "t"%char then 9
                   else 11 in
          let! r := parse_template fuel' groups t' in Ok (TLit (chr v) :: r)
        else Raise (re_error ("bad escape \" ++ [c]))
      else if Ascii.eqb c "\"%char then
        let! r := parse_template fuel' groups t' in Ok (TLit "\"%char :: r)
      else
        let! r := parse_template fuel' groups t' in Ok (TLit "\"%char :: TLit c :: r)
    end
  end
  end.

Definition expand (items : list titem) (m : rmatch) : str :=
  flat_map (fun i => match i with TLit c => [c] | TGroup n => group m n end) items.

(** [re.sub(r, template, s)] for a pattern with [groups] groups *)
Definition re_sub_template (r : regex) (groups : nat) (template : str) (s : str) : result str :=
  let! items := parse_template (S (length template)) groups template in
  Ok (re_sub r (expand items) s).

End Re.

(** ** The agent *)

Module Agent.

Import Py Re.

(** *** Modes (the prompt texts of [MODES] are data of the prompt only) *)

Inductive FlowchartMode := basic | intermediate | advanced.

Definition mode_name (m : FlowchartMode) : str :=
  match m with
  | basic => "basic"
  | intermediate => "intermediate"
  | advanced => "advanced"
  end.

Definition LEVEL_TO_MODE (key : str) : option FlowchartMode :=
  if eqb key "1" then Some basic
  else if eqb key "2" then Some intermediate
  else if eqb key "3" then Some advanced
  else None.

Definition _resolve_mode (level : str) : result FlowchartMode :=
  let key := lower (strip level) in
  if eqb key "basic" then Ok basic
  else if eqb key "intermediate" then Ok intermediate
  else if eqb key "advanced" then Ok advanced
  else match LEVEL_TO_MODE key with
       | Some mode => Ok mode
       | None => Raise (ValueError "Level must be 1, 2, 3, or a known mode name")
       end.

(** *** [_validate_mermaid] *)

Definition looks_like_node_or_edge (line : str) : bool :=
  contains line "-->"
  || (contains line "[" && contains line "]")
  || (contains line "{" && contains line "}").

Definition _validate_mermaid (code : str) : bool :=
  if is_empty code || (length (strip code) <? 10)%nat then false
  else if negb (startswith (strip code) "flowchart") then false
  else if negb (contains code "-->") then false
  else
    let lines := List.filter (fun l => negb (is_empty (strip l)) && negb (startswith (strip l) "%%"))
                        (split_chr nl code) in
    if (length lines <? 3)%nat then false
    else
      let node_count := length (List.filter looks_like_node_or_edge lines) in
      if (node_count <? 2)%nat then false
      else true.

(** *** [_generate_fallback_flowchart] *)

Definition notification_template : str :=
  unlines [
    "flowchart TD" : str;
    "    Start[User Action in Discord Mobile App] --> CheckOnline{User Online?}" : str;
    "    CheckOnline -->|Yes| CheckSettings{Notification Settings Enabled?}" : str;
    "    CheckOnline -->|No| QueueNotification[Queue Notification]" : str;
    "    CheckSettings -->|No| End1[End - No Notification]" : str;
    "    CheckSettings -->|Yes| CheckPermission{Push Permission Granted?}" : str;
    "    CheckPermission -->|No| RequestPermission[Request Push Permission]" : str;
    "    RequestPermission --> CheckPermission" : str;
    "    CheckPermission -->|Yes| DetermineType{Determine Notification Type}" : str;
    "    DetermineType -->|Message| MessageNotif[Message Notification]" : str;
    "    DetermineType -->|Mention| MentionNotif[Mention Notification]" : str;
    "    DetermineType -->|DM| DMNotif[Direct Message Notification]" : str;
    "    DetermineType -->|Server| ServerNotif[Server Event Notification]" : str;
    "    MessageNotif --> CheckQuietHours{Quiet Hours Active?}" : str;
    "    MentionNotif --> CheckQuietHours" : str;
    "    DMNotif --> CheckQuietHours" : str;
    "    ServerNotif --> CheckQuietHours" : str;
    "    CheckQuietHours -->|Yes| QueueNotification" : str;
    "    CheckQuietHours -->|No| FormatNotification[Format Notification Content]" : str;
    "    FormatNotification --> CheckDoNotDisturb{Do Not Disturb Active?}" : str;
    "    CheckDoNotDisturb -->|Yes| QueueNotification" : str;
    "    CheckDoNotDisturb -->|No| SendPush[Send Push Notification via FCM/APNS]" : str;
    "    SendPush --> DeviceReceive[Device Receives Notification]" : str;
    "    DeviceReceive --> DisplayNotif[Display in Notification Center]" : str;
    "    DisplayNotif --> UserInteracts{User Interacts?}" : str;
    "    UserInteracts -->|Tap| OpenApp[Open Discord App]" : str;
    "    UserInteracts -->|Dismiss| Dismiss[Notification Dismissed]" : str;
    "    UserInteracts -->|Swipe| SwipeAction[Perform Swipe Action]" : str;
    "    OpenApp --> NavigateToContent[Navigate to Relevant Content]" : str;
    "    NavigateToContent --> MarkRead[Mark as Read]" : str;
    "    MarkRead --> End2[End]" : str;
    "    Dismiss --> End2" : str;
    "    SwipeAction --> End2" : str;
    "    QueueNotification --> CheckOnline" : str;
    "    End1 --> EndFinal[End]" : str;
    "    End2 --> EndFinal" : str ].

Definition login_template : str :=
  unlines [
    "flowchart TD" : str;
    "    A[Start] --> B[Enter Credentials]" : str;
    "    B --> C{Valid Credentials?}" : str;
    "    C -->|Yes| D[Create Session]" : str;
    "    C -->|No| E[Show Error]" : str;
    "    E --> B" : str;
    "    D --> F[Redirect to Dashboard]" : str;
    "    F --> G[End]" : str ].

(** The steps of the generic chain: one per line of the description that
    is neither blank nor a [#] line, without its bullet or number, cut at 50
    characters. *)
Fixpoint fallback_steps (lines : list str) : list str :=
  match lines with
  | [] => []
  | line :: rest =>
      let line := strip line in
      if negb (is_empty line) && negb (startswith line "#") then
        let line := lstrip_chars line "-*123456789. " in
        if negb (is_empty line) then upto 50 line :: fallback_steps rest
        else fallback_steps rest
      else fallback_steps rest
  end.

Definition clean_step (step : str) : str :=
  replace (replace (replace step "[" "") "]" "") [dquote] [squote].

(** The loop over [enumerate(steps[:8])]: the node lines and the
    connection lines, from index [i] on. *)
Fixpoint fallback_chain (i : nat) (steps : list str) : list str * list str :=
  match steps with
  | [] => ([], [])
  | step :: rest =>
      let node_id := [chr (65 + i)] in
      let node := "    " ++ node_id ++ "[" ++ clean_step step ++ "]" in
      let '(nodes, connections) := fallback_chain (S i) rest in
      if (0 <? i)%nat then
        let prev_id := [chr (65 + i - 1)] in
        (node :: nodes, ("    " ++ prev_id ++ " --> " ++ node_id) :: connections)
      else (node :: nodes, connections)
  end.

Definition _generate_fallback_flowchart (description : str) : str :=
  let desc_lower := lower description in
  if contains desc_lower "notification"
     && (contains desc_lower "discord" || contains desc_lower "mobile"
         || contains desc_lower "app")
  then notification_template
  else if contains desc_lower "login" || contains desc_lower "auth"
  then login_template
  else
    let steps := fallback_steps (split_chr nl description) in
    let steps := if is_empty steps
                 then ["Start" : str; upto 40 description; "Process" : str; "End" : str]
                 else steps in
    let '(nodes, connections) := fallback_chain 0 (firstn 8 steps) in
    "flowchart TD" ++ [nl] ++ join [nl] nodes ++ [nl] ++ join [nl] connections.


(** *** [_check_syntax_errors] *)

(** [\]\s*[^\s\-\|]] and [\}\s*[^\s\-\|]] *)
Definition re_after_close (close : ascii) : regex :=
  seq [Cls (is_chr close); star isspace; Cls (none_of [isspace] "-|")].

Definition line_msg (i : nat) (what : str) : str :=
  "Line " ++ str_of_nat i ++ ": " ++ what.

(** The body of the loop, for the line numbered [i]. *)
Definition line_errors (i : nat) (line : str) : list str :=
  let line := strip line in
  if is_empty line || startswith line "flowchart" || startswith line "%%" then []
  else
    (if Nat.eqb (count line "[") (count line "]") then []
     else [line_msg i "Unmatched square brackets"])
    ++ (if Nat.eqb (count line "{") (count line "}") then []
        else [line_msg i "Unmatched curly braces"])
    ++ (if Nat.eqb (count line "(") (count line ")") then []
        else [line_msg i "Unmatched parentheses"])
    ++ (if contains line "-->" then
          (if found (re_search (re_after_close "]") line)
           then [line_msg i "Invalid character after closing bracket"] else [])
          ++ (if found (re_search (re_after_close "}") line)
              then [line_msg i "Invalid character after closing brace"] else [])
        else []).

Fixpoint check_lines (i : nat) (lines : list str) : list str :=
  match lines with
  | [] => []
  | line :: rest => line_errors i line ++ check_lines (S i) rest
  end.

Definition _check_syntax_errors (code : str) : list str :=
  check_lines 1 (split_chr nl code).

(** *** [_normalize_spacing] *)

Definition spaces (n : nat) : str := repeat " "%char n.

Definition normalize_spacing_line (line : str) : str :=
  let line := replace line [tab] "    " in
  if startswith (strip line) "flowchart" then strip line
  else
    let stripped := strip line in
    if is_empty stripped then ""
    else if startswith line " " then
      let leading_spaces := length line - length (lstrip line) in
      let normalized_indent := (leading_spaces / 4) * 4 in
      let normalized_indent :=
        if Nat.eqb normalized_indent 0 && negb (is_empty stripped)
           && negb (startswith stripped "flowchart")
        then 4 else normalized_indent in
      spaces normalized_indent ++ stripped
    else if negb (is_empty stripped) && negb (startswith stripped "flowchart")
    then "    " ++ stripped
    else stripped.

Definition _normalize_spacing (code : str) : str :=
  join [nl] (map normalize_spacing_line (split_chr nl code)).

(** *** [_normalize_flowchart_header] *)

(** [^(flowchart\s+(?:TD|LR|TB|BT|RL))] under [re.IGNORECASE] *)
Definition re_header : regex :=
  seq [Bol;
       Grp 1 (seq [lit_i "flowchart"; plus isspace;
                   alt [lit_i "TD"; lit_i "LR"; lit_i "TB"; lit_i "BT"; lit_i "RL"]])].

Definition clean_header (line_stripped : str) : str :=
  match re_match re_header line_stripped with
  | Some m => group m 1
  | None => "flowchart TD"
  end.

(** The loop rewrites the first line that starts with the keyword and
    stops. *)
Fixpoint normalize_header_lines (lines : list str) : list str :=
  match lines with
  | [] => []
  | line :: rest =>
      let line_stripped := strip line in
      if startswith line_stripped "flowchart"
      then clean_header line_stripped :: rest
      else line :: normalize_header_lines rest
  end.

Definition _normalize_flowchart_header (code : str) : str :=
  join [nl] (normalize_header_lines (split_chr nl code)).

(** *** [_remove_duplicate_nodes] *)

(** [^\s*([a-zA-Z0-9_]+)] and [^([a-zA-Z0-9_]+)] *)
Definition re_lead_id_ws : regex := seq [Bol; star isspace; Grp 1 (plus ident_chr)].
Definition re_lead_id : regex := seq [Bol; Grp 1 (plus ident_chr)].

Fixpoint remove_duplicate_lines (seen_nodes : gset str) (lines : list str) : list str :=
  match lines with
  | [] => []
  | line :: rest =>
      let line_stripped := strip line in
      if is_empty line_stripped || startswith line_stripped "flowchart"
      then line :: remove_duplicate_lines seen_nodes rest
      else if contains line "-->"
      then line :: remove_duplicate_lines seen_nodes rest
      else
        match re_match re_lead_id_ws line_stripped with
        | Some node_match =>
            let node_id := group node_match 1 in
            if bool_decide (node_id ∈ seen_nodes)
            then remove_duplicate_lines seen_nodes rest
            else line :: remove_duplicate_lines ({[ node_id ]} ∪ seen_nodes) rest
        | None => line :: remove_duplicate_lines seen_nodes rest
        end
  end.

Definition _remove_duplicate_nodes (code : str) : str :=
  join [nl] (remove_duplicate_lines ∅ (split_chr nl code)).

(** *** [_fix_mermaid_code] *)

Fixpoint fix_mermaid_lines (lines : list str) : list str :=
  match lines with
  | [] => []
  | line :: rest =>
      let line := strip line in
      if is_empty line || startswith line "%%" then fix_mermaid_lines rest
      else if startswith line "flowchart" then line :: fix_mermaid_lines rest
      else if contains line "-->" then
        let line := replace line "-- >" " --> " in
        let line := replace line "- ->" " --> " in
        let line := replace line "->" " --> " in
        line :: fix_mermaid_lines rest
      else if contains line "[" || contains line "{" || contains line "("
      then line :: fix_mermaid_lines rest
      else fix_mermaid_lines rest
  end.

Definition _fix_mermaid_code (code : str) : str :=
  if is_empty code then code
  else
    let code :=
      if negb (startswith (strip code) "flowchart") then
        if contains (lower code) "flowchart"
        then from (Z.to_nat (find (lower code) "flowchart")) code
        else "flowchart TD" ++ [nl] ++ code
      else code in
    join [nl] (fix_mermaid_lines (split_chr nl code)).

(** *** [_fix_common_syntax_errors] *)

(** [re.sub(r'[^\w\s\-\'\(\)]', '', label)], and the same with [?] kept *)
Definition re_not_allowed : regex := Cls (none_of [isword; isspace] "-'()").
Definition re_not_allowed_q : regex := Cls (none_of [isword; isspace] "-'()?").

Definition drop_not_allowed (label : str) : str := re_sub re_not_allowed (fun _ => "") label.
Definition drop_not_allowed_q (label : str) : str := re_sub re_not_allowed_q (fun _ => "") label.

(** [([\]\}\)])\s*[^\s\-\|]] *)
Definition re_trailing : regex :=
  seq [Grp 1 (Cls (one_of [] "]})")); star isspace; Cls (none_of [isspace] "-|")].

Definition close_unmatched (open close : ascii) (filter_label : str -> str) (line : str) : str :=
  if contains line [open] && negb (contains line [close]) then
    let idx := find line [open] in
    if negb (idx =? -1)%Z then
      let idx := Z.to_nat idx in
      let rest := from (idx + 1) line in
      if contains rest "-->" then
        let arrow_idx := Z.to_nat (find rest "-->") in
        let label := filter_label (strip (upto arrow_idx rest)) in
        upto (idx + 1) line ++ label ++ [close] ++ from arrow_idx rest
      else
        let label := filter_label rest in
        upto (idx + 1) line ++ label ++ [close]
    else line
  else line.

Fixpoint fix_common_lines (lines : list str) : list str :=
  match lines with
  | [] => []
  | line :: rest =>
      let line := strip line in
      if is_empty line then fix_common_lines rest
      else if startswith line "flowchart" then line :: fix_common_lines rest
      else
        let line := close_unmatched "[" "]" drop_not_allowed line in
        let line := close_unmatched "{" "}" drop_not_allowed_q line in
        let line := re_sub re_trailing (fun m => group m 1) line in
        line :: fix_common_lines rest
  end.

Definition _fix_common_syntax_errors (code : str) : str :=
  join [nl] (fix_common_lines (split_chr nl code)).

(** *** [_strip_fence] *)

Definition fence : str := "```".

Fixpoint drop_closing_fences (rev_lines : list str) : list str :=
  match rev_lines with
  | [] => []
  | l :: rest => if eqb (strip l) fence then drop_closing_fences rest else rev_lines
  end.

Definition _strip_fence (text : str) : str :=
  let lines := splitlines text in
  if is_empty lines then text
  else
    let lines :=
      match lines with
      | first :: rest => if startswith (strip first) fence then rest else lines
      | [] => lines
      end in
    join [nl] (rev (drop_closing_fences (rev lines))).

(** *** [_sanitize_mermaid] *)

(** [\s*-\s*-], [\s*-\s*$], [^\s*-\s*] and [\s+] *)
Definition re_double_dash : regex :=
  seq [star isspace; Cls (is_chr "-"); star isspace; Cls (is_chr "-")].
Definition re_trailing_dash : regex :=
  seq [star isspace; Cls (is_chr "-"); star isspace; Eol].
Definition re_leading_dash : regex :=
  seq [Bol; star isspace; Cls (is_chr "-"); star isspace].
Definition re_spaces : regex := plus isspace.

Definition clean_label (text : str) : str :=
  if is_empty text then text
  else
    let text := replace text [dquote] [squote] in
    let text := replace text [backquote] [squote] in
    let text := re_sub re_double_dash (fun _ => "-") text in
    let text := re_sub re_trailing_dash (fun _ => "") text in
    let text := re_sub re_leading_dash (fun _ => "") text in
    let text := rstrip_chars text ".,;:" in
    let text := re_sub re_spaces (fun _ => " ") text in
    let text := strip text in
    if is_empty text then "Label" else text.

(** [seen_nodes] stays empty throughout [_sanitize_mermaid], so the
    generated identifier is [node0]. *)
Definition extract_node_id (seen_nodes : gset str) (node_str : str) : str :=
  match re_match re_lead_id (strip node_str) with
  | Some m => group m 1
  | None => "node" ++ str_of_nat (size seen_nodes)
  end.

(** The scan for the closing symbol that brings the depth back to zero,
    from index [i] on; -1 when there is none. *)
Fixpoint find_close (open close : ascii) (depth : nat) (i : Z) (s : str) : Z :=
  match s with
  | [] => (-1)%Z
  | c :: s' =>
      if Ascii.eqb c open then find_close open close (S depth) (i + 1)%Z s'
      else if Ascii.eqb c close then
        let depth := (depth - 1)%nat in
        if Nat.eqb depth 0 then i else find_close open close depth (i + 1)%Z s'
      else find_close open close depth (i + 1)%Z s'
  end.

Definition sanitize_shape (open close : ascii) (filter_label : str -> str)
                          (node_id node_str : str) : str :=
  let bracket_start := find node_str [open] in
  let bracket_end :=
    find_close open close 0 bracket_start (from (Z.to_nat bracket_start) node_str) in
  if (bracket_start <? bracket_end)%Z then
    let label := slice (Z.to_nat bracket_start + 1) (Z.to_nat bracket_end) node_str in
    let label := clean_label label in
    let label := filter_label label in
    node_id ++ [open] ++ label ++ [close]
  else
    match split1 node_str [open] with
    | [_; label_part] =>
        let label :=
          if contains label_part "-->"
          then strip (hd [] (split label_part "-->"))
          else strip label_part in
        let label := if contains label [close] then hd [] (split_chr close label) else label in
        let label := clean_label label in
        let label := filter_label label in
        node_id ++ [open] ++ label ++ [close]
    | _ => node_str
    end.

Definition sanitize_node (seen_nodes : gset str) (node_str : str) : str :=
  let node_str := strip node_str in
  if is_empty node_str then ""
  else
    let node_id := extract_node_id seen_nodes node_str in
    if contains node_str "[" then sanitize_shape "[" "]" drop_not_allowed node_id node_str
    else if contains node_str "{" then sanitize_shape "{" "}" drop_not_allowed_q node_id node_str
    else if contains node_str "(" then sanitize_shape "(" ")" drop_not_allowed node_id node_str
    else
      match re_match re_lead_id node_str with
      | Some m => group m 1
      | None => node_id
      end.

(** [--\s*>], [-\s*->] and [->] *)
Definition re_arrow1 : regex := seq [lit "--"; star isspace; Cls (is_chr ">")].
Definition re_arrow2 : regex := seq [Cls (is_chr "-"); star isspace; lit "->"].
Definition re_arrow3 : regex := lit "->".

(** [^(.+?)\s*-->\s*\|\s*(.+?)\s*\|\s*(.+)$] *)
Definition re_labeled : regex :=
  seq [Bol; Grp 1 (plus_l dot); star isspace; lit "-->"; star isspace;
       Cls (is_chr "|"); star isspace; Grp 2 (plus_l dot); star isspace;
       Cls (is_chr "|"); star isspace; Grp 3 (plus dot); Eol].

Fixpoint sanitize_lines (seen_nodes : gset str) (lines : list str) : list str :=
  match lines with
  | [] => []
  | line :: rest =>
      let line := strip line in
      if is_empty line || startswith line "%%" then sanitize_lines seen_nodes rest
      else if startswith line "flowchart" then line :: sanitize_lines seen_nodes rest
      else
        let line := re_sub re_arrow1 (fun _ => "-->") line in
        let line := re_sub re_arrow2 (fun _ => "-->") line in
        let line := re_sub re_arrow3 (fun _ => "-->") line in
        if contains line "-->" then
          match re_match re_labeled line with
          | Some labeled_match =>
              let left := strip (group labeled_match 1) in
              let label := clean_label (group labeled_match 2) in
              let right := sanitize_node seen_nodes (strip (group labeled_match 3)) in
              let left_node := sanitize_node seen_nodes left in
              ("    " ++ left_node ++ " -->|" ++ label ++ "| " ++ right)
                :: sanitize_lines seen_nodes rest
          | None =>
              match split line "-->" with
              | p0 :: p1 :: _ =>
                  let left := sanitize_node seen_nodes (strip p0) in
                  let right := sanitize_node seen_nodes (strip p1) in
                  ("    " ++ left ++ " --> " ++ right) :: sanitize_lines seen_nodes rest
              | _ => sanitize_lines seen_nodes rest
              end
          end
        else
          let sanitized_node := sanitize_node seen_nodes line in
          if negb (is_empty sanitized_node)
          then ("    " ++ sanitized_node) :: sanitize_lines seen_nodes rest
          else sanitize_lines seen_nodes rest
  end.

Definition _sanitize_mermaid (code : str) : str :=
  join [nl] (sanitize_lines ∅ (split_chr nl code)).

(** *** [_wrap_special_labels] *)

(** The class of the special characters: the round, square and curly
    brackets, colon, semicolon, comma and the three quote characters. *)
Definition special_chars : str := "()[]{}:;,'`" ++ [dquote].
Definition re_special : regex := Cls (one_of [] special_chars).

Definition needs_quotes (label : str) : bool :=
  found (re_search re_special label)
  && negb (startswith label [dquote] && endswith label [dquote]).

Definition _wrap_label_if_needed (node_id label : str) (bracket_type : ascii) : str :=
  let close := if Ascii.eqb bracket_type "["%char then "]"%char
               else if Ascii.eqb bracket_type "{"%char then "}"%char
               else if Ascii.eqb bracket_type "("%char then ")"%char
               else "]"%char in
  let open := if mem bracket_type "[{(" then bracket_type else "["%char in
  if needs_quotes label && mem bracket_type "[{("
  then node_id ++ [bracket_type] ++ [dquote] ++ label ++ [dquote] ++ [close]
  else node_id ++ [open] ++ label ++ [close].

Definition _wrap_connection_label (left label right : str) : str :=
  if needs_quotes label
  then left ++ " -->|" ++ [dquote] ++ label ++ [dquote] ++ "| " ++ right
  else left ++ " -->|" ++ label ++ "| " ++ right.

(** Group 1 [\s*], group 2 [[a-zA-Z0-9_]+], the opening symbol, group 3
    [[^\]]+] and the closing symbol; likewise for braces and parentheses. *)
Definition re_node_def (open close : ascii) : regex :=
  seq [Grp 1 (star isspace); Grp 2 (plus ident_chr); Cls (is_chr open);
       Grp 3 (plus (none_of [] [close])); Cls (is_chr close)].

(** Group 1 [\s*], group 2 [.+?], then [\s*-->\s*\|\s*], group 3
    [[^|]+?], then [\s*\|\s*] and group 4 [.+]. *)
Definition re_labeled_edge : regex :=
  seq [Grp 1 (star isspace); Grp 2 (plus_l dot); star isspace; lit "-->";
       star isspace; Cls (is_chr "|"); star isspace;
       Grp 3 (plus_l (none_of [] "|")); star isspace; Cls (is_chr "|");
       star isspace; Grp 4 (plus dot)].

Definition wrap_line (line : str) : str :=
  let line_stripped := strip line in
  if is_empty line_stripped || startswith line_stripped "flowchart" then line
  else
    let wrap open := fun m => group m 1 ++ _wrap_label_if_needed (group m 2) (group m 3) open in
    let line := re_sub (re_node_def "[" "]") (wrap "["%char) line in
    let line := re_sub (re_node_def "{" "}") (wrap "{"%char) line in
    let line := re_sub (re_node_def "(" ")") (wrap "("%char) line in
    re_sub re_labeled_edge
           (fun m => group m 1 ++ _wrap_connection_label (group m 2) (group m 3) (group m 4))
           line.

Definition _wrap_special_labels (code : str) : str :=
  join [nl] (map wrap_line (split_chr nl code)).

(** *** [_final_cleanup] *)

Definition re_closer : regex :=
  Grp 1 (alt [Cls (is_chr "]"); Cls (is_chr "}"); Cls (is_chr ")")]).

(** [(\]|\}|\))\s+[^\s\-\|]] and [(\]|\}|\))([^\s\-\|])] *)
Definition re_after1 : regex := seq [re_closer; plus isspace; Cls (none_of [isspace] "-|")].
Definition re_after2 : regex := seq [re_closer; Grp 2 (Cls (none_of [isspace] "-|"))].
(** [(\]|\}|\))\s+.*$], and [(\]|\}|\))] followed by the group
    [[^\s\-\|].*] and by [$] *)
Definition re_tail1 : regex := seq [re_closer; plus isspace; star dot; Eol].
Definition re_tail2 : regex :=
  seq [re_closer; Grp 2 (seq [Cls (none_of [isspace] "-|"); star dot]); Eol].
(** [\[([^\]]*?)\s*-\s*-\s*([^\]]*?)\]] and the same between braces *)
Definition re_inner_dashes (open close : ascii) : regex :=
  seq [Cls (is_chr open); Grp 1 (star_l (none_of [] [close])); star isspace;
       Cls (is_chr "-"); star isspace; Cls (is_chr "-"); star isspace;
       Grp 2 (star_l (none_of [] [close])); Cls (is_chr close)].
(** [([^\s])\s*-\s*-\s*([\]\}])] and [([^\s])\s*-\s*([\]\}])] *)
Definition re_end_dashes2 : regex :=
  seq [Grp 1 (Cls (none_of [isspace] "")); star isspace; Cls (is_chr "-"); star isspace;
       Cls (is_chr "-"); star isspace; Grp 2 (Cls (one_of [] "]}"))].
Definition re_end_dashes1 : regex :=
  seq [Grp 1 (Cls (none_of [isspace] "")); star isspace; Cls (is_chr "-"); star isspace;
       Grp 2 (Cls (one_of [] "]}"))].
(** [\[[\s-]+\]] and [\{[\s-]+\}] *)
Definition re_blank_label (open close : ascii) : regex :=
  seq [Cls (is_chr open); plus (one_of [isspace] "-"); Cls (is_chr close)].

Definition final_cleanup_line (original_line : str) : str :=
  let line := strip original_line in
  if is_empty line || startswith line "flowchart" then original_line
  else if contains line "-->" then
    match split1 line "-->" with
    | [p0; p1] =>
        let left := strip p0 in
        let right := strip p1 in
        let left_cleaned := re_sub re_after1 (fun m => group m 1) left in
        let left_cleaned := re_sub re_after2 (fun m => group m 1) left_cleaned in
        "    " ++ left_cleaned ++ " --> " ++ right
    | _ => "    " ++ line
    end
  else
    let line_cleaned := re_sub re_tail1 (fun m => group m 1) line in
    let line_cleaned := re_sub re_tail2 (fun m => group m 1) line_cleaned in
    let line_cleaned :=
      re_sub (re_inner_dashes "[" "]")
             (fun m => "[" ++ group m 1 ++ "-" ++ group m 2 ++ "]") line_cleaned in
    let line_cleaned :=
      re_sub (re_inner_dashes "{" "}")
             (fun m => "{" ++ group m 1 ++ "-" ++ group m 2 ++ "}") line_cleaned in
    let line_cleaned := re_sub re_end_dashes2 (fun m => group m 1 ++ group m 2) line_cleaned in
    let line_cleaned := re_sub re_end_dashes1 (fun m => group m 1 ++ group m 2) line_cleaned in
    let line_cleaned := re_sub (re_blank_label "[" "]") (fun _ => "[Label]") line_cleaned in
    let line_cleaned := re_sub (re_blank_label "{" "}") (fun _ => "{Label}") line_cleaned in
    "    " ++ line_cleaned.

Definition _final_cleanup (code : str) : str :=
  join [nl] (map final_cleanup_line (split_chr nl code)).

(** *** [_normalize_end_nodes] *)

(** The three patterns of an end node, under [re.IGNORECASE] and anchored
    at the start: group 1 [[a-zA-Z0-9_]+], the opening symbol, group 2
    [[^\]]*End[^\]]*] and the closing symbol; the same between braces and
    between parentheses. *)
Definition re_end_node (open close : ascii) : regex :=
  seq [Bol; Grp 1 (plus ident_chr); Cls (is_chr open);
       Grp 2 (seq [star (none_of [] [close]); lit_i "End"; star (none_of [] [close])]);
       Cls (is_chr close)].

Definition end_match (line_stripped : str) : option rmatch :=
  match re_match (re_end_node "[" "]") line_stripped with
  | Some m => Some m
  | None =>
      match re_match (re_end_node "{" "}") line_stripped with
      | Some m => Some m
      | None => re_match (re_end_node "(" ")") line_stripped
      end
  end.

Definition normalize_end_label (label : str) : str :=
  if startswith (lower label) "end" then
    if contains label ":" then label
    else match split_ws1 label with
         | _ :: p1 :: _ => "End: " ++ p1
         | _ => "End"
         end
  else label.

(** [get_unique_end_id]: the identifier, the label, and the counters after
    the call. *)
Definition get_unique_end_id (end_node_counter : gmap str nat) (base_id label : str)
  : str * str * gmap str nat :=
  let normalized_label := normalize_end_label label in
  match end_node_counter !! base_id with
  | None => (base_id, normalized_label, <[base_id := 0]> end_node_counter)
  | Some n =>
      (base_id ++ "_" ++ str_of_nat (S n), normalized_label,
       <[base_id := S n]> end_node_counter)
  end.

(** [node_id_mapping] is a dict read in insertion order: an assignment to a
    key it has keeps the key's place. *)
Fixpoint dict_set (k v : str) (d : list (str * str)) : list (str * str) :=
  match d with
  | [] => [(k, v)]
  | (k', v') :: d' => if eqb k' k then (k, v) :: d' else (k', v') :: dict_set k v d'
  end.

(** [sorted(items, key=lambda x: len(x[0]), reverse=True)]: longest key
    first, keys of one length in the order of the dict. *)
Fixpoint insert_longest_first (x : str * str) (l : list (str * str)) : list (str * str) :=
  match l with
  | [] => [x]
  | y :: l' =>
      if (length (fst x) <? length (fst y))%nat
      then y :: insert_longest_first x l'
      else x :: l
  end.

Definition sorted_mappings (d : list (str * str)) : list (str * str) :=
  fold_right insert_longest_first [] d.

(** The pattern of a reference to [old_id]: group 1 is [^], [\s] or an
    opening symbol; the identifier stands between two [\b]; group 2 is
    [\s*-->], [\s*\|], [\s*$] or a closing symbol. *)
Definition re_reference (old_id : str) : regex :=
  seq [Grp 1 (alt [Bol; Cls isspace; Cls (is_chr "["); Cls (is_chr "{"); Cls (is_chr "(")]);
       Wordb; lit old_id; Wordb;
       Grp 2 (alt [seq [star isspace; lit "-->"];
                   seq [star isspace; Cls (is_chr "|")];
                   seq [star isspace; Eol];
                   Cls (is_chr "]"); Cls (is_chr "}"); Cls (is_chr ")")])].

(** The template [\1{new_id}\2] is the text of [new_id] between the two
    group references. *)
Definition reference_template (new_id : str) : str := "\1" ++ new_id ++ "\2".

Fixpoint rewrite_references (mappings : list (str * str)) (line : str) : result str :=
  match mappings with
  | [] => Ok line
  | (old_id, new_id) :: rest =>
      let! line := re_sub_template (re_reference old_id) 2 (reference_template new_id) line in
      rewrite_references rest line
  end.

Fixpoint end_nodes_lines (end_node_counter : gmap str nat)
                         (node_id_mapping : list (str * str))
                         (lines : list str) : result (list str) :=
  match lines with
  | [] => Ok []
  | line :: rest =>
      let line_stripped := strip line in
      if is_empty line_stripped || startswith line_stripped "flowchart" then
        let! r := end_nodes_lines end_node_counter node_id_mapping rest in Ok (line :: r)
      else
        match end_match line_stripped with
        | Some m =>
            let old_id := group m 1 in
            let label := group m 2 in
            let '(new_id, normalized_label, end_node_counter) :=
              get_unique_end_id end_node_counter old_id label in
            let node_id_mapping :=
              if eqb old_id new_id then node_id_mapping
              else dict_set old_id new_id node_id_mapping in
            let out :=
              if contains line_stripped "[" then "    " ++ new_id ++ "[" ++ normalized_label ++ "]"
              else if contains line_stripped "{" then "    " ++ new_id ++ "{" ++ normalized_label ++ "}"
              else if contains line_stripped "(" then "    " ++ new_id ++ "(" ++ normalized_label ++ ")"
              else line in
            let! r := end_nodes_lines end_node_counter node_id_mapping rest in Ok (out :: r)
        | None =>
            if contains line "-->" then
              let! line := rewrite_references (sorted_mappings node_id_mapping) line in
              let! r := end_nodes_lines end_node_counter node_id_mapping rest in Ok (line :: r)
            else
              let! r := end_nodes_lines end_node_counter node_id_mapping rest in Ok (line :: r)
        end
  end.

Definition _normalize_end_nodes (code : str) : result str :=
  let! lines := end_nodes_lines ∅ [] (split_chr nl code) in
  Ok (join [nl] lines).

(** *** [_extract_mermaid] *)

Definition has_direction (s : str) : bool :=
  contains s "TD" || contains s "LR" || contains s "TB" || contains s "BT" || contains s "RL".

(** The first loop: the lines kept, given the two flags. *)
Fixpoint extract_lines (in_flowchart found_flowchart : bool) (lines : list str) : list str :=
  match lines with
  | [] => []
  | line :: rest =>
      let line_stripped := strip line in
      if is_empty line_stripped then extract_lines in_flowchart found_flowchart rest
      else if startswith line_stripped "#" then extract_lines in_flowchart found_flowchart rest
      else if startswith line_stripped fence then
        if in_flowchart then [] else extract_lines in_flowchart found_flowchart rest
      else if contains (lower line_stripped) "flowchart" && has_direction line_stripped
      then line_stripped :: extract_lines true true rest
      else if in_flowchart then line_stripped :: extract_lines in_flowchart found_flowchart rest
      else if found_flowchart && negb in_flowchart then
        if startswith line_stripped fence then []
        else extract_lines in_flowchart found_flowchart rest
      else extract_lines in_flowchart found_flowchart rest
  end.

(** The second loop, over the lines from the keyword on. *)
Fixpoint remaining_lines (lines : list str) : list str :=
  match lines with
  | [] => []
  | rline :: rest =>
      let rline_stripped := strip rline in
      if negb (is_empty rline_stripped) && negb (startswith rline_stripped "#")
         && negb (startswith rline_stripped fence)
      then rline_stripped :: remaining_lines rest
      else remaining_lines rest
  end.

Definition _extract_mermaid (text : str) : str :=
  if is_empty text then ""
  else
    let cleaned := strip text in
    let cleaned := if startswith cleaned fence then _strip_fence cleaned else cleaned in
    let cleaned := strip cleaned in
    let flowchart_lines := extract_lines false false (split_chr nl cleaned) in
    let flowchart_lines :=
      if is_empty flowchart_lines then
        if contains (lower cleaned) "flowchart" then
          let idx := Z.to_nat (find (lower cleaned) "flowchart") in
          remaining_lines (split_chr nl (from idx cleaned))
        else flowchart_lines
      else flowchart_lines in
    if is_empty flowchart_lines then ""
    else
      let cleaned := join [nl] flowchart_lines in
      let cleaned :=
        if negb (startswith (strip cleaned) "flowchart") then
          if contains (lower cleaned) "flowchart"
          then from (Z.to_nat (find (lower cleaned) "flowchart")) cleaned
          else cleaned
        else cleaned in
      let syntax_errors := _check_syntax_errors cleaned in
      if negb (is_empty syntax_errors) then _sanitize_mermaid cleaned else cleaned.

(** *** Requests, responses and collaborators *)

(** The values a request holds.  [VBytes] is a [bytes] object or, when
    [mutable], a [bytearray]: it has the methods [strip] and [lower] but
    holds no text.  [VOther] is a value of one of the other built-in types,
    none of which has a [strip] method.  Both carry their [str()]. *)
Inductive other_type := TFloat | TList | TDict | TTuple | TSet.

Inductive pyval :=
| VStr (s : str)
| VInt (n : Z)
| VBool (b : bool)
| VNone
| VBytes (mutable : bool) (content text : str)
| VOther (t : other_type) (text : str).

Definition type_name_of (v : pyval) : str :=
  match v with
  | VStr _ => "str"
  | VInt _ => "int"
  | VBool _ => "bool"
  | VNone => "NoneType"
  | VBytes false _ _ => "bytes"
  | VBytes true _ _ => "bytearray"
  | VOther TFloat _ => "float"
  | VOther TList _ => "list"
  | VOther TDict _ => "dict"
  | VOther TTuple _ => "tuple"
  | VOther TSet _ => "set"
  end.

(** [str(v)] *)
Definition py_str (v : pyval) : str :=
  match v with
  | VStr s => s
  | VInt n => list_ascii_of_string (NilZero.string_of_int (Z.to_int n))
  | VBool true => "True"
  | VBool false => "False"
  | VNone => "None"
  | VBytes _ _ t => t
  | VOther _ t => t
  end.

(** [b.strip()] for bytes: the white space of ASCII is removed at the two
    ends. *)
Definition isspace_bytes (c : ascii) : bool := between 9 13 c || (code c =? 32)%N.

Definition strip_bytes (b : str) : str := rstrip_by isspace_bytes (lstrip_by isspace_bytes b).

(** [v in [a, b]] for texts [a] and [b] *)
Definition is_one_of (v : pyval) (options : list str) : bool :=
  match v with
  | VStr s => existsb (eqb s) options
  | _ => false
  end.

Inductive AgentStatus := IDLE | PROCESSING | SUCCESS | ERROR.

Inductive Metadata :=
| MetaSuccess (description_length : nat) (level output_format : pyval)
| MetaError (request : gmap string pyval).

(** [AgentResponse], without its time stamp. *)
Record AgentResponse := {
  agent_name : str;
  status : AgentStatus;
  result_of : option (gmap string pyval);
  error : option str;
  metadata : Metadata
}.

(** What the prompt is built from: the mode, the description and whether
    the hint for a detailed chart is added. *)
Record Prompt := {
  prompt_mode : FlowchartMode;
  prompt_description : str;
  prompt_complexity_hint : bool
}.

(** The agent: its configuration and its collaborators.  [ai_model] is
    [None] without an API key; [generate_content] followed by [.text] gives
    the text of the response or raises.  Writing a file and exporting a PNG
    succeed or raise. *)
Record FlowchartAgent := {
  name : str;
  ai_model : option (Prompt -> result str);
  default_level : pyval;
  save_to_file : bool;
  output_dir : str;
  timestamp : str;
  path_join : str -> str -> str;
  write_text : str -> str -> result unit;
  _export_png : str -> str -> result unit
}.

(** *** [validate_request] *)

Definition validate_request (request : gmap string pyval) (required_fields : list string)
  : result unit :=
  let missing := List.filter (fun field => negb (bool_decide (is_Some (request !! field))))
                        required_fields in
  if is_empty missing then Ok tt
  else Raise (ValueError ("Missing required fields: "
                          ++ join ", " (map list_ascii_of_string missing))).

(** *** [_save_outputs] *)

Definition _save_outputs (self : FlowchartAgent) (mermaid_code : str)
                         (output_format filename : pyval) : result (gmap string pyval) :=
  let filename :=
    match filename with
    | VNone => "flowchart_" ++ timestamp self
    | v => py_str v
    end in
  let file_paths : gmap string pyval := ∅ in
  let! file_paths :=
    if is_one_of output_format ["mermaid" : str; "both" : str] then
      let mermaid_path := path_join self (output_dir self) (filename ++ ".mmd") in
      let! _ := write_text self mermaid_path mermaid_code in
      Ok (<["mermaid_file" := VStr mermaid_path]> file_paths)
    else Ok file_paths in
  let! file_paths :=
    if is_one_of output_format ["png" : str; "both" : str] then
      let png_path := path_join self (output_dir self) (filename ++ ".png") in
      let! _ := _export_png self mermaid_code png_path in
      Ok (<["png_file" := VStr png_path]> file_paths)
    else Ok file_paths in
  Ok file_paths.

(** *** [_generate_mermaid] *)

Definition wants_detail (description : str) : bool :=
  let d := lower description in
  contains d "full" || contains d "fledged" || contains d "detailed" || contains d "complete".

(** The repair path: the branch taken when the first check finds errors. *)
Definition repair (mermaid_code : str) : result str :=
  let mermaid_code := _sanitize_mermaid mermaid_code in
  let mermaid_code := _remove_duplicate_nodes mermaid_code in
  let mermaid_code :=
    if negb (_validate_mermaid mermaid_code)
    then _sanitize_mermaid (_fix_mermaid_code mermaid_code)
    else mermaid_code in
  let syntax_errors := _check_syntax_errors mermaid_code in
  let mermaid_code :=
    if negb (is_empty syntax_errors)
    then _sanitize_mermaid (_fix_common_syntax_errors mermaid_code)
    else mermaid_code in
  let mermaid_code := _final_cleanup mermaid_code in
  let mermaid_code := _normalize_flowchart_header mermaid_code in
  let! mermaid_code := _normalize_end_nodes mermaid_code in
  Ok (_normalize_spacing mermaid_code).

(** The body of the [try] block, from the text of the response on. *)
Definition from_response (description full_response : str) : result str :=
  let mermaid_code := _extract_mermaid full_response in
  if is_empty mermaid_code then Ok (_generate_fallback_flowchart description)
  else
    let mermaid_code :=
      if negb (startswith mermaid_code "flowchart")
      then "flowchart TD" ++ [nl] ++ mermaid_code
      else mermaid_code in
    let mermaid_code := _wrap_special_labels mermaid_code in
    let syntax_errors := _check_syntax_errors mermaid_code in
    let! mermaid_code :=
      if is_empty syntax_errors && _validate_mermaid mermaid_code
      then Ok (_normalize_spacing (_normalize_flowchart_header mermaid_code))
      else repair mermaid_code in
    if negb (_validate_mermaid mermaid_code)
    then Ok (_generate_fallback_flowchart description)
    else Ok mermaid_code.

Definition _generate_mermaid (self : FlowchartAgent) (description : pyval) (level : str)
  : result str :=
  match ai_model self with
  | None => Raise (ValueError "Gemini API key required")
  | Some model =>
      match description with
      | VStr description =>
          let description := strip description in
          if is_empty description
          then Raise (ValueError "Process description cannot be empty")
          else
            let! mode := _resolve_mode level in
            let prompt := {| prompt_mode := mode;
                             prompt_description := description;
                             prompt_complexity_hint := wants_detail description |} in
            match (let! full_response := model prompt in
                   from_response description full_response) with
            | Ok mermaid_code => Ok mermaid_code
            | Raise _ => Ok (_generate_fallback_flowchart description)
            end
      | VBytes _ content _ =>
          (* [strip] and the test for an empty description work on bytes;
             looking for a text in [description.lower()] raises *)
          let description := strip_bytes content in
          if is_empty description
          then Raise (ValueError "Process description cannot be empty")
          else
            let! mode := _resolve_mode level in
            Raise (TypeError "a bytes-like object is required, not 'str'")
      | v => Raise (AttributeError ("'" ++ type_name_of v
                                    ++ "' object has no attribute 'strip'"))
      end
  end.

(** *** [process] *)

Definition get_or (request : gmap string pyval) (key : string) (default : pyval) : pyval :=
  match request !! key with
  | Some v => v
  | None => default
  end.

(** [len(description)] of the meta data: the description is a text when
    this point is reached. *)
Definition py_len (v : pyval) : nat :=
  match v with
  | VStr s => length s
  | VBytes _ b _ => length b
  | _ => 0
  end.

(** The body of the [try] block: the result and the meta data of the
    response. *)
Definition process_body (self : FlowchartAgent) (request : gmap string pyval)
  : result (gmap string pyval * Metadata) :=
  let! _ := validate_request request ["description"%string] in
  let description := get_or request "description" VNone in
  let level := get_or request "level" (default_level self) in
  let output_format := get_or request "output_format" (VStr "mermaid") in
  let filename := get_or request "filename" VNone in
  let! mermaid_code := _generate_mermaid self description (py_str level) in
  let result : gmap string pyval :=
    <["level" := level]> (<["mermaid_code" := VStr mermaid_code]> ∅) in
  let! result :=
    if save_to_file self || is_one_of output_format ["png" : str; "both" : str] then
      let! file_paths := _save_outputs self mermaid_code output_format filename in
      Ok (file_paths ∪ result)
    else Ok result in
  Ok (result, MetaSuccess (py_len description) level output_format).

(** [process] gives the response and leaves [self.status] set. *)
Definition process (self : FlowchartAgent) (request : gmap string pyval)
  : AgentStatus * AgentResponse :=
  match process_body self request with
  | Ok (result, meta) =>
      (SUCCESS, {| agent_name := name self; status := SUCCESS;
                   result_of := Some result; error := None; metadata := meta |})
  | Raise exc =>
      (ERROR, {| agent_name := name self; status := ERROR;
                 result_of := None; error := Some (str_of_exn exc);
                 metadata := MetaError request |})
  end.

End Agent.

Import Py Re Agent.

(** ** Vocabulary of the statements *)

(** A line with its tabs replaced, as [_normalize_spacing] does first. *)
Definition expand_tabs (l : str) : str := replace l [tab] "    ".

(** The indentation [_normalize_spacing] gives a line that is neither blank
    nor a header, in units of four spaces: the leading white space of the
    line rounded down when the line starts with a space, and one unit in
    every other case. *)
Definition indent_units (l' : str) : nat :=
  Nat.max 1 (if startswith l' " " then (length l' - length (lstrip l')) / 4 else 1).

(** The indentation of a line: the width of its leading white space. *)
Definition indent_of (line : str) : nat := length line - length (lstrip line).

(** The chain the specification words for a description without steps:
    three nodes, Start, the topic and End. *)
Definition three_node_chain (topic : str) : str :=
  unlines [ "flowchart TD" : str;
            "    A[Start]" : str;
            "    B[" ++ topic ++ "]";
            "    C[End]" : str;
            "    A --> B" : str;
            "    B --> C" : str ].

(** The chain [_generate_fallback_flowchart] builds from its four default
    steps. *)
Definition four_node_chain (topic : str) : str :=
  unlines [ "flowchart TD" : str;
            "    A[Start]" : str;
            "    B[" ++ topic ++ "]";
            "    C[Process]" : str;
            "    D[End]" : str;
            "    A --> B" : str;
            "    B --> C" : str;
            "    C --> D" : str ].

(** The description selects one of the two canned templates. *)
Definition matches_template (description : str) : bool :=
  let desc_lower := lower description in
  (contains desc_lower "notification"
   && (contains desc_lower "discord" || contains desc_lower "mobile"
       || contains desc_lower "app"))
  || contains desc_lower "login" || contains desc_lower "auth".

(** The keyword of the header. *)
Definition keyword : str := "flowchart".

(** An agent for the examples, with the model and the result of every PNG
    export as given. *)
Definition example_agent (model : Prompt -> result str) (export : result unit)
  : FlowchartAgent :=
  {| name := "Flowchart Agent";
     ai_model := Some model;
     default_level := VStr "1";
     save_to_file := false;
     output_dir := "outputs";
     timestamp := "20260101_000000";
     path_join := fun d f => d ++ "/" ++ f;
     write_text := fun _ _ => Ok tt;
     _export_png := fun _ _ => export |}.

(** An agent whose model times out and whose PNG export is refused. *)
Definition agent_with_dead_services : FlowchartAgent :=
  example_agent (fun _ => Raise (Exn "TimeoutError" "timed out"))
                (Raise (Exn "HTTPError" "503 Server Error")).

(** A character that is no white space, no part of an arrow and no pipe
    stands right after a closing bracket, brace or parenthesis. *)
Fixpoint text_follows_closing (line : str) : bool :=
  match line with
  | a :: ((b :: _) as t) =>
      (mem a "]})" && negb (isspace b) && negb (mem b "->|")) || text_follows_closing t
  | _ => false
  end.

(** The state of the matcher [n] characters further on. *)
Fixpoint forward (n : nat) (m : mstate) : mstate :=
  match n with
  | O => m
  | S n' =>
      match rest m with
      | c :: s' => forward n' (advance c s' m)
      | [] => m
      end
  end.

(** The state of the matcher inside a subject, between the text it has
    read (given reversed) and the text ahead. *)
Definition st (read_reversed ahead : str) : mstate :=
  MState (length read_reversed) (head read_reversed) ahead [].

(** The state of the matcher after group 1 of [re_reference] has taken the
    white space [c] that follows [p]. *)
Definition entered (p : ascii) (rp : str) (c : ascii) (s : str) : mstate :=
  capture 1 (st (p :: rp) (c :: s)) (advance c s (st (p :: rp) (c :: s))).

(** The alternatives of the two groups of [re_reference]. *)
Definition ref_before : regex :=
  alt [Bol; Cls isspace; Cls (is_chr "["); Cls (is_chr "{"); Cls (is_chr "(")].
Definition ref_after : regex :=
  alt [seq [star isspace; lit "-->"];
       seq [star isspace; Cls (is_chr "|")];
       seq [star isspace; Eol];
       Cls (is_chr "]"); Cls (is_chr "}"); Cls (is_chr ")")].

(** An identifier: a non-empty text of the class [[A-Za-z0-9_]]. *)
Definition is_identifier (t : str) : bool :=
  negb (is_empty t) && forallb ident_chr t.

Definition starts_with_digit (t : str) : bool :=
  match t with
  | c :: _ => isdigit_ascii c
  | [] => false
  end.

(** One remapping applied to an identifier. *)
Definition rename1 (old_id new_id t : str) : str :=
  if eqb t old_id then new_id else t.

(** An edge line: two identifiers around an arrow, indented by four
    spaces. *)
Definition edge_line (a c : str) : str := "    " ++ a ++ " --> " ++ c.

(** What [node_id_mapping] gives for an identifier, and the identifier
    after remapping. *)
Fixpoint lookup_id (mapping : list (str * str)) (x : str) : option str :=
  match mapping with
  | [] => None
  | (k, v) :: rest => if eqb x k then Some v else lookup_id rest x
  end.

Definition remap (mapping : list (str * str)) (x : str) : str :=
  match lookup_id mapping x with
  | Some v => v
  | None => x
  end.

(** The identifier with the suffix of its [k]-th later definition. *)
Definition suffixed (id : str) (k : nat) : str := id ++ "_" ++ str_of_nat k.

(** An entry of the mapping as the loop makes them: an identifier that
    does not begin with a digit, sent to a suffixed form of itself. *)
Definition good_entry (e : str * str) : Prop :=
  is_identifier (fst e) = true /\ starts_with_digit (fst e) = false
  /\ exists k, snd e = suffixed (fst e) k.

Fixpoint distinct_keys (mapping : list (str * str)) : Prop :=
  match mapping with
  | [] => True
  | (k, _) :: rest => lookup_id rest k = None /\ distinct_keys rest
  end.

Fixpoint longest_first (mapping : list (str * str)) : Prop :=
  match mapping with
  | [] => True
  | e :: rest =>
      (forall e', In e' rest -> length (fst e') <= length (fst e)) /\ longest_first rest
  end.

(** The class [[^\]]] and the label part of the pattern of an end node
    between square brackets. *)
Definition not_closing : ascii -> bool := none_of [] ["]"%char].
Definition end_label : regex := seq [star not_closing; lit_i "End"; star not_closing].

(** A line that defines an end node: an identifier and a label between
    square brackets, indented by four spaces. *)
Definition def_line (id label : str) : str := "    " ++ id ++ "[" ++ label ++ "]".

(** A line of a chart of end nodes: the definition of an end node between
    square brackets, or an edge between two identifiers. *)
Inductive chart_line : Type :=
| EndDef (id label : str)
| EdgeLine (a c : str).

Definition render (l : chart_line) : str :=
  match l with
  | EndDef id label => def_line id label
  | EdgeLine a c => edge_line a c
  end.

(** How many of the definitions read so far claim an identifier. *)
Definition occurrences (seen : list str) (id : str) : nat :=
  length (List.filter (eqb id) seen).

(** The identifier that stands for [x] once the definitions [seen] are
    read: [x] itself while it is defined at most once, and the suffixed
    identifier of its latest definition after that. *)
Definition current_id (seen : list str) (x : str) : str :=
  match occurrences seen x with
  | S (S k) => suffixed x (S k)
  | _ => x
  end.

(** The lines of the chart after the renaming, given the identifiers of
    the definitions above them, latest first. *)
Fixpoint normalized (seen : list str) (ls : list chart_line) : list str :=
  match ls with
  | [] => []
  | EndDef id label :: rest =>
      def_line (current_id (id :: seen) id) (normalize_end_label label)
        :: normalized (id :: seen) rest
  | EdgeLine a c :: rest =>
      edge_line (current_id seen a) (current_id seen c) :: normalized seen rest
  end.

(** The lines the renaming is stated for: identifiers that do not begin
    with a digit or with the keyword, a label of one line that holds the
    word and no closing bracket. *)
Definition well_formed (l : chart_line) : bool :=
  match l with
  | EndDef id label =>
      is_identifier id && negb (starts_with_digit id) && negb (startswith id keyword)
      && contains (lower label) "end" && negb (mem "]" label) && negb (mem nl label)
  | EdgeLine a c =>
      is_identifier a && is_identifier c && negb (startswith a keyword)
  end.

(** The two dicts of [_normalize_end_nodes] after the definitions [seen]:
    the counter of an identifier is the number of its definitions after the
    first, and the mapping sends an identifier defined more than once to its
    latest suffixed form. *)
Definition tracks (end_node_counter : gmap str nat) (node_id_mapping : list (str * str))
                  (seen : list str) : Prop :=
  (forall x, end_node_counter !! x
             = match occurrences seen x with O => None | S k => Some k end)
  /\ (forall x, lookup_id node_id_mapping x
                = match occurrences seen x with
                  | S (S k) => Some (suffixed x (S k))
                  | _ => None
                  end)
  /\ distinct_keys node_id_mapping
  /\ List.Forall good_entry node_id_mapping.

(** The identifier [_remove_duplicate_nodes] reads from a line it takes
    for a node definition: a line that is not blank, no header and no edge,
    and that begins with an identifier. *)
Definition defined_node (line : str) : option str :=
  let line_stripped := strip line in
  if is_empty line_stripped || startswith line_stripped "flowchart" then None
  else if contains line "-->" then None
  else match re_match re_lead_id_ws line_stripped with
       | Some node_match => Some (group node_match 1)
       | None => None
       end.

(** One of the five directions of a header, in any case of letters. *)
Definition is_direction (dir : str) : bool :=
  existsb (eqb (lower dir)) ["td" : str; "lr" : str; "tb" : str; "bt" : str; "rl" : str].

(** A line the extractor keeps once it is inside a chart: not blank, no
    markdown heading and no fence. *)
Definition chart_text_line (l : str) : bool :=
  negb (is_empty (strip l)) && negb (startswith (strip l) "#")
  && negb (startswith (strip l) fence).

(** The chart the extractor reads from a header and the lines below it:
    the lines trimmed and joined, sanitized when the syntax check reports
    an error. *)
Definition extracted_chart (header : str) (body : list str) : str :=
  let cleaned := join [nl] (map strip (header :: body)) in
  if negb (is_empty (_check_syntax_errors cleaned)) then _sanitize_mermaid cleaned
  else cleaned.

(** An edge line given by the text before and the text after its arrow,
    for [_fix_mermaid_code]: one line without white space at its ends, no
    header and no comment, with no dash besides those of the arrow. *)
Definition plain_edge (e : str * str) : bool :=
  let line := fst e ++ "-->" ++ snd e in
  negb (mem "-" (fst e)) && negb (mem "-" (snd e))
  && negb (mem nl line) && eqb (strip line) line
  && negb (startswith line "%%") && negb (startswith line "flowchart").

(** An edge between two identifiers, the first of which does not begin
    with the keyword. *)
Definition simple_edge (e : str * str) : bool :=
  is_identifier (fst e) && is_identifier (snd e) && negb (startswith (fst e) keyword).

(** A chart of simple edges: the header and one line for each edge, the
    lines indented by four spaces or not indented. *)
Definition edge_text (e : str * str) : str := fst e ++ " --> " ++ snd e.

Definition simple_chart (edges : list (str * str)) : str :=
  unlines (("flowchart TD" : str) :: map (fun e => edge_line (fst e) (snd e)) edges).

Definition simple_chart_trimmed (edges : list (str * str)) : str :=
  unlines (("flowchart TD" : str) :: map edge_text edges).

(** A node whose square bracket is left open, for
    [_fix_common_syntax_errors]: an identifier that does not begin with the
    keyword, the opening bracket and a label on the same line, without a
    bracket, a brace, a closing parenthesis or an arrow, and without white
    space at the end of the line. *)
Definition open_node (e : str * str) : str := fst e ++ "[" ++ snd e.

Definition unclosed_node (e : str * str) : bool :=
  is_identifier (fst e) && negb (startswith (fst e) keyword)
  && forallb (fun c => negb (mem c "[]{})") && negb (Ascii.eqb c nl)) (snd e)
  && negb (contains (snd e) "-->")
  && eqb (strip (open_node e)) (open_node e).

Definition closed_node (e : str * str) : str :=
  fst e ++ "[" ++ drop_not_allowed (snd e) ++ "]".

(** The chart of a chain of labels, for the generic fallback: the header,
    the node with the [i]-th capital letter for the [i]-th label, and a
    connection from each node to the next. *)
Definition node_line (i : nat) (label : str) : str :=
  "    " ++ [chr (65 + i)] ++ "[" ++ label ++ "]".

Definition connection_line (i : nat) : str :=
  "    " ++ [chr (65 + i)] ++ " --> " ++ [chr (66 + i)].

Fixpoint node_lines (i : nat) (labels : list str) : list str :=
  match labels with
  | [] => []
  | label :: rest => node_line i label :: node_lines (S i) rest
  end.

Definition chain_chart (labels : list str) : str :=
  "flowchart TD" ++ [nl] ++ join [nl] (node_lines 0 labels) ++ [nl]
  ++ join [nl] (map connection_line (List.seq 0 (length labels - 1))).

(** What the matcher does, as a relation: [matches r m t m'] when [r] can
    take the text [t] at the state [m] and leave the matcher in [m'].  The
    order in which the matcher tries the alternatives is not part of it. *)
Inductive matches : regex -> mstate -> str -> mstate -> Prop :=
| M_Eps (m : mstate) : matches Eps m [] m
| M_Cls (p : ascii -> bool) (m : mstate) (c : ascii) (s : str) :
    rest m = c :: s -> p c = true -> matches (Cls p) m [c] (advance c s m)
| M_Seq (a b : regex) (m m1 m2 : mstate) (t1 t2 : str) :
    matches a m t1 m1 -> matches b m1 t2 m2 -> matches (Seq a b) m (t1 ++ t2) m2
| M_AltL (a b : regex) (m m' : mstate) (t : str) :
    matches a m t m' -> matches (Alt a b) m t m'
| M_AltR (a b : regex) (m m' : mstate) (t : str) :
    matches b m t m' -> matches (Alt a b) m t m'
| M_Star (g : bool) (p : ascii -> bool) (m : mstate) (t s : str) :
    rest m = t ++ s -> forallb p t = true ->
    matches (Star g p) m t (forward (length t) m)
| M_Grp (n : nat) (a : regex) (m m1 : mstate) (t : str) :
    matches a m t m1 -> matches (Grp n a) m t (capture n m m1)
| M_Bol (m : mstate) : prev m = None -> matches Bol m [] m
| M_Eol (m : mstate) : rest m = [] \/ rest m = [nl] -> matches Eol m [] m
| M_Wordb (m : mstate) :
    xorb (word_before m) (word_after m) = true -> matches Wordb m [] m.




(** * Properties *)

(** ** Texts: lines, joining, stripping *)


Lemma split_chr_not_nil (c : ascii) (s : str) : split_chr c s <> [].
Proof.
  destruct s as [|x s]; simpl; [discriminate|].
  destruct (Ascii.eqb x c); [discriminate|].
  destruct (split_chr c s); discriminate.
Qed.

Lemma split_chr_cons_sep (c : ascii) (s : str) :
  split_chr c (c :: s) = [] :: split_chr c s.
Proof. simpl. now rewrite Ascii.eqb_refl. Qed.

Lemma split_chr_cons_other (c x : ascii) (s : str) :
  x <> c ->
  exists l ls, split_chr c s = l :: ls /\ split_chr c (x :: s) = (x :: l) :: ls.
Proof.
  intros Hx. simpl. apply Ascii.eqb_neq in Hx. rewrite Hx.
  destruct (split_chr c s) as [|l ls] eqn:E.
  - now apply split_chr_not_nil in E.
  - now exists l, ls.
Qed.

Lemma join_split_chr (c : ascii) (s : str) : join [c] (split_chr c s) = s.
Proof.
  induction s as [|x s IH]; [reflexivity|].
  destruct (Ascii.eqb_spec x c) as [->|Hx].
  - rewrite split_chr_cons_sep.
    destruct (split_chr c s) as [|l ls] eqn:E; [now apply split_chr_not_nil in E|].
    simpl in *. now rewrite IH.
  - destruct (split_chr_cons_other c x s Hx) as (l & ls & E1 & E2).
    rewrite E2. rewrite E1 in IH.
    destruct ls; simpl in *; now rewrite <- IH.
Qed.

Lemma split_chr_no_sep (c : ascii) (s l : str) :
  In l (split_chr c s) -> ~ In c l.
Proof.
  revert l. induction s as [|x s IH]; intros l Hl.
  - destruct Hl as [<-|[]]. intros [].
  - destruct (Ascii.eqb_spec x c) as [->|Hx].
    + rewrite split_chr_cons_sep in Hl. destruct Hl as [<-|Hl]; [intros []|now apply IH].
    + destruct (split_chr_cons_other c x s Hx) as (l0 & ls & E1 & E2).
      rewrite E2 in Hl. rewrite E1 in IH.
      destruct Hl as [<-|Hl].
      * intros [->|Hin]; [now apply Hx|]. apply (IH l0); [now left|assumption].
      * apply IH. now right.
Qed.

Lemma split_chr_app_sep (c : ascii) (x t : str) :
  ~ In c x -> split_chr c (x ++ c :: t) = x :: split_chr c t.
Proof.
  induction x as [|a x IH]; intros Hc.
  - apply split_chr_cons_sep.
  - simpl. destruct (Ascii.eqb_spec a c) as [->|Ha].
    + exfalso. apply Hc. now left.
    + rewrite IH; [reflexivity|]. intros Hin. apply Hc. now right.
Qed.

Lemma split_chr_no_occurrence (c : ascii) (x : str) :
  ~ In c x -> split_chr c x = [x].
Proof.
  induction x as [|a x IH]; intros Hc; [reflexivity|].
  simpl. destruct (Ascii.eqb_spec a c) as [->|Ha].
  - exfalso. apply Hc. now left.
  - rewrite IH; [reflexivity|]. intros Hin. apply Hc. now right.
Qed.

(** Joining lines and splitting again gives the lines back. *)
Lemma split_chr_join (c : ascii) (ls : list str) :
  ls <> [] -> Forall (fun l => ~ In c l) ls ->
  split_chr c (join [c] ls) = ls.
Proof.
  induction ls as [|x ls IH]; intros Hne Hall; [congruence|].
  inversion Hall as [|? ? Hx Hls]; subst.
  destruct ls as [|y ls].
  - simpl. now apply split_chr_no_occurrence.
  - change (join [c] (x :: y :: ls)) with (x ++ c :: join [c] (y :: ls)).
    rewrite split_chr_app_sep by assumption.
    rewrite IH; [reflexivity|discriminate|assumption].
Qed.

Lemma split_chr_join_map (c : ascii) (f : str -> str) (s : str) :
  (forall l, ~ In c l -> ~ In c (f l)) ->
  split_chr c (join [c] (map f (split_chr c s))) = map f (split_chr c s).
Proof.
  intros Hf. apply split_chr_join.
  - destruct (split_chr c s) eqn:E; [now apply split_chr_not_nil in E|discriminate].
  - apply List.Forall_forall. intros l Hl. apply in_map_iff in Hl as (l0 & <- & Hl0).
    apply Hf. now apply (split_chr_no_sep c s).
Qed.

(** *** Stripping *)

Lemma lstrip_by_suffix (p : ascii -> bool) (s : str) :
  exists a, s = a ++ lstrip_by p s /\ forallb p a = true.
Proof.
  induction s as [|c s (a & E & Ha)]; [now exists []|].
  simpl. destruct (p c) eqn:Hp.
  - exists (c :: a). simpl. rewrite Hp, Ha. split; [now f_equal|reflexivity].
  - now exists [].
Qed.

Lemma lstrip_by_head (p : ascii -> bool) (s : str) (c : ascii) (t : str) :
  lstrip_by p s = c :: t -> p c = false.
Proof.
  induction s as [|x s IH]; simpl; [discriminate|].
  destruct (p x) eqn:Hp; [assumption|]. intros [= -> _]. assumption.
Qed.

Lemma lstrip_by_fixed (p : ascii -> bool) (c : ascii) (t : str) :
  p c = false -> lstrip_by p (c :: t) = c :: t.
Proof. intros H. simpl. now rewrite H. Qed.

Lemma lstrip_by_all (p : ascii -> bool) (a s : str) :
  forallb p a = true -> lstrip_by p (a ++ s) = lstrip_by p s.
Proof.
  induction a as [|c a IH]; intros H; [reflexivity|].
  simpl in *. apply andb_true_iff in H as [Hc Ha]. rewrite Hc. now apply IH.
Qed.

Lemma rstrip_by_prefix (p : ascii -> bool) (s : str) :
  exists b, s = rstrip_by p s ++ b /\ forallb p b = true.
Proof.
  unfold rstrip_by.
  destruct (lstrip_by_suffix p (rev s)) as (a & E & Ha).
  exists (rev a). split.
  - apply (f_equal (@rev ascii)) in E. rewrite rev_involutive, rev_app_distr in E. exact E.
  - rewrite forallb_forall in *. intros x Hx. apply Ha. now apply in_rev.
Qed.
(** A stripped text is the text without a run of white space at each end. *)
Lemma strip_decompose (s : str) :
  exists a b, s = a ++ strip s ++ b
              /\ forallb isspace a = true /\ forallb isspace b = true.
Proof.
  unfold strip.
  destruct (lstrip_by_suffix isspace s) as (a & E & Ha).
  destruct (rstrip_by_prefix isspace (lstrip_by isspace s)) as (b & E' & Hb).
  exists a, b. split; [|now split].
  rewrite <- E'. exact E.
Qed.

Lemma rstrip_by_last (p : ascii -> bool) (s t : str) (c : ascii) :
  rstrip_by p s = t ++ [c] -> p c = false.
Proof.
  unfold rstrip_by. intros H.
  apply (f_equal (@rev ascii)) in H. rewrite rev_involutive, rev_app_distr in H.
  simpl in H. now apply lstrip_by_head in H.
Qed.

Lemma rstrip_by_fixed (p : ascii -> bool) (t : str) (c : ascii) :
  p c = false -> rstrip_by p (t ++ [c]) = t ++ [c].
Proof.
  intros H. unfold rstrip_by. rewrite rev_app_distr. simpl. rewrite H.
  change (c :: rev t) with (rev [c] ++ rev t).
  now rewrite <- rev_app_distr, rev_involutive.
Qed.

Lemma rstrip_by_all (p : ascii -> bool) (s b : str) :
  forallb p b = true -> rstrip_by p (s ++ b) = rstrip_by p s.
Proof.
  intros H. unfold rstrip_by. rewrite rev_app_distr.
  rewrite lstrip_by_all; [reflexivity|].
  rewrite forallb_forall in *. intros x Hx. apply H. now apply in_rev.
Qed.

Lemma rstrip_by_nil (p : ascii -> bool) (b : str) :
  forallb p b = true -> rstrip_by p b = [].
Proof.
  intros H. rewrite <- (app_nil_l b). now rewrite rstrip_by_all.
Qed.

Lemma strip_head (s : str) (c : ascii) (t : str) :
  strip s = c :: t -> isspace c = false.
Proof.
  unfold strip. intros H.
  destruct (lstrip_by isspace s) as [|x u] eqn:E; [discriminate|].
  pose proof (lstrip_by_head _ _ _ _ E) as Hx.
  destruct (rstrip_by_prefix isspace (x :: u)) as (b & E' & Hb).
  rewrite H in E'. injection E' as -> _. assumption.
Qed.

(** A text that begins and ends with a character that is no white space is
    its own stripped text, whatever white space surrounds it. *)
Lemma strip_core (a b : str) (c d : ascii) (t : str) :
  forallb isspace a = true -> forallb isspace b = true ->
  isspace c = false -> isspace d = false ->
  strip (a ++ (c :: t ++ [d]) ++ b) = c :: t ++ [d].
Proof.
  intros Ha Hb Hc Hd. unfold strip.
  rewrite lstrip_by_all by assumption.
  change ((c :: t ++ [d]) ++ b) with (c :: (t ++ [d]) ++ b).
  rewrite lstrip_by_fixed by assumption.
  change (c :: (t ++ [d]) ++ b) with ((c :: t ++ [d]) ++ b).
  rewrite rstrip_by_all by assumption.
  change (c :: t ++ [d]) with ((c :: t) ++ [d]).
  now apply rstrip_by_fixed.
Qed.

Lemma strip_single (a b : str) (c : ascii) :
  forallb isspace a = true -> forallb isspace b = true -> isspace c = false ->
  strip (a ++ [c] ++ b) = [c].
Proof.
  intros Ha Hb Hc. unfold strip.
  rewrite lstrip_by_all by assumption. simpl. rewrite Hc.
  change (c :: b) with ([c] ++ b). rewrite rstrip_by_all by assumption.
  now apply (rstrip_by_fixed isspace []).
Qed.

Lemma strip_blank (a : str) : forallb isspace a = true -> strip a = [].
Proof.
  intros H. unfold strip. rewrite <- (app_nil_r a), lstrip_by_all by assumption.
  reflexivity.
Qed.

Lemma strip_last (s t : str) (d : ascii) :
  strip s = t ++ [d] -> isspace d = false.
Proof. unfold strip. apply rstrip_by_last. Qed.


Lemma strip_In (s : str) (x : ascii) : In x (strip s) -> In x s.
Proof.
  intros H. destruct (strip_decompose s) as (a & b & E & _).
  rewrite E. apply in_or_app. right. apply in_or_app. now left.
Qed.

Lemma split_chr_In (c : ascii) (s l : str) (x : ascii) :
  In l (split_chr c s) -> In x l -> In x s.
Proof.
  intros Hl Hx. rewrite <- (join_split_chr c s).
  induction (split_chr c s) as [|l0 ls IH]; [destruct Hl|].
  assert (Hj : forall y, In y l0 \/ In y (join [c] ls) -> In y (join [c] (l0 :: ls))).
  { intros y Hy. destruct ls as [|l1 ls]; simpl in *.
    - destruct Hy as [Hy|[]]. assumption.
    - destruct Hy as [Hy|Hy]; apply in_or_app; [now left|right; now right]. }
  apply Hj. destruct Hl as [->|Hl]; [now left|right; now apply IH].
Qed.

Lemma join_In (sep : str) (ls : list str) (x : ascii) :
  In x (join sep ls) -> In x sep \/ exists l, In l ls /\ In x l.
Proof.
  induction ls as [|l0 ls IH]; [intros []|].
  destruct ls as [|l1 ls].
  - simpl. intros H. right. exists l0. split; [now left|assumption].
  - change (join sep (l0 :: l1 :: ls)) with (l0 ++ sep ++ join sep (l1 :: ls)).
    intros H. apply in_app_or in H as [H|H].
    + right. exists l0. split; [now left|assumption].
    + apply in_app_or in H as [H|H]; [now left|].
      destruct (IH H) as [Hs|(l & Hl & Hx)]; [now left|].
      right. exists l. split; [now right|assumption].
Qed.

(** With a separator of one character the two splittings agree. *)
Lemma split_go_single (c : ascii) (s cur : str) :
  split_go [c] 0 cur s =
  match split_chr c s with
  | l :: ls => (rev cur ++ l) :: ls
  | [] => []
  end.
Proof.
  revert cur. induction s as [|x s IH]; intros cur.
  - simpl. now rewrite app_nil_r.
  - cbn [split_go split_chr startswith length Nat.sub].
    rewrite andb_true_r, (Ascii.eqb_sym c x).
    destruct (Ascii.eqb x c).
    + rewrite IH. simpl. rewrite app_nil_r.
      destruct (split_chr c s) eqn:E; [now apply split_chr_not_nil in E|reflexivity].
    + rewrite IH. destruct (split_chr c s) eqn:E; [now apply split_chr_not_nil in E|].
      simpl. now rewrite <- app_assoc.
Qed.

Lemma split_single (c : ascii) (s : str) : split s [c] = split_chr c s.
Proof.
  unfold split. rewrite split_go_single.
  destruct (split_chr c s) eqn:E; [now apply split_chr_not_nil in E|reflexivity].
Qed.

(** Replacing a character by a text without it removes the character, and
    brings in no character but those of the text. *)
Lemma replace_chr_In (s : str) (c : ascii) (new : str) (x : ascii) :
  In x (replace s [c] new) -> In x new \/ (In x s /\ x <> c).
Proof.
  unfold replace. rewrite split_single. intros H.
  apply join_In in H as [H|(l & Hl & Hx)]; [now left|right].
  split; [now apply (split_chr_In c s l)|].
  intros ->. now apply (split_chr_no_sep c s l).
Qed.

(** ** Spacing normalization *)

Lemma spaces_In (n : nat) (x : ascii) : In x (spaces n) -> x = " "%char.
Proof. unfold spaces. intros H. now apply repeat_spec in H. Qed.

Lemma expand_tabs_In (l : str) (x : ascii) :
  In x (expand_tabs l) -> x = " "%char \/ (In x l /\ x <> tab).
Proof.
  intros H. apply replace_chr_In in H as [H|H]; [left|now right].
  simpl in H. intuition congruence.
Qed.

Lemma normalize_spacing_line_cases (l : str) :
  let t := strip (expand_tabs l) in
  normalize_spacing_line l =
    if startswith t "flowchart" then t
    else if is_empty t then []
    else spaces (4 * indent_units (expand_tabs l)) ++ t.
Proof.
  intros t. unfold normalize_spacing_line. fold (expand_tabs l). fold t.
  destruct (startswith t "flowchart") eqn:Hh; [reflexivity|].
  destruct t as [|c t'] eqn:Et; [reflexivity|].
  cbn [is_empty negb andb]. unfold indent_units.
  destruct (startswith (expand_tabs l) " ") eqn:Hs.
  - set (n := length (expand_tabs l) - length (lstrip (expand_tabs l))).
    rewrite andb_true_r.
    destruct (Nat.eqb_spec (n / 4 * 4) 0) as [E|E].
    + replace (Nat.max 1 (n / 4)) with 1 by lia. reflexivity.
    + replace (4 * Nat.max 1 (n / 4)) with (n / 4 * 4) by lia. reflexivity.
  - reflexivity.
Qed.

Lemma normalize_spacing_line_chars (l : str) (x : ascii) :
  In x (normalize_spacing_line l) -> x = " "%char \/ (In x l /\ x <> tab).
Proof.
  rewrite normalize_spacing_line_cases.
  destruct (startswith _ _).
  - intros H. apply strip_In in H. now apply expand_tabs_In.
  - destruct (is_empty _); [intros []|].
    intros H. apply in_app_or in H as [H|H].
    + left. now apply spaces_In in H.
    + apply strip_In in H. now apply expand_tabs_In.
Qed.

Lemma normalize_spacing_lines (code : str) :
  split_chr nl (_normalize_spacing code) =
  map normalize_spacing_line (split_chr nl code).
Proof.
  unfold _normalize_spacing. apply split_chr_join_map.
  intros l Hl H. apply normalize_spacing_line_chars in H as [H|[H _]].
  - discriminate.
  - now apply Hl.
Qed.

(** C5 (as amended).  After spacing normalization every line is the
    corresponding line of the input with its tabs replaced by four spaces
    and trimmed, and then: a line that starts with the header keyword stands
    without indentation, a blank line is empty, and every other line is
    indented by a multiple of four spaces, four at least: the width of its
    leading white space rounded down when the line starts with a space, and
    four otherwise.  No tab is left. *)
Theorem normalize_spacing_indentation (code : str) (i : nat) (l : str) :
  nth_error (split_chr nl code) i = Some l ->
  exists o,
    nth_error (split_chr nl (_normalize_spacing code)) i = Some o
    /\ ~ In tab o
    /\ let t := strip (expand_tabs l) in
       (startswith t "flowchart" = true -> o = t)
       /\ (t = [] -> o = [])
       /\ (t <> [] -> startswith t "flowchart" = false ->
           o = spaces (4 * indent_units (expand_tabs l)) ++ t
           /\ 1 <= indent_units (expand_tabs l)
           /\ exists c t', t = c :: t' /\ isspace c = false).
Proof.
  intros Hl. exists (normalize_spacing_line l).
  rewrite normalize_spacing_lines, nth_error_map, Hl. split; [reflexivity|].
  split.
  - intros H. apply normalize_spacing_line_chars in H as [H|[_ H]]; [discriminate|].
    now apply H.
  - intros t. rewrite normalize_spacing_line_cases. fold t.
    split; [|split].
    + intros ->. reflexivity.
    + intros ->. reflexivity.
    + intros Hne ->. destruct t as [|c t'] eqn:Et; [congruence|].
      cbn [is_empty]. split; [reflexivity|]. split; [unfold indent_units; lia|].
      exists c, t'. split; [reflexivity|]. now apply (strip_head (expand_tabs l) c t').
Qed.

Lemma normalize_spacing_indentation_witness :
  exists o,
    nth_error (split_chr nl (_normalize_spacing ("flowchart TD" ++ [nl] ++ " A --> B"))) 1 = Some o
    /\ ~ In tab o.
Proof.
  destruct (normalize_spacing_indentation ("flowchart TD" ++ [nl] ++ " A --> B") 1 " A --> B")
    as (o & Ho & Ht & _); [reflexivity|].
  exists o. now split.
Defined.

(** C5 (counterexample).  A line indented by eight spaces keeps its eight
    spaces: it is not brought to four. *)
Lemma normalize_spacing_keeps_deep_indent :
  let code := "flowchart TD" ++ [nl] ++ "        A --> B" in
  exists line,
    nth_error (split_chr nl (_normalize_spacing code)) 1 = Some line
    /\ line <> [] /\ startswith (strip line) "flowchart" = false
    /\ indent_of line = 8.
Proof.
  exists "        A --> B". vm_compute. repeat split; discriminate.
Qed.

(** ** The fallback generator *)

Lemma fallback_generic (description : str) :
  matches_template description = false ->
  _generate_fallback_flowchart description =
    let steps := fallback_steps (split_chr nl description) in
    let steps := if is_empty steps
                 then ["Start" : str; upto 40 description; "Process" : str; "End" : str]
                 else steps in
    let '(nodes, connections) := fallback_chain 0 (firstn 8 steps) in
    "flowchart TD" ++ [nl] ++ join [nl] nodes ++ [nl] ++ join [nl] connections.
Proof.
  unfold matches_template, _generate_fallback_flowchart. intros H.
  apply orb_false_iff in H as [H Ha]. apply orb_false_iff in H as [Hn Hl].
  rewrite Hn, Hl, Ha. reflexivity.
Qed.

(** C8 (as amended).  When the description selects no template and no step
    can be split from it, the fallback is the chain of four nodes Start, the
    topic, Process and End, the topic being the first 40 characters of the
    description without square brackets and with single quotes for double
    ones. *)
Theorem fallback_without_steps (description : str) :
  matches_template description = false ->
  fallback_steps (split_chr nl description) = [] ->
  _generate_fallback_flowchart description
  = four_node_chain (clean_step (upto 40 description)).
Proof.
  intros Ht Hs. rewrite fallback_generic by assumption. rewrite Hs.
  cbv zeta. cbn [is_empty firstn fallback_chain Nat.ltb Nat.leb].
  unfold four_node_chain, unlines. cbn [join].
  rewrite <- !app_assoc. reflexivity.
Qed.

Lemma fallback_without_steps_witness :
  _generate_fallback_flowchart "#x" = four_node_chain "#x".
Proof.
  rewrite (fallback_without_steps "#x"); reflexivity.
Defined.

(** C8 (counterexample).  The description [#x] has no usable step; its
    fallback has the four nodes Start, [#x], Process and End, and is the
    three-node chain of no topic. *)
Lemma fallback_without_steps_not_three_nodes :
  fallback_steps (split_chr nl "#x") = []
  /\ matches_template "#x" = false
  /\ _generate_fallback_flowchart "#x" = four_node_chain "#x"
  /\ forall topic, _generate_fallback_flowchart "#x" <> three_node_chain topic.
Proof.
  split; [reflexivity|]. split; [reflexivity|]. split; [reflexivity|].
  intros topic H. apply (f_equal (fun s => List.last s " "%char)) in H.
  unfold three_node_chain, unlines in H. cbn [join] in H.
  repeat rewrite app_assoc in H.
  change ("    B --> C" : str) with ("    B --> " ++ ["C"%char]) in H.
  rewrite app_assoc, List.last_last in H. vm_compute in H. discriminate.
Qed.

Lemma fallback_steps_one_line (ls : list str) (s : str) :
  (forall l, In l ls -> ~ In nl l) -> In s (fallback_steps ls) -> ~ In nl s.
Proof.
  induction ls as [|l ls IH]; intros Hls Hs; [destruct Hs|].
  assert (Hrest : forall l', In l' ls -> ~ In nl l') by (intros l' H; apply Hls; now right).
  cbn [fallback_steps] in Hs.
  destruct (negb (is_empty (strip l)) && negb (startswith (strip l) "#")); [|now apply IH].
  destruct (negb (is_empty (lstrip_chars (strip l) "-*123456789. "))); [|now apply IH].
  destruct Hs as [<-|Hs]; [|now apply IH].
  intros Hin. apply (Hls l (or_introl eq_refl)). apply strip_In.
  unfold upto, lstrip_chars in Hin.
  destruct (lstrip_by_suffix (fun c => mem c "-*123456789. ") (strip l)) as (a & E & _).
  rewrite E. apply in_or_app. right.
  rewrite <- (firstn_skipn 50 (lstrip_by _ (strip l))). apply in_or_app. now left.
Qed.

Lemma clean_step_one_line (s : str) : ~ In nl s -> ~ In nl (clean_step s).
Proof.
  intros Hs Hin. unfold clean_step in Hin.
  apply replace_chr_In in Hin as [Hin|[Hin _]]; [cbn in Hin; intuition discriminate|].
  apply replace_chr_In in Hin as [Hin|[Hin _]]; [destruct Hin|].
  apply replace_chr_In in Hin as [Hin|[Hin _]]; [destruct Hin|contradiction].
Qed.

Lemma validate_few_lines (code : str) :
  (length (List.filter (fun l => negb (is_empty (strip l)) && negb (startswith (strip l) "%%"))
                       (split_chr nl code)) <? 3)%nat = true ->
  _validate_mermaid code = false.
Proof.
  intros H. unfold _validate_mermaid. rewrite H.
  repeat match goal with |- (if ?b then _ else _) = _ => destruct b end; reflexivity.
Qed.

(** C1 (failing inputs).  Every description that selects no template and
    from which exactly one usable step is split: its fallback is the header,
    one node line and an empty last line, without a connection, and
    [_validate_mermaid] rejects it for its number of lines. *)
Theorem fallback_one_step_not_valid (description step : str) :
  matches_template description = false ->
  fallback_steps (split_chr nl description) = [step] ->
  _generate_fallback_flowchart description
  = "flowchart TD" ++ [nl] ++ ("    A[" ++ clean_step step ++ "]") ++ [nl]
  /\ _validate_mermaid (_generate_fallback_flowchart description) = false.
Proof.
  intros Ht Hs.
  assert (Hf : _generate_fallback_flowchart description
               = "flowchart TD" ++ [nl] ++ ("    A[" ++ clean_step step ++ "]") ++ [nl]).
  { rewrite fallback_generic by assumption. rewrite Hs.
    cbv zeta. cbn [is_empty firstn fallback_chain Nat.ltb Nat.leb join].
    rewrite app_nil_r. reflexivity. }
  split; [assumption|]. rewrite Hf.
  set (node := "    A[" ++ clean_step step ++ "]").
  assert (Hnode : ~ In nl node).
  { subst node. intros Hin.
    apply in_app_or in Hin as [Hin|Hin]; [cbn in Hin; intuition discriminate|].
    apply in_app_or in Hin as [Hin|Hin]; [|cbn in Hin; intuition discriminate].
    revert Hin. apply clean_step_one_line.
    apply (fallback_steps_one_line (split_chr nl description)).
    - apply split_chr_no_sep.
    - rewrite Hs. now left. }
  assert (Hsplit : split_chr nl ("flowchart TD" ++ [nl] ++ node ++ [nl])
                   = ["flowchart TD" : str; node; []]).
  { change ("flowchart TD" ++ [nl] ++ node ++ [nl])
      with (join [nl] ["flowchart TD" : str; node; []]).
    apply split_chr_join; [discriminate|].
    repeat constructor; [cbn; intuition discriminate|assumption|intros []]. }
  apply validate_few_lines. rewrite Hsplit.
  set (keep := fun l : str => negb (is_empty (strip l)) && negb (startswith (strip l) "%%")).
  assert (Hk : keep [] = false) by reflexivity.
  cbn [List.filter]. rewrite Hk.
  destruct (keep "flowchart TD"), (keep node); reflexivity.
Qed.

Lemma fallback_one_step_not_valid_witness :
  _generate_fallback_flowchart "hello" = "flowchart TD" ++ [nl] ++ "    A[hello]" ++ [nl]
  /\ _validate_mermaid (_generate_fallback_flowchart "hello") = false.
Proof.
  exact (fallback_one_step_not_valid "hello" "hello" eq_refl eq_refl).
Defined.

(** The fallback always starts with the header keyword; it is never empty. *)
Lemma fallback_starts_with_header (description : str) :
  startswith (_generate_fallback_flowchart description) "flowchart " = true.
Proof.
  unfold _generate_fallback_flowchart.
  destruct (_ && _); [reflexivity|].
  destruct (_ || _); [reflexivity|].
  cbv zeta. destruct (fallback_chain _ _). reflexivity.
Qed.

Lemma fallback_not_empty (description : str) :
  _generate_fallback_flowchart description <> [].
Proof.
  intros H. pose proof (fallback_starts_with_header description) as Hs.
  rewrite H in Hs. discriminate.
Qed.

(** ** [process] *)

Lemma validate_request_description (request : gmap string pyval) :
  validate_request request ["description"%string] =
  match request !! "description"%string with
  | Some _ => Ok tt
  | None => Raise (ValueError "Missing required fields: description")
  end.
Proof.
  unfold validate_request. cbn [List.filter].
  destruct (request !! "description"%string) as [v|] eqn:E.
  - rewrite bool_decide_eq_true_2 by eauto. reflexivity.
  - rewrite bool_decide_eq_false_2 by (intros [? ?]; congruence). reflexivity.
Qed.

(** C10.  [process] always returns a response.  When the body of its [try]
    block raises, the response has status [ERROR], no result, and the
    message of the exception as its error; otherwise it has status
    [SUCCESS] and the result.  The body raises when the description is
    missing, when the agent has no model, when the description is blank, and
    when writing the requested output raises after the diagram was made. *)
Theorem process_always_responds (self : FlowchartAgent) (request : gmap string pyval) :
  let r := snd (process self request) in
  agent_name r = name self
  /\ match process_body self request with
     | Ok (res, _) => status r = SUCCESS /\ result_of r = Some res /\ error r = None
     | Raise exc =>
         status r = ERROR /\ result_of r = None /\ error r = Some (str_of_exn exc)
     end
  /\ (request !! "description"%string = None ->
      process_body self request
      = Raise (ValueError "Missing required fields: description"))
  /\ (forall v, request !! "description"%string = Some v -> ai_model self = None ->
      process_body self request = Raise (ValueError "Gemini API key required"))
  /\ (forall model d, request !! "description"%string = Some (VStr d) ->
      ai_model self = Some model -> strip d = [] ->
      process_body self request
      = Raise (ValueError "Process description cannot be empty"))
  /\ (forall mermaid_code exc,
      _generate_mermaid self (get_or request "description" VNone)
                        (py_str (get_or request "level" (default_level self)))
      = Ok mermaid_code ->
      save_to_file self
      || is_one_of (get_or request "output_format" (VStr "mermaid")) ["png" : str; "both" : str]
      = true ->
      _save_outputs self mermaid_code (get_or request "output_format" (VStr "mermaid"))
                    (get_or request "filename" VNone) = Raise exc ->
      process_body self request = Raise exc).
Proof.
  cbv zeta. split; [|split; [|split; [|split; [|split]]]].
  - unfold process. destruct (process_body self request) as [[res meta]|exc]; reflexivity.
  - unfold process. destruct (process_body self request) as [[res meta]|exc];
      cbn; repeat split; reflexivity.
  - intros H. unfold process_body. rewrite validate_request_description, H. reflexivity.
  - intros v Hv Hm. unfold process_body. rewrite validate_request_description, Hv.
    cbn [bind]. unfold _generate_mermaid. rewrite Hm. reflexivity.
  - intros model d Hd Hm He. unfold process_body.
    rewrite validate_request_description, Hd. cbn [bind].
    unfold get_or at 1. rewrite Hd. unfold _generate_mermaid. rewrite Hm, He. reflexivity.
  - intros mermaid_code exc Hg Hs Hw. unfold process_body.
    rewrite validate_request_description.
    destruct (request !! "description"%string) as [v|] eqn:Hd.
    + cbn [bind]. rewrite Hg. cbn [bind]. rewrite Hs, Hw. reflexivity.
    + exfalso. unfold get_or in Hg at 1. rewrite Hd in Hg.
      unfold _generate_mermaid in Hg. destruct (ai_model self); discriminate.
Qed.

Lemma save_outputs_keys (self : FlowchartAgent) (mermaid_code : str)
      (output_format filename : pyval) (file_paths : gmap string pyval) :
  _save_outputs self mermaid_code output_format filename = Ok file_paths ->
  file_paths !! "mermaid_code"%string = None.
Proof.
  unfold _save_outputs.
  destruct (is_one_of output_format ["mermaid" : str; "both" : str]);
    destruct (is_one_of output_format ["png" : str; "both" : str]);
    cbn [bind];
    repeat match goal with
           | |- context [write_text ?s ?p ?c] => destruct (write_text s p c); cbn [bind]
           | |- context [_export_png ?s ?c ?p] => destruct (_export_png s c p); cbn [bind]
           end;
    try discriminate; intros [= <-];
    repeat (rewrite lookup_insert_ne by discriminate); apply lookup_empty.
Qed.

(** C2 (as amended).  When the agent has a model, the description is a
    text that is not blank, the level names a mode and the call of the model
    raises, [process] answers with status [SUCCESS] and the fallback diagram
    of the trimmed description, which is not empty -- provided that no
    output file is asked for or that writing the output succeeds. *)
Theorem generation_failure_gives_fallback
    (self : FlowchartAgent) (request : gmap string pyval)
    (model : Prompt -> result str) (description : str) (mode : FlowchartMode) (exc : exn) :
  let level := get_or request "level" (default_level self) in
  let output_format := get_or request "output_format" (VStr "mermaid") in
  let fallback := _generate_fallback_flowchart (strip description) in
  ai_model self = Some model ->
  request !! "description"%string = Some (VStr description) ->
  strip description <> [] ->
  _resolve_mode (py_str level) = Ok mode ->
  model {| prompt_mode := mode;
           prompt_description := strip description;
           prompt_complexity_hint := wants_detail (strip description) |} = Raise exc ->
  (save_to_file self || is_one_of output_format ["png" : str; "both" : str] = false
   \/ exists file_paths,
        _save_outputs self fallback output_format (get_or request "filename" VNone)
        = Ok file_paths) ->
  let r := snd (process self request) in
  status r = SUCCESS
  /\ error r = None
  /\ (exists res, result_of r = Some res
                  /\ res !! "mermaid_code"%string = Some (VStr fallback))
  /\ fallback <> [].
Proof.
  intros level output_format fallback Hm Hd Hne Hl Hraise Hsave r.
  assert (Hg : _generate_mermaid self (VStr description) (py_str level) = Ok fallback).
  { unfold _generate_mermaid. rewrite Hm.
    destruct (strip description) as [|c t] eqn:Es; [congruence|].
    cbn [is_empty]. rewrite Hl. cbn [bind]. rewrite Hraise. reflexivity. }
  assert (Hb : exists res meta,
             process_body self request = Ok (res, meta)
             /\ res !! "mermaid_code"%string = Some (VStr fallback)).
  { unfold process_body. rewrite validate_request_description, Hd. cbn [bind].
    unfold get_or at 1. rewrite Hd. fold level. rewrite Hg. cbn [bind].
    fold output_format.
    destruct Hsave as [Hno|(file_paths & Hw)].
    - rewrite Hno. cbn [bind]. eexists _, _. split; [reflexivity|].
      rewrite lookup_insert_ne by discriminate. apply lookup_insert_eq.
    - destruct (save_to_file self || is_one_of output_format _).
      + rewrite Hw. cbn [bind]. eexists _, _. split; [reflexivity|].
        rewrite lookup_union_r by (eapply save_outputs_keys; eassumption).
        rewrite lookup_insert_ne by discriminate. apply lookup_insert_eq.
      + cbn [bind]. eexists _, _. split; [reflexivity|].
        rewrite lookup_insert_ne by discriminate. apply lookup_insert_eq. }
  destruct Hb as (res & meta & Hb & Hres).
  subst r. unfold process. rewrite Hb. cbn.
  split; [reflexivity|]. split; [reflexivity|]. split.
  - exists res. now split.
  - apply fallback_not_empty.
Qed.

Lemma generation_failure_gives_fallback_witness :
  let request : gmap string pyval := {[ "description"%string := VStr "hello" ]} in
  status (snd (process agent_with_dead_services request)) = SUCCESS.
Proof.
  intros request.
  refine (proj1 (generation_failure_gives_fallback
                   agent_with_dead_services request
                   (fun _ => Raise (Exn "TimeoutError" "timed out")) "hello" basic
                   (Exn "TimeoutError" "timed out") _ _ _ _ _ _)).
  - reflexivity.
  - reflexivity.
  - discriminate.
  - reflexivity.
  - reflexivity.
  - left. reflexivity.
Defined.

(** C2 (counterexample).  The model times out and the request asks for a
    PNG whose export is refused: the response has status [ERROR], no result,
    and the message of the export as its error. *)
Lemma generation_failure_with_png_is_error :
  let request : gmap string pyval :=
    <[ "description"%string := VStr "hello" ]>
      {[ "output_format"%string := VStr "png" ]} in
  let r := snd (process agent_with_dead_services request) in
  status r = ERROR /\ result_of r = None /\ error r = Some ("503 Server Error" : str).
Proof. vm_compute. repeat split; reflexivity. Qed.

(** ** Occurrences of a text in another *)

Lemma startswith_iff (s p : str) :
  startswith s p = true <-> exists q, s = p ++ q.
Proof.
  revert s. induction p as [|a p IH]; intros s.
  - split; [intros _; now exists s|reflexivity].
  - destruct s as [|b s]; simpl.
    + split; [discriminate|intros (q & H); discriminate].
    + rewrite andb_true_iff, Ascii.eqb_eq, IH. split.
      * intros (-> & q & ->). now exists q.
      * intros (q & [= -> ->]). split; [reflexivity|now exists q].
Qed.

Lemma startswith_app (p q : str) : startswith (p ++ q) p = true.
Proof. apply startswith_iff. now exists q. Qed.

Lemma contains_iff (s sub : str) :
  contains s sub = true <-> exists p q, s = p ++ sub ++ q.
Proof.
  induction s as [|c s IH].
  - simpl. rewrite orb_false_r, startswith_iff. split.
    + intros (q & H). now exists [], q.
    + intros (p & q & H). destruct p; [now exists q|discriminate].
  - cbn [contains]. rewrite orb_true_iff, IH, startswith_iff. split.
    + intros [(q & H)|(p & q & ->)]; [now exists [], q|now exists (c :: p), q].
    + intros (p & q & H). destruct p as [|a p].
      * left. now exists q.
      * right. injection H as -> ->. now exists p, q.
Qed.

Lemma contains_app_l (p sub q : str) : contains (p ++ sub ++ q) sub = true.
Proof. apply contains_iff. now exists p, q. Qed.

(** A text without an occurrence has none in any of its pieces. *)
Lemma contains_false_infix (s sub p t q : str) :
  contains s sub = false -> s = p ++ t ++ q -> contains t sub = false.
Proof.
  intros H ->. destruct (contains t sub) eqn:E; [|reflexivity].
  apply contains_iff in E as (p' & q' & ->).
  rewrite <- H. symmetry. apply contains_iff.
  exists (p ++ p'), (q' ++ q). now rewrite <- !app_assoc.
Qed.

Lemma lower_app (a b : str) : lower (a ++ b) = lower a ++ lower b.
Proof. apply map_app. Qed.

Lemma lower_contains_false_infix (s sub p t q : str) :
  contains (lower s) sub = false -> s = p ++ t ++ q -> contains (lower t) sub = false.
Proof.
  intros H ->. rewrite !lower_app in H.
  eapply contains_false_infix; [exact H|reflexivity].
Qed.

Lemma startswith_before_sep (x r kw : str) (c : ascii) :
  ~ In c kw -> startswith (x ++ c :: r) kw = true -> startswith x kw = true.
Proof.
  revert x. induction kw as [|a kw IH]; intros x Hc H; [reflexivity|].
  destruct x as [|b x]; simpl in *.
  - apply andb_true_iff in H as [H _]. apply Ascii.eqb_eq in H. subst.
    exfalso. apply Hc. now left.
  - apply andb_true_iff in H as [-> H]. simpl. apply IH; [|assumption].
    intros Hin. apply Hc. now right.
Qed.

Lemma contains_across_sep (x r kw : str) (c : ascii) :
  ~ In c kw -> contains (x ++ c :: r) kw = true ->
  contains x kw = true \/ contains r kw = true.
Proof.
  intros Hc. induction x as [|b x IH]; intros H.
  - cbn [app contains] in H. apply orb_true_iff in H as [H|H]; [|now right].
    left. simpl. rewrite orb_false_r.
    now apply (startswith_before_sep [] r kw c).
  - cbn [app contains] in H. apply orb_true_iff in H as [H|H].
    + left. cbn [contains]. apply orb_true_iff. left.
      now apply (startswith_before_sep (b :: x) r kw c).
    + destruct (IH H) as [H'|H']; [left|now right].
      cbn [contains]. apply orb_true_iff. now right.
Qed.

(** An occurrence in joined lines lies within one line, when the text
    sought has no line break. *)
Lemma contains_join (c : ascii) (ls : list str) (kw : str) :
  ~ In c kw -> contains (join [c] ls) kw = true ->
  kw = [] \/ exists l, In l ls /\ contains l kw = true.
Proof.
  intros Hc. induction ls as [|x ls IH]; intros H.
  - simpl in H. rewrite orb_false_r in H. left.
    destruct kw; [reflexivity|discriminate].
  - destruct ls as [|y ls].
    + right. exists x. split; [now left|assumption].
    + change (join [c] (x :: y :: ls)) with (x ++ c :: join [c] (y :: ls)) in H.
      destruct (contains_across_sep _ _ _ _ Hc H) as [H'|H'].
      * right. exists x. split; [now left|assumption].
      * destruct (IH H') as [->|(l & Hl & Hk)]; [now left|].
        right. exists l. split; [now right|assumption].
Qed.

Lemma lower_join_nl (ls : list str) : lower (join [nl] ls) = join [nl] (map lower ls).
Proof.
  induction ls as [|x ls IH]; [reflexivity|].
  destruct ls as [|y ls]; [reflexivity|].
  change (join [nl] (x :: y :: ls)) with (x ++ nl :: join [nl] (y :: ls)).
  rewrite lower_app. cbn [lower map]. fold (lower (join [nl] (y :: ls))).
  rewrite IH. reflexivity.
Qed.

(** Every line of a text is a piece of it. *)
Lemma split_chr_infix (c : ascii) (s l : str) :
  In l (split_chr c s) -> exists p q, s = p ++ l ++ q.
Proof.
  revert l. induction s as [|x s IH]; intros l Hl.
  - destruct Hl as [<-|[]]. now exists [], [].
  - destruct (Ascii.eqb_spec x c) as [->|Hx].
    + rewrite split_chr_cons_sep in Hl. destruct Hl as [<-|Hl].
      * now exists [], (c :: s).
      * destruct (IH l Hl) as (p & q & ->). now exists (c :: p), q.
    + destruct (split_chr_cons_other c x s Hx) as (l0 & ls & E1 & E2).
      rewrite E2 in Hl. rewrite E1 in IH. destruct Hl as [<-|Hl].
      * pose proof (join_split_chr c s) as J. rewrite E1 in J.
        destruct ls as [|l1 ls].
        -- simpl in J. subst s. exists [], []. simpl. now rewrite app_nil_r.
        -- change (join [c] (l0 :: l1 :: ls)) with (l0 ++ c :: join [c] (l1 :: ls)) in J.
           rewrite <- J. now exists [], (c :: join [c] (l1 :: ls)).
      * destruct (IH l (or_intror Hl)) as (p & q & ->). now exists (x :: p), q.
Qed.

Lemma splitlines_go_infix (cur s l : str) :
  In l (splitlines_go cur s) -> exists p q, rev cur ++ s = p ++ l ++ q.
Proof.
  revert cur l. induction s as [s IH] using (induction_ltof1 _ (@length ascii)).
  unfold ltof in IH. intros cur l Hl.
  destruct s as [|c s].
  - simpl in Hl. destruct cur as [|a cur]; [destruct Hl|].
    destruct Hl as [<-|[]]. exists [], []. now rewrite !app_nil_r.
  - cbn [splitlines_go] in Hl. destruct (is_linebreak c).
    + destruct s as [|d s].
      * destruct Hl as [<-|[]]. now exists [], [c].
      * destruct (Ascii.eqb c "013" && Ascii.eqb d nl).
        -- destruct Hl as [<-|Hl]; [now exists [], (c :: d :: s)|].
           destruct (IH s ltac:(simpl; lia) [] l Hl) as (p & q & E).
           simpl in E. rewrite E. exists (rev cur ++ c :: d :: p), q.
           now rewrite <- app_assoc.
        -- destruct Hl as [<-|Hl]; [now exists [], (c :: d :: s)|].
           destruct (IH (d :: s) ltac:(simpl; lia) [] l Hl) as (p & q & E).
           simpl in E. rewrite E. exists (rev cur ++ c :: p), q.
           now rewrite <- app_assoc.
    + destruct (IH s ltac:(simpl; lia) (c :: cur) l Hl) as (p & q & E).
      exists p, q. rewrite <- E. simpl. now rewrite <- app_assoc.
Qed.

Lemma splitlines_infix (s l : str) :
  In l (splitlines s) -> exists p q, s = p ++ l ++ q.
Proof. intros H. now apply (splitlines_go_infix [] s l). Qed.

Lemma strip_infix (s : str) : exists p q, s = p ++ strip s ++ q.
Proof. destruct (strip_decompose s) as (a & b & E & _). now exists a, b. Qed.

(** ** The extractor *)

Lemma no_keyword_piece (s p t q : str) :
  contains (lower s) keyword = false -> s = p ++ t ++ q ->
  contains (lower t) keyword = false.
Proof. apply lower_contains_false_infix. Qed.

Lemma no_keyword_strip (s : str) :
  contains (lower s) keyword = false -> contains (lower (strip s)) keyword = false.
Proof.
  intros H. destruct (strip_infix s) as (p & q & E).
  eapply no_keyword_piece; eassumption.
Qed.

Lemma no_keyword_join (ls : list str) :
  (forall l, In l ls -> contains (lower l) keyword = false) ->
  contains (lower (join [nl] ls)) keyword = false.
Proof.
  intros H. destruct (contains (lower (join [nl] ls)) keyword) eqn:E; [|reflexivity].
  rewrite lower_join_nl in E. apply contains_join in E as [E|(l & Hl & Hk)].
  - discriminate.
  - apply in_map_iff in Hl as (l0 & <- & Hl0). rewrite (H l0 Hl0) in Hk. discriminate.
  - vm_compute. intuition discriminate.
Qed.

Lemma drop_closing_fences_In (ls : list str) (l : str) :
  In l (drop_closing_fences ls) -> In l ls.
Proof.
  induction ls as [|x ls IH]; [intros []|].
  simpl. destruct (eqb (strip x) fence); [|exact id].
  intros H. right. now apply IH.
Qed.

Lemma no_keyword_strip_fence (text : str) :
  contains (lower text) keyword = false ->
  contains (lower (_strip_fence text)) keyword = false.
Proof.
  intros H. unfold _strip_fence.
  destruct (is_empty (splitlines text)); [assumption|].
  apply no_keyword_join. intros l Hl.
  apply in_rev, drop_closing_fences_In, in_rev in Hl.
  assert (Hin : In l (splitlines text)).
  { destruct (splitlines text) as [|first rest]; [assumption|].
    destruct (startswith (strip first) fence); [now right|assumption]. }
  destruct (splitlines_infix text l Hin) as (p & q & E).
  eapply no_keyword_piece; eassumption.
Qed.

Lemma extract_lines_no_keyword (found_flowchart : bool) (ls : list str) :
  (forall l, In l ls -> contains (lower l) keyword = false) ->
  extract_lines false found_flowchart ls = [].
Proof.
  induction ls as [|line rest IH]; intros H; [reflexivity|].
  cbn [extract_lines].
  assert (Hr : extract_lines false found_flowchart rest = []).
  { apply IH. intros l Hl. apply H. now right. }
  rewrite Hr.
  assert (Hk : contains (lower (strip line)) "flowchart" = false).
  { apply no_keyword_strip, H. now left. }
  rewrite Hk. cbn [andb].
  repeat match goal with |- context [if ?b then _ else _] => destruct b end; reflexivity.
Qed.

Lemma extract_no_keyword (text : str) :
  contains (lower text) keyword = false -> _extract_mermaid text = [].
Proof.
  intros H. unfold _extract_mermaid.
  destruct (is_empty text); [reflexivity|].
  cbv zeta.
  set (cleaned := strip (if startswith (strip text) fence
                         then _strip_fence (strip text) else strip text)).
  assert (Hc : contains (lower cleaned) keyword = false).
  { subst cleaned. apply no_keyword_strip.
    destruct (startswith (strip text) fence).
    - now apply no_keyword_strip_fence, no_keyword_strip.
    - now apply no_keyword_strip. }
  rewrite extract_lines_no_keyword.
  - cbn [is_empty]. fold keyword. rewrite Hc. reflexivity.
  - intros l Hl. destruct (split_chr_infix nl cleaned l Hl) as (p & q & E).
    eapply no_keyword_piece; eassumption.
Qed.

(** C9.  When the keyword [flowchart] occurs nowhere in the text of the
    response, in any case of letters, [_extract_mermaid] returns the empty
    text, and [_generate_mermaid] returns the fallback diagram of the
    description: the empty extraction raises nothing. *)
Theorem extract_without_keyword
    (self : FlowchartAgent) (model : Prompt -> result str)
    (description level text : str) (mode : FlowchartMode) :
  ai_model self = Some model ->
  strip description <> [] ->
  _resolve_mode level = Ok mode ->
  model {| prompt_mode := mode;
           prompt_description := strip description;
           prompt_complexity_hint := wants_detail (strip description) |} = Ok text ->
  contains (lower text) "flowchart" = false ->
  _extract_mermaid text = []
  /\ _generate_mermaid self (VStr description) level
     = Ok (_generate_fallback_flowchart (strip description)).
Proof.
  intros Hm Hd Hl Hr Hk.
  pose proof (extract_no_keyword text Hk) as He. split; [assumption|].
  unfold _generate_mermaid. rewrite Hm.
  destruct (strip description) as [|c t] eqn:Es; [congruence|].
  cbn [is_empty]. rewrite Hl. cbn [bind]. rewrite Hr. cbn [bind].
  unfold from_response. rewrite He. reflexivity.
Qed.

Lemma extract_without_keyword_witness :
  let text : str := "I cannot draw this." in
  let self := example_agent (fun _ => Ok text) (Ok tt) in
  _extract_mermaid text = []
  /\ _generate_mermaid self (VStr "make tea") "1"
     = Ok (_generate_fallback_flowchart (strip "make tea")).
Proof.
  intros text self.
  apply (extract_without_keyword self (fun _ => Ok text) "make tea" "1" text basic);
    [reflexivity | discriminate | reflexivity | reflexivity | reflexivity].
Defined.

(** ** The matcher *)

Lemma forward_rest (ws r : str) (m : mstate) :
  rest m = ws ++ r -> rest (forward (length ws) m) = r.
Proof.
  revert m. induction ws as [|c ws IH]; intros m H; [exact H|].
  cbn [length forward]. rewrite H. cbn [app]. now apply IH.
Qed.

Lemma forward_cons (c : ascii) (ws r : str) (m : mstate) :
  rest m = c :: ws ++ r ->
  forward (S (length ws)) m = forward (length ws) (advance c (ws ++ r) m).
Proof. intros H. cbn [forward]. now rewrite H. Qed.

(** A greedy repetition succeeds when what follows succeeds after some run
    of characters of the class. *)
Lemma star_greedy_some (k : mstate -> option mstate) (p : ascii -> bool)
      (ws r : str) (m e : mstate) :
  rest m = ws ++ r -> forallb p ws = true ->
  k (forward (length ws) m) = Some e ->
  exists e', star_greedy k p m (ws ++ r) = Some e'.
Proof.
  revert m. induction ws as [|c ws IH]; intros m Hm Hp Hk.
  - cbn [length forward app] in *.
    destruct r as [|c r]; cbn [star_greedy]; [eauto|].
    destruct (p c); [|eauto].
    destruct (star_greedy k p _ r); eauto.
  - cbn [forallb] in Hp. apply andb_true_iff in Hp as [Hc Hp].
    cbn [app star_greedy]. rewrite Hc.
    cbn [length] in Hk. rewrite (forward_cons c ws r m Hm) in Hk.
    destruct (IH (advance c (ws ++ r) m) eq_refl Hp Hk) as (e' & ->). eauto.
Qed.

(** A search finds a match when there is one at some position. *)
Lemma search_from_some (r : regex) (a b : str) (m : mstate) (x : rmatch) :
  rest m = a ++ b ->
  match_at r (forward (length a) m) = Some x ->
  found (search_from r m (a ++ b)) = true.
Proof.
  revert m. induction a as [|c a IH]; intros m Hm Hx.
  - cbn [length forward app] in *. destruct b; cbn [search_from]; now rewrite Hx.
  - cbn [app search_from]. destruct (match_at r m); [reflexivity|].
    apply IH; [reflexivity|]. cbn [length] in Hx. now rewrite <- (forward_cons c a b m Hm).
Qed.

Lemma re_search_some (r : regex) (a b : str) (x : rmatch) :
  match_at r (forward (length a) (start_of (a ++ b))) = Some x ->
  found (re_search r (a ++ b)) = true.
Proof. intros H. unfold re_search. eapply search_from_some; [reflexivity|exact H]. Qed.

Lemma run_Seq (a b : regex) (k : mstate -> option mstate) (m : mstate) :
  run (Seq a b) k m = run a (run b k) m.
Proof. reflexivity. Qed.

Lemma run_Cls_hit (p : ascii -> bool) (k : mstate -> option mstate) (m : mstate)
      (c : ascii) (s : str) :
  rest m = c :: s -> p c = true -> run (Cls p) k m = k (advance c s m).
Proof. intros Hm Hp. cbn [run]. now rewrite Hm, Hp. Qed.

Lemma run_Star_greedy (p : ascii -> bool) (k : mstate -> option mstate) (m : mstate) :
  run (Star true p) k m = star_greedy k p m (rest m).
Proof. reflexivity. Qed.

(** ** The syntax check *)

Lemma after_close_matches (close c : ascii) (ws post : str) (m : mstate) :
  rest m = close :: ws ++ c :: post ->
  forallb isspace ws = true ->
  none_of [isspace] "-|" c = true ->
  exists x, match_at (re_after_close close) m = Some x.
Proof.
  intros Hm Hws Hc. unfold match_at, re_after_close, star.
  cbn [seq]. rewrite run_Seq.
  rewrite (run_Cls_hit _ _ m close (ws ++ c :: post) Hm) by apply Ascii.eqb_refl.
  rewrite run_Seq, run_Star_greedy. cbn [rest advance].
  destruct (star_greedy_some
              (run (Cls (none_of [isspace] "-|")) Some) isspace ws (c :: post)
              (advance close (ws ++ c :: post) m)
              (advance c post (forward (length ws) (advance close (ws ++ c :: post) m))))
    as (e' & ->); [reflexivity|assumption| |eauto].
  cbn [run]. rewrite (forward_rest ws (c :: post)) by reflexivity.
  now rewrite Hc.
Qed.

Lemma check_lines_In (msg : str) (lines : list str) (i k : nat) (line : str) :
  nth_error lines i = Some line ->
  In msg (line_errors (k + i) line) ->
  In msg (check_lines k lines).
Proof.
  revert i k. induction lines as [|l lines IH]; intros i k Hl Hm.
  - destruct i; discriminate.
  - cbn [check_lines]. apply in_or_app. destruct i as [|i].
    + injection Hl as ->. left. now rewrite Nat.add_0_r in Hm.
    + right. apply (IH i (S k)); [exact Hl|]. now rewrite Nat.add_succ_comm.
Qed.

(** What the check does report.  On a line that holds an edge arrow and is
    no header and no comment, the syntax check reports an error of the line
    whenever a closing square bracket or a closing curly brace is followed,
    after any white space, by a character that is no white space, no dash
    and no pipe. *)
Theorem check_reports_text_after_close
    (code : str) (i : nat) (line : str) (close : ascii) (pre ws post : str) (c : ascii) :
  nth_error (split_chr nl code) i = Some line ->
  strip line = pre ++ [close] ++ ws ++ c :: post ->
  close = "]"%char \/ close = "}"%char ->
  forallb isspace ws = true ->
  isspace c = false -> c <> "-"%char -> c <> "|"%char ->
  startswith (strip line) "flowchart" = false ->
  startswith (strip line) "%%" = false ->
  contains (strip line) "-->" = true ->
  In (line_msg (S i)
        (if Ascii.eqb close "]" then "Invalid character after closing bracket"
         else "Invalid character after closing brace"))
     (_check_syntax_errors code).
Proof.
  intros Hl Hs Hclose Hws Hc Hd Hp Hh Hk Ha.
  unfold _check_syntax_errors. apply (check_lines_In _ _ i 1 line Hl).
  change (1 + i) with (S i). unfold line_errors.
  assert (Hne : is_empty (strip line) = false).
  { rewrite Hs. now destruct pre. }
  rewrite Hne, Hh, Hk, Ha. cbn [orb].
  assert (Hnone : none_of [isspace] "-|" c = true).
  { unfold none_of, one_of. cbn [existsb mem list_ascii_of_string]. rewrite Hc.
    apply Ascii.eqb_neq in Hd, Hp. rewrite Hd, Hp. reflexivity. }
  assert (Hf : found (re_search (re_after_close close) (strip line)) = true).
  { rewrite Hs.
    destruct (after_close_matches close c ws post
                (forward (length pre) (start_of (pre ++ [close] ++ ws ++ c :: post))))
      as (x & Hx); [|assumption|assumption|].
    - now rewrite (forward_rest pre ([close] ++ ws ++ c :: post)).
    - eapply re_search_some. exact Hx. }
  do 3 (apply in_or_app; right).
  destruct Hclose as [-> | ->]; cbn [Ascii.eqb Bool.eqb].
  - apply in_or_app. left. rewrite Hf. now left.
  - apply in_or_app. right. rewrite Hf. now left.
Qed.

Lemma check_reports_text_after_close_witness :
  In ("Line 2: Invalid character after closing bracket" : str)
     (_check_syntax_errors ("flowchart TD" ++ [nl] ++ "    A[Start] x --> B")).
Proof.
  apply (check_reports_text_after_close
           ("flowchart TD" ++ [nl] ++ "    A[Start] x --> B") 1 "    A[Start] x --> B"
           "]" "A[Start" " " " --> B" "x");
    try reflexivity; try discriminate. now left.
Defined.

(** C7 (failing input).  A character stands right after a closing square
    bracket on a line without an arrow, and right after a closing
    parenthesis on a line with one: the check reports nothing, and a chart
    with such a line goes through the pipeline as it is. *)
Theorem check_misses_text_after_close :
  text_follows_closing "A[x]y" = true
  /\ _check_syntax_errors "A[x]y" = []
  /\ text_follows_closing "A(x)y --> B" = true
  /\ _check_syntax_errors "A(x)y --> B" = []
  /\ from_response "do it"
       (unlines ["flowchart TD" : str; "    A(x)y --> B" : str; "    B --> C" : str])
     = Ok (unlines ["flowchart TD" : str; "    A(x)y --> B" : str; "    B --> C" : str])
  /\ from_response "do it"
       (unlines ["flowchart TD" : str; "    A[x]y" : str; "    A --> B" : str;
                 "    B --> C" : str])
     = Ok (unlines ["flowchart TD" : str; "    A[x]y" : str; "    A --> B" : str;
                    "    B --> C" : str]).
Proof. vm_compute. repeat split; reflexivity. Qed.




Lemma run_Grp (n : nat) (a : regex) (k : mstate -> option mstate) (m : mstate) :
  run (Grp n a) k m = run a (fun m' => k (capture n m m')) m.
Proof. reflexivity. Qed.

Lemma run_Bol_start (k : mstate -> option mstate) (m : mstate) :
  prev m = None -> run Bol k m = k m.
Proof. intros H. cbn [run]. now rewrite H. Qed.

(** The text of the group that was closed last. *)
Lemma group_capture (n : nat) (m0 m1 m : mstate) :
  n <> 0 ->
  group (RMatch m (capture n m0 m1)) n = firstn (pos m1 - pos m0) (rest m0).
Proof.
  intros Hn. unfold group, capture. destruct n as [|n]; [congruence|].
  cbn [caps m_end List.find fst snd]. now rewrite Nat.eqb_refl.
Qed.

(** ** Header normalization *)





Lemma split_chr_Forall_no_sep (c : ascii) (s : str) :
  List.Forall (fun l => ~ In c l) (split_chr c s).
Proof. apply List.Forall_forall. intros l Hl. now apply (split_chr_no_sep c s). Qed.




(** ** Trimming what spacing normalization wrote *)

Lemma lstrip_by_idem (p : ascii -> bool) (s : str) :
  lstrip_by p (lstrip_by p s) = lstrip_by p s.
Proof.
  destruct (lstrip_by p s) as [|c t] eqn:E; [reflexivity|].
  apply lstrip_by_fixed. now apply (lstrip_by_head p s c t).
Qed.

Lemma rstrip_by_idem (p : ascii -> bool) (s : str) :
  rstrip_by p (rstrip_by p s) = rstrip_by p s.
Proof. unfold rstrip_by. now rewrite rev_involutive, lstrip_by_idem. Qed.

Lemma lstrip_strip (s : str) : lstrip_by isspace (strip s) = strip s.
Proof.
  destruct (strip s) as [|c t] eqn:E; [reflexivity|].
  apply lstrip_by_fixed. now apply (strip_head s c t).
Qed.

Lemma strip_padded (a x : str) :
  forallb isspace a = true -> strip (a ++ strip x) = strip x.
Proof.
  intros Ha. unfold strip at 1. rewrite lstrip_by_all by assumption.
  rewrite lstrip_strip. unfold strip. apply rstrip_by_idem.
Qed.

Lemma strip_idem (x : str) : strip (strip x) = strip x.
Proof. now apply (strip_padded []). Qed.

Lemma spaces_blank (n : nat) : forallb isspace (spaces n) = true.
Proof. induction n; [reflexivity|]. simpl. assumption. Qed.

Lemma normalize_spacing_line_content (l : str) :
  strip (normalize_spacing_line l) = strip (expand_tabs l).
Proof.
  rewrite normalize_spacing_line_cases.
  destruct (startswith _ _); [apply strip_idem|].
  destruct (strip (expand_tabs l)) as [|c t] eqn:E; [reflexivity|].
  cbn [is_empty]. rewrite <- E. apply strip_padded, spaces_blank.
Qed.

(** ** The minimal path *)


(** ** The label sanitizer *)

(** C6 (failing input).  The label [!] of node [B] is not empty after
    [clean_label]; the allow-list removes its one character afterwards, and
    the sanitized edge holds the empty pair [[]], which the pipeline
    returns.  An empty label is returned by [clean_label] as it is, and
    [_final_cleanup] turns the label of a lone dash into an empty pair. *)
Theorem sanitizer_leaves_empty_label :
  let response :=
    unlines ["flowchart TD" : str; "    A[Start] --> B[!]." : str; "    B --> C[Done]" : str] in
  let sanitized :=
    unlines ["flowchart TD" : str; "    A[Start] --> B[]" : str; "    B --> C[Done]" : str] in
  clean_label "!" = "!"
  /\ drop_not_allowed (clean_label "!") = ""
  /\ sanitize_node ∅ "B[!]." = "B[]"
  /\ _sanitize_mermaid response = sanitized
  /\ from_response "do it" response = Ok sanitized
  /\ contains sanitized "[]" = true
  /\ clean_label "" = ""
  /\ sanitize_node ∅ "B[]" = "B[]"
  /\ _final_cleanup "D[ - ]" = "    D[]".
Proof. vm_compute. repeat split; reflexivity. Qed.

(** ** The matcher, construct by construct *)

Lemma forward_pos (a b : str) (m : mstate) :
  rest m = a ++ b -> pos (forward (length a) m) = pos m + length a.
Proof.
  revert m. induction a as [|c a IH]; intros m H; cbn [length forward].
  - lia.
  - rewrite H. cbn [app]. rewrite IH by reflexivity. cbn [advance pos]. lia.
Qed.

Lemma forward_caps (n : nat) (m : mstate) : caps (forward n m) = caps m.
Proof.
  revert m. induction n as [|n IH]; intros m; [reflexivity|].
  cbn [forward]. destruct (rest m); [reflexivity|]. now rewrite IH.
Qed.

Lemma forward_prev (a b : str) (m : mstate) :
  rest m = a ++ b ->
  prev (forward (length a) m) = match rev a with c :: _ => Some c | [] => prev m end.
Proof.
  revert m. induction a as [|c a IH]; intros m H; [reflexivity|].
  cbn [length forward]. rewrite H. cbn [app]. rewrite IH by reflexivity.
  cbn [rev]. destruct (rev a); reflexivity.
Qed.

Lemma forward_add (a b : nat) (m : mstate) :
  forward (a + b) m = forward b (forward a m).
Proof.
  revert m. induction a as [|a IH]; intros m; [reflexivity|].
  cbn [Nat.add forward]. destruct (rest m) as [|c s] eqn:E.
  - destruct b; [reflexivity|]. cbn [forward]. now rewrite E.
  - apply IH.
Qed.

Lemma run_Cls_miss (p : ascii -> bool) (k : mstate -> option mstate) (m : mstate)
      (c : ascii) (s : str) :
  rest m = c :: s -> p c = false -> run (Cls p) k m = None.
Proof. intros Hm Hp. cbn [run]. now rewrite Hm, Hp. Qed.

Lemma run_Cls_end (p : ascii -> bool) (k : mstate -> option mstate) (m : mstate) :
  rest m = [] -> run (Cls p) k m = None.
Proof. intros Hm. cbn [run]. now rewrite Hm. Qed.

Lemma run_Cls_inv (p : ascii -> bool) (k : mstate -> option mstate) (m e : mstate) :
  run (Cls p) k m = Some e ->
  exists c s, rest m = c :: s /\ p c = true /\ k (forward 1 m) = Some e.
Proof.
  cbn [run forward]. destruct (rest m) as [|c s]; [discriminate|].
  destruct (p c) eqn:Hp; [|discriminate]. intros H. now exists c, s.
Qed.

Lemma run_Alt (a b : regex) (k : mstate -> option mstate) (m : mstate) :
  run (Alt a b) k m = match run a k m with Some r => Some r | None => run b k m end.
Proof. reflexivity. Qed.

Lemma run_seq_cons (r : regex) (rs : list regex) (k : mstate -> option mstate) (m : mstate) :
  run (seq (r :: rs)) k m = run r (run (seq rs) k) m.
Proof. destruct rs; reflexivity. Qed.

Lemma run_Eps (k : mstate -> option mstate) (m : mstate) : run Eps k m = k m.
Proof. reflexivity. Qed.

(** A literal matches when the text ahead starts with it. *)
Lemma run_lit (s : str) (k : mstate -> option mstate) (m : mstate) :
  run (lit s) k m = if startswith (rest m) s then k (forward (length s) m) else None.
Proof.
  unfold lit. revert m. induction s as [|c s IH]; intros m.
  - reflexivity.
  - cbn [map]. rewrite run_seq_cons. cbn [run startswith length forward].
    destruct (rest m) as [|d t] eqn:E; [reflexivity|].
    unfold is_chr at 1. destruct (Ascii.eqb c d); [|reflexivity].
    cbn [andb]. now rewrite IH.
Qed.

(** A greedy repetition over a maximal run of the class gives what follows
    the run when that succeeds. *)
Lemma star_greedy_max (k : mstate -> option mstate) (p : ascii -> bool)
      (ws r : str) (m e : mstate) :
  rest m = ws ++ r -> forallb p ws = true ->
  match r with [] => True | c :: _ => p c = false end ->
  k (forward (length ws) m) = Some e ->
  star_greedy k p m (ws ++ r) = Some e.
Proof.
  revert m. induction ws as [|c ws IH]; intros m Hm Hp Hr Hk.
  - cbn [app length forward] in *. destruct r as [|c r]; cbn [star_greedy]; [assumption|].
    now rewrite Hr.
  - cbn [forallb] in Hp. apply andb_true_iff in Hp as [Hc Hp].
    cbn [app star_greedy]. rewrite Hc.
    cbn [length] in Hk. rewrite (forward_cons c ws r m Hm) in Hk.
    now rewrite (IH (advance c (ws ++ r) m) eq_refl Hp Hr Hk).
Qed.

(** A greedy repetition fails when what follows fails after every run it
    can take. *)
Lemma star_greedy_none (k : mstate -> option mstate) (p : ascii -> bool)
      (s : str) (m : mstate) :
  rest m = s ->
  (forall j, j <= length s -> k (forward j m) = None) ->
  star_greedy k p m s = None.
Proof.
  revert m. induction s as [|c s IH]; intros m Hm Hk; cbn [star_greedy].
  - apply (Hk 0). lia.
  - destruct (p c).
    + rewrite IH; [apply (Hk 0); cbn; lia|reflexivity|].
      intros j Hj. specialize (Hk (S j)). cbn [forward length] in Hk.
      rewrite Hm in Hk. apply Hk. lia.
    + apply (Hk 0). cbn; lia.
Qed.

(** What a greedy repetition returns, what follows returned after a run of
    characters of the class. *)
Lemma star_greedy_inv (k : mstate -> option mstate) (p : ascii -> bool)
      (s : str) (m e : mstate) :
  rest m = s -> star_greedy k p m s = Some e ->
  exists j, j <= length s /\ forallb p (firstn j s) = true /\ k (forward j m) = Some e.
Proof.
  revert m. induction s as [|c s IH]; intros m Hm H; cbn [star_greedy] in H.
  - exists 0. now repeat split.
  - destruct (p c) eqn:Hp; [|exists 0; repeat split; [cbn; lia|assumption]].
    destruct (star_greedy k p (advance c s m) s) as [e'|] eqn:E.
    + injection H as ->. apply IH in E as (j & Hj & Hf & Hk); [|reflexivity].
      exists (S j). cbn [length firstn forallb forward]. rewrite Hm, Hp.
      repeat split; [lia|assumption|assumption].
    + exists 0. repeat split; [cbn; lia|assumption].
Qed.

Lemma star_lazy_inv (k : mstate -> option mstate) (p : ascii -> bool)
      (s : str) (m e : mstate) :
  rest m = s -> star_lazy k p m s = Some e ->
  exists j, j <= length s /\ forallb p (firstn j s) = true /\ k (forward j m) = Some e.
Proof.
  revert m. induction s as [|c s IH]; intros m Hm H; cbn [star_lazy] in H.
  - destruct (k m) eqn:E; [|discriminate]. injection H as ->.
    exists 0. now repeat split.
  - destruct (k m) eqn:E.
    + injection H as ->. exists 0. repeat split; [cbn; lia|assumption].
    + destruct (p c) eqn:Hp; [|discriminate].
      apply IH in H as (j & Hj & Hf & Hk); [|reflexivity].
      exists (S j). cbn [length firstn forallb forward]. rewrite Hm, Hp.
      repeat split; [lia|assumption|assumption].
Qed.

Lemma run_Star_lazy (p : ascii -> bool) (k : mstate -> option mstate) (m : mstate) :
  run (Star false p) k m = star_lazy k p m (rest m).
Proof. reflexivity. Qed.

Lemma run_Bol_inside (k : mstate -> option mstate) (m : mstate) (c : ascii) :
  prev m = Some c -> run Bol k m = None.
Proof. intros H. cbn [run]. now rewrite H. Qed.

Lemma run_Eol_end (k : mstate -> option mstate) (m : mstate) :
  rest m = [] -> run Eol k m = k m.
Proof. intros H. cbn [run]. now rewrite H. Qed.

Lemma run_Wordb_yes (k : mstate -> option mstate) (m : mstate) :
  xorb (word_before m) (word_after m) = true -> run Wordb k m = k m.
Proof. intros H. cbn [run]. now rewrite H. Qed.

Lemma run_Wordb_no (k : mstate -> option mstate) (m : mstate) :
  xorb (word_before m) (word_after m) = false -> run Wordb k m = None.
Proof. intros H. cbn [run]. now rewrite H. Qed.

(** *** Characters *)

Lemma ident_chr_word (c : ascii) : ident_chr c = true -> isword c = true.
Proof.
  unfold ident_chr, isword. intros H.
  apply orb_true_iff in H as [H|H]; [apply orb_true_iff in H as [H|H]|]; rewrite H;
    rewrite ?orb_true_r; reflexivity.
Qed.

Lemma ident_chr_not_space (c : ascii) : ident_chr c = true -> isspace c = false.
Proof. destruct c as [[] [] [] [] [] [] [] []]; vm_compute; congruence. Qed.

Lemma space_not_word (c : ascii) : isspace c = true -> isword c = false.
Proof. destruct c as [[] [] [] [] [] [] [] []]; vm_compute; congruence. Qed.

Lemma ident_chr_not_punct (c : ascii) :
  ident_chr c = true -> mem c "[]{}()|->\ " = false.
Proof. destruct c as [[] [] [] [] [] [] [] []]; vm_compute; congruence. Qed.

(** ** Substitution, step by step *)

Lemma sub_go_copy (r : regex) (repl : rmatch -> str) (rp : str) (c : ascii) (s : str) :
  match_at r (st rp (c :: s)) = None ->
  sub_go r repl 0 (st rp (c :: s)) (c :: s) = c :: sub_go r repl 0 (st (c :: rp) s) s.
Proof. intros H. cbn [sub_go]. now rewrite H. Qed.

Lemma sub_go_end (r : regex) (repl : rmatch -> str) (rp : str) :
  match_at r (st rp []) = None -> sub_go r repl 0 (st rp []) [] = [].
Proof. intros H. cbn [sub_go]. now rewrite H. Qed.

Lemma sub_go_hit (r : regex) (repl : rmatch -> str) (rp : str) (c : ascii) (s : str)
      (x : rmatch) (w : nat) :
  match_at r (st rp (c :: s)) = Some x -> width x = S w ->
  sub_go r repl 0 (st rp (c :: s)) (c :: s) = repl x ++ sub_go r repl w (st (c :: rp) s) s.
Proof. intros H Hw. cbn [sub_go]. rewrite H, Hw. cbn [Nat.sub]. now rewrite Nat.sub_0_r. Qed.

Lemma sub_go_skip (r : regex) (repl : rmatch -> str) (rp a b : str) :
  sub_go r repl (length a) (st rp (a ++ b)) (a ++ b)
  = sub_go r repl 0 (st (rev a ++ rp) b) b.
Proof.
  revert rp. induction a as [|c a IH]; intros rp; [reflexivity|].
  cbn [length app sub_go]. change (advance c (a ++ b) (st rp (c :: a ++ b))) with (st (c :: rp) (a ++ b)).
  rewrite IH. cbn [rev]. now rewrite <- app_assoc.
Qed.

(** A stretch of text without a match at any of its positions is copied. *)
Lemma sub_go_copy_all (r : regex) (repl : rmatch -> str) (rp a b : str) :
  (forall a1 c a2, a = a1 ++ c :: a2 ->
                   match_at r (st (rev a1 ++ rp) (c :: a2 ++ b)) = None) ->
  sub_go r repl 0 (st rp (a ++ b)) (a ++ b)
  = a ++ sub_go r repl 0 (st (rev a ++ rp) b) b.
Proof.
  revert rp. induction a as [|c a IH]; intros rp H; [reflexivity|].
  cbn [app]. rewrite sub_go_copy by apply (H [] c a eq_refl).
  rewrite IH.
  - cbn [rev]. now rewrite <- app_assoc.
  - intros a1 d a2 E. specialize (H (c :: a1) d a2). cbn [rev app] in H.
    rewrite <- app_assoc in H. apply H. now rewrite E.
Qed.

(** ** References to an identifier *)

Section Reference.

Variable old_id : str.

Lemma re_reference_unfold (k : mstate -> option mstate) (m : mstate) :
  run (re_reference old_id) k m
  = run ref_before
        (fun m1 =>
           run Wordb (run (lit old_id) (run Wordb (run (Grp 2 ref_after) k)))
               (capture 1 m m1)) m.
Proof. reflexivity. Qed.

Lemma space_not_open (c : ascii) :
  isspace c = true -> is_chr "[" c = false /\ is_chr "{" c = false /\ is_chr "(" c = false.
Proof. destruct c as [[] [] [] [] [] [] [] []]; vm_compute; intuition congruence. Qed.

(** Before a reference: a character that is no white space and no opening
    symbol, past the start of the line, admits no match. *)
Lemma ref_before_other (k : mstate -> option mstate) (m : mstate) (p c : ascii) (s : str) :
  prev m = Some p -> rest m = c :: s ->
  isspace c = false -> mem c "[{(" = false ->
  run ref_before k m = None.
Proof.
  intros Hp Hm Hs Hb. unfold ref_before. cbn [alt].
  rewrite run_Alt, (run_Bol_inside _ _ _ Hp).
  rewrite run_Alt, (run_Cls_miss _ _ _ _ _ Hm Hs).
  cbn [mem existsb list_ascii_of_string] in Hb.
  apply orb_false_iff in Hb as [H1 Hb]. apply orb_false_iff in Hb as [H2 Hb].
  apply orb_false_iff in Hb as [H3 _].
  rewrite (Ascii.eqb_sym c) in H1, H2, H3.
  rewrite run_Alt, (run_Cls_miss _ _ _ _ _ Hm H1).
  rewrite run_Alt, (run_Cls_miss _ _ _ _ _ Hm H2).
  apply (run_Cls_miss _ _ _ _ _ Hm H3).
Qed.

Lemma ref_before_end (k : mstate -> option mstate) (m : mstate) (p : ascii) :
  prev m = Some p -> rest m = [] -> run ref_before k m = None.
Proof.
  intros Hp Hm. unfold ref_before. cbn [alt].
  rewrite run_Alt, (run_Bol_inside _ _ _ Hp).
  now rewrite !run_Alt, !(run_Cls_end _ _ _ Hm).
Qed.

(** Before a reference: a white space is taken as group 1. *)
Lemma ref_before_space (k : mstate -> option mstate) (m : mstate) (p c : ascii) (s : str) :
  prev m = Some p -> rest m = c :: s -> isspace c = true ->
  run ref_before k m = k (advance c s m).
Proof.
  intros Hp Hm Hs. unfold ref_before. cbn [alt].
  rewrite run_Alt, (run_Bol_inside _ _ _ Hp).
  rewrite run_Alt, (run_Cls_hit _ _ _ _ _ Hm Hs).
  destruct (k (advance c s m)); [reflexivity|].
  destruct (space_not_open c Hs) as (H1 & H2 & H3).
  rewrite run_Alt, (run_Cls_miss _ _ _ _ _ Hm H1).
  rewrite run_Alt, (run_Cls_miss _ _ _ _ _ Hm H2).
  apply (run_Cls_miss _ _ _ _ _ Hm H3).
Qed.

Lemma ref_before_space_start (k : mstate -> option mstate) (m : mstate) (c : ascii) (s : str) :
  prev m = None -> rest m = c :: s -> isspace c = true -> k m = None ->
  run ref_before k m = k (advance c s m).
Proof.
  intros Hp Hm Hs Hk. unfold ref_before. cbn [alt].
  rewrite run_Alt, (run_Bol_start _ _ Hp), Hk.
  rewrite run_Alt, (run_Cls_hit _ _ _ _ _ Hm Hs).
  destruct (k (advance c s m)); [reflexivity|].
  destruct (space_not_open c Hs) as (H1 & H2 & H3).
  rewrite run_Alt, (run_Cls_miss _ _ _ _ _ Hm H1).
  rewrite run_Alt, (run_Cls_miss _ _ _ _ _ Hm H2).
  apply (run_Cls_miss _ _ _ _ _ Hm H3).
Qed.

(** No reference starts at a white space that no word follows. *)
Lemma reference_none_space (rp : str) (c : ascii) (s : str) :
  isspace c = true ->
  match s with [] => True | d :: _ => isword d = false end ->
  match_at (re_reference old_id) (st rp (c :: s)) = None.
Proof.
  intros Hc Hs. unfold match_at. rewrite re_reference_unfold.
  assert (Hw : forall m1, prev m1 = Some c \/ prev m1 = None -> rest m1 = s ->
                          run Wordb (run (lit old_id) (run Wordb (run (Grp 2 ref_after) Some))) m1 = None).
  { intros m1 Hp Hr. apply run_Wordb_no. unfold word_before, word_after. rewrite Hr.
    destruct Hp as [-> | ->].
    - rewrite (space_not_word c Hc). destruct s; [reflexivity|now rewrite Hs].
    - destruct s; [reflexivity|now rewrite Hs]. }
  destruct rp as [|p rp].
  - rewrite (ref_before_space_start _ (st [] (c :: s)) c s eq_refl eq_refl Hc).
    + rewrite Hw; [reflexivity|now left|reflexivity].
    + apply run_Wordb_no. unfold word_before, word_after. cbn.
      now rewrite (space_not_word c Hc).
  - rewrite (ref_before_space _ (st (p :: rp) (c :: s)) p c s eq_refl eq_refl Hc).
    rewrite Hw; [reflexivity|now left|reflexivity].
Qed.

(** No reference starts, past the start of the line, at a character that
    is no white space and no opening symbol. *)
Lemma reference_none_other (p : ascii) (rp : str) (c : ascii) (s : str) :
  isspace c = false -> mem c "[{(" = false ->
  match_at (re_reference old_id) (st (p :: rp) (c :: s)) = None.
Proof.
  intros Hc Hb. unfold match_at. rewrite re_reference_unfold.
  now rewrite (ref_before_other _ (st (p :: rp) (c :: s)) p c s eq_refl eq_refl Hc Hb).
Qed.

Lemma reference_none_end (p : ascii) (rp : str) :
  match_at (re_reference old_id) (st (p :: rp) []) = None.
Proof.
  unfold match_at. rewrite re_reference_unfold.
  now rewrite (ref_before_end _ (st (p :: rp) []) p eq_refl eq_refl).
Qed.

End Reference.

Lemma sub_succ_self (n : nat) : S n - n = 1.
Proof. lia. Qed.

Lemma identifier_inv (t : str) :
  is_identifier t = true ->
  exists c t', t = c :: t' /\ ident_chr c = true /\ forallb ident_chr t' = true.
Proof.
  unfold is_identifier. destruct t as [|c t']; [discriminate|].
  cbn [is_empty negb andb forallb]. intros H. apply andb_true_iff in H as [Hc Ht].
  now exists c, t'.
Qed.

Lemma identifier_chars (t : str) : is_identifier t = true -> forallb ident_chr t = true.
Proof. unfold is_identifier. intros H. now apply andb_true_iff in H as [_ H]. Qed.

Lemma identifier_last (t : str) :
  is_identifier t = true ->
  exists c r, rev t = c :: r /\ ident_chr c = true.
Proof.
  intros H. pose proof (identifier_chars t H) as Hall.
  destruct (identifier_inv t H) as (c0 & t' & -> & _ & _).
  destruct (rev (c0 :: t')) as [|c r] eqn:E.
  - apply (f_equal (@length ascii)) in E. rewrite length_rev in E. discriminate.
  - exists c, r. split; [reflexivity|].
    rewrite forallb_forall in Hall. apply Hall. apply in_rev. rewrite E. now left.
Qed.

(** A text of identifier characters that begins a token and what follows
    it, begins the token. *)
Lemma prefix_of_token (old_id tok after : str) :
  forallb ident_chr old_id = true ->
  match after with [] => True | d :: _ => isword d = false end ->
  startswith (tok ++ after) old_id = true ->
  exists t', tok = old_id ++ t'.
Proof.
  revert tok. induction old_id as [|a old_id IH]; intros tok Ho Ha Hs; [now exists tok|].
  cbn [forallb] in Ho. apply andb_true_iff in Ho as [Hc Ho].
  destruct tok as [|b tok].
  - cbn [app] in Hs. destruct after as [|d after]; [discriminate|].
    cbn [startswith] in Hs. apply andb_true_iff in Hs as [Hd _].
    apply Ascii.eqb_eq in Hd. subst d. apply ident_chr_word in Hc. congruence.
  - cbn [app startswith] in Hs. apply andb_true_iff in Hs as [Hb Hs].
    apply Ascii.eqb_eq in Hb. subst b.
    destruct (IH tok Ho Ha Hs) as (t' & ->). now exists t'.
Qed.

Section ReferenceToken.

Variable old_id : str.
Hypothesis old_identifier : is_identifier old_id = true.

(** No reference starts at a white space before another token. *)
Lemma reference_none_token (p : ascii) (rp : str) (c : ascii) (tok after : str) :
  isspace c = true -> is_identifier tok = true -> tok <> old_id ->
  match after with [] => True | d :: _ => isword d = false end ->
  match_at (re_reference old_id) (st (p :: rp) (c :: tok ++ after)) = None.
Proof using old_identifier.
  intros Hc Ht Hne Ha. unfold match_at. rewrite re_reference_unfold.
  rewrite (ref_before_space _ (st (p :: rp) (c :: tok ++ after)) p c (tok ++ after)
             eq_refl eq_refl Hc).
  set (m1 := capture 1 _ _).
  assert (Hrest : rest m1 = tok ++ after) by reflexivity.
  assert (Hprev : prev m1 = Some c) by reflexivity.
  destruct (identifier_inv tok Ht) as (t0 & t' & Et & Ht0 & _).
  rewrite run_Wordb_yes.
  2:{ unfold word_before, word_after. rewrite Hprev, Hrest, Et. cbn [app].
      now rewrite (space_not_word c Hc), (ident_chr_word t0 Ht0). }
  rewrite run_lit, Hrest.
  destruct (startswith (tok ++ after) old_id) eqn:Hs; [|reflexivity].
  destruct (prefix_of_token old_id tok after (identifier_chars _ old_identifier) Ha Hs)
    as (u & Eu).
  destruct u as [|u0 u]; [rewrite app_nil_r in Eu; congruence|].
  rewrite run_Wordb_no; [reflexivity|].
  assert (Hr2 : rest m1 = old_id ++ (u0 :: u) ++ after).
  { rewrite Hrest, Eu. now rewrite <- app_assoc. }
  unfold word_before, word_after.
  rewrite (forward_rest old_id _ m1 Hr2), (forward_prev old_id _ m1 Hr2).
  destruct (identifier_last old_id old_identifier) as (l0 & r & -> & Hl0).
  rewrite (ident_chr_word l0 Hl0). cbn [app].
  assert (Hu0 : ident_chr u0 = true).
  { pose proof (identifier_chars tok Ht) as Hall. rewrite Eu, forallb_app in Hall.
    apply andb_true_iff in Hall as [_ Hall]. cbn [forallb] in Hall.
    now apply andb_true_iff in Hall as [Hall _]. }
  now rewrite (ident_chr_word u0 Hu0).
Qed.


Lemma reference_reaches_end_of_token (p : ascii) (rp : str) (c : ascii) (after : str)
      (k : mstate -> option mstate) :
  isspace c = true ->
  match after with [] => True | d :: _ => isword d = false end ->
  run (re_reference old_id) k (st (p :: rp) (c :: old_id ++ after))
  = run (Grp 2 ref_after) k
        (forward (length old_id) (entered p rp c (old_id ++ after))).
Proof using old_identifier.
  intros Hc Ha. rewrite re_reference_unfold.
  rewrite (ref_before_space _ (st (p :: rp) (c :: old_id ++ after)) p c (old_id ++ after)
             eq_refl eq_refl Hc).
  fold (entered p rp c (old_id ++ after)). set (m1 := entered p rp c (old_id ++ after)).
  assert (Hrest : rest m1 = old_id ++ after) by reflexivity.
  assert (Hprev : prev m1 = Some c) by reflexivity.
  destruct (identifier_inv old_id old_identifier) as (o0 & o' & Eo & Ho0 & _).
  rewrite run_Wordb_yes.
  2:{ unfold word_before, word_after. rewrite Hprev, Hrest, Eo. cbn [app].
      now rewrite (space_not_word c Hc), (ident_chr_word o0 Ho0). }
  rewrite run_lit, Hrest, startswith_app.
  rewrite run_Wordb_yes; [reflexivity|].
  unfold word_before, word_after.
  rewrite (forward_rest old_id _ m1 Hrest), (forward_prev old_id _ m1 Hrest).
  destruct (identifier_last old_id old_identifier) as (l0 & r & -> & Hl0).
  rewrite (ident_chr_word l0 Hl0). destruct after; [reflexivity|now rewrite Ha].
Qed.

Lemma entered_forward_pos (p : ascii) (rp : str) (c : ascii) (after : str) :
  pos (forward (length old_id) (entered p rp c (old_id ++ after)))
  = S (length (p :: rp)) + length old_id.
Proof. now rewrite (forward_pos old_id after). Qed.

Lemma entered_forward_caps (p : ascii) (rp : str) (c : ascii) (after : str) :
  caps (forward (length old_id) (entered p rp c (old_id ++ after)))
  = [(1, [c])].
Proof.
  rewrite forward_caps. unfold entered, capture. cbn [caps pos advance st rest].
  now rewrite sub_succ_self.
Qed.

(** A reference followed by an arrow: the match runs from the white space
    before the identifier to the end of the arrow. *)
Lemma reference_before_arrow (p : ascii) (rp : str) (c : ascii) (s : str) :
  isspace c = true ->
  exists x,
    match_at (re_reference old_id) (st (p :: rp) (c :: old_id ++ " -->" ++ s)) = Some x
    /\ width x = S (length old_id + 4)
    /\ group x 1 = [c] /\ group x 2 = " -->".
Proof using old_identifier.
  intros Hc. unfold match_at.
  rewrite (reference_reaches_end_of_token p rp c (" -->" ++ s)) by (assumption || reflexivity).
  set (m2 := forward _ _).
  assert (Hrest : rest m2 = [" "%char] ++ ("-->" ++ s)).
  { subst m2. now rewrite (forward_rest old_id (" -->" ++ s)). }
  rewrite run_Grp. unfold ref_after. cbn [alt seq].
  rewrite run_Alt, run_Seq. unfold star at 1. rewrite run_Star_greedy, Hrest.
  rewrite (star_greedy_max _ isspace [" "%char] ("-->" ++ s) m2
             (capture 2 m2 (forward 3 (forward 1 m2))) Hrest eq_refl eq_refl).
  2:{ rewrite run_lit. rewrite (forward_rest [" "%char] _ m2 Hrest).
      now rewrite startswith_app. }
  eexists. split; [reflexivity|].
  assert (Hpos : pos (forward 3 (forward 1 m2)) = pos m2 + 4).
  { rewrite <- (forward_add 1 3). change (1 + 3) with (length (" -->" : str)).
    now rewrite (forward_pos (" -->") s m2). }
  assert (Hpos2 : pos m2 = S (length (p :: rp)) + length old_id).
  { apply entered_forward_pos. }
  split; [|split].
  - unfold width. cbn [m_end m_start capture pos st]. rewrite Hpos, Hpos2. cbn [length]. lia.
  - unfold group. cbn [m_end capture caps List.find fst snd Nat.eqb].
    rewrite !forward_caps. subst m2. rewrite entered_forward_caps. reflexivity.
  - rewrite group_capture by discriminate. rewrite Hpos, Hrest.
    replace (pos m2 + 4 - pos m2) with 4 by lia. reflexivity.
Qed.

(** A reference at the end of the line: the match runs from the white
    space before the identifier to the end. *)
Lemma reference_at_end (p : ascii) (rp : str) (c : ascii) :
  isspace c = true ->
  exists x,
    match_at (re_reference old_id) (st (p :: rp) (c :: old_id)) = Some x
    /\ width x = S (length old_id)
    /\ group x 1 = [c] /\ group x 2 = [].
Proof using old_identifier.
  intros Hc. unfold match_at.
  replace (c :: old_id) with (c :: old_id ++ []) by now rewrite app_nil_r.
  rewrite (reference_reaches_end_of_token p rp c []) by (assumption || exact I).
  set (m2 := forward _ _).
  assert (Hrest : rest m2 = []).
  { subst m2. now rewrite (forward_rest old_id []). }
  rewrite run_Grp. unfold ref_after. cbn [alt seq].
  rewrite run_Alt, run_Seq. unfold star at 1. rewrite run_Star_greedy, Hrest.
  cbn [star_greedy]. rewrite run_lit, Hrest. cbn [startswith list_ascii_of_string].
  rewrite run_Alt, run_Seq. unfold star at 1. rewrite run_Star_greedy, Hrest.
  cbn [star_greedy]. rewrite (run_Cls_end _ _ m2 Hrest).
  rewrite run_Alt, run_Seq. unfold star at 1. rewrite run_Star_greedy, Hrest.
  cbn [star_greedy]. rewrite (run_Eol_end _ m2 Hrest).
  eexists. split; [reflexivity|].
  assert (Hpos2 : pos m2 = S (length (p :: rp)) + length old_id).
  { apply entered_forward_pos. }
  split; [|split].
  - unfold width. cbn [m_end m_start capture pos st]. rewrite Hpos2. cbn [length]. lia.
  - unfold group. cbn [m_end capture caps List.find fst snd Nat.eqb].
    subst m2. rewrite entered_forward_caps. reflexivity.
  - rewrite group_capture by discriminate. now rewrite Nat.sub_diag.
Qed.

End ReferenceToken.

Lemma eqb_eq (a b : str) : eqb a b = true <-> a = b.
Proof.
  revert b. induction a as [|x a IH]; intros [|y b]; cbn [eqb]; try easy.
  rewrite andb_true_iff, Ascii.eqb_eq, IH. split; [intros [-> ->]|intros [= -> ->]]; easy.
Qed.

Lemma eqb_refl (a : str) : eqb a a = true.
Proof. now apply eqb_eq. Qed.

Lemma eqb_neq (a b : str) : eqb a b = false <-> a <> b.
Proof.
  split.
  - intros H E. apply eqb_eq in E. congruence.
  - intros H. destruct (eqb a b) eqn:E; [|reflexivity]. apply eqb_eq in E. contradiction.
Qed.

Section RewriteOne.

Variables old_id new_id : str.
Hypothesis old_identifier : is_identifier old_id = true.

Variable repl : rmatch -> str.
Hypothesis repl_groups : forall x, repl x = group x 1 ++ new_id ++ group x 2.

Lemma reference_none_inside (rp : str) (c : ascii) (s : str) :
  rp <> [] -> ident_chr c = true ->
  match_at (re_reference old_id) (st rp (c :: s)) = None.
Proof.
  intros Hrp Hc. destruct rp as [|p rp]; [congruence|].
  apply reference_none_other; [now apply ident_chr_not_space|].
  pose proof (ident_chr_not_punct c Hc) as H. revert H.
  cbn [mem existsb list_ascii_of_string]. intros H.
  repeat (apply orb_false_iff in H as [? H]).
  repeat (apply orb_false_iff; split); assumption.
Qed.

(** Past the start of the line a token is copied. *)
Lemma sub_go_copy_token (rp tok b : str) :
  rp <> [] -> forallb ident_chr tok = true ->
  sub_go (re_reference old_id) repl 0 (st rp (tok ++ b)) (tok ++ b)
  = tok ++ sub_go (re_reference old_id) repl 0 (st (rev tok ++ rp) b) b.
Proof.
  intros Hrp Ht. apply sub_go_copy_all. intros a1 c a2 E.
  apply reference_none_inside.
  - intros H. apply app_eq_nil in H as [_ H]. contradiction.
  - rewrite E, forallb_app in Ht. apply andb_true_iff in Ht as [_ Ht].
    cbn [forallb] in Ht. now apply andb_true_iff in Ht as [Ht _].
Qed.

(** The last token of the line. *)
Lemma sub_go_last_token (p : ascii) (rp y : str) :
  is_identifier y = true ->
  sub_go (re_reference old_id) repl 0 (st (p :: rp) (" "%char :: y)) (" "%char :: y)
  = " "%char :: rename1 old_id new_id y.
Proof using old_identifier repl_groups.
  intros Hy. unfold rename1. destruct (eqb y old_id) eqn:E.
  - apply eqb_eq in E. subst y.
    destruct (reference_at_end old_id old_identifier p rp " " eq_refl)
      as (x & Hx & Hw & Hg1 & Hg2).
    rewrite (sub_go_hit (re_reference old_id) repl (p :: rp) " " old_id x (length old_id) Hx Hw).
    rewrite repl_groups, Hg1, Hg2, app_nil_r.
    pose proof (sub_go_skip (re_reference old_id) repl (" "%char :: p :: rp) old_id []) as Hs.
    rewrite app_nil_r in Hs. rewrite Hs.
    rewrite sub_go_end; [now rewrite app_nil_r|].
    destruct (rev old_id ++ " "%char :: p :: rp) as [|q rq] eqn:Eq.
    + apply app_eq_nil in Eq as [_ Eq]. discriminate.
    + apply reference_none_end.
  - apply eqb_neq in E.
    rewrite sub_go_copy.
    2:{ rewrite <- (app_nil_r y).
        apply reference_none_token; [assumption|reflexivity|assumption|assumption|exact I]. }
    f_equal.
    pose proof (sub_go_copy_token (" "%char :: p :: rp) y []
                  ltac:(discriminate) (identifier_chars y Hy)) as Hs.
    rewrite app_nil_r in Hs. rewrite Hs.
    rewrite sub_go_end; [now rewrite app_nil_r|].
    destruct (rev y ++ " "%char :: p :: rp) as [|q rq] eqn:Eq.
    + apply app_eq_nil in Eq as [_ Eq]. discriminate.
    + apply reference_none_end.
Qed.


(** A token followed by an arrow and a further token. *)
Lemma sub_go_token_arrow (p : ascii) (rp t y : str) :
  is_identifier t = true ->
  exists q rq,
    sub_go (re_reference old_id) repl 0 (st (p :: rp) (" "%char :: t ++ " --> " ++ y))
           (" "%char :: t ++ " --> " ++ y)
    = " "%char :: rename1 old_id new_id t ++ " -->"
      ++ sub_go (re_reference old_id) repl 0 (st (q :: rq) (" "%char :: y)) (" "%char :: y).
Proof using old_identifier repl_groups.
  intros Ht. unfold rename1. destruct (eqb t old_id) eqn:E.
  - apply eqb_eq in E. subst t.
    destruct (reference_before_arrow old_id old_identifier p rp " " (" "%char :: y) eq_refl)
      as (x & Hx & Hw & Hg1 & Hg2).
    change (" --> " ++ y) with (" -->" ++ " "%char :: y).
    rewrite (sub_go_hit (re_reference old_id) repl (p :: rp) " " _ x (length old_id + 4) Hx Hw).
    rewrite repl_groups, Hg1, Hg2.
    pose proof (sub_go_skip (re_reference old_id) repl (" "%char :: p :: rp) (old_id ++ " -->")
                  (" "%char :: y)) as Hs.
    rewrite length_app, <- app_assoc in Hs. change (length (" -->" : str)) with 4 in Hs.
    rewrite Hs.
    destruct (rev (old_id ++ " -->") ++ " "%char :: p :: rp) as [|q rq] eqn:Eq.
    + apply app_eq_nil in Eq as [_ Eq]. discriminate.
    + exists q, rq. cbn [app]. now rewrite <- !app_assoc.
  - apply eqb_neq in E.
    rewrite sub_go_copy.
    2:{ apply reference_none_token; [assumption|reflexivity|assumption|assumption|reflexivity]. }
    rewrite sub_go_copy_token; [|discriminate|now apply identifier_chars].
    change (" --> " ++ y) with (" "%char :: "-"%char :: "-"%char :: ">"%char :: " "%char :: y).
    rewrite sub_go_copy by (apply reference_none_space; reflexivity).
    destruct (rev t ++ " "%char :: p :: rp) as [|q0 rq0] eqn:Eq.
    { apply app_eq_nil in Eq as [_ Eq]. discriminate. }
    rewrite 3 sub_go_copy by (apply reference_none_other; reflexivity).
    eexists _, _. reflexivity.
Qed.

(** The indentation of the line. *)
Lemma sub_go_indent (s : str) :
  sub_go (re_reference old_id) repl 0 (st [] ("    " ++ s)) ("    " ++ s)
  = "   " ++ sub_go (re_reference old_id) repl 0 (st [" "%char; " "%char; " "%char] (" "%char :: s))
             (" "%char :: s).
Proof.
  change ("    " ++ s) with (" "%char :: " "%char :: " "%char :: " "%char :: s).
  now rewrite 3 sub_go_copy by (apply reference_none_space; reflexivity).
Qed.

(** One substitution on an edge line renames the end points that are the
    identifier, and nothing else. *)
Lemma re_sub_edge_line (a c : str) :
  is_identifier a = true -> is_identifier c = true ->
  re_sub (re_reference old_id) repl (edge_line a c)
  = edge_line (rename1 old_id new_id a) (rename1 old_id new_id c).
Proof using old_identifier repl_groups.
  intros Ha Hc. unfold re_sub, edge_line.
  change (start_of ("    " ++ a ++ " --> " ++ c)) with (st [] ("    " ++ a ++ " --> " ++ c)).
  rewrite sub_go_indent.
  destruct (sub_go_token_arrow " " [" "%char; " "%char] a c Ha) as (q & rq & ->).
  rewrite (sub_go_last_token q rq c Hc).
  cbn [app]. repeat f_equal.
Qed.

End RewriteOne.

(** ** The template of a reference *)

Lemma parse_template_literals (fuel : nat) (lits : str) :
  length lits < fuel ->
  forallb ident_chr lits = true ->
  parse_template fuel 2 (lits ++ "\2") = Ok (map TLit lits ++ [TGroup 2]).
Proof.
  revert fuel. induction lits as [|c lits IH]; intros fuel Hf Hl.
  - destruct fuel as [|fuel]; [cbn in Hf; lia|]. destruct fuel; reflexivity.
  - destruct fuel as [|fuel]; [cbn in Hf; lia|].
    cbn [forallb] in Hl. apply andb_true_iff in Hl as [Hc Hl].
    cbn [app parse_template].
    assert (Hb : Ascii.eqb c "\"%char = false).
    { pose proof (ident_chr_not_punct c Hc) as H. revert H.
      cbn [mem existsb list_ascii_of_string]. intros H.
      repeat (apply orb_false_iff in H as [? H]). assumption. }
    rewrite Hb. cbn [negb]. rewrite IH by (cbn in Hf; lia || assumption).
    reflexivity.
Qed.

Lemma parse_reference_template (new_id : str) :
  is_identifier new_id = true -> starts_with_digit new_id = false ->
  parse_template (S (length (reference_template new_id))) 2 (reference_template new_id)
  = Ok (TGroup 1 :: map TLit new_id ++ [TGroup 2]).
Proof.
  intros Hn Hd. destruct (identifier_inv new_id Hn) as (d & t & -> & _ & _).
  pose proof (identifier_chars _ Hn) as Hall.
  unfold reference_template.
  change ("\1" ++ (d :: t) ++ "\2") with ("\"%char :: "1"%char :: (d :: t) ++ "\2").
  cbn [parse_template Ascii.eqb Bool.eqb negb]. cbn [starts_with_digit] in Hd.
  change (isdigit_ascii "1") with true. cbn iota. cbn [app]. rewrite Hd.
  change (Nat.ltb 2 (digit_val "1")) with false. cbn iota.
  change (d :: t ++ "\2") with ((d :: t) ++ "\2").
  rewrite parse_template_literals; [reflexivity| |assumption].
  cbn [length]. rewrite length_app. cbn [length]. lia.
Qed.

Lemma expand_literals (lits : str) (x : rmatch) :
  expand (map TLit lits) x = lits.
Proof.
  unfold expand. induction lits as [|c lits IH]; [reflexivity|].
  cbn [map flat_map app]. now rewrite IH.
Qed.

Lemma expand_reference_template (new_id : str) (x : rmatch) :
  expand (TGroup 1 :: map TLit new_id ++ [TGroup 2]) x
  = group x 1 ++ new_id ++ group x 2.
Proof.
  unfold expand. cbn [flat_map]. rewrite flat_map_app.
  fold (expand (map TLit new_id) x). rewrite expand_literals.
  cbn [flat_map]. now rewrite app_nil_r.
Qed.

(** One remapping applied to an edge line. *)
Lemma rewrite_one_reference (old_id new_id a c : str) :
  is_identifier old_id = true ->
  is_identifier new_id = true -> starts_with_digit new_id = false ->
  is_identifier a = true -> is_identifier c = true ->
  re_sub_template (re_reference old_id) 2 (reference_template new_id) (edge_line a c)
  = Ok (edge_line (rename1 old_id new_id a) (rename1 old_id new_id c)).
Proof.
  intros Ho Hn Hd Ha Hc. unfold re_sub_template.
  rewrite parse_reference_template by assumption. cbn [bind]. f_equal.
  apply (re_sub_edge_line old_id new_id Ho); [|assumption|assumption].
  apply expand_reference_template.
Qed.

(** ** Remapping an edge line *)

Lemma str_of_nat_digits (n : nat) : forallb isdigit_ascii (str_of_nat n) = true.
Proof.
  unfold str_of_nat. generalize (Nat.to_uint n). intros u.
  assert (H : forall u, forallb isdigit_ascii (list_ascii_of_string (NilEmpty.string_of_uint u)) = true).
  { induction u0; cbn; auto. }
  unfold NilZero.string_of_uint. destruct u; try apply H; reflexivity.
Qed.

Lemma digit_ident (c : ascii) : isdigit_ascii c = true -> ident_chr c = true.
Proof. unfold ident_chr. intros ->. now rewrite orb_true_r. Qed.

Lemma suffixed_identifier (id : str) (k : nat) :
  is_identifier id = true -> is_identifier (suffixed id k) = true.
Proof.
  intros H. destruct (identifier_inv id H) as (c & t & -> & Hc & Ht).
  unfold is_identifier, suffixed. cbn [app is_empty negb andb forallb].
  rewrite Hc, !forallb_app, Ht. cbn [andb forallb list_ascii_of_string].
  change (ident_chr "_") with true. cbn [andb].
  apply forallb_forall. intros x Hx.
  apply digit_ident. pose proof (str_of_nat_digits k) as Hd.
  rewrite forallb_forall in Hd. now apply Hd.
Qed.

Lemma suffixed_start (id : str) (k : nat) :
  is_identifier id = true ->
  starts_with_digit (suffixed id k) = starts_with_digit id.
Proof. intros H. destruct (identifier_inv id H) as (c & t & -> & _). reflexivity. Qed.

Lemma suffixed_longer (id : str) (k : nat) : length id < length (suffixed id k).
Proof.
  unfold suffixed. rewrite !length_app.
  change (length ("_" : str)) with 1. lia.
Qed.

Lemma good_entry_facts (e : str * str) :
  good_entry e ->
  is_identifier (fst e) = true /\ is_identifier (snd e) = true
  /\ starts_with_digit (snd e) = false /\ length (fst e) < length (snd e).
Proof.
  intros (Hi & Hd & k & Hk). rewrite Hk. repeat split.
  - assumption.
  - now apply suffixed_identifier.
  - now rewrite suffixed_start.
  - apply suffixed_longer.
Qed.

Lemma lookup_id_none_shorter (mapping : list (str * str)) (x : str) :
  (forall e, In e mapping -> length (fst e) < length x) ->
  lookup_id mapping x = None.
Proof.
  induction mapping as [|[k v] mapping IH]; intros H; [reflexivity|].
  cbn [lookup_id]. destruct (eqb x k) eqn:E.
  - apply eqb_eq in E. subst k. specialize (H (x, v) (or_introl eq_refl)). cbn in H. lia.
  - apply IH. intros e He. apply H. now right.
Qed.

Lemma rename1_identifier (old_id new_id t : str) :
  is_identifier new_id = true -> is_identifier t = true ->
  is_identifier (rename1 old_id new_id t) = true.
Proof. intros Hn Ht. unfold rename1. now destruct (eqb t old_id). Qed.

(** After the first remapping, the later ones, whose identifiers are no
    longer, see an identifier they do not rename. *)
Lemma remap_after_rename (k v : str) (rest : list (str * str)) (x : str) :
  length k < length v ->
  (forall e, In e rest -> length (fst e) <= length k) ->
  remap rest (rename1 k v x) = remap ((k, v) :: rest) x.
Proof.
  intros Hlen Hrest. unfold rename1, remap. cbn [lookup_id].
  destruct (eqb x k); [|reflexivity].
  rewrite lookup_id_none_shorter; [reflexivity|].
  intros e He. specialize (Hrest e He). lia.
Qed.

(** The remappings, longest identifier first, applied to an edge line. *)
Lemma rewrite_references_edge (mappings : list (str * str)) (a c : str) :
  List.Forall good_entry mappings -> longest_first mappings ->
  is_identifier a = true -> is_identifier c = true ->
  rewrite_references mappings (edge_line a c)
  = Ok (edge_line (remap mappings a) (remap mappings c)).
Proof.
  revert a c. induction mappings as [|[k v] rest IH]; intros a c Hg Hs Ha Hc.
  - reflexivity.
  - inversion Hg as [|? ? Hkv Hrest]; subst. destruct Hs as [Hlen Hs].
    destruct (good_entry_facts _ Hkv) as (Hk & Hv & Hd & Hl). cbn [fst snd] in *.
    cbn [rewrite_references].
    rewrite rewrite_one_reference by assumption. cbn [bind].
    rewrite IH by (assumption || now apply rename1_identifier).
    now rewrite !(remap_after_rename k v rest) by assumption.
Qed.

(** ** The mapping: a dict, and its sorted items *)

Lemma eqb_sym (a b : str) : eqb a b = eqb b a.
Proof.
  destruct (eqb a b) eqn:E.
  - apply eqb_eq in E. subst. symmetry. apply eqb_refl.
  - apply eqb_neq in E. symmetry. apply eqb_neq. congruence.
Qed.

Lemma insert_longest_first_In (x e : str * str) (l : list (str * str)) :
  In e (insert_longest_first x l) <-> e = x \/ In e l.
Proof.
  induction l as [|y l IH]; cbn [insert_longest_first].
  - cbn. intuition.
  - destruct (_ <? _)%nat; cbn [In]; [rewrite IH|]; intuition.
Qed.

Lemma insert_longest_first_sorted (x : str * str) (l : list (str * str)) :
  longest_first l -> longest_first (insert_longest_first x l).
Proof.
  induction l as [|y l IH]; intros H; cbn [insert_longest_first].
  - cbn. intuition.
  - destruct H as [Hy Hl]. destruct (Nat.ltb_spec (length (fst x)) (length (fst y))) as [Hlt|Hge].
    + cbn [longest_first]. split; [|now apply IH].
      intros e He. apply insert_longest_first_In in He as [->|He]; [lia|now apply Hy].
    + cbn [longest_first]. split; [|split; assumption].
      intros e [<-|He]; [assumption|]. specialize (Hy e He). lia.
Qed.

Lemma sorted_mappings_sorted (d : list (str * str)) : longest_first (sorted_mappings d).
Proof.
  induction d as [|x d IH]; [exact I|]. now apply insert_longest_first_sorted.
Qed.

Lemma sorted_mappings_In (d : list (str * str)) (e : str * str) :
  In e (sorted_mappings d) <-> In e d.
Proof.
  induction d as [|x d IH]; [reflexivity|].
  cbn [sorted_mappings fold_right]. fold (sorted_mappings d).
  rewrite insert_longest_first_In, IH. cbn [In]. intuition.
Qed.

Lemma sorted_mappings_good (d : list (str * str)) :
  List.Forall good_entry d -> List.Forall good_entry (sorted_mappings d).
Proof.
  rewrite !List.Forall_forall. intros H e He. apply H. now apply sorted_mappings_In.
Qed.

Lemma lookup_id_insert (x : str * str) (l : list (str * str)) (y : str) :
  lookup_id l (fst x) = None ->
  lookup_id (insert_longest_first x l) y = lookup_id (x :: l) y.
Proof.
  destruct x as [kx vx]. cbn [fst].
  induction l as [|[k0 v0] l IH]; intros H; [reflexivity|].
  cbn [insert_longest_first fst]. destruct (_ <? _)%nat; [|reflexivity].
  cbn [lookup_id] in H. destruct (eqb kx k0) eqn:E; [discriminate|].
  cbn [lookup_id]. rewrite IH by assumption. cbn [lookup_id].
  destruct (eqb y k0) eqn:E0; [|reflexivity].
  apply eqb_eq in E0. subst y. rewrite eqb_sym in E. now rewrite E.
Qed.

Lemma lookup_id_sorted (d : list (str * str)) (y : str) :
  distinct_keys d -> lookup_id (sorted_mappings d) y = lookup_id d y.
Proof.
  revert y. induction d as [|[k v] d IH]; intros y H; [reflexivity|].
  destruct H as [Hk Hd]. cbn [sorted_mappings fold_right]. fold (sorted_mappings d).
  rewrite lookup_id_insert.
  - cbn [lookup_id]. now rewrite IH.
  - cbn [fst]. now rewrite IH.
Qed.

Lemma remap_sorted (d : list (str * str)) (y : str) :
  distinct_keys d -> remap (sorted_mappings d) y = remap d y.
Proof. intros H. unfold remap. now rewrite lookup_id_sorted. Qed.

Lemma lookup_id_dict_set (k v : str) (d : list (str * str)) (x : str) :
  lookup_id (dict_set k v d) x = if eqb x k then Some v else lookup_id d x.
Proof.
  induction d as [|[k' v'] d IH]; [reflexivity|].
  cbn [dict_set]. destruct (eqb k' k) eqn:E.
  - apply eqb_eq in E. subst k'. cbn [lookup_id]. now destruct (eqb x k).
  - cbn [lookup_id]. rewrite IH. destruct (eqb x k') eqn:E'; [|reflexivity].
    apply eqb_eq in E'. subst x. now rewrite E.
Qed.

Lemma dict_set_distinct (k v : str) (d : list (str * str)) :
  distinct_keys d -> distinct_keys (dict_set k v d).
Proof.
  induction d as [|[k' v'] d IH]; intros H; [cbn; auto|].
  destruct H as [Hk Hd]. cbn [dict_set]. destruct (eqb k' k) eqn:E.
  - apply eqb_eq in E. subst k'. now split.
  - split; [|now apply IH]. rewrite lookup_id_dict_set, E. assumption.
Qed.

Lemma dict_set_good (k v : str) (d : list (str * str)) :
  good_entry (k, v) -> List.Forall good_entry d -> List.Forall good_entry (dict_set k v d).
Proof.
  intros Hkv. induction 1 as [|[k' v'] d Hk' Hd IH].
  - cbn [dict_set]. constructor; [assumption|constructor].
  - cbn [dict_set]. destruct (eqb k' k); constructor; assumption.
Qed.

(** The remappings of the dict applied to an edge line. *)
Lemma rewrite_references_dict (d : list (str * str)) (a c : str) :
  List.Forall good_entry d -> distinct_keys d ->
  is_identifier a = true -> is_identifier c = true ->
  rewrite_references (sorted_mappings d) (edge_line a c)
  = Ok (edge_line (remap d a) (remap d c)).
Proof.
  intros Hg Hd Ha Hc.
  rewrite rewrite_references_edge;
    [|now apply sorted_mappings_good|apply sorted_mappings_sorted|assumption|assumption].
  now rewrite !remap_sorted.
Qed.

(** ** End nodes *)

Lemma forward_rest_skipn (j : nat) (m : mstate) : rest (forward j m) = skipn j (rest m).
Proof.
  revert m. induction j as [|j IH]; intros m; [reflexivity|].
  cbn [forward]. destruct (rest m) as [|c s] eqn:E; [now rewrite E|].
  now rewrite IH.
Qed.

Lemma forward_pos_le (j : nat) (m : mstate) :
  j <= length (rest m) -> pos (forward j m) = pos m + j.
Proof.
  revert m. induction j as [|j IH]; intros m H; [cbn; lia|].
  cbn [forward]. destruct (rest m) as [|c s] eqn:E; [cbn in H; lia|].
  rewrite IH by (cbn in *; lia). cbn [advance pos]. lia.
Qed.

Lemma firstn_add {A} (a b : nat) (l : list A) :
  firstn (a + b) l = firstn a l ++ firstn b (skipn a l).
Proof.
  revert l. induction a as [|a IH]; intros l; [reflexivity|].
  destruct l as [|x l]; [now rewrite !firstn_nil|].
  cbn [Nat.add firstn skipn app]. now rewrite IH.
Qed.

(** The position of the first occurrence of a character. *)
Lemma first_occurrence (c : ascii) (l t : str) (j : nat) (t' : str) :
  ~ In c l ->
  (forall x, In x (firstn j (l ++ c :: t)) -> x <> c) ->
  skipn j (l ++ c :: t) = c :: t' ->
  j = length l.
Proof.
  revert j. induction l as [|x l IH]; intros j Hl Hf Hs.
  - destruct j as [|j]; [reflexivity|]. exfalso.
    apply (Hf c); [now left|reflexivity].
  - destruct j as [|j].
    + cbn in Hs. injection Hs as -> _. exfalso. apply Hl. now left.
    + cbn [length]. f_equal. apply IH.
      * intros H. apply Hl. now right.
      * intros y Hy. apply Hf. now right.
      * exact Hs.
Qed.

(** A pattern of an end node needs its opening symbol. *)
Lemma end_node_needs_open (o cl : ascii) (s : str) :
  ~ In o s -> re_match (re_end_node o cl) s = None.
Proof.
  intros Ho. unfold re_match, match_at, re_end_node.
  rewrite run_seq_cons, run_Bol_start by reflexivity.
  rewrite run_seq_cons, run_Grp. unfold plus. rewrite run_Seq.
  destruct s as [|c s]; [now rewrite run_Cls_end|].
  destruct (ident_chr c) eqn:Hc; [|now rewrite (run_Cls_miss _ _ _ c s)].
  rewrite (run_Cls_hit _ _ _ c s) by (reflexivity || assumption).
  rewrite run_Star_greedy. cbn [advance rest].
  rewrite star_greedy_none; [reflexivity|reflexivity|].
  intros j Hj. rewrite run_seq_cons.
  set (m := capture 1 _ _).
  assert (Hm : rest m = skipn j s).
  { subst m. unfold capture. cbn [rest]. now rewrite forward_rest_skipn. }
  destruct (skipn j s) as [|d t] eqn:E; [now apply run_Cls_end|].
  apply (run_Cls_miss _ _ _ d t Hm). unfold is_chr.
  apply Ascii.eqb_neq. intros ->. apply Ho. right.
  rewrite <- (firstn_skipn j s), E. apply in_or_app. right. now left.
Qed.

Lemma end_match_needs_open (s : str) :
  ~ In "["%char s -> ~ In "{"%char s -> ~ In "("%char s -> end_match s = None.
Proof.
  intros H1 H2 H3. unfold end_match.
  now rewrite !end_node_needs_open by assumption.
Qed.

Lemma run_lit_i (s : str) (k : mstate -> option mstate) (m : mstate) :
  run (lit_i s) k m
  = if startswith (lower (rest m)) (lower s) then k (forward (length s) m) else None.
Proof.
  unfold lit_i. revert m. induction s as [|c s IH]; intros m.
  - reflexivity.
  - cbn [map]. rewrite run_seq_cons. cbn [run lower map startswith length forward].
    destruct (rest m) as [|d t] eqn:E; [reflexivity|].
    change (lower (d :: t)) with (lower_chr d :: lower t). cbn iota.
    unfold is_chr_i at 1. rewrite (Ascii.eqb_sym (lower_chr d)).
    destruct (Ascii.eqb (lower_chr c) (lower_chr d)); [|reflexivity].
    cbn [andb]. rewrite IH. reflexivity.
Qed.

Lemma not_closing_spec (x : ascii) : not_closing x = true <-> x <> "]"%char.
Proof.
  unfold not_closing, none_of, one_of. cbn [existsb mem orb].
  rewrite orb_false_r, negb_true_iff. apply Ascii.eqb_neq.
Qed.

Lemma starts_with_end (r : str) :
  startswith (lower r) (lower "End") = true ->
  exists x y z r', r = x :: y :: z :: r'
                   /\ x <> "]"%char /\ y <> "]"%char /\ z <> "]"%char.
Proof.
  destruct r as [|x [|y [|z r']]]; try discriminate.
  - cbn. now rewrite andb_false_r.
  - cbn. now rewrite !andb_false_r.
  - intros H. exists x, y, z, r'. split; [reflexivity|].
    cbn in H. apply andb_true_iff in H as [Hx H]. apply andb_true_iff in H as [Hy H].
    apply andb_true_iff in H as [Hz _].
    repeat split; intros ->; discriminate.
Qed.

(** What the label part of the pattern reads holds no closing bracket. *)
Lemma end_label_inv (k : mstate -> option mstate) (m e : mstate) :
  run end_label k m = Some e ->
  exists j, j <= length (rest m)
            /\ (forall x, In x (firstn j (rest m)) -> x <> "]"%char)
            /\ k (forward j m) = Some e.
Proof.
  unfold end_label. rewrite run_seq_cons. unfold star at 1. rewrite run_Star_greedy.
  intros H. apply star_greedy_inv in H as (j1 & Hj1 & Hf1 & H); [|reflexivity].
  rewrite run_seq_cons, run_lit_i in H.
  destruct (startswith _ _) eqn:Hs; [|discriminate].
  rewrite forward_rest_skipn in Hs.
  destruct (starts_with_end _ Hs) as (x & y & z & r' & Er & Hx & Hy & Hz).
  cbn [seq] in H. unfold star in H. rewrite run_Star_greedy in H.
  apply star_greedy_inv in H as (j3 & Hj3 & Hf3 & H); [|reflexivity].
  rewrite !forward_rest_skipn, Er in Hj3, Hf3. cbn [length skipn list_ascii_of_string] in Hj3, Hf3.
  change (skipn 0 r') with r' in Hj3, Hf3.
  exists (j1 + (3 + j3)). split; [|split].
  - assert (Hl : length (skipn j1 (rest m)) = 3 + length r') by now rewrite Er.
    rewrite length_skipn in Hl. lia.
  - intros c Hc. rewrite firstn_add, Er in Hc. apply in_app_or in Hc as [Hc|Hc].
    + apply not_closing_spec. rewrite forallb_forall in Hf1. now apply Hf1.
    + cbn [Nat.add firstn] in Hc. destruct Hc as [<-|[<-|[<-|Hc]]]; try assumption.
      apply not_closing_spec. rewrite forallb_forall in Hf3. now apply Hf3.
  - now rewrite 2 forward_add.
Qed.

(** The label part of the pattern reads a label that holds the word. *)
Lemma end_label_some (k : mstate -> option mstate) (m e : mstate) (u w v after : str) :
  rest m = u ++ w ++ v ++ after ->
  lower w = "end" -> ~ In "]"%char u -> ~ In "]"%char v ->
  k (forward (length (u ++ w ++ v)) m) = Some e ->
  exists e', run end_label k m = Some e'.
Proof.
  intros Hm Hw Hu Hv Hk.
  assert (Hnb : forall l, ~ In "]"%char l -> forallb not_closing l = true).
  { intros l Hl. apply forallb_forall. intros x Hx. apply not_closing_spec.
    intros ->. contradiction. }
  assert (Hlw : length w = 3).
  { apply (f_equal (@length ascii)) in Hw. unfold lower in Hw. now rewrite length_map in Hw. }
  rewrite !length_app, 2 forward_add in Hk.
  unfold end_label. rewrite run_seq_cons. unfold star at 1. rewrite run_Star_greedy, Hm.
  assert (Hr1 : rest (forward (length u) m) = w ++ v ++ after).
  { now apply forward_rest. }
  assert (Hr2 : rest (forward (length w) (forward (length u) m)) = v ++ after).
  { now apply forward_rest. }
  destruct (star_greedy_some k not_closing v after
              (forward (length w) (forward (length u) m)) e Hr2 (Hnb v Hv) Hk)
    as (e1 & He1).
  eapply (star_greedy_some _ not_closing u (w ++ v ++ after) m e1 Hm (Hnb u Hu)).
  rewrite run_seq_cons, run_lit_i, Hr1, lower_app, Hw.
  change (lower "End") with ("end" : str). rewrite startswith_app.
  change (length ("End" : str)) with 3. rewrite <- Hlw.
  cbn [seq]. unfold star. rewrite run_Star_greedy, Hr2. exact He1.
Qed.

Lemma re_end_node_square :
  re_end_node "[" "]"
  = seq [Bol; Grp 1 (plus ident_chr); Cls (is_chr "["); Grp 2 end_label; Cls (is_chr "]")].
Proof. reflexivity. Qed.

Lemma is_chr_true (c x : ascii) : is_chr c x = true -> x = c.
Proof. unfold is_chr. intros H. apply Ascii.eqb_eq in H. congruence. Qed.

Lemma identifier_no_punct (id : str) (x : ascii) :
  forallb ident_chr id = true -> mem x "[]{}()|->\ " = true -> ~ In x id.
Proof.
  intros Hid Hx Hin. rewrite forallb_forall in Hid.
  pose proof (ident_chr_not_punct x (Hid x Hin)). congruence.
Qed.

Lemma forward_caps_capture (n j : nat) (m0 m : mstate) :
  caps (forward j (capture n m0 m))
  = (n, firstn (pos m - pos m0) (rest m0)) :: caps m.
Proof. now rewrite forward_caps. Qed.

(** What the pattern of an end node between square brackets captures on a
    definition: the identifier and the label. *)
Lemma end_node_inv (id label : str) (e : mstate) :
  is_identifier id = true -> ~ In "]"%char label ->
  let s := id ++ "[" ++ label ++ "]" in
  run (re_end_node "[" "]") Some (start_of s) = Some e ->
  group (RMatch (start_of s) e) 1 = id /\ group (RMatch (start_of s) e) 2 = label.
Proof.
  intros Hid Hlab s H. rewrite re_end_node_square in H.
  set (m0 := start_of s) in *.
  rewrite run_seq_cons, run_Bol_start in H by reflexivity.
  rewrite run_seq_cons, run_Grp in H. unfold plus in H. rewrite run_Seq in H.
  apply run_Cls_inv in H as (c0 & s0 & Hr0 & Hc0 & H).
  rewrite run_Star_greedy in H.
  apply star_greedy_inv in H as (j & Hj & Hf & H); [|reflexivity].
  rewrite <- forward_add in H.
  set (m1 := forward (1 + j) m0) in *.
  rewrite run_seq_cons in H. apply run_Cls_inv in H as (c1 & s1 & Hr1 & Hc1 & H).
  apply is_chr_true in Hc1. subst c1.
  set (m3 := forward 1 (capture 1 m0 m1)) in *.
  rewrite run_seq_cons, run_Grp in H.
  apply end_label_inv in H as (j2 & Hj2 & Hf2 & H).
  cbn [seq] in H. apply run_Cls_inv in H as (c2 & s2 & Hr2 & Hc2 & H).
  apply is_chr_true in Hc2. subst c2.
  assert (Hcaps : caps e = [(2, firstn (pos (forward j2 m3) - pos m3) (rest m3));
                            (1, firstn (pos m1 - pos m0) (rest m0))]).
  { assert (He : e = forward 1 (capture 2 m3 (forward j2 m3))) by congruence.
    rewrite He, forward_caps_capture, forward_caps. f_equal.
    subst m3. rewrite forward_caps_capture. f_equal. subst m1. now rewrite forward_caps. }
  clear H.
  (* the first group *)
  assert (Hs0 : rest (forward 1 m0) = s0).
  { rewrite forward_rest_skipn, Hr0. reflexivity. }
  rewrite Hs0 in Hj, Hf.
  assert (Hm1 : rest m1 = "["%char :: s1).
  { exact Hr1. }
  assert (Hn1 : 1 + j = length id).
  { apply (first_occurrence "[" id (label ++ "]") (1 + j) s1).
    - apply identifier_no_punct; [now apply identifier_chars|reflexivity].
    - intros x Hx. change (id ++ "["%char :: label ++ "]") with s in Hx.
      change s with (rest m0) in Hx. rewrite Hr0 in Hx. cbn [Nat.add firstn] in Hx.
      assert (Hi : ident_chr x = true).
      { destruct Hx as [<-|Hx]; [assumption|]. rewrite forallb_forall in Hf. now apply Hf. }
      intros ->. discriminate.
    - change (id ++ "["%char :: label ++ "]") with (rest m0).
      rewrite <- forward_rest_skipn. exact Hm1. }
  assert (Hs1 : s1 = label ++ "]").
  { subst m1. rewrite forward_rest_skipn, Hn1 in Hm1. change (rest m0) with s in Hm1.
    unfold s in Hm1. rewrite skipn_app, Nat.sub_diag, skipn_all in Hm1.
    cbn [app skipn] in Hm1. now injection Hm1. }
  assert (Hp1 : pos m1 - pos m0 = length id).
  { subst m1. rewrite forward_pos_le; [lia|].
    change (rest m0) with s. unfold s. rewrite Hn1, length_app. lia. }
  (* the second group *)
  assert (Hm3 : rest m3 = label ++ "]").
  { subst m3. rewrite forward_rest_skipn. unfold capture. cbn [rest]. rewrite Hm1, Hs1.
    reflexivity. }
  rewrite Hm3 in Hj2, Hf2.
  assert (Hn2 : j2 = length label).
  { apply (first_occurrence "]" label [] j2 s2); [assumption|assumption|].
    unfold capture in Hr2. cbn [rest] in Hr2.
    rewrite forward_rest_skipn, Hm3 in Hr2. exact Hr2. }
  assert (Hp2 : pos (forward j2 m3) - pos m3 = length label).
  { rewrite forward_pos_le; [lia|]. rewrite Hm3, Hn2, length_app. lia. }
  unfold group. cbn [m_end]. rewrite Hcaps. cbn [List.find fst snd Nat.eqb].
  rewrite Hp1, Hp2, Hm3. change (rest m0) with s. unfold s.
  split; now rewrite firstn_app, Nat.sub_diag, firstn_all, app_nil_r.
Qed.

Lemma star_greedy_some_ex (k : mstate -> option mstate) (p : ascii -> bool)
      (ws r : str) (m : mstate) :
  rest m = ws ++ r -> forallb p ws = true ->
  (exists e, k (forward (length ws) m) = Some e) ->
  exists e', star_greedy k p m (ws ++ r) = Some e'.
Proof. intros Hm Hp (e & He). eapply star_greedy_some; eassumption. Qed.

Lemma end_label_some_ex (k : mstate -> option mstate) (m : mstate) (u w v after : str) :
  rest m = u ++ w ++ v ++ after ->
  lower w = "end" -> ~ In "]"%char u -> ~ In "]"%char v ->
  (exists e, k (forward (length (u ++ w ++ v)) m) = Some e) ->
  exists e', run end_label k m = Some e'.
Proof. intros Hm Hw Hu Hv (e & He). eapply end_label_some; eassumption. Qed.

Lemma lower_split (label p w q : str) :
  lower label = p ++ w ++ q ->
  exists u w' v, label = u ++ w' ++ v /\ lower w' = w.
Proof.
  unfold lower. intros H.
  apply map_eq_app in H as (u & t & -> & Hu & Ht).
  apply map_eq_app in Ht as (w' & v & -> & Hw & Hv).
  now exists u, w', v.
Qed.

(** The pattern of an end node between square brackets matches a
    definition whose label holds the word. *)
Lemma end_node_some (id label : str) :
  is_identifier id = true -> ~ In "]"%char label ->
  contains (lower label) "end" = true ->
  exists e, run (re_end_node "[" "]") Some (start_of (id ++ "[" ++ label ++ "]")) = Some e.
Proof.
  intros Hid Hlab Hend.
  apply contains_iff in Hend as (p & q & Hend).
  apply lower_split in Hend as (u & w & v & -> & Hw).
  assert (Hu : ~ In "]"%char u).
  { intros H. apply Hlab. apply in_or_app. now left. }
  assert (Hv : ~ In "]"%char v).
  { intros H. apply Hlab. apply in_or_app. right. apply in_or_app. now right. }
  destruct (identifier_inv id Hid) as (c0 & id' & -> & Hc0 & Hid').
  rewrite re_end_node_square.
  rewrite run_seq_cons, run_Bol_start by reflexivity.
  rewrite run_seq_cons, run_Grp. unfold plus. rewrite run_Seq.
  rewrite (run_Cls_hit _ _ _ c0 (id' ++ "[" ++ (u ++ w ++ v) ++ "]")) by (reflexivity || assumption).
  rewrite run_Star_greedy. cbn [advance rest].
  apply star_greedy_some_ex; [reflexivity|assumption|].
  set (m1 := forward (length id') _).
  assert (Hm1 : rest (capture 1 (start_of ((c0 :: id') ++ "[" ++ (u ++ w ++ v) ++ "]")) m1)
                = "["%char :: (u ++ w ++ v) ++ "]").
  { subst m1. unfold capture. cbn [rest]. now rewrite (forward_rest id' ("[" ++ (u ++ w ++ v) ++ "]")). }
  rewrite run_seq_cons.
  rewrite (run_Cls_hit _ _ _ _ _ Hm1) by reflexivity.
  rewrite run_seq_cons, run_Grp.
  apply (end_label_some_ex _ _ u w v "]"); try assumption.
  { cbn [advance rest]. now rewrite <- !app_assoc. }
  set (m3 := advance _ _ _).
  assert (Hm3 : rest (capture 2 m3 (forward (length (u ++ w ++ v)) m3)) = ["]"%char]).
  { unfold capture. cbn [rest]. now rewrite (forward_rest (u ++ w ++ v) "]"). }
  cbn [seq]. rewrite (run_Cls_hit _ _ _ _ _ Hm3) by reflexivity. eauto.
Qed.

(** A definition of an end node is matched as one, with its identifier and
    its label as the two groups. *)
Lemma end_match_def (id label : str) :
  is_identifier id = true -> ~ In "]"%char label ->
  contains (lower label) "end" = true ->
  exists m, end_match (id ++ "[" ++ label ++ "]") = Some m
            /\ group m 1 = id /\ group m 2 = label.
Proof.
  intros Hid Hlab Hend.
  destruct (end_node_some id label Hid Hlab Hend) as (e & He).
  destruct (end_node_inv id label e Hid Hlab He) as [H1 H2].
  exists (RMatch (start_of (id ++ "[" ++ label ++ "]")) e).
  split; [|now split].
  unfold end_match, re_match, match_at. now rewrite He.
Qed.

(** ** The renaming of end nodes, line by line *)

Lemma mem_In (c : ascii) (s : str) : mem c s = true <-> In c s.
Proof.
  unfold mem. rewrite existsb_exists. split.
  - intros (x & Hx & E). apply Ascii.eqb_eq in E. now subst.
  - intros H. exists c. split; [assumption|apply Ascii.eqb_refl].
Qed.

Lemma mem_not_In (c : ascii) (s : str) : mem c s = false <-> ~ In c s.
Proof.
  rewrite <- mem_In. destruct (mem c s); split; intros H; congruence.
Qed.

Lemma startswith_token (a r p : str) :
  forallb ident_chr p = true ->
  (forall c r', r = c :: r' -> ident_chr c = false) ->
  startswith (a ++ r) p = true -> startswith a p = true.
Proof.
  revert a. induction p as [|x p IH]; intros a Hp Hr H; [reflexivity|].
  cbn [forallb] in Hp. apply andb_true_iff in Hp as [Hx Hp].
  destruct a as [|y a].
  - cbn [app] in H. destruct r as [|c r']; [discriminate|].
    cbn [startswith] in H. apply andb_true_iff in H as [E _].
    apply Ascii.eqb_eq in E. subst c. rewrite (Hr x r' eq_refl) in Hx. discriminate.
  - cbn [app startswith] in H |- *. apply andb_true_iff in H as [E H].
    rewrite E. cbn [andb]. now apply IH.
Qed.

Lemma identifier_first (t : str) :
  is_identifier t = true ->
  exists c t', t = c :: t' /\ isspace c = false.
Proof.
  intros H. destruct (identifier_inv t H) as (c & t' & -> & Hc & _).
  exists c, t'. split; [reflexivity|now apply ident_chr_not_space].
Qed.

Lemma identifier_end (t : str) :
  is_identifier t = true ->
  exists r d, t = r ++ [d] /\ isspace d = false.
Proof.
  intros H. destruct (identifier_last t H) as (d & r & E & Hd).
  exists (rev r), d. split; [|now apply ident_chr_not_space].
  apply (f_equal (@rev ascii)) in E. rewrite rev_involutive in E. exact E.
Qed.

Lemma strip_def_line (id label : str) :
  is_identifier id = true ->
  strip (def_line id label) = id ++ "[" ++ label ++ "]".
Proof.
  intros H. destruct (identifier_first id H) as (c & t & -> & Hc).
  unfold def_line.
  pose proof (strip_core "    " [] c "]" (t ++ "[" ++ label)) as E.
  rewrite app_nil_r in E.
  replace ((c :: t) ++ "[" ++ label ++ "]") with (c :: (t ++ "[" ++ label) ++ ["]"%char]).
  - apply E; reflexivity || assumption.
  - cbn [app]. f_equal. now rewrite <- !app_assoc.
Qed.

Lemma strip_edge_line (a c : str) :
  is_identifier a = true -> is_identifier c = true ->
  strip (edge_line a c) = a ++ " --> " ++ c.
Proof.
  intros Ha Hc. destruct (identifier_first a Ha) as (x & t & -> & Hx).
  destruct (identifier_end c Hc) as (r & d & -> & Hd).
  unfold edge_line.
  pose proof (strip_core "    " [] x d (t ++ " --> " ++ r)) as E.
  rewrite app_nil_r in E.
  replace ((x :: t) ++ " --> " ++ r ++ [d]) with (x :: (t ++ " --> " ++ r) ++ [d]).
  - apply E; reflexivity || assumption.
  - cbn [app]. f_equal. rewrite <- !app_assoc. reflexivity.
Qed.

Lemma edge_no_open (a c : str) (x : ascii) :
  is_identifier a = true -> is_identifier c = true ->
  mem x "[{(" = true -> ~ In x (a ++ " --> " ++ c).
Proof.
  intros Ha Hc Hx Hin.
  assert (Hp : mem x "[]{}()|->\ " = true).
  { apply mem_In in Hx. apply mem_In.
    cbn in Hx |- *. intuition. }
  apply in_app_or in Hin as [Hin|Hin].
  - now apply (identifier_no_punct a x (identifier_chars a Ha) Hp).
  - apply in_app_or in Hin as [Hin|Hin].
    + apply mem_In in Hx. cbn in Hx, Hin.
      intuition (subst; discriminate).
    + now apply (identifier_no_punct c x (identifier_chars c Hc) Hp).
Qed.

Lemma end_match_edge (a c : str) :
  is_identifier a = true -> is_identifier c = true ->
  end_match (a ++ " --> " ++ c) = None.
Proof.
  intros Ha Hc. apply end_match_needs_open; apply edge_no_open; auto.
Qed.

Lemma not_keyword_token (a r : str) :
  startswith a keyword = false ->
  (forall c r', r = c :: r' -> ident_chr c = false) ->
  startswith (a ++ r) "flowchart" = false.
Proof.
  intros Ha Hr. destruct (startswith (a ++ r) "flowchart") eqn:E; [|reflexivity].
  apply startswith_token in E; [unfold keyword in Ha; congruence|reflexivity|assumption].
Qed.

Lemma is_empty_identifier (a r : str) : is_identifier a = true -> is_empty (a ++ r) = false.
Proof.
  intros H. destruct (identifier_inv a H) as (c & t & -> & _). reflexivity.
Qed.

Lemma occurrences_cons (id : str) (seen : list str) (x : str) :
  occurrences (id :: seen) x
  = if eqb x id then S (occurrences seen x) else occurrences seen x.
Proof. unfold occurrences. cbn [List.filter]. now destruct (eqb x id). Qed.

Lemma tracks_empty : tracks ∅ [] [].
Proof.
  repeat split; try constructor; intros x; apply lookup_empty.
Qed.

Lemma tracks_current (counter : gmap str nat) (mapping : list (str * str))
      (seen : list str) (x : str) :
  tracks counter mapping seen -> remap mapping x = current_id seen x.
Proof.
  intros (_ & Hm & _). unfold remap, current_id. rewrite Hm.
  now destruct (occurrences seen x) as [|[|k]].
Qed.

Lemma tracks_first (counter : gmap str nat) (mapping : list (str * str))
      (seen : list str) (id : str) :
  tracks counter mapping seen -> occurrences seen id = 0 ->
  tracks (<[id := 0]> counter) mapping (id :: seen).
Proof.
  intros (Hc & Hm & Hd & Hg) H0. repeat split; try assumption.
  - intros x. rewrite occurrences_cons. destruct (eqb x id) eqn:E.
    + apply eqb_eq in E. subst x. rewrite H0. apply lookup_insert_eq.
    + apply eqb_neq in E. rewrite lookup_insert_ne by congruence. apply Hc.
  - intros x. rewrite occurrences_cons. destruct (eqb x id) eqn:E.
    + apply eqb_eq in E. subst x. rewrite Hm, H0. reflexivity.
    + apply Hm.
Qed.

Lemma tracks_later (counter : gmap str nat) (mapping : list (str * str))
      (seen : list str) (id : str) (k : nat) :
  tracks counter mapping seen -> occurrences seen id = S k ->
  is_identifier id = true -> starts_with_digit id = false ->
  tracks (<[id := S k]> counter) (dict_set id (suffixed id (S k)) mapping) (id :: seen).
Proof.
  intros (Hc & Hm & Hd & Hg) Hk Hid Hdig. repeat split.
  - intros x. rewrite occurrences_cons. destruct (eqb x id) eqn:E.
    + apply eqb_eq in E. subst x. rewrite Hk. apply lookup_insert_eq.
    + apply eqb_neq in E. rewrite lookup_insert_ne by congruence. apply Hc.
  - intros x. rewrite lookup_id_dict_set, occurrences_cons. destruct (eqb x id) eqn:E.
    + apply eqb_eq in E. subst x. now rewrite Hk.
    + apply Hm.
  - now apply dict_set_distinct.
  - apply dict_set_good; [|assumption].
    repeat split; try assumption. now exists (S k).
Qed.

Lemma well_formed_def (id label : str) :
  well_formed (EndDef id label) = true ->
  is_identifier id = true /\ starts_with_digit id = false
  /\ startswith id keyword = false /\ contains (lower label) "end" = true
  /\ ~ In "]"%char label /\ ~ In nl label.
Proof.
  cbn [well_formed]. rewrite !andb_true_iff, !negb_true_iff, !mem_not_In. tauto.
Qed.

Lemma well_formed_edge (a c : str) :
  well_formed (EdgeLine a c) = true ->
  is_identifier a = true /\ is_identifier c = true /\ startswith a keyword = false.
Proof.
  cbn [well_formed]. rewrite !andb_true_iff, !negb_true_iff. tauto.
Qed.

Lemma suffixed_differs (id : str) (k : nat) : eqb id (suffixed id k) = false.
Proof.
  apply eqb_neq. intros E. pose proof (suffixed_longer id k) as H.
  rewrite <- E in H. lia.
Qed.

(** The loop of [_normalize_end_nodes] over well-formed lines, from any
    state of its two dicts. *)
Lemma end_nodes_lines_normalized (ls : list chart_line) :
  forall (counter : gmap str nat) (mapping : list (str * str)) (seen : list str),
    tracks counter mapping seen ->
    forallb well_formed ls = true ->
    end_nodes_lines counter mapping (map render ls) = Ok (normalized seen ls).
Proof.
  induction ls as [|l ls IH]; intros counter mapping seen Ht Hwf; [reflexivity|].
  cbn [forallb] in Hwf. apply andb_true_iff in Hwf as [Hl Hwf].
  destruct l as [id label|a c].
  - apply well_formed_def in Hl as (Hid & Hdig & Hkw & Hend & Hclose & _).
    cbn [map render end_nodes_lines normalized].
    rewrite strip_def_line by assumption.
    rewrite is_empty_identifier by assumption.
    rewrite not_keyword_token; [|assumption|intros ? ? [= <- _]; reflexivity].
    cbn [orb].
    destruct (end_match_def id label Hid Hclose Hend) as (m & -> & -> & ->).
    rewrite contains_app_l.
    unfold get_unique_end_id. destruct Ht as (Hc & Hrest).
    pose proof (Hc id) as Hcid.
    unfold current_id. rewrite occurrences_cons, eqb_refl.
    destruct (occurrences seen id) as [|k] eqn:Hocc; rewrite Hcid.
    + rewrite eqb_refl.
      rewrite (IH _ mapping (id :: seen)); [reflexivity| |assumption].
      apply tracks_first; [split; assumption|assumption].
    + fold (suffixed id (S k)). rewrite suffixed_differs.
      rewrite (IH _ _ (id :: seen)); [reflexivity| |assumption].
      apply tracks_later; try assumption. split; assumption.
  - apply well_formed_edge in Hl as (Ha & Hc & Hkw).
    cbn [map render end_nodes_lines normalized].
    rewrite strip_edge_line by assumption.
    rewrite is_empty_identifier by assumption.
    rewrite not_keyword_token; [|assumption|intros ? ? [= <- _]; reflexivity].
    cbn [orb]. rewrite end_match_edge by assumption.
    assert (Harrow : contains (edge_line a c) "-->" = true).
    { unfold edge_line. apply contains_iff. exists ("    " ++ a ++ " "), (" " ++ c).
      now rewrite <- !app_assoc. }
    rewrite Harrow.
    destruct Ht as (Hcn & Hm & Hd & Hg).
    rewrite rewrite_references_dict by assumption.
    rewrite !(tracks_current counter mapping seen) by (repeat split; assumption).
    cbn [bind].
    rewrite (IH counter mapping seen); [reflexivity| |assumption].
    repeat split; assumption.
Qed.

(** ** The renaming of end nodes *)

Lemma identifier_one_line (t : str) : is_identifier t = true -> ~ In nl t.
Proof.
  intros H Hin. pose proof (identifier_chars t H) as Hall.
  rewrite forallb_forall in Hall. specialize (Hall nl Hin). discriminate.
Qed.

Lemma render_one_line (l : chart_line) : well_formed l = true -> ~ In nl (render l).
Proof.
  destruct l as [id label|a c]; intros Hl Hin.
  - apply well_formed_def in Hl as (Hid & _ & _ & _ & _ & Hnl).
    cbn [render] in Hin. unfold def_line in Hin.
    apply in_app_or in Hin as [Hin|Hin]; [cbn in Hin; intuition discriminate|].
    apply in_app_or in Hin as [Hin|Hin]; [now apply (identifier_one_line id)|].
    apply in_app_or in Hin as [Hin|Hin]; [cbn in Hin; intuition discriminate|].
    apply in_app_or in Hin as [Hin|Hin]; [contradiction|cbn in Hin; intuition discriminate].
  - apply well_formed_edge in Hl as (Ha & Hc & _).
    cbn [render] in Hin. unfold edge_line in Hin.
    apply in_app_or in Hin as [Hin|Hin]; [cbn in Hin; intuition discriminate|].
    apply in_app_or in Hin as [Hin|Hin]; [now apply (identifier_one_line a)|].
    apply in_app_or in Hin as [Hin|Hin]; [cbn in Hin; intuition discriminate|].
    now apply (identifier_one_line c).
Qed.

(** The renaming where it works.  On a chart made of the header,
    definitions of end nodes between square brackets and edges written with
    spaces around the arrow, whose identifiers do not begin with a digit or
    with the keyword: the first definition of an identifier keeps it, the
    definition that claims it for the [k]-th further time gets the
    identifier with the suffix [_k], every label is normalized, and the two
    ends of an edge are replaced by the suffixed identifier of the latest
    definition above the edge when the identifier is defined more than once
    there, and kept otherwise, whatever longer or shorter identifiers are
    remapped. *)
Theorem end_nodes_renamed (ls : list chart_line) :
  forallb well_formed ls = true ->
  _normalize_end_nodes (unlines (("flowchart TD" : str) :: map render ls))
  = Ok (unlines (("flowchart TD" : str) :: normalized [] ls)).
Proof.
  intros Hwf. unfold _normalize_end_nodes, unlines.
  rewrite split_chr_join.
  - cbn [end_nodes_lines].
    change (strip "flowchart TD") with ("flowchart TD" : str).
    change (is_empty ("flowchart TD" : str) || startswith "flowchart TD" "flowchart")
      with true.
    cbn iota.
    now rewrite (end_nodes_lines_normalized ls ∅ [] [] tracks_empty Hwf).
  - discriminate.
  - constructor.
    + cbn. intuition discriminate.
    + rewrite forallb_forall in Hwf. apply List.Forall_forall.
      intros l Hl. apply in_map_iff in Hl as (x & <- & Hx).
      apply render_one_line. now apply Hwf.
Qed.

Lemma end_nodes_renamed_witness :
  _normalize_end_nodes
    (unlines ["flowchart TD" : str;
              "    A --> End" : str;
              "    End[End of process]" : str;
              "    End[end with errors]" : str;
              "    End2[Backend]" : str;
              "    End[Ended: late]" : str;
              "    A --> End" : str;
              "    End2 --> End" : str;
              "    End_1 --> B" : str])
  = Ok (unlines ["flowchart TD" : str;
                 "    A --> End" : str;
                 "    End[End: of process]" : str;
                 "    End_1[End: with errors]" : str;
                 "    End2[Backend]" : str;
                 "    End_2[Ended: late]" : str;
                 "    A --> End_2" : str;
                 "    End2 --> End_2" : str;
                 "    End_1 --> B" : str]).
Proof.
  exact (end_nodes_renamed
           [EdgeLine "A" "End"; EndDef "End" "End of process";
            EndDef "End" "end with errors"; EndDef "End2" "Backend";
            EndDef "End" "Ended: late"; EdgeLine "A" "End";
            EdgeLine "End2" "End"; EdgeLine "End_1" "B"]
           eq_refl).
Defined.

(** C4 (failing input).  The identifier [End] is remapped to [End_1] by
    the second definition.  Of the edges below it, the one that names [End]
    with spaces around the arrow is rewritten; the one that names it right
    after the arrow and the one that names it with the shape of its node
    behind it keep the old identifier, and the label [End] of another node
    is rewritten as if it were a reference.  The pattern replaces the
    identifier only after the start of the line, a white space or an
    opening symbol, and before an arrow, a pipe, the end of the line or a
    closing symbol. *)
Theorem end_nodes_reference_not_rewritten :
  _normalize_end_nodes
    (unlines ["flowchart TD" : str;
              "    End[End of process]" : str;
              "    End[End with errors]" : str;
              "    A-->End" : str;
              "    B --> End[Done]" : str;
              "    B --> A[End]" : str;
              "    C --> End" : str])
  = Ok (unlines ["flowchart TD" : str;
                 "    End[End: of process]" : str;
                 "    End_1[End: with errors]" : str;
                 "    A-->End" : str;
                 "    B --> End[Done]" : str;
                 "    B --> A[End_1]" : str;
                 "    C --> End_1" : str]).
Proof. vm_compute. reflexivity. Qed.

(** An identifier that begins with a digit and is defined twice: the
    template of the replacement reads the digit as part of the number of
    the group, and the next edge makes [re.sub] raise. *)
Lemma end_nodes_digit_identifier_raises :
  _normalize_end_nodes
    (unlines ["flowchart TD" : str;
              "    1End[End of process]" : str;
              "    1End[End with errors]" : str;
              "    A --> B" : str])
  = Raise (Exn "re.error" "invalid group reference 11").
Proof. vm_compute. reflexivity. Qed.

(** ** The diagram a response carries *)

Lemma save_outputs_only_paths (self : FlowchartAgent) (mermaid_code : str)
      (output_format filename : pyval) (file_paths : gmap string pyval) (k : string) :
  _save_outputs self mermaid_code output_format filename = Ok file_paths ->
  k <> "mermaid_file"%string -> k <> "png_file"%string ->
  file_paths !! k = None.
Proof.
  unfold _save_outputs. intros H Hm Hp. revert H.
  destruct (is_one_of output_format ["mermaid" : str; "both" : str]);
    destruct (is_one_of output_format ["png" : str; "both" : str]);
    cbn [bind];
    repeat match goal with
           | |- context [write_text ?s ?p ?c] => destruct (write_text s p c); cbn [bind]
           | |- context [_export_png ?s ?c ?p] => destruct (_export_png s c p); cbn [bind]
           end;
    try discriminate; intros [= <-];
    repeat (rewrite lookup_insert_ne by congruence); apply lookup_empty.
Qed.

Lemma from_response_valid_or_fallback (description full_response code : str) :
  from_response description full_response = Ok code ->
  code = _generate_fallback_flowchart description \/ _validate_mermaid code = true.
Proof.
  unfold from_response.
  destruct (is_empty (_extract_mermaid full_response)); [intros [= <-]; now left|].
  cbv zeta.
  match goal with
  | |- bind ?c _ = _ -> _ => destruct c as [c'|e]; cbn [bind]; [|discriminate]
  end.
  destruct (_validate_mermaid c') eqn:Hv; cbn [negb]; intros [= <-]; [now right|now left].
Qed.

Lemma generate_mermaid_result
    (self : FlowchartAgent) (description : pyval) (level code : str) :
  _generate_mermaid self description level = Ok code ->
  exists d, description = VStr d /\ strip d <> []
            /\ (code = _generate_fallback_flowchart (strip d)
                \/ _validate_mermaid code = true).
Proof.
  unfold _generate_mermaid.
  destruct (ai_model self) as [model|]; [|discriminate].
  destruct description as [d| | | |mu content text|]; try discriminate.
  2:{ destruct (is_empty (strip_bytes content)); [discriminate|].
      destruct (_resolve_mode level); discriminate. }
  destruct (strip d) as [|c t] eqn:Es; [discriminate|]. cbn [is_empty].
  destruct (_resolve_mode level) as [mode|e]; cbn [bind]; [|discriminate].
  intros H. exists d. split; [reflexivity|]. rewrite Es. split; [discriminate|].
  destruct (model _) as [full_response|e]; cbn [bind] in H.
  - destruct (from_response (c :: t) full_response) as [code'|e] eqn:Hf.
    + injection H as <-. now apply (from_response_valid_or_fallback _ full_response).
    + injection H as <-. now left.
  - injection H as <-. now left.
Qed.

(** A response of status [SUCCESS] carries a result with a diagram that is
    not empty, accepted by the validator or the fallback of the trimmed
    description, and with the level of the request (the default level of the
    agent when the request names none); it carries no error. *)
Theorem success_carries_diagram (self : FlowchartAgent) (request : gmap string pyval) :
  status (snd (process self request)) = SUCCESS ->
  exists res d code,
    result_of (snd (process self request)) = Some res
    /\ error (snd (process self request)) = None
    /\ request !! "description"%string = Some (VStr d)
    /\ res !! "mermaid_code"%string = Some (VStr code)
    /\ code <> []
    /\ (code = _generate_fallback_flowchart (strip d) \/ _validate_mermaid code = true)
    /\ res !! "level"%string = Some (get_or request "level" (default_level self)).
Proof.
  unfold process.
  destruct (process_body self request) as [[res meta]|exc] eqn:Hb; cbn; [|discriminate].
  intros _. unfold process_body in Hb. rewrite validate_request_description in Hb.
  destruct (request !! "description"%string) as [v|] eqn:Hd; [|discriminate].
  cbn [bind] in Hb. unfold get_or in Hb at 1. rewrite Hd in Hb.
  destruct (_generate_mermaid self v _) as [code|e] eqn:Hg; [|discriminate].
  cbn [bind] in Hb.
  destruct (generate_mermaid_result _ _ _ _ Hg) as (d & -> & Hne & Hcode).
  exists res, d, code. split; [reflexivity|]. split; [reflexivity|]. split; [reflexivity|].
  assert (Hcode_ne : code <> []).
  { destruct Hcode as [->|Hv]; [apply fallback_not_empty|].
    intros ->. discriminate. }
  destruct (save_to_file self || is_one_of _ _).
  - destruct (_save_outputs self code _ _) as [file_paths|e] eqn:Hs; [|discriminate].
    cbn [bind] in Hb. injection Hb as <- _.
    rewrite !lookup_union_r
      by (apply (save_outputs_only_paths _ _ _ _ _ _ Hs); discriminate).
    rewrite lookup_insert_ne by discriminate. rewrite !lookup_insert_eq. auto.
  - cbn [bind] in Hb. injection Hb as <- _.
    rewrite lookup_insert_ne by discriminate. rewrite !lookup_insert_eq. auto.
Qed.

Lemma success_carries_diagram_witness :
  let self := example_agent (fun _ => Ok ("no chart here" : str)) (Ok tt) in
  let request : gmap string pyval := {[ "description"%string := VStr "make tea" ]} in
  exists res d code,
    result_of (snd (process self request)) = Some res
    /\ error (snd (process self request)) = None
    /\ request !! "description"%string = Some (VStr d)
    /\ res !! "mermaid_code"%string = Some (VStr code)
    /\ code <> []
    /\ (code = _generate_fallback_flowchart (strip d) \/ _validate_mermaid code = true)
    /\ res !! "level"%string = Some (get_or request "level" (default_level self)).
Proof.
  intros self request.
  exact (success_carries_diagram self request eq_refl).
Defined.

(** ** Requests that are refused *)

Lemma resolve_mode_raises (level : str) (e : exn) :
  _resolve_mode level = Raise e ->
  e = ValueError "Level must be 1, 2, 3, or a known mode name".
Proof.
  unfold _resolve_mode. cbv zeta.
  repeat match goal with
         | |- context [if ?b then _ else _] => destruct b; try discriminate
         end.
  destruct (LEVEL_TO_MODE _); [discriminate|]. now intros [= <-].
Qed.

(** A level that names no mode is refused before the model is called: the
    response has status [ERROR] and the message of [_resolve_mode], whatever
    the model would answer; no fallback diagram is made. *)
Theorem unknown_level_is_error
    (self : FlowchartAgent) (request : gmap string pyval)
    (model : Prompt -> result str) (d : str) :
  ai_model self = Some model ->
  request !! "description"%string = Some (VStr d) ->
  strip d <> [] ->
  (forall mode,
      _resolve_mode (py_str (get_or request "level" (default_level self))) <> Ok mode) ->
  let r := snd (process self request) in
  status r = ERROR /\ result_of r = None
  /\ error r = Some ("Level must be 1, 2, 3, or a known mode name" : str).
Proof.
  intros Hm Hd Hne Hl r.
  assert (Hb : process_body self request
               = Raise (ValueError "Level must be 1, 2, 3, or a known mode name")).
  { unfold process_body. rewrite validate_request_description, Hd. cbn [bind].
    unfold get_or at 1. rewrite Hd. unfold _generate_mermaid. rewrite Hm.
    destruct (strip d) as [|c t]; [congruence|]. cbn [is_empty].
    destruct (_resolve_mode _) as [mode|e] eqn:Hr; [now destruct (Hl mode)|].
    apply resolve_mode_raises in Hr. subst e. reflexivity. }
  subst r. unfold process. rewrite Hb. repeat split; reflexivity.
Qed.

Lemma unknown_level_is_error_witness :
  let self := example_agent (fun _ => Ok ("flowchart TD" : str)) (Ok tt) in
  let request : gmap string pyval :=
    <[ "level"%string := VInt 4 ]> {[ "description"%string := VStr "make tea" ]} in
  let r := snd (process self request) in
  status r = ERROR /\ result_of r = None
  /\ error r = Some ("Level must be 1, 2, 3, or a known mode name" : str).
Proof.
  intros self request.
  apply (unknown_level_is_error self request (fun _ => Ok ("flowchart TD" : str)) "make tea");
    [reflexivity|reflexivity|discriminate|].
  intros mode. vm_compute. discriminate.
Defined.

(** ** Output files *)

(** An output format other than [mermaid], [png] and [both] writes no file
    and exports nothing: [_save_outputs] returns the empty dict without
    calling its collaborators. *)
Theorem unknown_format_saves_nothing
    (self : FlowchartAgent) (mermaid_code : str) (output_format filename : pyval) :
  is_one_of output_format ["mermaid" : str; "png" : str; "both" : str] = false ->
  _save_outputs self mermaid_code output_format filename = Ok ∅.
Proof.
  intros H. unfold _save_outputs.
  assert (H1 : is_one_of output_format ["mermaid" : str; "both" : str] = false
               /\ is_one_of output_format ["png" : str; "both" : str] = false).
  { destruct output_format as [s| | | | |]; try (split; reflexivity).
    cbn [is_one_of existsb] in H |- *.
    destruct (eqb s "mermaid"), (eqb s "png"), (eqb s "both"); try discriminate.
    split; reflexivity. }
  destruct H1 as [-> ->]. reflexivity.
Qed.

Lemma unknown_format_saves_nothing_witness :
  _save_outputs agent_with_dead_services "flowchart TD" (VStr "svg") VNone = Ok ∅.
Proof.
  exact (unknown_format_saves_nothing agent_with_dead_services "flowchart TD"
           (VStr "svg") VNone eq_refl).
Defined.

(** ** A description that is no text *)

Lemma generate_mermaid_not_text
    (self : FlowchartAgent) (model : Prompt -> result str) (v : pyval) (level : str) :
  ai_model self = Some model ->
  (forall d, v <> VStr d) ->
  exists e,
    _generate_mermaid self v level = Raise e
    /\ ((forall mutable content text, v <> VBytes mutable content text) ->
        e = AttributeError ("'" ++ type_name_of v ++ "' object has no attribute 'strip'"))
    /\ (forall mutable content text mode,
          v = VBytes mutable content text ->
          strip_bytes content <> [] -> _resolve_mode level = Ok mode ->
          e = TypeError "a bytes-like object is required, not 'str'").
Proof.
  intros Hm Hv. unfold _generate_mermaid. rewrite Hm.
  destruct v as [d| | | |mu content text|t text].
  - now destruct (Hv d).
  - eexists. split; [reflexivity|]. split; [reflexivity|discriminate].
  - eexists. split; [reflexivity|]. split; [reflexivity|discriminate].
  - eexists. split; [reflexivity|]. split; [reflexivity|discriminate].
  - destruct (strip_bytes content) as [|c t] eqn:Es; cbn [is_empty].
    + eexists. split; [reflexivity|]. split.
      * intros H. now destruct (H mu content text).
      * intros ? ? ? ? [= _ <- _] Hne. congruence.
    + destruct (_resolve_mode level) as [mode|e] eqn:El; cbn [bind];
        eexists; (split; [reflexivity|]); split;
        try (intros H; now destruct (H mu content text)).
      * reflexivity.
      * intros ? ? ? ? _ _ [=].
  - eexists. split; [reflexivity|]. split; [reflexivity|discriminate].
Qed.

(** A description that is present and is no text is always refused, when
    the agent has a model: the response has status [ERROR] and no result.
    For a value without a [strip] method ([None], a number, a list, ...)
    the error is the message of the [AttributeError] raised by
    [description.strip()]; a field set to [None] counts as present.  For
    bytes that are not blank and a level that names a mode it is the
    message of the [TypeError] raised when a text is looked for in them. *)
Theorem description_not_text_is_error
    (self : FlowchartAgent) (request : gmap string pyval)
    (model : Prompt -> result str) (v : pyval) :
  ai_model self = Some model ->
  request !! "description"%string = Some v ->
  (forall d, v <> VStr d) ->
  let r := snd (process self request) in
  let level := py_str (get_or request "level" (default_level self)) in
  status r = ERROR /\ result_of r = None
  /\ ((forall mutable content text, v <> VBytes mutable content text) ->
      error r = Some ("'" ++ type_name_of v ++ "' object has no attribute 'strip'"))
  /\ (forall mutable content text mode,
        v = VBytes mutable content text ->
        strip_bytes content <> [] -> _resolve_mode level = Ok mode ->
        error r = Some ("a bytes-like object is required, not 'str'" : str)).
Proof.
  intros Hm Hd Hv r level.
  destruct (generate_mermaid_not_text self model v level Hm Hv) as (e & Hg & Ha & Hb).
  assert (Hbody : process_body self request = Raise e).
  { unfold process_body. rewrite validate_request_description, Hd. cbn [bind].
    unfold get_or at 1. rewrite Hd. fold level. now rewrite Hg. }
  subst r. unfold process. rewrite Hbody. cbn [snd status result_of error].
  split; [reflexivity|]. split; [reflexivity|]. split.
  - intros H. now rewrite (Ha H).
  - intros mu content text mode E Hne Hl. now rewrite (Hb mu content text mode E Hne Hl).
Qed.

Lemma description_not_text_is_error_witness :
  let self := example_agent (fun _ => Ok ("flowchart TD" : str)) (Ok tt) in
  let r := snd (process self {[ "description"%string := VNone ]}) in
  let r' := snd (process self {[ "description"%string := VBytes false " make tea " "b' make tea '" ]}) in
  (status r = ERROR /\ result_of r = None
   /\ error r = Some ("'NoneType' object has no attribute 'strip'" : str))
  /\ (status r' = ERROR /\ result_of r' = None
      /\ error r' = Some ("a bytes-like object is required, not 'str'" : str)).
Proof.
  intros self r r'. split.
  - destruct (description_not_text_is_error self {[ "description"%string := VNone ]}
                (fun _ => Ok ("flowchart TD" : str)) VNone ltac:(reflexivity) ltac:(reflexivity)
                ltac:(discriminate)) as (H1 & H2 & H3 & _).
    split; [exact H1|]. split; [exact H2|]. apply H3. discriminate.
  - destruct (description_not_text_is_error self
                {[ "description"%string := VBytes false " make tea " "b' make tea '" ]}
                (fun _ => Ok ("flowchart TD" : str))
                (VBytes false " make tea " "b' make tea '")
                ltac:(reflexivity) ltac:(reflexivity) ltac:(discriminate)) as (H1 & H2 & _ & H4).
    split; [exact H1|]. split; [exact H2|].
    apply (H4 false " make tea " "b' make tea '" basic eq_refl); [discriminate|reflexivity].
Defined.

(** ** Levels *)

Lemma isspace_lower_chr (c : ascii) : isspace (lower_chr c) = isspace c.
Proof. destruct c as [[] [] [] [] [] [] [] []]; reflexivity. Qed.

Lemma lstrip_by_map (f : ascii -> ascii) (p : ascii -> bool) (s : str) :
  (forall c, p (f c) = p c) ->
  lstrip_by p (map f s) = map f (lstrip_by p s).
Proof.
  intros H. induction s as [|c s IH]; [reflexivity|].
  cbn [map lstrip_by]. rewrite H. now destruct (p c).
Qed.

Lemma rstrip_by_map (f : ascii -> ascii) (p : ascii -> bool) (s : str) :
  (forall c, p (f c) = p c) ->
  rstrip_by p (map f s) = map f (rstrip_by p s).
Proof.
  intros H. unfold rstrip_by. rewrite <- map_rev, lstrip_by_map by assumption.
  now rewrite map_rev.
Qed.

Lemma lower_strip (s : str) : lower (strip s) = strip (lower s).
Proof.
  unfold lower, strip.
  rewrite lstrip_by_map, rstrip_by_map by apply isspace_lower_chr. reflexivity.
Qed.

Lemma strip_left (a s : str) : forallb isspace a = true -> strip (a ++ s) = strip s.
Proof. intros Ha. unfold strip. now rewrite lstrip_by_all. Qed.

Lemma strip_right (s b : str) : forallb isspace b = true -> strip (s ++ b) = strip s.
Proof.
  intros Hb.
  destruct (lstrip_by_suffix isspace s) as (a' & E & Ha').
  destruct (lstrip_by isspace s) as [|c t] eqn:El.
  - rewrite app_nil_r in E. subst a'.
    rewrite (strip_blank s Ha'). apply strip_blank.
    rewrite forallb_app, Ha', Hb. reflexivity.
  - unfold strip. rewrite El. rewrite E at 1.
    rewrite <- app_assoc, lstrip_by_all by assumption.
    cbn [app]. rewrite (lstrip_by_fixed isspace c (t ++ b))
      by now apply (lstrip_by_head isspace s c t).
    change (c :: t ++ b) with ((c :: t) ++ b). now apply rstrip_by_all.
Qed.

Lemma strip_around (a s b : str) :
  forallb isspace a = true -> forallb isspace b = true ->
  strip (a ++ s ++ b) = strip s.
Proof. intros Ha Hb. now rewrite strip_left, strip_right. Qed.

(** The name of a level is read without the white space around it and
    without regard to the case of its letters. *)
Theorem resolve_mode_insensitive (a b level level' : str) :
  forallb isspace a = true -> forallb isspace b = true ->
  lower level = lower level' ->
  _resolve_mode (a ++ level ++ b) = _resolve_mode level'.
Proof.
  intros Ha Hb Hl. unfold _resolve_mode.
  now rewrite strip_around, !lower_strip, Hl by assumption.
Qed.

Lemma resolve_mode_insensitive_witness :
  _resolve_mode "  Advanced " = _resolve_mode "ADVANCED".
Proof.
  exact (resolve_mode_insensitive "  " " " "Advanced" "ADVANCED" eq_refl eq_refl eq_refl).
Defined.

(** [_resolve_mode] accepts nothing besides the six names [1], [2], [3],
    [basic], [intermediate] and [advanced]: a level it accepts is, once
    trimmed and in lower case, the digit or the name of the mode it gives. *)
Theorem resolve_mode_accepts (level : str) (mode : FlowchartMode) :
  _resolve_mode level = Ok mode ->
  let key := lower (strip level) in
  key = mode_name mode
  \/ key = match mode with basic => "1" | intermediate => "2" | advanced => "3" end.
Proof.
  unfold _resolve_mode, LEVEL_TO_MODE. cbv zeta.
  repeat match goal with
         | |- context [if eqb ?x ?y then _ else _] =>
             let E := fresh "E" in destruct (eqb x y) eqn:E; [apply eqb_eq in E|]
         end; try discriminate; intros [= <-];
    match goal with H : lower _ = _ |- _ => rewrite H end; cbn [mode_name]; auto.
Qed.

Lemma resolve_mode_accepts_witness :
  lower (strip " 2 ") = mode_name intermediate \/ lower (strip " 2 ") = ("2" : str).
Proof.
  exact (resolve_mode_accepts " 2 " intermediate eq_refl).
Defined.

(** ** [validate_request] *)

(** [validate_request] returns normally exactly when every required field
    is a key of the request, whatever its value; when one is missing it
    raises a [ValueError]. *)
Theorem validate_request_ok_iff (request : gmap string pyval) (required_fields : list string) :
  (validate_request request required_fields = Ok tt
   <-> forall field, In field required_fields -> is_Some (request !! field))
  /\ (validate_request request required_fields <> Ok tt ->
      exists missing,
        missing <> []
        /\ (forall field, In field missing
                          <-> In field required_fields /\ request !! field = None)
        /\ validate_request request required_fields
           = Raise (ValueError ("Missing required fields: "
                                ++ join ", " (map list_ascii_of_string missing)))).
Proof.
  unfold validate_request.
  set (absent := fun field : string => negb (bool_decide (is_Some (request !! field)))).
  assert (Habsent : forall field, absent field = true <-> request !! field = None).
  { intros field. unfold absent. rewrite negb_true_iff, bool_decide_eq_false.
    rewrite <- eq_None_not_Some. reflexivity. }
  assert (Hin : forall field, In field (List.filter absent required_fields)
                              <-> In field required_fields /\ request !! field = None).
  { intros field. rewrite filter_In, Habsent. reflexivity. }
  destruct (List.filter absent required_fields) as [|m ms] eqn:Ef; cbn [is_empty].
  - split; [|congruence]. split; [|reflexivity].
    intros _ field Hf. destruct (request !! field) eqn:E; [eauto|].
    exfalso. apply (proj2 (Hin field)). now split.
  - split.
    + split; [discriminate|]. intros H.
      destruct (proj1 (Hin m) (or_introl eq_refl)) as [Hm Hn].
      destruct (H m Hm) as [v Hv]. congruence.
    + intros _. exists (m :: ms). split; [discriminate|]. split; [assumption|reflexivity].
Qed.

(** ** Spacing normalization, applied twice *)

Lemma replace_chr_absent (s : str) (c : ascii) (new : str) :
  ~ In c s -> replace s [c] new = s.
Proof.
  intros H. unfold replace. rewrite split_single, split_chr_no_occurrence by assumption.
  reflexivity.
Qed.

Lemma normalize_spacing_line_no_tab (l : str) : ~ In tab (normalize_spacing_line l).
Proof.
  intros H. apply normalize_spacing_line_chars in H as [H|[_ H]]; [discriminate|].
  now apply H.
Qed.

Lemma spaces_length (n : nat) : length (spaces n) = n.
Proof. apply repeat_length. Qed.

Lemma normalize_spacing_line_idem (l : str) :
  normalize_spacing_line (normalize_spacing_line l) = normalize_spacing_line l.
Proof.
  rewrite (normalize_spacing_line_cases (normalize_spacing_line l)). cbv zeta.
  unfold expand_tabs at 1 2 3.
  rewrite (replace_chr_absent _ tab) by apply normalize_spacing_line_no_tab.
  rewrite normalize_spacing_line_content.
  rewrite (normalize_spacing_line_cases l). cbv zeta.
  destruct (startswith (strip (expand_tabs l)) "flowchart") eqn:Hh; [reflexivity|].
  destruct (strip (expand_tabs l)) as [|c t'] eqn:Et; [reflexivity|]. cbn [is_empty].
  assert (Hc : isspace c = false) by (apply (strip_head (expand_tabs l) c t'); exact Et).
  assert (Hk : 1 <= indent_units (expand_tabs l)) by (unfold indent_units; lia).
  set (k := indent_units (expand_tabs l)) in *.
  assert (Hno : expand_tabs (spaces (4 * k) ++ c :: t') = spaces (4 * k) ++ c :: t').
  { apply replace_chr_absent. intros Hin. apply in_app_or in Hin as [Hin|Hin].
    - apply spaces_In in Hin. discriminate.
    - assert (Hin' : In tab (strip (expand_tabs l))) by (rewrite Et; exact Hin).
      apply strip_In in Hin'. unfold expand_tabs in Hin'.
      apply replace_chr_In in Hin' as [Hin'|[_ Hin']]; [|congruence].
      cbn in Hin'. intuition discriminate. }
  rewrite Hno. f_equal.
  - f_equal. unfold indent_units.
    assert (Hs : startswith (spaces (4 * k) ++ c :: t') " " = true).
    { destruct k as [|k']; [lia|]. reflexivity. }
    rewrite Hs. unfold lstrip.
    rewrite lstrip_by_all by apply spaces_blank.
    rewrite lstrip_by_fixed by assumption.
    rewrite length_app, spaces_length.
    replace (4 * k + length (c :: t') - length (c :: t')) with (k * 4) by lia.
    rewrite Nat.div_mul by discriminate. lia.
  - rewrite strip_left by apply spaces_blank. rewrite <- Et. apply strip_idem.
Qed.

(** Spacing normalization changes nothing in a text it has normalized. *)
Theorem normalize_spacing_idempotent (code : str) :
  _normalize_spacing (_normalize_spacing code) = _normalize_spacing code.
Proof.
  unfold _normalize_spacing at 1. rewrite normalize_spacing_lines.
  rewrite map_map. unfold _normalize_spacing. f_equal.
  apply map_ext. intros l. apply normalize_spacing_line_idem.
Qed.

(** ** Duplicate node definitions *)

Lemma remove_duplicate_lines_step (seen_nodes : gset str) (line : str) (rest : list str) :
  remove_duplicate_lines seen_nodes (line :: rest)
  = match defined_node line with
    | None => line :: remove_duplicate_lines seen_nodes rest
    | Some node_id =>
        if bool_decide (node_id ∈ seen_nodes)
        then remove_duplicate_lines seen_nodes rest
        else line :: remove_duplicate_lines ({[ node_id ]} ∪ seen_nodes) rest
    end.
Proof.
  cbn [remove_duplicate_lines]. unfold defined_node.
  destruct (is_empty (strip line) || startswith (strip line) "flowchart"); [reflexivity|].
  destruct (contains line "-->"); [reflexivity|].
  now destruct (re_match re_lead_id_ws (strip line)).
Qed.

Lemma remove_duplicate_lines_idem (lines : list str) :
  forall seen_nodes : gset str,
    remove_duplicate_lines seen_nodes (remove_duplicate_lines seen_nodes lines)
    = remove_duplicate_lines seen_nodes lines.
Proof.
  induction lines as [|line rest IH]; intros seen_nodes; [reflexivity|].
  rewrite remove_duplicate_lines_step.
  destruct (defined_node line) as [node_id|] eqn:Hd.
  - destruct (bool_decide (node_id ∈ seen_nodes)) eqn:Hs; [apply IH|].
    rewrite remove_duplicate_lines_step, Hd, Hs. now rewrite IH.
  - rewrite remove_duplicate_lines_step, Hd. now rewrite IH.
Qed.

Lemma remove_duplicate_lines_In (lines : list str) :
  forall (seen_nodes : gset str) (l : str),
    In l (remove_duplicate_lines seen_nodes lines) -> In l lines.
Proof.
  induction lines as [|line rest IH]; intros seen_nodes l; [intros []|].
  rewrite remove_duplicate_lines_step.
  destruct (defined_node line) as [node_id|].
  - destruct (bool_decide _).
    + intros H. right. now apply (IH seen_nodes).
    + intros [<-|H]; [now left|right; now apply (IH _ _ H)].
  - intros [<-|H]; [now left|right; now apply (IH _ _ H)].
Qed.

Lemma remove_duplicate_lines_first (line : str) (rest : list str) :
  exists kept, remove_duplicate_lines ∅ (line :: rest) = line :: kept.
Proof.
  rewrite remove_duplicate_lines_step.
  destruct (defined_node line) as [node_id|]; [|eauto].
  rewrite bool_decide_eq_false_2 by set_solver. eauto.
Qed.

Lemma remove_duplicate_split (code : str) :
  split_chr nl (_remove_duplicate_nodes code)
  = remove_duplicate_lines ∅ (split_chr nl code).
Proof.
  unfold _remove_duplicate_nodes. apply split_chr_join.
  - destruct (split_chr nl code) as [|line rest] eqn:E; [now apply split_chr_not_nil in E|].
    destruct (remove_duplicate_lines_first line rest) as (kept & ->). discriminate.
  - apply List.Forall_forall. intros l Hl.
    apply remove_duplicate_lines_In in Hl. now apply (split_chr_no_sep nl code).
Qed.

(** Removing the duplicate node definitions of a text that went through
    the removal changes nothing. *)
Theorem remove_duplicate_nodes_idempotent (code : str) :
  _remove_duplicate_nodes (_remove_duplicate_nodes code) = _remove_duplicate_nodes code.
Proof.
  unfold _remove_duplicate_nodes at 1. rewrite remove_duplicate_split.
  now rewrite remove_duplicate_lines_idem.
Qed.

Lemma remove_duplicate_lines_distinct (lines : list str) :
  forall seen_nodes : gset str,
    NoDup (omap defined_node (remove_duplicate_lines seen_nodes lines))
    /\ forall node_id,
         node_id ∈ omap defined_node (remove_duplicate_lines seen_nodes lines) ->
         node_id ∉ seen_nodes.
Proof.
  induction lines as [|line rest IH]; intros seen_nodes.
  { split; [constructor|]. intros node_id H. now apply elem_of_nil in H. }
  rewrite remove_duplicate_lines_step.
  destruct (defined_node line) as [node_id|] eqn:Hd.
  - destruct (bool_decide (node_id ∈ seen_nodes)) eqn:Hs; [apply IH|].
    apply bool_decide_eq_false in Hs.
    destruct (IH ({[ node_id ]} ∪ seen_nodes)) as [Hnd Hout].
    cbn [omap list_omap]. rewrite Hd. split.
    + constructor; [|assumption]. intros Hin. apply Hout in Hin.
      apply Hin. now apply elem_of_union_l, elem_of_singleton.
    + intros x Hx. apply elem_of_cons in Hx as [->|Hx]; [assumption|].
      apply Hout in Hx. intros Hin. apply Hx. now apply elem_of_union_r.
  - cbn [omap list_omap]. rewrite Hd. apply IH.
Qed.

Lemma remove_duplicate_lines_keeps (lines : list str) :
  forall (seen_nodes : gset str) (l : str),
    In l lines -> defined_node l = None ->
    In l (remove_duplicate_lines seen_nodes lines).
Proof.
  induction lines as [|line rest IH]; intros seen_nodes l; [intros []|].
  intros [->|Hin] Hl; rewrite remove_duplicate_lines_step.
  - rewrite Hl. now left.
  - destruct (defined_node line) as [node_id|].
    + destruct (bool_decide _); [now apply IH|right; now apply IH].
    + right. now apply IH.
Qed.

(** After the removal no two lines define the same node, every line of
    the result is a line of the text, and the lines that define no node
    (blank lines, headers, edges) are all kept. *)
Theorem remove_duplicate_nodes_distinct (code : str) :
  let kept := split_chr nl (_remove_duplicate_nodes code) in
  NoDup (omap defined_node kept)
  /\ (forall l, In l kept -> In l (split_chr nl code))
  /\ (forall l, In l (split_chr nl code) -> defined_node l = None -> In l kept).
Proof.
  cbv zeta. rewrite remove_duplicate_split. split; [|split].
  - apply remove_duplicate_lines_distinct.
  - intros l. apply remove_duplicate_lines_In.
  - intros l. apply remove_duplicate_lines_keeps.
Qed.

(** ** A text the syntax check passes *)

Lemma check_lines_nil (lines : list str) :
  forall k, check_lines k lines = [] ->
            forall line, In line lines -> exists i, line_errors i line = [].
Proof.
  induction lines as [|l lines IH]; intros k H line; [intros []|].
  cbn [check_lines] in H. apply app_eq_nil in H as [Hl Hrest].
  intros [<-|Hin]; [eauto|]. now apply (IH (S k)).
Qed.

Lemma after_close_found (close c : ascii) (pre ws post : str) :
  forallb isspace ws = true ->
  none_of [isspace] "-|" c = true ->
  found (re_search (re_after_close close) (pre ++ [close] ++ ws ++ c :: post)) = true.
Proof.
  intros Hws Hc.
  destruct (after_close_matches close c ws post
              (forward (length pre) (start_of (pre ++ [close] ++ ws ++ c :: post))))
    as (x & Hx); [|assumption|assumption|].
  - now rewrite (forward_rest pre ([close] ++ ws ++ c :: post)).
  - eapply re_search_some. exact Hx.
Qed.

(** When the syntax check reports nothing, every line that is not blank,
    no header and no comment has as many opening as closing square
    brackets, curly braces and parentheses; and when it holds an arrow, what
    follows a closing square bracket or curly brace, after any white space,
    is white space, a dash or a pipe. *)
Theorem check_passes_means (code line : str) :
  _check_syntax_errors code = [] ->
  In line (split_chr nl code) ->
  let l := strip line in
  l <> [] -> startswith l "flowchart" = false -> startswith l "%%" = false ->
  count l "[" = count l "]" /\ count l "{" = count l "}" /\ count l "(" = count l ")"
  /\ (contains l "-->" = true ->
      forall (close : ascii) (pre ws post : str) (c : ascii),
        close = "]"%char \/ close = "}"%char ->
        l = pre ++ [close] ++ ws ++ c :: post ->
        forallb isspace ws = true ->
        isspace c = true \/ c = "-"%char \/ c = "|"%char).
Proof.
  intros Hcheck Hin l Hne Hh Hc.
  destruct (check_lines_nil _ _ Hcheck line Hin) as (i & Hi).
  unfold line_errors in Hi. fold l in Hi.
  destruct l as [|x t] eqn:El; [congruence|]. cbn [is_empty orb] in Hi.
  rewrite Hh, Hc in Hi. cbn [orb] in Hi.
  apply app_eq_nil in Hi as [H1 Hi]. apply app_eq_nil in Hi as [H2 Hi].
  apply app_eq_nil in Hi as [H3 H4].
  split; [|split; [|split]].
  - destruct (Nat.eqb_spec (count (x :: t) "[") (count (x :: t) "]")); [assumption|discriminate].
  - destruct (Nat.eqb_spec (count (x :: t) "{") (count (x :: t) "}")); [assumption|discriminate].
  - destruct (Nat.eqb_spec (count (x :: t) "(") (count (x :: t) ")")); [assumption|discriminate].
  - intros Ha close pre ws post c Hclose Hl Hws. rewrite Ha in H4.
    apply app_eq_nil in H4 as [Hb1 Hb2].
    destruct (isspace c) eqn:Hs; [now left|right].
    destruct (Ascii.eqb_spec c "-") as [->|Hd]; [now left|right].
    destruct (Ascii.eqb_spec c "|") as [->|Hp]; [reflexivity|exfalso].
    assert (Hnone : none_of [isspace] "-|" c = true).
    { unfold none_of, one_of. cbn [existsb mem list_ascii_of_string]. rewrite Hs.
      apply Ascii.eqb_neq in Hd, Hp. rewrite Hd, Hp. reflexivity. }
    pose proof (after_close_found close c pre ws post Hws Hnone) as Hf.
    rewrite <- Hl in Hf.
    destruct Hclose as [-> | ->]; rewrite Hf in *; discriminate.
Qed.

Lemma check_passes_means_witness :
  let l := strip "    A[Start] --> B{Go?}" in
  count l "[" = count l "]" /\ count l "{" = count l "}" /\ count l "(" = count l ")"
  /\ (contains l "-->" = true ->
      forall (close : ascii) (pre ws post : str) (c : ascii),
        close = "]"%char \/ close = "}"%char ->
        l = pre ++ [close] ++ ws ++ c :: post ->
        forallb isspace ws = true ->
        isspace c = true \/ c = "-"%char \/ c = "|"%char).
Proof.
  intros l.
  apply (check_passes_means ("flowchart TD" ++ [nl] ++ "    A[Start] --> B{Go?}")
           "    A[Start] --> B{Go?}").
  - reflexivity.
  - right. now left.
  - discriminate.
  - reflexivity.
  - reflexivity.
Defined.

(** ** Labels of end nodes *)

(** The label of an end node is normalized once and for all. *)
Theorem normalize_end_label_idempotent (label : str) :
  normalize_end_label (normalize_end_label label) = normalize_end_label label.
Proof.
  remember (normalize_end_label label) as r eqn:Hr.
  unfold normalize_end_label in Hr.
  destruct (startswith (lower label) "end") eqn:Hs.
  - destruct (contains label ":") eqn:Hc.
    + subst r. unfold normalize_end_label. now rewrite Hs, Hc.
    + destruct (split_ws1 label) as [|p0 [|p1 ps]]; subst r; reflexivity.
  - subst r. unfold normalize_end_label. now rewrite Hs.
Qed.

Lemma span_by_word (p : ascii -> bool) (w r : str) (c : ascii) :
  forallb p w = true -> p c = false ->
  span_by p (w ++ c :: r) = (w, c :: r).
Proof.
  intros Hw Hc. induction w as [|x w IH].
  - cbn [app span_by]. now rewrite Hc.
  - cbn [forallb] in Hw. apply andb_true_iff in Hw as [Hx Hw].
    cbn [app span_by]. rewrite Hx, (IH Hw). reflexivity.
Qed.

(** A label without a colon whose first word begins with [end], in any
    case of letters, becomes [End: ] followed by what comes after that
    word: the first word is replaced whatever it is. *)
Theorem normalize_end_label_first_word (w gap rest : str) (c x : ascii) :
  startswith (lower (c :: w)) "end" = true ->
  forallb (fun a => negb (isspace a)) (c :: w) = true ->
  forallb isspace gap = true -> gap <> [] ->
  isspace x = false ->
  contains ((c :: w) ++ gap ++ x :: rest) ":" = false ->
  normalize_end_label ((c :: w) ++ gap ++ x :: rest) = "End: " ++ x :: rest.
Proof.
  intros Hend Hw Hgap Hne Hx Hcolon. unfold normalize_end_label.
  assert (Hs : startswith (lower ((c :: w) ++ gap ++ x :: rest)) "end" = true).
  { apply startswith_iff in Hend as (q & Hq). apply startswith_iff.
    exists (q ++ lower (gap ++ x :: rest)). rewrite lower_app, Hq.
    now rewrite <- !app_assoc. }
  rewrite Hs, Hcolon. unfold split_ws1, lstrip.
  pose proof Hw as Hw'. cbn [forallb] in Hw'. apply andb_true_iff in Hw' as [Hc _].
  apply negb_true_iff in Hc.
  change ((c :: w) ++ gap ++ x :: rest) with (c :: (w ++ gap ++ x :: rest)).
  rewrite lstrip_by_fixed by assumption.
  change (c :: (w ++ gap ++ x :: rest)) with ((c :: w) ++ gap ++ x :: rest).
  destruct gap as [|g gap']; [congruence|].
  cbn [forallb] in Hgap. apply andb_true_iff in Hgap as [Hg Hgap'].
  change ((g :: gap') ++ x :: rest) with (g :: (gap' ++ x :: rest)).
  rewrite (span_by_word _ (c :: w) (gap' ++ x :: rest) g)
    by (assumption || now rewrite Hg).
  change (g :: gap' ++ x :: rest) with ((g :: gap') ++ x :: rest).
  rewrite lstrip_by_all by (cbn [forallb]; now rewrite Hg, Hgap').
  rewrite lstrip_by_fixed by assumption. reflexivity.
Qed.

Lemma normalize_end_label_first_word_witness :
  normalize_end_label "Endpoint  reached" = ("End: reached" : str).
Proof.
  exact (normalize_end_label_first_word "ndpoint" "  " "eached" "E" "r"
           eq_refl eq_refl eq_refl ltac:(discriminate) eq_refl eq_refl).
Defined.

(** ** The allow-list of label characters *)

(** Deleting the matches of a class of one character keeps the other
    characters, in their order. *)
Lemma sub_class_deletes (p : ascii -> bool) (s : str) :
  forall m, rest m = s ->
            sub_go (Cls p) (fun _ => []) 0 m s = List.filter (fun c => negb (p c)) s.
Proof.
  induction s as [|c s IH]; intros m Hm.
  - cbn [sub_go]. unfold match_at. cbn [run]. rewrite Hm. reflexivity.
  - cbn [sub_go List.filter]. unfold match_at. cbn [run]. rewrite Hm.
    destruct (p c); cbn [negb].
    + unfold width. cbn [m_end m_start advance pos].
      replace (S (pos m) - pos m) with 1 by lia. cbn [app Nat.sub].
      now apply IH.
    + f_equal. now apply IH.
Qed.

(** The removal of the characters outside the allow-list keeps, in their
    order, exactly the word characters, the white space, the dashes, the
    single quotes and the parentheses of a label (and its question marks
    between braces); applied to its result it changes nothing. *)
Theorem allow_list_is_filter (label : str) :
  drop_not_allowed label = List.filter (one_of [isword; isspace] "-'()") label
  /\ drop_not_allowed_q label = List.filter (one_of [isword; isspace] "-'()?") label
  /\ drop_not_allowed (drop_not_allowed label) = drop_not_allowed label
  /\ drop_not_allowed_q (drop_not_allowed_q label) = drop_not_allowed_q label.
Proof.
  assert (H : forall chars s,
             re_sub (Cls (none_of [isword; isspace] chars)) (fun _ => []) s
             = List.filter (one_of [isword; isspace] chars) s).
  { intros chars s. unfold re_sub. rewrite sub_class_deletes by reflexivity.
    apply filter_ext. intros c. unfold none_of. apply negb_involutive. }
  assert (Hidem : forall (f : ascii -> bool) (s : str),
             List.filter f (List.filter f s) = List.filter f s).
  { intros f s. induction s as [|c s IH]; [reflexivity|].
    cbn [List.filter]. destruct (f c) eqn:E; [|exact IH].
    cbn [List.filter]. now rewrite E, IH. }
  unfold drop_not_allowed, drop_not_allowed_q, re_not_allowed, re_not_allowed_q.
  rewrite !H, !Hidem. auto.
Qed.

(** ** Fenced blocks *)

Lemma splitlines_go_line (l cur s : str) :
  forallb (fun c => negb (is_linebreak c)) l = true ->
  splitlines_go cur (l ++ s) = splitlines_go (rev l ++ cur) s.
Proof.
  revert cur. induction l as [|c l IH]; intros cur Hl; [reflexivity|].
  cbn [forallb] in Hl. apply andb_true_iff in Hl as [Hc Hl].
  apply negb_true_iff in Hc.
  cbn [app splitlines_go]. rewrite Hc, IH by assumption.
  cbn [rev]. now rewrite <- app_assoc.
Qed.

Lemma splitlines_go_nl (cur s : str) :
  s <> [] -> splitlines_go cur (nl :: s) = rev cur :: splitlines_go [] s.
Proof. destruct s as [|d s]; [congruence|reflexivity]. Qed.

(** Lines without a line boundary, the last of them not empty, are the
    lines [splitlines] reads from their join. *)
Lemma splitlines_join (ls : list str) :
  List.Forall (fun l => forallb (fun c => negb (is_linebreak c)) l = true) ls ->
  match rev ls with l :: _ => l <> [] | [] => False end ->
  splitlines (join [nl] ls) = ls.
Proof.
  unfold splitlines. induction ls as [|l ls IH]; intros Hall Hlast; [destruct Hlast|].
  inversion Hall as [|? ? Hl Hrest]; subst.
  destruct ls as [|l2 ls].
  - cbn [join]. cbn [rev app] in Hlast.
    rewrite <- (app_nil_r l) at 1. rewrite splitlines_go_line by assumption.
    rewrite app_nil_r. cbn [splitlines_go].
    destruct (rev l) as [|c r] eqn:E.
    + apply (f_equal (@rev ascii)) in E. rewrite rev_involutive in E. now subst.
    + rewrite <- E, rev_involutive. reflexivity.
  - change (join [nl] (l :: l2 :: ls)) with (l ++ nl :: join [nl] (l2 :: ls)).
    rewrite splitlines_go_line by assumption. rewrite app_nil_r.
    assert (Hlast' : match rev (l2 :: ls) with l' :: _ => l' <> [] | [] => False end).
    { cbn [rev] in Hlast |- *. destruct (rev ls ++ [l2]) as [|x xs] eqn:E.
      - now destruct (rev ls).
      - exact Hlast. }
    specialize (IH Hrest Hlast').
    rewrite splitlines_go_nl by (intros E; rewrite E in IH; discriminate IH).
    rewrite rev_involutive. now rewrite IH.
Qed.

Lemma strip_fence_lines (opening closing : str) (body : list str) :
  startswith (strip opening) fence = true ->
  strip closing = fence ->
  List.Forall (fun l => forallb (fun c => negb (is_linebreak c)) l = true)
              (opening :: body ++ [closing]) ->
  match rev body with l :: _ => strip l <> fence | [] => True end ->
  _strip_fence (join [nl] (opening :: body ++ [closing])) = join [nl] body.
Proof.
  intros Hopen Hclose Hall Hlast. unfold _strip_fence.
  rewrite splitlines_join; [|assumption|].
  - cbn [is_empty]. rewrite Hopen. rewrite rev_app_distr. cbn [rev app drop_closing_fences].
    rewrite Hclose. change (eqb fence fence) with true. cbn iota.
    destruct (rev body) as [|l r] eqn:E.
    + apply (f_equal (@rev str)) in E. rewrite rev_involutive in E. now subst.
    + cbn [drop_closing_fences].
      destruct (eqb (strip l) fence) eqn:El; [apply eqb_eq in El; contradiction|].
      rewrite <- E, rev_involutive. reflexivity.
  - change (opening :: body ++ [closing]) with ((opening :: body) ++ [closing]).
    rewrite rev_app_distr. cbn [rev app]. intros ->. discriminate.
Qed.

(** A block between an opening fence line and a closing fence line: the
    lines between the two are returned, joined as they were, when their
    last line is no closing fence itself. *)
Theorem strip_fence_block (opening closing : str) (body : list str) :
  startswith (strip opening) fence = true ->
  strip closing = fence ->
  List.Forall (fun l => forallb (fun c => negb (is_linebreak c)) l = true)
              (opening :: body ++ [closing]) ->
  match rev body with l :: _ => strip l <> fence | [] => True end ->
  _strip_fence (join [nl] (opening :: body ++ [closing])) = join [nl] body.
Proof. apply strip_fence_lines. Qed.

Lemma strip_fence_block_witness :
  _strip_fence ("```mermaid" ++ [nl] ++ "flowchart TD" ++ [nl] ++ "    A --> B" ++ [nl] ++ "```")
  = "flowchart TD" ++ [nl] ++ "    A --> B".
Proof.
  apply (strip_fence_block "```mermaid" "```" ["flowchart TD" : str; "    A --> B" : str]).
  - reflexivity.
  - reflexivity.
  - repeat constructor.
  - discriminate.
Defined.

(** ** The header line *)

Lemma is_direction_length (dir : str) : is_direction dir = true -> length dir = 2.
Proof.
  unfold is_direction. cbn [existsb]. intros H.
  assert (E : length (lower dir) = 2).
  { repeat (apply orb_true_iff in H as [H|H]); try discriminate;
      apply eqb_eq in H; now rewrite H. }
  unfold lower in E. now rewrite length_map in E.
Qed.

Lemma startswith_lower_app (dir tail p : str) :
  lower dir = p -> startswith (lower (dir ++ tail)) p = true.
Proof. intros <-. rewrite lower_app. apply startswith_app. Qed.

(** The alternation of the five directions matches a direction ahead. *)
Lemma run_directions (dir tail : str) (k : mstate -> option mstate) (m e : mstate) :
  is_direction dir = true -> rest m = dir ++ tail ->
  k (forward 2 m) = Some e ->
  run (alt [lit_i "TD"; lit_i "LR"; lit_i "TB"; lit_i "BT"; lit_i "RL"]) k m = Some e.
Proof.
  intros Hd Hm Hk. cbn [alt]. rewrite !run_Alt, !run_lit_i, Hm.
  change (length ("TD" : str)) with 2. change (length ("LR" : str)) with 2.
  change (length ("TB" : str)) with 2. change (length ("BT" : str)) with 2.
  change (length ("RL" : str)) with 2. rewrite Hk.
  unfold is_direction in Hd. cbn [existsb] in Hd.
  repeat (apply orb_true_iff in Hd as [Hd|Hd]); try discriminate;
    apply eqb_eq in Hd;
    repeat match goal with
           | |- context [if startswith ?a ?b then _ else _] =>
               destruct (startswith a b) eqn:?; [reflexivity|]
           end;
    pose proof (startswith_lower_app dir tail _ Hd) as Hs;
    change (lower "TD") with ("td" : str) in *; change (lower "LR") with ("lr" : str) in *;
    change (lower "TB") with ("tb" : str) in *; change (lower "BT") with ("bt" : str) in *;
    change (lower "RL") with ("rl" : str) in *; congruence.
Qed.

Lemma clean_header_direction (ws dir tail : str) :
  forallb isspace ws = true -> ws <> [] -> is_direction dir = true ->
  clean_header ("flowchart" ++ ws ++ dir ++ tail) = "flowchart" ++ ws ++ dir.
Proof.
  intros Hws Hne Hd.
  pose proof (is_direction_length dir Hd) as Hlen.
  destruct ws as [|w0 ws']; [congruence|].
  cbn [forallb] in Hws. apply andb_true_iff in Hws as [Hw0 Hws'].
  set (s := "flowchart" ++ (w0 :: ws') ++ dir ++ tail).
  set (m0 := start_of s).
  set (k := fun m' : mstate => Some (capture 1 m0 m')).
  set (m1 := forward 9 m0).
  assert (Hm1 : rest m1 = w0 :: ws' ++ dir ++ tail) by reflexivity.
  set (m2 := advance w0 (ws' ++ dir ++ tail) m1).
  set (m3 := forward (length ws') m2).
  assert (Hm3 : rest m3 = dir ++ tail) by (apply forward_rest; reflexivity).
  assert (Hrun : run re_header Some m0 = Some (capture 1 m0 (forward 2 m3))).
  { unfold re_header. rewrite run_seq_cons, run_Bol_start by reflexivity.
    cbn [seq]. rewrite run_Grp. rewrite run_Seq, run_lit_i.
    change (startswith (lower (rest m0)) (lower "flowchart")) with true. cbn iota.
    change (length ("flowchart" : str)) with 9. fold m1.
    unfold plus. rewrite !run_Seq.
    rewrite (run_Cls_hit _ _ m1 w0 (ws' ++ dir ++ tail) Hm1 Hw0). fold m2.
    rewrite run_Star_greedy. cbn [rest m2 advance].
    apply star_greedy_max; [reflexivity|assumption| |].
    - destruct dir as [|d0 dir']; [discriminate|]. cbn [app].
      destruct (isspace d0) eqn:Hsp; [|reflexivity]. exfalso.
      unfold is_direction in Hd. cbn [existsb lower map] in Hd.
      assert (Hl : isspace (lower_chr d0) = true) by now rewrite isspace_lower_chr.
      repeat (apply orb_true_iff in Hd as [Hd|Hd]); try discriminate;
        apply eqb_eq in Hd; injection Hd as Hd _; rewrite Hd in Hl; discriminate.
    - fold m3. now apply (run_directions dir tail). }
  unfold clean_header, re_match, match_at. fold s m0. rewrite Hrun.
  rewrite group_capture by discriminate.
  assert (Hpos : pos (forward 2 m3) - pos m0 = 9 + S (length ws') + 2).
  { rewrite (forward_pos_le 2 m3) by (rewrite Hm3, length_app; lia).
    unfold m3. rewrite (forward_pos ws' (dir ++ tail) m2) by reflexivity.
    reflexivity. }
  rewrite Hpos. change (rest m0) with s. unfold s.
  rewrite !firstn_add. change (firstn 9 ("flowchart" ++ (w0 :: ws') ++ dir ++ tail))
    with ("flowchart" : str).
  change (skipn 9 ("flowchart" ++ (w0 :: ws') ++ dir ++ tail))
    with ((w0 :: ws') ++ dir ++ tail).
  change (S (length ws')) with (length (w0 :: ws')).
  rewrite <- drop_drop.
  change (skipn 9 ("flowchart" ++ (w0 :: ws') ++ dir ++ tail))
    with ((w0 :: ws') ++ dir ++ tail).
  rewrite take_app_length, drop_app_length.
  rewrite <- Hlen, take_app_length. now rewrite <- app_assoc.
Qed.

Lemma clean_header_no_space (tail : str) :
  match tail with [] => True | c :: _ => isspace c = false end ->
  clean_header ("flowchart" ++ tail) = "flowchart TD".
Proof.
  intros Ht. unfold clean_header, re_match, match_at, re_header.
  rewrite run_seq_cons, run_Bol_start by reflexivity.
  cbn [seq]. rewrite run_Grp. rewrite run_Seq, run_lit_i.
  change (startswith (lower (rest (start_of ("flowchart" ++ tail)))) (lower "flowchart"))
    with true. cbn iota.
  change (length ("flowchart" : str)) with 9.
  unfold plus. rewrite !run_Seq.
  destruct tail as [|c t].
  - rewrite run_Cls_end by reflexivity. reflexivity.
  - rewrite (run_Cls_miss _ _ _ c t) by (reflexivity || assumption). reflexivity.
Qed.

(** The header of a text whose first line is the header: it is cut down
    to the keyword, the white space after it and the direction when a
    direction follows the keyword after white space, so that a semicolon
    or any other text behind the direction is dropped; it becomes
    [flowchart TD] when no white space follows the keyword.  The other
    lines stay as they are. *)
Theorem header_is_cut (line ws dir tail rest : str) :
  ~ In nl line ->
  (forallb isspace ws = true -> ws <> [] -> is_direction dir = true ->
   strip line = "flowchart" ++ ws ++ dir ++ tail ->
   _normalize_flowchart_header (line ++ [nl] ++ rest)
   = ("flowchart" ++ ws ++ dir) ++ [nl] ++ rest)
  /\ (match tail with [] => True | c :: _ => isspace c = false end ->
      strip line = "flowchart" ++ tail ->
      _normalize_flowchart_header (line ++ [nl] ++ rest)
      = "flowchart TD" ++ [nl] ++ rest).
Proof.
  intros Hnl.
  assert (Hsplit : split_chr nl (line ++ [nl] ++ rest) = line :: split_chr nl rest)
    by now apply split_chr_app_sep.
  assert (Hjoin : forall h, join [nl] (h :: split_chr nl rest) = h ++ [nl] ++ rest).
  { intros h. pose proof (join_split_chr nl rest) as Hj.
    destruct (split_chr nl rest) as [|r rs] eqn:E; [now apply split_chr_not_nil in E|].
    change (join [nl] (h :: r :: rs)) with (h ++ [nl] ++ join [nl] (r :: rs)).
    now rewrite Hj. }
  unfold _normalize_flowchart_header. rewrite Hsplit. cbn [normalize_header_lines].
  split.
  - intros Hws Hne Hd Hs. rewrite Hs.
    rewrite (startswith_app "flowchart" (ws ++ dir ++ tail)).
    rewrite clean_header_direction by assumption. apply Hjoin.
  - intros Ht Hs. rewrite Hs. rewrite (startswith_app "flowchart" tail).
    rewrite clean_header_no_space by assumption. apply Hjoin.
Qed.

Lemma header_is_cut_witness :
  _normalize_flowchart_header ("  flowchart lr; my chart" ++ [nl] ++ "A --> B")
  = "flowchart lr" ++ [nl] ++ "A --> B"
  /\ _normalize_flowchart_header ("flowchart;" ++ [nl] ++ "A --> B")
     = "flowchart TD" ++ [nl] ++ "A --> B".
Proof.
  split.
  - apply (proj1 (header_is_cut "  flowchart lr; my chart" " " "lr" "; my chart" "A --> B"
                    ltac:(cbn; intuition discriminate)));
      reflexivity || discriminate.
  - apply (proj2 (header_is_cut "flowchart;" "" "" ";" "A --> B"
                    ltac:(cbn; intuition discriminate)));
      reflexivity.
Defined.


(** ** A fallback the validator accepts *)

Lemma rstrip_by_keep (p : ascii -> bool) (a b : str) (c : ascii) :
  p c = false -> exists b', rstrip_by p (a ++ c :: b) = a ++ c :: b'.
Proof.
  intros Hc. destruct (rstrip_by_prefix p b) as (sp & E & Hsp).
  pose proof (rstrip_by_last p b) as Hlast.
  set (rb := rstrip_by p b) in *. clearbody rb. subst b.
  replace (a ++ c :: rb ++ sp) with ((a ++ c :: rb) ++ sp) by now rewrite <- app_assoc.
  rewrite rstrip_by_all by assumption.
  destruct (rev rb) as [|d r] eqn:Er.
  - apply (f_equal (@rev ascii)) in Er. rewrite rev_involutive in Er. cbn [rev] in Er.
    subst rb. exists []. now apply rstrip_by_fixed.
  - apply (f_equal (@rev ascii)) in Er. rewrite rev_involutive in Er. cbn [rev] in Er.
    exists (rev r ++ [d]). rewrite Er.
    replace (a ++ c :: rev r ++ [d]) with ((a ++ c :: rev r) ++ [d])
      by now rewrite <- app_assoc.
    apply rstrip_by_fixed. now apply (Hlast (rev r) d).
Qed.

Lemma strip_keeps_header (t : str) :
  exists t', strip ("flowchart TD" ++ t) = "flowchart TD" ++ t'.
Proof.
  unfold strip.
  change (lstrip_by isspace ("flowchart TD" ++ t)) with ("flowchart TD" ++ t).
  change ("flowchart TD" ++ t) with ("flowchart T" ++ "D"%char :: t).
  destruct (rstrip_by_keep isspace "flowchart T" t "D" eq_refl) as (b' & ->). now exists b'.
Qed.

Lemma validate_intro (code t : str) :
  strip code = "flowchart TD" ++ t ->
  contains code "-->" = true ->
  (let lines := List.filter (fun l => negb (is_empty (strip l))
                                      && negb (startswith (strip l) "%%"))
                            (split_chr nl code) in
   3 <= length lines /\ 2 <= length (List.filter looks_like_node_or_edge lines)) ->
  _validate_mermaid code = true.
Proof.
  intros Hs Ha [H3 H2]. unfold _validate_mermaid. rewrite Hs, Ha.
  destruct code as [|c code']; [discriminate Ha|]. cbn [is_empty orb].
  change (length ("flowchart TD" ++ t) <? 10)%nat with false.
  change (startswith ("flowchart TD" ++ t) "flowchart") with true.
  cbn [negb]. cbv zeta.
  apply Nat.ltb_ge in H3, H2. now rewrite H3, H2.
Qed.

Lemma split_chr_app (c : ascii) (a b : str) :
  split_chr c (a ++ c :: b) = split_chr c a ++ split_chr c b.
Proof.
  induction a as [|x a IH].
  - cbn [app]. rewrite split_chr_cons_sep. reflexivity.
  - cbn [app split_chr]. rewrite IH. destruct (Ascii.eqb x c); [reflexivity|].
    destruct (split_chr c a) as [|l ls] eqn:E; [now apply split_chr_not_nil in E|].
    reflexivity.
Qed.

Lemma filter_app_length {A} (f : A -> bool) (l1 l2 : list A) :
  length (List.filter f (l1 ++ l2)) = length (List.filter f l1) + length (List.filter f l2).
Proof. now rewrite List.filter_app, length_app. Qed.

Lemma fallback_templates_validate (description : str) :
  matches_template description = true ->
  _validate_mermaid (_generate_fallback_flowchart description) = true.
Proof.
  unfold matches_template, _generate_fallback_flowchart. cbv zeta.
  destruct (contains (lower description) "notification"
            && (contains (lower description) "discord"
                || contains (lower description) "mobile"
                || contains (lower description) "app")); [intros _; vm_compute; reflexivity|].
  cbn [orb]. intros H. rewrite H. vm_compute. reflexivity.
Qed.

Lemma fallback_default_validates (topic : str) :
  _validate_mermaid
    ("flowchart TD" ++ [nl]
     ++ join [nl] ["    A[Start]" : str; "    B[" ++ topic ++ "]";
                   "    C[Process]" : str; "    D[End]" : str]
     ++ [nl] ++ join [nl] ["    A --> B" : str; "    B --> C" : str; "    C --> D" : str])
  = true.
Proof.
  set (Y := "    C[Process]" ++ [nl] ++ "    D[End]" ++ [nl] ++ "    A --> B" ++ [nl]
            ++ "    B --> C" ++ [nl] ++ "    C --> D").
  set (X := "flowchart TD" ++ [nl] ++ "    A[Start]" ++ [nl] ++ "    B[" ++ topic ++ "]").
  match goal with |- _validate_mermaid ?c = true =>
    assert (E : c = X ++ nl :: Y)
      by (unfold X, Y; cbn [join]; rewrite <- !app_assoc; reflexivity);
    rewrite E; clear E
  end.
  destruct (strip_keeps_header ([nl] ++ "    A[Start]" ++ [nl] ++ "    B[" ++ topic ++ "]"
                                ++ nl :: Y)) as (t' & Ht').
  apply (validate_intro _ t').
  - rewrite <- Ht'. f_equal. unfold X. now rewrite <- !app_assoc.
  - apply contains_iff. exists (X ++ nl :: "    C[Process]" ++ [nl] ++ "    D[End]" ++ [nl] ++ "    A "),
      (" B" ++ [nl] ++ "    B --> C" ++ [nl] ++ "    C --> D").
    unfold Y. now rewrite <- !app_assoc.
  - cbv zeta. rewrite split_chr_app, List.filter_app, List.filter_app, !length_app.
    change (split_chr nl Y)
      with ["    C[Process]" : str; "    D[End]" : str; "    A --> B" : str;
            "    B --> C" : str; "    C --> D" : str].
    split.
    + transitivity (0 + 5); [lia|]. apply Nat.add_le_mono; [lia|]. vm_compute. lia.
    + transitivity (0 + 5); [lia|]. apply Nat.add_le_mono; [lia|]. vm_compute. lia.
Qed.

Lemma fallback_chain_two (s1 s2 : str) (more : list str) :
  exists nodes conns,
    fallback_chain 0 (s1 :: s2 :: more)
    = (("    A[" ++ clean_step s1 ++ "]") :: ("    B[" ++ clean_step s2 ++ "]") :: nodes,
       ("    A --> B" : str) :: conns).
Proof.
  cbn [fallback_chain]. destruct (fallback_chain 2 more) as [nodes conns].
  exists nodes, conns. reflexivity.
Qed.

Lemma node_line_kept (id : ascii) (label : str) :
  isspace id = false -> id <> "%"%char ->
  let line := "    " ++ id :: "[" ++ label ++ "]" in
  negb (is_empty (strip line)) && negb (startswith (strip line) "%%") = true
  /\ looks_like_node_or_edge line = true.
Proof.
  intros Hid Hp line. split.
  - pose proof (strip_core "    " [] id "]" ("[" ++ label) eq_refl eq_refl Hid eq_refl) as E.
    rewrite app_nil_r in E.
    replace line with ("    " ++ id :: ("[" ++ label) ++ ["]"%char])
      by (unfold line; now rewrite <- !app_assoc).
    rewrite E. cbn [is_empty negb andb].
    destruct (startswith (id :: ("[" ++ label) ++ ["]"%char]) "%%") eqn:Hs; [|reflexivity].
    apply startswith_iff in Hs as (q & Hq). injection Hq as Hq _. contradiction.
  - unfold looks_like_node_or_edge.
    assert (H1 : contains line "[" = true).
    { apply contains_iff. exists ("    " ++ [id]), (label ++ "]"). unfold line.
      now rewrite <- !app_assoc. }
    assert (H2 : contains line "]" = true).
    { apply contains_iff. exists ("    " ++ id :: "[" ++ label), []. unfold line.
      now rewrite <- !app_assoc. }
    rewrite H1, H2. cbn [andb]. now destruct (contains line "-->").
Qed.

Lemma fallback_steps_validate (s1 s2 : str) (more : list str) :
  ~ In nl s1 -> ~ In nl s2 ->
  _validate_mermaid
    (let '(nodes, connections) := fallback_chain 0 (s1 :: s2 :: more) in
     "flowchart TD" ++ [nl] ++ join [nl] nodes ++ [nl] ++ join [nl] connections)
  = true.
Proof.
  intros H1 H2.
  destruct (fallback_chain_two s1 s2 more) as (nodes & conns & ->).
  set (n1 := "    A[" ++ clean_step s1 ++ "]").
  set (n2 := "    B[" ++ clean_step s2 ++ "]").
  assert (Hn : forall (id : ascii) (s : str),
             id <> nl -> ~ In nl s -> ~ In nl ("    " ++ id :: "[" ++ clean_step s ++ "]")).
  { intros id s Hid Hs Hin.
    apply in_app_or in Hin as [Hin|Hin]; [cbn in Hin; intuition discriminate|].
    destruct Hin as [Hin|Hin]; [congruence|].
    apply in_app_or in Hin as [Hin|Hin]; [cbn in Hin; intuition discriminate|].
    apply in_app_or in Hin as [Hin|Hin]; [|cbn in Hin; intuition discriminate].
    revert Hin. now apply clean_step_one_line. }
  assert (Hn1 : ~ In nl n1) by (apply (Hn "A"%char); [discriminate|assumption]).
  assert (Hn2 : ~ In nl n2) by (apply (Hn "B"%char); [discriminate|assumption]).
  assert (Hcode : exists R,
             "flowchart TD" ++ [nl] ++ join [nl] (n1 :: n2 :: nodes) ++ [nl]
             ++ join [nl] (("    A --> B" : str) :: conns)
             = "flowchart TD" ++ nl :: n1 ++ nl :: n2 ++ nl :: R
             /\ contains R "-->" = true).
  { assert (Hc : exists q, join [nl] (("    A --> B" : str) :: conns) = "    A --> B" ++ q).
    { destruct conns as [|c2 cs]; [now exists []|].
      exists ([nl] ++ join [nl] (c2 :: cs)). reflexivity. }
    destruct Hc as (q & Hc). rewrite Hc.
    change (join [nl] (n1 :: n2 :: nodes)) with (n1 ++ [nl] ++ join [nl] (n2 :: nodes)).
    destruct nodes as [|n3 ns].
    - exists ("    A --> B" ++ q). split.
      + cbn [join]. now rewrite <- !app_assoc.
      + apply contains_iff. now exists "    A ", (" B" ++ q).
    - exists (join [nl] (n3 :: ns) ++ [nl] ++ "    A --> B" ++ q). split.
      + change (join [nl] (n2 :: n3 :: ns)) with (n2 ++ [nl] ++ join [nl] (n3 :: ns)).
        now rewrite <- !app_assoc.
      + apply contains_iff. exists (join [nl] (n3 :: ns) ++ [nl] ++ "    A "), (" B" ++ q).
        now rewrite <- !app_assoc. }
  destruct Hcode as (R & -> & HR).
  destruct (strip_keeps_header (nl :: n1 ++ nl :: n2 ++ nl :: R)) as (t' & Ht').
  apply (validate_intro _ t' Ht').
  - apply contains_iff in HR as (p & q & ->). apply contains_iff.
    exists ("flowchart TD" ++ nl :: n1 ++ nl :: n2 ++ nl :: p), q.
    repeat (rewrite <- ?app_assoc, <- ?app_comm_cons). reflexivity.
  - cbv zeta.
    rewrite (split_chr_app_sep nl "flowchart TD") by (cbn; intuition discriminate).
    rewrite (split_chr_app_sep nl n1), (split_chr_app_sep nl n2) by assumption.
    assert (Hk1 : negb (is_empty (strip n1)) && negb (startswith (strip n1) "%%") = true)
      by exact (proj1 (node_line_kept "A" (clean_step s1) eq_refl ltac:(discriminate))).
    assert (Hl1 : looks_like_node_or_edge n1 = true)
      by exact (proj2 (node_line_kept "A" (clean_step s1) eq_refl ltac:(discriminate))).
    assert (Hk2 : negb (is_empty (strip n2)) && negb (startswith (strip n2) "%%") = true)
      by exact (proj1 (node_line_kept "B" (clean_step s2) eq_refl ltac:(discriminate))).
    assert (Hl2 : looks_like_node_or_edge n2 = true)
      by exact (proj2 (node_line_kept "B" (clean_step s2) eq_refl ltac:(discriminate))).
    cbn [List.filter]. 
    change (negb (is_empty (strip "flowchart TD")) && negb (startswith (strip "flowchart TD") "%%"))
      with true. cbn iota.
    rewrite Hk1, Hk2. cbn [List.filter]. rewrite Hl1, Hl2.
    split.
    + cbn [length]. lia.
    + destruct (looks_like_node_or_edge "flowchart TD"); cbn [length]; lia.
Qed.

Lemma fallback_valid_unless_one_step (description : str) :
  matches_template description = true
  \/ length (fallback_steps (split_chr nl description)) <> 1 ->
  _validate_mermaid (_generate_fallback_flowchart description) = true.
Proof.
  intros H. destruct (matches_template description) eqn:Ht.
  { now apply fallback_templates_validate. }
  destruct H as [H|H]; [discriminate|].
  rewrite fallback_generic by assumption. cbv zeta.
  destruct (fallback_steps (split_chr nl description)) as [|s1 [|s2 more]] eqn:Hs.
  - cbn [is_empty firstn fallback_chain Nat.ltb Nat.leb].
    apply (fallback_default_validates (clean_step (upto 40 description))).
  - now destruct H.
  - cbn [is_empty firstn].
    apply fallback_steps_validate;
      apply (fallback_steps_one_line (split_chr nl description));
      try apply split_chr_no_sep; rewrite Hs; cbn; auto.
Qed.

(** The fallback passes the validator whenever the description selects a
    canned template or the number of its usable steps is not one. *)
Theorem fallback_validates (description : str) :
  matches_template description = true
  \/ length (fallback_steps (split_chr nl description)) <> 1 ->
  _validate_mermaid (_generate_fallback_flowchart description) = true.
Proof. apply fallback_valid_unless_one_step. Qed.

Lemma fallback_validates_witness :
  _validate_mermaid (_generate_fallback_flowchart ("boil water" ++ [nl] ++ "pour")) = true.
Proof.
  apply fallback_validates. right. vm_compute. discriminate.
Defined.

(** ** The diagram returned *)

Lemma length_one {A} (l : list A) : length l = 1 \/ length l <> 1.
Proof. destruct (Nat.eq_dec (length l) 1); auto. Qed.

(** Whatever the model answers, the diagram [_generate_mermaid] returns
    passes the validator, with one exception: the fallback of a description
    that selects no canned template and has exactly one usable step.  It
    returns a diagram only for a description that is a text and not blank. *)
Theorem returned_diagram_validates
    (self : FlowchartAgent) (description : pyval) (level code : str) :
  _generate_mermaid self description level = Ok code ->
  exists d, description = VStr d /\ strip d <> []
            /\ (_validate_mermaid code = true
                \/ (code = _generate_fallback_flowchart (strip d)
                    /\ matches_template (strip d) = false
                    /\ length (fallback_steps (split_chr nl (strip d))) = 1)).
Proof.
  intros H. destruct (generate_mermaid_result _ _ _ _ H) as (d & -> & Hne & Hcode).
  exists d. split; [reflexivity|]. split; [assumption|].
  destruct Hcode as [->|Hv]; [|now left].
  destruct (matches_template (strip d)) eqn:Ht.
  - left. apply fallback_valid_unless_one_step. now left.
  - destruct (length_one (fallback_steps (split_chr nl (strip d)))) as [H1|H1].
    + right. auto.
    + left. apply fallback_valid_unless_one_step. now right.
Qed.

Lemma returned_diagram_validates_witness :
  let self := example_agent (fun _ => Ok ("no chart here" : str)) (Ok tt) in
  exists d, VStr "boil water; pour" = VStr d /\ strip d <> []
            /\ (_validate_mermaid (_generate_fallback_flowchart "boil water; pour") = true
                \/ (_generate_fallback_flowchart "boil water; pour"
                    = _generate_fallback_flowchart (strip d)
                    /\ matches_template (strip d) = false
                    /\ length (fallback_steps (split_chr nl (strip d))) = 1)).
Proof.
  intros self.
  exact (returned_diagram_validates self (VStr "boil water; pour") "1"
           (_generate_fallback_flowchart "boil water; pour") eq_refl).
Defined.

(** ** Quoted labels *)

(** A search for one character of a class finds one exactly when the text
    holds one. *)
Lemma search_class (p : ascii -> bool) (s : str) :
  forall m, rest m = s -> found (search_from (Cls p) m s) = existsb p s.
Proof.
  induction s as [|c s IH]; intros m Hm.
  - cbn [search_from]. unfold match_at. cbn [run]. rewrite Hm. reflexivity.
  - cbn [search_from existsb]. unfold match_at. cbn [run]. rewrite Hm.
    destruct (p c); [reflexivity|]. cbn [orb]. now apply IH.
Qed.

Lemma needs_quotes_spec (label : str) :
  needs_quotes label
  = existsb (fun c => mem c special_chars) label
    && negb (startswith label [dquote] && endswith label [dquote]).
Proof.
  unfold needs_quotes, re_search, re_special. rewrite search_class by reflexivity.
  reflexivity.
Qed.

Lemma endswith_app (a b : str) : endswith (a ++ b) b = true.
Proof.
  unfold endswith. rewrite rev_app_distr. apply startswith_app.
Qed.

(** A label that stands between double quotes is not put between quotes
    again, and a label without a special character is left as it is: in
    both cases the node and the labeled edge keep the label they have. *)
Theorem quoted_label_kept (node_id label left right : str) (bracket_type : ascii) :
  (exists inner, label = [dquote] ++ inner ++ [dquote])
  \/ forallb (fun c => negb (mem c special_chars)) label = true ->
  needs_quotes label = false
  /\ (mem bracket_type "[{(" = true ->
      _wrap_label_if_needed node_id label bracket_type
      = node_id ++ [bracket_type] ++ label
        ++ [if Ascii.eqb bracket_type "[" then "]"%char
            else if Ascii.eqb bracket_type "{" then "}"%char else ")"%char])
  /\ _wrap_connection_label left label right = left ++ " -->|" ++ label ++ "| " ++ right.
Proof.
  intros H.
  assert (Hn : needs_quotes label = false).
  { rewrite needs_quotes_spec. destruct H as [(inner & ->)|H].
    - rewrite (startswith_app [dquote] (inner ++ [dquote])).
      replace ([dquote] ++ inner ++ [dquote]) with (([dquote] ++ inner) ++ [dquote])
        by now rewrite <- app_assoc.
      rewrite endswith_app. apply andb_false_r.
    - apply andb_false_iff. left.
      induction label as [|c label IH]; [reflexivity|].
      cbn [forallb existsb] in *. apply andb_true_iff in H as [Hc H].
      apply negb_true_iff in Hc. rewrite Hc. now apply IH. }
  split; [assumption|]. split.
  - intros Hb. unfold _wrap_label_if_needed. rewrite Hn, Hb. cbn [andb].
    cbn [mem existsb list_ascii_of_string] in Hb.
    destruct (Ascii.eqb bracket_type "["); [reflexivity|].
    destruct (Ascii.eqb bracket_type "{"); [reflexivity|].
    destruct (Ascii.eqb bracket_type "("); [reflexivity|discriminate].
  - unfold _wrap_connection_label. now rewrite Hn.
Qed.

Lemma quoted_label_kept_witness :
  _wrap_label_if_needed "A" ([dquote] ++ "Start: go" ++ [dquote]) "["
  = "A[" ++ [dquote] ++ "Start: go" ++ [dquote] ++ "]".
Proof.
  exact (proj1 (proj2 (quoted_label_kept "A" ([dquote] ++ "Start: go" ++ [dquote]) "" "" "["
                         (or_introl (ex_intro _ ("Start: go" : str) eq_refl))))
               eq_refl).
Defined.

(** ** Cleaned labels *)

(** A substitution by a fixed text brings in no character but those of
    the subject and of that text. *)
Lemma sub_go_chars (r : regex) (repl : rmatch -> str) (fixed : str) (x : ascii) :
  (forall y, repl y = fixed) ->
  forall (s : str) (skip : nat) (m : mstate),
    In x (sub_go r repl skip m s) -> In x s \/ In x fixed.
Proof.
  intros Hrepl. induction s as [|c s IH]; intros skip m H.
  - destruct skip; cbn [sub_go] in H; [|destruct H].
    destruct (match_at r m) as [y|]; [|destruct H].
    destruct (width y).
    + apply in_app_or in H as [H|H]; [rewrite Hrepl in H; now right|].
      destruct (match_nonempty_at r m) as [z|]; [|destruct H].
      rewrite app_nil_r, Hrepl in H. now right.
    + rewrite app_nil_r, Hrepl in H. now right.
  - assert (Hstep : forall k m', In x (sub_go r repl k m' s) -> In x (c :: s) \/ In x fixed).
    { intros k m' Hk. apply IH in Hk as [Hk|Hk]; [left; now right|now right]. }
    assert (Hcopy : In x (c :: sub_go r repl 0 (advance c s m) s) -> In x (c :: s) \/ In x fixed).
    { intros [<-|Hk]; [left; now left|now apply (Hstep 0 (advance c s m))]. }
    destruct skip; cbn [sub_go] in H; [|now apply (Hstep skip (advance c s m))].
    destruct (match_at r m) as [y|]; [|now apply Hcopy].
    destruct (width y).
    + apply in_app_or in H as [H|H]; [rewrite Hrepl in H; now right|].
      destruct (match_nonempty_at r m) as [z|]; [|now apply Hcopy].
      apply in_app_or in H as [H|H]; [rewrite Hrepl in H; now right|].
      exact (Hstep _ _ H).
    + apply in_app_or in H as [H|H]; [rewrite Hrepl in H; now right|].
      exact (Hstep _ _ H).
Qed.

Lemma re_sub_chars (r : regex) (fixed s : str) (x : ascii) :
  In x (re_sub r (fun _ => fixed) s) -> In x s \/ In x fixed.
Proof. unfold re_sub. now apply sub_go_chars. Qed.

Lemma rstrip_by_In (p : ascii -> bool) (s : str) (x : ascii) :
  In x (rstrip_by p s) -> In x s.
Proof.
  intros H. destruct (rstrip_by_prefix p s) as (b & E & _).
  rewrite E. apply in_or_app. now left.
Qed.

(** A label that is not empty stays not empty when cleaned; the cleaned
    label holds no double quote and no backquote, and no white space at its
    two ends. *)
Theorem clean_label_shape (text : str) :
  text <> [] ->
  clean_label text <> []
  /\ ~ In dquote (clean_label text)
  /\ ~ In backquote (clean_label text)
  /\ strip (clean_label text) = clean_label text.
Proof.
  intros Hne. unfold clean_label.
  destruct text as [|c0 t0] eqn:Et; [congruence|]. cbn [is_empty]. rewrite <- Et.
  set (t1 := replace text [dquote] [squote]).
  set (t2 := replace t1 [backquote] [squote]).
  set (t3 := re_sub re_double_dash (fun _ => "-") t2).
  set (t4 := re_sub re_trailing_dash (fun _ => "") t3).
  set (t5 := re_sub re_leading_dash (fun _ => "") t4).
  set (t6 := rstrip_chars t5 ".,;:").
  set (t7 := re_sub re_spaces (fun _ => " ") t6).
  assert (Hq : forall q, q = dquote \/ q = backquote -> ~ In q (strip t7)).
  { intros q Hq Hin. apply strip_In in Hin.
    apply re_sub_chars in Hin as [Hin|Hin];
      [|destruct Hq as [-> | ->]; cbn in Hin; intuition discriminate].
    apply rstrip_by_In in Hin.
    apply re_sub_chars in Hin as [Hin|Hin]; [|destruct Hin].
    apply re_sub_chars in Hin as [Hin|Hin]; [|destruct Hin].
    apply re_sub_chars in Hin as [Hin|Hin];
      [|destruct Hq as [-> | ->]; cbn in Hin; intuition discriminate].
    apply replace_chr_In in Hin as [Hin|[Hin Hb]];
      [destruct Hq as [-> | ->]; cbn in Hin; intuition discriminate|].
    apply replace_chr_In in Hin as [Hin|[Hin Hd]];
      [destruct Hq as [-> | ->]; cbn in Hin; intuition discriminate|].
    destruct Hq; congruence. }
  destruct (strip t7) as [|c t] eqn:Es; cbn [is_empty].
  - repeat split; try discriminate; cbn; intuition discriminate.
  - split; [discriminate|]. split; [apply Hq; now left|]. split; [apply Hq; now right|].
    rewrite <- Es. apply strip_idem.
Qed.

Lemma clean_label_shape_witness :
  clean_label (" - " ++ [dquote] ++ "a  b" ++ [dquote] ++ ".") <> []
  /\ ~ In dquote (clean_label (" - " ++ [dquote] ++ "a  b" ++ [dquote] ++ "."))
  /\ ~ In backquote (clean_label (" - " ++ [dquote] ++ "a  b" ++ [dquote] ++ "."))
  /\ strip (clean_label (" - " ++ [dquote] ++ "a  b" ++ [dquote] ++ "."))
     = clean_label (" - " ++ [dquote] ++ "a  b" ++ [dquote] ++ ".").
Proof.
  apply clean_label_shape. discriminate.
Defined.

(** ** The shape of the generic fallback *)

Lemma clean_step_chars (step : str) (x : ascii) :
  In x (clean_step step) ->
  x <> "["%char /\ x <> "]"%char /\ x <> dquote /\ (In x step \/ x = squote).
Proof.
  unfold clean_step. intros H.
  apply replace_chr_In in H as [H|[H Hd]].
  { destruct H as [<-|[]]. repeat split; try discriminate. now right. }
  apply replace_chr_In in H as [H|[H Hc]]; [destruct H|].
  apply replace_chr_In in H as [H|[H Ho]]; [destruct H|].
  repeat split; try assumption. now left.
Qed.


Lemma fallback_chain_from (steps : list str) (i : nat) :
  0 < i ->
  fallback_chain i steps
  = (node_lines i (map clean_step steps),
     map connection_line (List.seq (i - 1) (length steps))).
Proof.
  revert i. induction steps as [|step rest IH]; intros i Hi; [reflexivity|].
  cbn [fallback_chain map node_lines length]. rewrite (IH (S i)) by lia.
  destruct (0 <? i)%nat eqn:E; [|apply Nat.ltb_ge in E; lia].
  cbn [List.seq map]. unfold node_line, connection_line.
  replace (S i - 1) with i by lia. replace (S (i - 1)) with i by lia.
  replace (65 + i - 1) with (65 + (i - 1)) by lia.
  replace (66 + (i - 1)) with (65 + i) by lia. reflexivity.
Qed.

Lemma fallback_chain_chart (steps : list str) :
  fallback_chain 0 steps
  = (node_lines 0 (map clean_step steps),
     map connection_line (List.seq 0 (length steps - 1))).
Proof.
  destruct steps as [|step rest]; [reflexivity|].
  cbn [fallback_chain map node_lines length]. rewrite (fallback_chain_from rest 1) by lia.
  cbn [Nat.ltb Nat.leb Nat.sub]. now rewrite Nat.sub_0_r.
Qed.

(** Outside the two canned templates the fallback is the chart of a chain
    of labels: the header, one node for each label with the identifiers
    [A], [B], [C], ... in this order, and a connection from each node to
    the next.  There are between one and eight labels, the cleaned steps of
    the description or of the default list; none holds a square bracket or
    a double quote, and when the description has a usable step none holds
    a line break, so that each node is one line. *)
Theorem fallback_shape (description : str) :
  matches_template description = false ->
  let steps := fallback_steps (split_chr nl description) in
  exists labels,
    _generate_fallback_flowchart description = chain_chart labels
    /\ 1 <= length labels <= 8
    /\ (steps = [] -> length labels = 4)
    /\ (steps <> [] -> labels = map clean_step (firstn 8 steps))
    /\ List.Forall (fun label => ~ In "["%char label /\ ~ In "]"%char label
                                 /\ ~ In dquote label) labels
    /\ (steps <> [] -> List.Forall (fun label => ~ In nl label) labels).
Proof.
  intros Ht steps. rewrite fallback_generic by assumption. cbv zeta. fold steps.
  assert (Hone : forall s, In s steps -> ~ In nl s).
  { intros s. apply (fallback_steps_one_line (split_chr nl description)).
    intros l. apply split_chr_no_sep. }
  clearbody steps.
  set (steps' := if is_empty steps
                 then ["Start" : str; upto 40 description; "Process" : str; "End" : str]
                 else steps).
  rewrite fallback_chain_chart. exists (map clean_step (firstn 8 steps')).
  split; [unfold chain_chart; now rewrite length_map|].
  rewrite length_map, length_firstn.
  assert (Hlen : 1 <= length steps') by (unfold steps'; destruct steps; cbn; lia).
  split; [lia|]. split; [|split; [|split]].
  - intros E. unfold steps'. rewrite E. reflexivity.
  - intros Hne. unfold steps'. destruct steps; [now destruct Hne|reflexivity].
  - apply List.Forall_forall. intros label Hl. apply in_map_iff in Hl as (step & <- & _).
    repeat split; intros Hin; apply clean_step_chars in Hin as (H1 & H2 & H3 & _); congruence.
  - intros Hne.
    assert (E : steps' = steps)
      by (unfold steps'; destruct steps; [now destruct Hne|reflexivity]).
    rewrite E. apply List.Forall_forall. intros label Hl.
    apply in_map_iff in Hl as (step & <- & Hin).
    apply clean_step_one_line, Hone.
    rewrite <- (firstn_skipn 8 steps). apply in_or_app. now left.
Qed.

Lemma fallback_shape_witness :
  exists labels,
    _generate_fallback_flowchart ("- a[1]" ++ [nl] ++ "- b")
    = chain_chart labels
    /\ 1 <= length labels <= 8
    /\ (fallback_steps (split_chr nl ("- a[1]" ++ [nl] ++ "- b")) = [] -> length labels = 4)
    /\ (fallback_steps (split_chr nl ("- a[1]" ++ [nl] ++ "- b")) <> []
        -> labels = map clean_step (firstn 8 (fallback_steps (split_chr nl ("- a[1]" ++ [nl] ++ "- b")))))
    /\ List.Forall (fun label => ~ In "["%char label /\ ~ In "]"%char label
                                 /\ ~ In dquote label) labels
    /\ (fallback_steps (split_chr nl ("- a[1]" ++ [nl] ++ "- b")) <> []
        -> List.Forall (fun label => ~ In nl label) labels).
Proof.
  exact (fallback_shape ("- a[1]" ++ [nl] ++ "- b") eq_refl).
Defined.

(** ** The extraction of a chart *)

Lemma extract_lines_inside (body : list str) :
  forallb chart_text_line body = true ->
  extract_lines true true body = map strip body.
Proof.
  induction body as [|l body IH]; intros H; [reflexivity|].
  cbn [forallb] in H. apply andb_true_iff in H as [Hl H].
  unfold chart_text_line in Hl. apply andb_true_iff in Hl as [Hl Hf].
  apply andb_true_iff in Hl as [He Hh].
  apply negb_true_iff in He, Hh, Hf.
  cbn [extract_lines map]. rewrite He, Hh, Hf, (IH H).
  now destruct (contains (lower (strip l)) "flowchart" && has_direction (strip l)).
Qed.

Lemma strip_keeps_keyword (t : str) :
  exists t', strip ("flowchart" ++ t) = "flowchart" ++ t'.
Proof.
  unfold strip.
  change (lstrip_by isspace ("flowchart" ++ t)) with ("flowchart" ++ t).
  change ("flowchart" ++ t) with ("flowchar" ++ "t"%char :: t).
  destruct (rstrip_by_keep isspace "flowchar" t "t" eq_refl) as (b' & ->). now exists b'.
Qed.

(** The extractor from the text it has trimmed and freed of its fence. *)
Lemma extract_of_cleaned (text header : str) (body : list str) :
  text <> [] ->
  strip (if startswith (strip text) fence then _strip_fence (strip text) else strip text)
  = join [nl] (header :: body) ->
  startswith (strip header) "flowchart" = true -> has_direction (strip header) = true ->
  ~ In nl header ->
  List.Forall (fun l => ~ In nl l) body ->
  forallb chart_text_line body = true ->
  _extract_mermaid text = extracted_chart header body.
Proof.
  intros Hne Hcleaned Hkw Hdir Hnl Hbody Hlines.
  unfold _extract_mermaid. destruct text as [|c0 t0] eqn:Et; [congruence|].
  cbn [is_empty]. cbv zeta. rewrite Hcleaned.
  rewrite split_chr_join by (discriminate || now constructor).
  apply startswith_iff in Hkw as (q & Hq).
  assert (Hlines' : extract_lines false false (header :: body)
                    = map strip (header :: body)).
  { cbn [extract_lines map]. rewrite Hq in *.
    change (is_empty ("flowchart" ++ q)) with false.
    change (startswith ("flowchart" ++ q) "#") with false.
    change (startswith ("flowchart" ++ q) fence) with false. cbn iota.
    rewrite lower_app. change (lower "flowchart") with ("flowchart" : str).
    pose proof (contains_app_l [] "flowchart" (lower q)) as Hc.
    cbn [app] in Hc. rewrite Hc.
    rewrite Hdir. cbn [andb]. now rewrite extract_lines_inside. }
  rewrite Hlines'. cbn [map is_empty].
  assert (Hstart : startswith (strip (join [nl] (strip header :: map strip body)))
                              "flowchart" = true).
  { assert (E : exists t, join [nl] (strip header :: map strip body) = "flowchart" ++ t).
    { rewrite Hq. destruct (map strip body) as [|b bs].
      - now exists q.
      - exists (q ++ [nl] ++ join [nl] (b :: bs)).
        change (join [nl] (("flowchart" ++ q) :: b :: bs))
          with (("flowchart" ++ q) ++ [nl] ++ join [nl] (b :: bs)).
        now rewrite <- app_assoc. }
    destruct E as (t & ->). destruct (strip_keeps_keyword t) as (t' & ->).
    apply startswith_app. }
  rewrite Hstart. cbn [negb]. reflexivity.
Qed.

Lemma one_line_no_nl (l : str) :
  forallb (fun c => negb (is_linebreak c)) l = true -> ~ In nl l.
Proof.
  intros H Hin. rewrite forallb_forall in H. specialize (H nl Hin). discriminate.
Qed.

Lemma join_not_nil (sep : str) (l : str) (ls : list str) :
  l <> [] -> join sep (l :: ls) <> [].
Proof.
  intros H. destruct ls as [|l2 ls]; [exact H|].
  change (join sep (l :: l2 :: ls)) with (l ++ sep ++ join sep (l2 :: ls)).
  destruct l; [congruence|discriminate].
Qed.

Lemma join_snoc (sep : str) (ls : list str) (x : str) :
  ls <> [] -> join sep (ls ++ [x]) = join sep ls ++ sep ++ x.
Proof.
  induction ls as [|l ls IH]; [congruence|]. intros _.
  destruct ls as [|l2 ls]; [reflexivity|].
  change (join sep ((l :: l2 :: ls) ++ [x])) with (l ++ sep ++ join sep ((l2 :: ls) ++ [x])).
  rewrite IH by discriminate.
  change (join sep (l :: l2 :: ls)) with (l ++ sep ++ join sep (l2 :: ls)).
  now rewrite <- !app_assoc.
Qed.

Lemma strip_keeps_fence (t : str) : exists t', strip (fence ++ t) = fence ++ t'.
Proof.
  unfold strip, fence.
  change (lstrip_by isspace ("```" ++ t)) with ("```" ++ t).
  change ("```" ++ t) with ("``" ++ "`"%char :: t).
  destruct (rstrip_by_keep isspace "``" t "`" eq_refl) as (b' & ->). now exists b'.
Qed.

Lemma last_chart_line_no_fence (header : str) (body : list str) :
  startswith (strip header) "flowchart" = true ->
  forallb chart_text_line body = true ->
  match rev (header :: body) with l :: _ => strip l <> fence | [] => True end.
Proof.
  intros Hkw Hlines.
  assert (H : forall l, In l (header :: body) -> strip l <> fence).
  { intros l [<-|Hin] E.
    - rewrite E in Hkw. discriminate.
    - rewrite forallb_forall in Hlines. specialize (Hlines l Hin).
      unfold chart_text_line in Hlines. rewrite E in Hlines. discriminate. }
  destruct (rev (header :: body)) as [|l r] eqn:E; [exact I|].
  apply H. apply in_rev. rewrite E. now left.
Qed.

Lemma extract_chart_lines (info header : str) (body : list str) :
  let chart := join [nl] (header :: body) in
  strip chart = chart ->
  startswith (strip header) "flowchart" = true ->
  has_direction (strip header) = true ->
  List.Forall (fun l => forallb (fun c => negb (is_linebreak c)) l = true)
              (info :: header :: body) ->
  forallb chart_text_line body = true ->
  _extract_mermaid chart = extracted_chart header body
  /\ _extract_mermaid (fence ++ info ++ [nl] ++ chart ++ [nl] ++ fence)
     = extracted_chart header body.
Proof.
  intros chart Hchart Hkw Hdir Hall Hlines.
  inversion Hall as [|? ? Hinfo Hrest]; subst.
  inversion Hrest as [|? ? Hheader Hbody]; subst.
  assert (Hnl : ~ In nl header) by now apply one_line_no_nl.
  assert (Hbody' : List.Forall (fun l => ~ In nl l) body).
  { eapply List.Forall_impl; [|exact Hbody]. intros l. apply one_line_no_nl. }
  assert (Hhne : header <> []).
  { intros ->. discriminate Hkw. }
  assert (Hcne : chart <> []) by now apply join_not_nil.
  assert (Hcf : startswith chart fence = false).
  { destruct header as [|h0 ht] eqn:Eh; [congruence|].
    assert (Hc0 : exists t, chart = h0 :: t).
    { unfold chart. destruct body as [|b bs]; [now exists ht|].
      exists (ht ++ [nl] ++ join [nl] (b :: bs)). reflexivity. }
    destruct Hc0 as (t & Hc0).
    assert (Hh0 : isspace h0 = false).
    { apply (strip_head chart h0 t). now rewrite Hchart. }
    unfold strip in Hkw. rewrite lstrip_by_fixed in Hkw by assumption.
    destruct (rstrip_by_prefix isspace (h0 :: ht)) as (b & E & _).
    apply startswith_iff in Hkw as (q & Hq). rewrite Hq in E.
    injection E as -> _. rewrite Hc0. reflexivity. }
  split.
  - apply extract_of_cleaned; try assumption.
    now rewrite Hchart, Hcf.
  - set (text := fence ++ info ++ [nl] ++ chart ++ [nl] ++ fence).
    assert (Htext : text = join [nl] ((fence ++ info) :: (header :: body) ++ [fence])).
    { change (join [nl] ((fence ++ info) :: (header :: body) ++ [fence]))
        with ((fence ++ info) ++ [nl] ++ join [nl] ((header :: body) ++ [fence])).
      rewrite join_snoc by discriminate. unfold text. fold chart.
      now rewrite <- !app_assoc. }
    assert (Hst : strip text = text).
    { pose proof (strip_core [] [] "`" "`" ("``" ++ info ++ [nl] ++ chart ++ [nl] ++ "``")
                    eq_refl eq_refl eq_refl eq_refl) as E.
      rewrite app_nil_r in E. cbn [app] in E.
      replace text with ("`"%char :: ("``" ++ info ++ [nl] ++ chart ++ [nl] ++ "``") ++ ["`"%char]).
      - exact E.
      - unfold text, fence. repeat (rewrite <- ?app_assoc, <- ?app_comm_cons). reflexivity. }
    assert (Hsf : _strip_fence text = chart).
    { rewrite Htext. apply strip_fence_lines.
      - destruct (strip_keeps_fence info) as (t' & ->). apply startswith_app.
      - reflexivity.
      - constructor.
        + rewrite forallb_app, Hinfo. reflexivity.
        + apply Forall_app. split; [now constructor|]. now repeat constructor.
      - now apply last_chart_line_no_fence. }
    apply extract_of_cleaned; try assumption.
    + discriminate.
    + rewrite Hst. change (startswith text fence) with true. cbn iota.
      now rewrite Hsf.
Qed.

(** A chart that begins with its header and has no white space at its
    ends is extracted line by line, each line trimmed, whether it comes
    alone or between an opening and a closing fence; it is sanitized when the
    syntax check reports an error on the trimmed lines, and returned as it
    is otherwise. *)
Theorem extract_chart (info header : str) (body : list str) :
  let chart := join [nl] (header :: body) in
  strip chart = chart ->
  startswith (strip header) "flowchart" = true ->
  has_direction (strip header) = true ->
  List.Forall (fun l => forallb (fun c => negb (is_linebreak c)) l = true)
              (info :: header :: body) ->
  forallb chart_text_line body = true ->
  _extract_mermaid chart = extracted_chart header body
  /\ _extract_mermaid (fence ++ info ++ [nl] ++ chart ++ [nl] ++ fence)
     = extracted_chart header body.
Proof. apply extract_chart_lines. Qed.

Lemma extract_chart_witness :
  let chart := "flowchart TD" ++ [nl] ++ "    A[Start] --> B[Stop]  " ++ [nl] ++ "B --> C" in
  let trimmed := "flowchart TD" ++ [nl] ++ "A[Start] --> B[Stop]" ++ [nl] ++ "B --> C" in
  _extract_mermaid chart = trimmed
  /\ _extract_mermaid (fence ++ "mermaid" ++ [nl] ++ chart ++ [nl] ++ fence) = trimmed.
Proof.
  intros chart trimmed.
  exact (extract_chart "mermaid" "flowchart TD"
           ["    A[Start] --> B[Stop]  " : str; "B --> C" : str]
           eq_refl eq_refl eq_refl
           ltac:(repeat constructor) eq_refl).
Defined.

(** ** Charts without an end node *)

Lemma contains_lower_suffix (s : str) (n : nat) (sub : str) :
  startswith (lower (skipn n s)) sub = true -> contains (lower s) sub = true.
Proof.
  intros H. apply startswith_iff in H as (q & Hq).
  apply contains_iff. exists (lower (firstn n s)), q.
  rewrite <- Hq, <- lower_app. now rewrite firstn_skipn.
Qed.

(** A pattern of an end node matches only a text that holds the word. *)
Lemma end_node_needs_word (o cl : ascii) (s : str) (x : rmatch) :
  re_match (re_end_node o cl) s = Some x -> contains (lower s) "end" = true.
Proof.
  unfold re_match, match_at, re_end_node.
  rewrite run_seq_cons, run_Bol_start by reflexivity.
  rewrite run_seq_cons, run_Grp. unfold plus. rewrite run_Seq.
  destruct (run _ _ (start_of s)) as [e|] eqn:H; [intros _|discriminate].
  apply run_Cls_inv in H as (c & s' & Hs & _ & H).
  cbn [start_of rest] in Hs. subst s.
  rewrite run_Star_greedy in H.
  apply star_greedy_inv in H as (j & _ & _ & H); [|reflexivity].
  rewrite run_seq_cons in H.
  apply run_Cls_inv in H as (c2 & s2 & _ & _ & H).
  rewrite run_seq_cons, run_Grp in H.
  rewrite run_seq_cons in H. unfold star at 1 in H. rewrite run_Star_greedy in H.
  apply star_greedy_inv in H as (j1 & _ & _ & H); [|reflexivity].
  rewrite run_seq_cons, run_lit_i in H.
  destruct (startswith _ _) eqn:Hw; [|discriminate].
  rewrite !forward_rest_skipn in Hw. unfold capture in Hw. cbn [rest] in Hw.
  rewrite !forward_rest_skipn in Hw. cbn [start_of rest] in Hw.
  rewrite !skipn_skipn in Hw.
  now apply contains_lower_suffix in Hw.
Qed.

Lemma end_match_needs_word (s : str) (x : rmatch) :
  end_match s = Some x -> contains (lower s) "end" = true.
Proof.
  unfold end_match.
  destruct (re_match (re_end_node "[" "]") s) eqn:E1;
    [intros _; now apply (end_node_needs_word _ _ _ _ E1)|].
  destruct (re_match (re_end_node "{" "}") s) eqn:E2;
    [intros _; now apply (end_node_needs_word _ _ _ _ E2)|].
  apply end_node_needs_word.
Qed.

Lemma end_nodes_lines_unchanged (lines : list str) (end_node_counter : gmap str nat) :
  (forall l, In l lines -> contains (lower (strip l)) "end" = false) ->
  end_nodes_lines end_node_counter [] lines = Ok lines.
Proof.
  induction lines as [|line rest IH]; intros H; [reflexivity|].
  cbn [end_nodes_lines].
  rewrite IH by (intros l Hl; apply H; now right). cbn [bind].
  destruct (is_empty (strip line) || startswith (strip line) "flowchart"); [reflexivity|].
  destruct (end_match (strip line)) as [x|] eqn:E.
  - apply end_match_needs_word in E. rewrite (H line) in E by now left. discriminate.
  - now destruct (contains line "-->").
Qed.

(** A chart in which the word [end] occurs nowhere, in any case of
    letters, goes through the normalization of end nodes unchanged; the
    normalization raises nothing on it. *)
Theorem end_nodes_unchanged_without_word (code : str) :
  contains (lower code) "end" = false ->
  _normalize_end_nodes code = Ok code.
Proof.
  intros H. unfold _normalize_end_nodes.
  rewrite end_nodes_lines_unchanged.
  - cbn [bind]. now rewrite join_split_chr.
  - intros l Hl.
    destruct (split_chr_infix nl code l Hl) as (p & q & E).
    destruct (strip_infix l) as (p' & q' & E').
    apply (lower_contains_false_infix code "end" (p ++ p') (strip l) (q' ++ q) H).
    rewrite E, E' at 1. now rewrite <- !app_assoc.
Qed.

Lemma end_nodes_unchanged_without_word_witness :
  _normalize_end_nodes ("flowchart TD" ++ [nl] ++ "    A[Start] --> B[Stop]")
  = Ok ("flowchart TD" ++ [nl] ++ "    A[Start] --> B[Stop]").
Proof.
  exact (end_nodes_unchanged_without_word
           ("flowchart TD" ++ [nl] ++ "    A[Start] --> B[Stop]") eq_refl).
Defined.

(** ** Arrows through [_fix_mermaid_code] *)

Lemma split_go_pass (c0 : ascii) (sep' a rest cur : str) :
  ~ In c0 a ->
  split_go (c0 :: sep') 0 cur (a ++ rest) = split_go (c0 :: sep') 0 (rev a ++ cur) rest.
Proof.
  revert cur. induction a as [|x a IH]; intros cur Ha; [reflexivity|].
  cbn [app split_go startswith].
  assert (Hx : Ascii.eqb c0 x = false).
  { apply Ascii.eqb_neq. intros ->. apply Ha. now left. }
  rewrite Hx. cbn [andb]. rewrite IH by (intros H; apply Ha; now right).
  cbn [rev]. now rewrite <- app_assoc.
Qed.

Lemma split_go_tail (c0 : ascii) (sep' b cur : str) :
  ~ In c0 b -> split_go (c0 :: sep') 0 cur b = [rev cur ++ b].
Proof.
  intros Hb. rewrite <- (app_nil_r b) at 1. rewrite split_go_pass by assumption.
  cbn [split_go]. now rewrite rev_app_distr, rev_involutive.
Qed.

Lemma replace_absent_arrow (a b : str) (sep' : str) :
  ~ In "-"%char a -> ~ In "-"%char b ->
  sep' = "- >" \/ sep' = " ->" ->
  replace (a ++ "-->" ++ b) ("-"%char :: sep') " --> " = a ++ "-->" ++ b.
Proof.
  intros Ha Hb Hsep. unfold replace, split.
  rewrite split_go_pass by assumption. rewrite app_nil_r.
  destruct Hsep as [-> | ->].
  - cbn [app list_ascii_of_string split_go startswith Ascii.eqb Bool.eqb andb].
    rewrite split_go_tail by assumption. cbn [join rev app].
    rewrite rev_involutive. now rewrite <- !app_assoc.
  - cbn [app list_ascii_of_string split_go startswith Ascii.eqb Bool.eqb andb].
    rewrite split_go_tail by assumption. cbn [join rev app].
    rewrite rev_involutive. now rewrite <- !app_assoc.
Qed.

Lemma replace_arrow (a b : str) :
  ~ In "-"%char a -> ~ In "-"%char b ->
  replace (a ++ "-->" ++ b) "->" " --> " = a ++ "- --> " ++ b.
Proof.
  intros Ha Hb. unfold replace, split.
  change ("->" : str) with ("-"%char :: ">").
  rewrite split_go_pass by assumption. rewrite app_nil_r.
  cbn [app list_ascii_of_string split_go startswith Ascii.eqb Bool.eqb andb length Nat.sub].
  rewrite split_go_tail by assumption. cbn [join rev app].
  rewrite rev_involutive. now rewrite <- !app_assoc.
Qed.

Lemma fix_mermaid_lines_edges (edges : list (str * str)) :
  forallb plain_edge edges = true ->
  fix_mermaid_lines (map (fun e => fst e ++ "-->" ++ snd e) edges)
  = map (fun e => fst e ++ "- --> " ++ snd e) edges.
Proof.
  induction edges as [|[a b] edges IH]; intros H; [reflexivity|].
  cbn [forallb] in H. apply andb_true_iff in H as [He H].
  unfold plain_edge in He. cbn [fst snd] in He.
  apply andb_true_iff in He as [He Hf]. apply andb_true_iff in He as [He Hc].
  apply andb_true_iff in He as [He Hs]. apply andb_true_iff in He as [He Hn].
  apply andb_true_iff in He as [Ha Hb].
  apply negb_true_iff in Hf, Hc, Ha, Hb. apply eqb_eq in Hs.
  apply mem_not_In in Ha, Hb.
  cbn [map fix_mermaid_lines fst snd]. rewrite Hs.
  assert (Hne : is_empty (a ++ "-->" ++ b) = false) by now destruct a.
  rewrite Hne, Hc, Hf. cbn [orb].
  rewrite (contains_app_l a "-->" b).
  change ("-- >" : str) with ("-"%char :: "- >").
  rewrite (replace_absent_arrow a b "- >") by auto.
  change ("- ->" : str) with ("-"%char :: " ->").
  rewrite (replace_absent_arrow a b " ->") by auto.
  rewrite replace_arrow by assumption.
  rewrite IH by assumption. reflexivity.
Qed.

(** [_fix_mermaid_code] puts spaces around every [->] it finds, the one
    inside a well-formed arrow included: an edge line with one arrow and no
    other dash comes out with its arrow split into a dash and an arrow. *)
Theorem fix_mermaid_code_splits_arrows (edges : list (str * str)) :
  forallb plain_edge edges = true ->
  _fix_mermaid_code
    (join [nl] (("flowchart TD" : str) :: map (fun e => fst e ++ "-->" ++ snd e) edges))
  = join [nl] (("flowchart TD" : str) :: map (fun e => fst e ++ "- --> " ++ snd e) edges).
Proof.
  intros H. unfold _fix_mermaid_code.
  set (lines := map (fun e => fst e ++ "-->" ++ snd e) edges).
  assert (Hjoin : exists t, join [nl] (("flowchart TD" : str) :: lines) = "flowchart TD" ++ t).
  { destruct lines as [|l ls]; [now exists []|].
    exists ([nl] ++ join [nl] (l :: ls)). reflexivity. }
  destruct Hjoin as (t & Hjoin).
  assert (Hstart : startswith (strip (join [nl] (("flowchart TD" : str) :: lines)))
                              "flowchart" = true).
  { rewrite Hjoin. destruct (strip_keeps_header t) as (t' & ->). reflexivity. }
  rewrite Hstart. cbn [negb].
  assert (Hne : is_empty (join [nl] (("flowchart TD" : str) :: lines)) = false)
    by now rewrite Hjoin.
  rewrite Hne.
  rewrite split_chr_join.
  - cbn [fix_mermaid_lines].
    change (strip "flowchart TD") with ("flowchart TD" : str).
    change (is_empty ("flowchart TD" : str) || startswith "flowchart TD" "%%") with false.
    change (startswith ("flowchart TD" : str) "flowchart") with true. cbn iota.
    unfold lines. now rewrite fix_mermaid_lines_edges.
  - discriminate.
  - constructor; [cbn; intuition discriminate|].
    apply List.Forall_forall. intros l Hl. unfold lines in Hl.
    apply in_map_iff in Hl as ([a b] & <- & Hin).
    rewrite forallb_forall in H. specialize (H _ Hin).
    unfold plain_edge in H. cbn [fst snd] in H |- *.
    repeat (apply andb_true_iff in H as [H ?]).
    apply mem_not_In. now apply negb_true_iff.
Qed.

Lemma fix_mermaid_code_splits_arrows_witness :
  _fix_mermaid_code ("flowchart TD" ++ [nl] ++ "A[Start] --> B[Stop]")
  = "flowchart TD" ++ [nl] ++ "A[Start] - -->  B[Stop]".
Proof.
  exact (fix_mermaid_code_splits_arrows [("A[Start] " : str, " B[Stop]" : str)] eq_refl).
Defined.

(** ** The lines of a sanitized chart *)

Lemma sanitize_lines_shape (lines : list str) (seen_nodes : gset str) :
  List.Forall (fun l => (startswith l "flowchart" = true /\ strip l = l)
                        \/ exists body, l = "    " ++ body)
              (sanitize_lines seen_nodes lines)
  /\ length (sanitize_lines seen_nodes lines)
     <= length (List.filter (fun l => negb (is_empty (strip l))
                                      && negb (startswith (strip l) "%%")) lines).
Proof.
  induction lines as [|line rest [IH1 IH2]]; [split; [constructor|reflexivity]|].
  cbn [sanitize_lines List.filter].
  destruct (is_empty (strip line)) eqn:He; cbn [orb negb andb]; [now split|].
  destruct (startswith (strip line) "%%") eqn:Hc; cbn [negb]; [now split|].
  destruct (startswith (strip line) "flowchart") eqn:Hh.
  { split; [constructor; [left; split; [assumption|apply strip_idem]|assumption]|].
    cbn [length]. lia. }
  cbv zeta.
  destruct (contains _ "-->").
  - destruct (re_match re_labeled _).
    + split; [constructor; [right; eauto|assumption]|cbn [length]; lia].
    + destruct (split _ "-->") as [|p0 [|p1 ps]].
      * split; [assumption|cbn [length]; lia].
      * split; [assumption|cbn [length]; lia].
      * split; [constructor; [right; eauto|assumption]|cbn [length]; lia].
  - destruct (negb (is_empty (sanitize_node seen_nodes _))).
    + split; [constructor; [right; eauto|assumption]|cbn [length]; lia].
    + split; [assumption|cbn [length]; lia].
Qed.

(** ** The sanitizer on simple edges *)

Section DashLed.

Variable r : regex.
Variable repl : rmatch -> str.
Hypothesis r_needs_dash :
  forall rp x t, x <> "-"%char -> match_at r (st rp (x :: t)) = None.
Hypothesis r_not_at_end : forall rp, match_at r (st rp []) = None.

Lemma sub_go_dash_free (a b rp : str) :
  ~ In "-"%char a ->
  sub_go r repl 0 (st rp (a ++ b)) (a ++ b) = a ++ sub_go r repl 0 (st (rev a ++ rp) b) b.
Proof using r_needs_dash.
  intros Ha. apply sub_go_copy_all. intros a1 c a2 E.
  apply r_needs_dash. intros ->. apply Ha. rewrite E. apply in_or_app. right. now left.
Qed.

Lemma sub_go_dash_free_end (a rp : str) :
  ~ In "-"%char a -> sub_go r repl 0 (st rp a) a = a.
Proof using r_needs_dash r_not_at_end.
  intros Ha. pose proof (sub_go_dash_free a [] rp Ha) as H.
  rewrite sub_go_end in H by apply r_not_at_end. now rewrite !app_nil_r in H.
Qed.

End DashLed.

Lemma arrow1_needs_dash (rp : str) (x : ascii) (t : str) :
  x <> "-"%char -> match_at re_arrow1 (st rp (x :: t)) = None.
Proof.
  intros Hx. unfold match_at, re_arrow1. rewrite run_seq_cons, run_lit.
  cbn [st rest startswith list_ascii_of_string].
  apply Ascii.eqb_neq in Hx. rewrite Ascii.eqb_sym in Hx. now rewrite Hx.
Qed.

Lemma arrow1_not_at_end (rp : str) : match_at re_arrow1 (st rp []) = None.
Proof. reflexivity. Qed.

Lemma arrow1_hit (rp post : str) :
  exists x, match_at re_arrow1 (st rp ("-->" ++ post)) = Some x /\ width x = 3.
Proof.
  unfold match_at, re_arrow1. rewrite run_seq_cons, run_lit.
  cbn [st rest startswith list_ascii_of_string app Ascii.eqb Bool.eqb andb length forward advance].
  rewrite run_seq_cons. unfold star. rewrite run_Star_greedy.
  cbn [rest star_greedy]. change (isspace ">") with false. cbn iota.
  cbn [seq run rest]. cbn [is_chr Ascii.eqb Bool.eqb].
  eexists. split; [reflexivity|]. unfold width. cbn [m_end m_start pos advance]. lia.
Qed.

Lemma arrow2_needs_dash (rp : str) (x : ascii) (t : str) :
  x <> "-"%char -> match_at re_arrow2 (st rp (x :: t)) = None.
Proof.
  intros Hx. unfold match_at, re_arrow2. rewrite run_seq_cons.
  rewrite (run_Cls_miss _ _ _ x t); [reflexivity|reflexivity|].
  unfold is_chr. apply Ascii.eqb_neq. congruence.
Qed.

Lemma arrow2_not_at_end (rp : str) : match_at re_arrow2 (st rp []) = None.
Proof. reflexivity. Qed.

Lemma arrow2_hit (rp post : str) :
  exists x, match_at re_arrow2 (st rp ("-->" ++ post)) = Some x /\ width x = 3.
Proof.
  unfold match_at, re_arrow2. rewrite run_seq_cons.
  rewrite (run_Cls_hit _ _ _ "-" ("->" ++ post)) by reflexivity.
  rewrite run_seq_cons. unfold star. rewrite run_Star_greedy.
  cbn [rest advance app list_ascii_of_string star_greedy].
  change (isspace "-") with false. cbn iota.
  cbn [seq]. rewrite run_lit.
  cbn [rest advance startswith list_ascii_of_string Ascii.eqb Bool.eqb andb length forward].
  eexists. split; [reflexivity|]. unfold width. cbn [m_end m_start pos advance st]. lia.
Qed.

Lemma arrow3_needs_dash (rp : str) (x : ascii) (t : str) :
  x <> "-"%char -> match_at re_arrow3 (st rp (x :: t)) = None.
Proof.
  intros Hx. unfold match_at, re_arrow3. rewrite run_lit.
  cbn [st rest startswith list_ascii_of_string].
  apply Ascii.eqb_neq in Hx. rewrite Ascii.eqb_sym in Hx. now rewrite Hx.
Qed.

Lemma arrow3_not_at_end (rp : str) : match_at re_arrow3 (st rp []) = None.
Proof. reflexivity. Qed.

Lemma arrow3_miss (rp post : str) :
  match_at re_arrow3 (st rp ("-->" ++ post)) = None.
Proof. unfold match_at, re_arrow3. rewrite run_lit. reflexivity. Qed.

Lemma arrow3_hit (rp post : str) :
  exists x, match_at re_arrow3 (st rp ("->" ++ post)) = Some x /\ width x = 2.
Proof.
  unfold match_at, re_arrow3. rewrite run_lit.
  cbn [st rest startswith list_ascii_of_string app Ascii.eqb Bool.eqb andb length forward advance].
  eexists. split; [reflexivity|]. unfold width. cbn [m_end m_start pos advance]. lia.
Qed.

(** The three rewritings of arrows on a line with one well-formed arrow
    and no other dash: the first two leave it, the third puts one more dash
    before it. *)
Lemma sub_arrow1 (pre post : str) :
  ~ In "-"%char pre -> ~ In "-"%char post ->
  re_sub re_arrow1 (fun _ => "-->") (pre ++ "-->" ++ post) = pre ++ "-->" ++ post.
Proof.
  intros Hpre Hpost. unfold re_sub. change (start_of (pre ++ "-->" ++ post)) with (st [] (pre ++ "-->" ++ post)).
  rewrite (sub_go_dash_free _ _ arrow1_needs_dash) by assumption.
  destruct (arrow1_hit (rev pre ++ []) post) as (x & Hx & Hw).
  change ("-->" ++ post) with ("-"%char :: "->" ++ post) at 1 2.
  rewrite (sub_go_hit _ _ _ _ _ x 2 Hx Hw).
  rewrite (sub_go_skip _ _ _ "->" post).
  rewrite (sub_go_dash_free_end _ _ arrow1_needs_dash arrow1_not_at_end) by assumption.
  reflexivity.
Qed.

Lemma sub_arrow2 (pre post : str) :
  ~ In "-"%char pre -> ~ In "-"%char post ->
  re_sub re_arrow2 (fun _ => "-->") (pre ++ "-->" ++ post) = pre ++ "-->" ++ post.
Proof.
  intros Hpre Hpost. unfold re_sub. change (start_of (pre ++ "-->" ++ post)) with (st [] (pre ++ "-->" ++ post)).
  rewrite (sub_go_dash_free _ _ arrow2_needs_dash) by assumption.
  destruct (arrow2_hit (rev pre ++ []) post) as (x & Hx & Hw).
  change ("-->" ++ post) with ("-"%char :: "->" ++ post) at 1 2.
  rewrite (sub_go_hit _ _ _ _ _ x 2 Hx Hw).
  rewrite (sub_go_skip _ _ _ "->" post).
  rewrite (sub_go_dash_free_end _ _ arrow2_needs_dash arrow2_not_at_end) by assumption.
  reflexivity.
Qed.

Lemma sub_arrow3 (pre post : str) :
  ~ In "-"%char pre -> ~ In "-"%char post ->
  re_sub re_arrow3 (fun _ => "-->") (pre ++ "-->" ++ post) = pre ++ "--->" ++ post.
Proof.
  intros Hpre Hpost. unfold re_sub. change (start_of (pre ++ "-->" ++ post)) with (st [] (pre ++ "-->" ++ post)).
  rewrite (sub_go_dash_free _ _ arrow3_needs_dash) by assumption.
  change ("-->" ++ post) with ("-"%char :: "->" ++ post) at 1 2.
  rewrite sub_go_copy by apply (arrow3_miss _ post).
  destruct (arrow3_hit ("-"%char :: rev pre ++ []) post) as (x & Hx & Hw).
  change ("->" ++ post) with ("-"%char :: ">" ++ post) at 1 2.
  rewrite (sub_go_hit _ _ _ _ _ x 1 Hx Hw).
  rewrite (sub_go_skip _ _ _ ">" post).
  rewrite (sub_go_dash_free_end _ _ arrow3_needs_dash arrow3_not_at_end) by assumption.
  reflexivity.
Qed.

Lemma In_skipn_In (x : ascii) (n : nat) (s : str) : In x (skipn n s) -> In x s.
Proof.
  intros H. rewrite <- (firstn_skipn n s). apply in_or_app. now right.
Qed.

(** A labeled edge needs a pipe. *)
Lemma labeled_needs_pipe (s : str) (x : rmatch) :
  re_match re_labeled s = Some x -> In "|"%char s.
Proof.
  unfold re_match, match_at, re_labeled.
  rewrite run_seq_cons, run_Bol_start by reflexivity.
  rewrite run_seq_cons, run_Grp. unfold plus_l. rewrite run_Seq.
  destruct (run _ _ (start_of s)) as [e|] eqn:H; [intros _|discriminate].
  apply run_Cls_inv in H as (c & s' & Hs & _ & H).
  cbn [start_of rest] in Hs. subst s.
  rewrite run_Star_lazy in H.
  apply star_lazy_inv in H as (j & _ & _ & H); [|reflexivity].
  rewrite run_seq_cons in H. unfold star at 1 in H. rewrite run_Star_greedy in H.
  apply star_greedy_inv in H as (j1 & _ & _ & H); [|reflexivity].
  rewrite run_seq_cons, run_lit in H.
  destruct (startswith _ _); [|discriminate].
  rewrite run_seq_cons in H. unfold star at 1 in H. rewrite run_Star_greedy in H.
  apply star_greedy_inv in H as (j2 & _ & _ & H); [|reflexivity].
  rewrite run_seq_cons in H.
  apply run_Cls_inv in H as (c2 & s2 & Hrest & Hc2 & _).
  apply is_chr_true in Hc2. subst c2.
  rewrite !forward_rest_skipn in Hrest. unfold capture in Hrest. cbn [rest] in Hrest.
  rewrite !forward_rest_skipn in Hrest. cbn [start_of rest] in Hrest.
  assert (Hin : In "|"%char (skipn j2 (skipn (length ("-->" : str)) (skipn j1 (skipn j (skipn 1 (c :: s'))))))).
  { rewrite Hrest. now left. }
  now repeat apply In_skipn_In in Hin.
Qed.

Lemma split_arrow (pre post : str) :
  ~ In "-"%char pre -> ~ In "-"%char post ->
  split (pre ++ "--->" ++ post) "-->" = [pre ++ "-"; post].
Proof.
  intros Hpre Hpost. unfold split.
  change ("-->" : str) with ("-"%char :: "->").
  rewrite split_go_pass by assumption. rewrite app_nil_r.
  cbn [app list_ascii_of_string split_go startswith Ascii.eqb Bool.eqb andb length Nat.sub].
  rewrite split_go_tail by assumption. cbn [rev app].
  now rewrite rev_involutive.
Qed.

Lemma contains_chr_false (s : str) (c : ascii) : ~ In c s -> contains s [c] = false.
Proof.
  intros H. destruct (contains s [c]) eqn:E; [|reflexivity].
  apply contains_iff in E as (p & q & ->). exfalso. apply H.
  apply in_or_app. right. now left.
Qed.

(** The pattern of a leading identifier reads the identifier a text
    begins with. *)
Lemma lead_id_match (id after : str) :
  is_identifier id = true ->
  match after with [] => True | d :: _ => ident_chr d = false end ->
  exists x, re_match re_lead_id (id ++ after) = Some x /\ group x 1 = id.
Proof.
  intros Hid Hafter. destruct (identifier_inv id Hid) as (c & t & -> & Hc & Ht).
  set (m0 := start_of ((c :: t) ++ after)).
  assert (Hrun : run re_lead_id Some m0
                 = Some (capture 1 m0 (forward (length t) (advance c (t ++ after) m0)))).
  { unfold re_lead_id. rewrite run_seq_cons, run_Bol_start by reflexivity.
    cbn [seq]. rewrite run_Grp. unfold plus. rewrite run_Seq.
    rewrite (run_Cls_hit _ _ m0 c (t ++ after)) by (reflexivity || assumption).
    rewrite run_Star_greedy. cbn [rest advance].
    now apply star_greedy_max. }
  unfold re_match, match_at. fold m0. rewrite Hrun. eexists. split; [reflexivity|].
  rewrite group_capture by discriminate.
  rewrite (forward_pos t after) by reflexivity.
  cbn [advance pos m0 start_of rest].
  replace (1 + length t - 0) with (length (c :: t)) by (cbn [length]; lia).
  apply take_app_length.
Qed.

Lemma sanitize_node_plain (seen_nodes : gset str) (id after : str) :
  is_identifier id = true ->
  match after with [] => True | d :: _ => ident_chr d = false end ->
  ~ In "["%char after -> ~ In "{"%char after -> ~ In "("%char after ->
  strip (id ++ after) = id ++ after ->
  sanitize_node seen_nodes (id ++ after) = id.
Proof.
  intros Hid Hafter H1 H2 H3 Hs. unfold sanitize_node. rewrite Hs.
  assert (Hne : is_empty (id ++ after) = false) by now apply is_empty_identifier.
  rewrite Hne.
  assert (Hno : forall x, mem x "[{(" = true -> ~ In x after -> contains (id ++ after) [x] = false).
  { intros x Hx Hx'. apply contains_chr_false. intros Hin.
    apply in_app_or in Hin as [Hin|Hin]; [|contradiction].
    apply (identifier_no_punct id x (identifier_chars id Hid)); [|assumption].
    apply mem_In in Hx. apply mem_In. cbn in Hx |- *. intuition. }
  assert (Hb : contains (id ++ after) "[" = false) by now apply (Hno "["%char).
  assert (Hc : contains (id ++ after) "{" = false) by now apply (Hno "{"%char).
  assert (Hp : contains (id ++ after) "(" = false) by now apply (Hno "("%char).
  rewrite Hb, Hc, Hp.
  destruct (lead_id_match id after Hid Hafter) as (x & -> & Hg). exact Hg.
Qed.

Lemma identifier_no_dash (x : ascii) (id : str) :
  is_identifier id = true -> mem x "[]{}()|->\ " = true -> ~ In x (id ++ " ") /\ ~ In x (" " ++ id) \/ x = " "%char.
Proof.
  intros Hid Hx. destruct (Ascii.eqb_spec x " ") as [->|Hsp]; [now right|left].
  pose proof (identifier_no_punct id x (identifier_chars id Hid) Hx) as Hno.
  split; intros Hin.
  - apply in_app_or in Hin as [Hin|[Hin|[]]]; [contradiction|congruence].
  - destruct Hin as [Hin|Hin]; [congruence|contradiction].
Qed.

Lemma strip_identifier (id : str) : is_identifier id = true -> strip id = id.
Proof.
  intros Hid. destruct (identifier_first id Hid) as (c & t & -> & Hc).
  destruct (identifier_end (c :: t) Hid) as (r & d & E & Hd).
  destruct r as [|c' r'].
  - cbn [app] in E. injection E as -> ->.
    apply (strip_single [] [] d eq_refl eq_refl Hd).
  - cbn [app] in E. injection E as <- ->.
    pose proof (strip_core [] [] c d r' eq_refl eq_refl Hc Hd) as H.
    now rewrite app_nil_r in H.
Qed.

Lemma sanitize_lines_edge (seen_nodes : gset str) (a c : str) (rest : list str) :
  is_identifier a = true -> is_identifier c = true -> startswith a keyword = false ->
  sanitize_lines seen_nodes (edge_line a c :: rest)
  = edge_line a c :: sanitize_lines seen_nodes rest.
Proof.
  intros Ha Hc Hkw. cbn [sanitize_lines].
  rewrite strip_edge_line by assumption.
  rewrite is_empty_identifier by assumption.
  assert (Hpc : startswith (a ++ " --> " ++ c) "%%" = false).
  { destruct (identifier_inv a Ha) as (a0 & t & -> & Ha0 & _).
    destruct (startswith _ "%%") eqn:E; [|reflexivity].
    apply startswith_iff in E as (q & E). injection E as -> _. discriminate Ha0. }
  rewrite Hpc. cbn [orb].
  rewrite not_keyword_token; [|assumption|intros ? ? [= <- _]; reflexivity].
  assert (Hpre : ~ In "-"%char (a ++ " ")).
  { destruct (identifier_no_dash "-" a Ha eq_refl) as [[H _]|H]; [assumption|discriminate]. }
  assert (Hpost : ~ In "-"%char (" " ++ c)).
  { destruct (identifier_no_dash "-" c Hc eq_refl) as [[_ H]|H]; [assumption|discriminate]. }
  replace (a ++ " --> " ++ c) with ((a ++ " ") ++ "-->" ++ (" " ++ c))
    by now rewrite <- !app_assoc.
  rewrite sub_arrow1, sub_arrow2, sub_arrow3 by assumption.
  assert (Harrow : contains ((a ++ " ") ++ "--->" ++ " " ++ c) "-->" = true).
  { apply contains_iff. exists ((a ++ " ") ++ "-"), (" " ++ c). now rewrite <- !app_assoc. }
  rewrite Harrow.
  destruct (re_match re_labeled _) as [x|] eqn:El.
  { exfalso. apply labeled_needs_pipe in El.
    apply in_app_or in El as [El|El].
    - destruct (identifier_no_dash "|" a Ha eq_refl) as [[H _]|H]; [contradiction|discriminate].
    - apply in_app_or in El as [El|El]; [cbn in El; intuition discriminate|].
      destruct (identifier_no_dash "|" c Hc eq_refl) as [[_ H]|H]; [contradiction|discriminate]. }
  rewrite split_arrow by assumption.
  assert (Hleft : strip ((a ++ " ") ++ "-") = a ++ " -").
  { destruct (identifier_first a Ha) as (a0 & t & -> & Ha0).
    pose proof (strip_core [] [] a0 "-" (t ++ " ") eq_refl eq_refl Ha0 eq_refl) as H.
    rewrite app_nil_r in H. cbn [app] in H |- *. rewrite <- !app_assoc in H |- *. exact H. }
  assert (Hright : strip (" " ++ c) = c).
  { rewrite strip_left by reflexivity. now apply strip_identifier. }
  rewrite Hleft, Hright.
  rewrite (sanitize_node_plain seen_nodes a " -" Ha eq_refl);
    [|cbn; intuition discriminate|cbn; intuition discriminate|cbn; intuition discriminate|].
  2:{ rewrite <- Hleft at 2. rewrite <- Hleft. apply strip_idem. }
  pose proof (sanitize_node_plain seen_nodes c [] Hc I) as Hr.
  rewrite !app_nil_r in Hr. rewrite Hr by (auto || now apply strip_identifier).
  reflexivity.
Qed.

Lemma sanitize_lines_edges (seen_nodes : gset str) (edges : list (str * str)) :
  forallb simple_edge edges = true ->
  sanitize_lines seen_nodes (map (fun e => edge_line (fst e) (snd e)) edges)
  = map (fun e => edge_line (fst e) (snd e)) edges.
Proof.
  induction edges as [|[a c] edges IH]; intros H; [reflexivity|].
  cbn [forallb] in H. apply andb_true_iff in H as [He H].
  unfold simple_edge in He. cbn [fst snd] in He.
  apply andb_true_iff in He as [He Hkw]. apply andb_true_iff in He as [Ha Hc].
  apply negb_true_iff in Hkw.
  cbn [map fst snd]. rewrite sanitize_lines_edge by assumption.
  now rewrite IH.
Qed.

(** The sanitizer returns a chart made of the header and of edges between
    identifiers, written with spaces around the arrow and indented by four
    spaces, as it is. *)
Theorem sanitizer_keeps_simple_edges (edges : list (str * str)) :
  forallb simple_edge edges = true ->
  _sanitize_mermaid
    (unlines (("flowchart TD" : str) :: map (fun e => edge_line (fst e) (snd e)) edges))
  = unlines (("flowchart TD" : str) :: map (fun e => edge_line (fst e) (snd e)) edges).
Proof.
  intros H. unfold _sanitize_mermaid, unlines.
  rewrite split_chr_join.
  - cbn [sanitize_lines].
    change (strip "flowchart TD") with ("flowchart TD" : str).
    change (is_empty ("flowchart TD" : str) || startswith "flowchart TD" "%%") with false.
    change (startswith ("flowchart TD" : str) "flowchart") with true. cbn iota.
    now rewrite sanitize_lines_edges.
  - discriminate.
  - constructor; [cbn; intuition discriminate|].
    apply List.Forall_forall. intros l Hl.
    apply in_map_iff in Hl as ([a c] & <- & Hin).
    rewrite forallb_forall in H. specialize (H _ Hin).
    unfold simple_edge in H. cbn [fst snd] in H |- *.
    apply andb_true_iff in H as [H Hkw]. apply andb_true_iff in H as [Ha Hc].
    apply (render_one_line (EdgeLine a c)). cbn [well_formed]. now rewrite Ha, Hc, Hkw.
Qed.

Lemma sanitizer_keeps_simple_edges_witness :
  _sanitize_mermaid (unlines ["flowchart TD" : str; "    A --> B" : str; "    B --> End_1" : str])
  = unlines ["flowchart TD" : str; "    A --> B" : str; "    B --> End_1" : str].
Proof.
  exact (sanitizer_keeps_simple_edges
           [("A" : str, "B" : str); ("B" : str, "End_1" : str)] eq_refl).
Defined.

(** ** A simple chart through the pipeline *)

Section NoMatch.

Variable r : regex.
Variable text : str.
Hypothesis no_match :
  forall rp s, (forall x, In x s -> In x text) -> match_at r (st rp s) = None.

Lemma re_sub_no_match (repl : rmatch -> str) : re_sub r repl text = text.
Proof using no_match.
  unfold re_sub. change (start_of text) with (st [] text).
  pose proof (sub_go_copy_all r repl [] text []) as H.
  rewrite !app_nil_r in H. rewrite H.
  - rewrite sub_go_end by (apply no_match; intros x []). apply app_nil_r.
  - intros a1 c a2 E. apply no_match. intros x Hx. rewrite E.
    apply in_or_app. right. now rewrite app_nil_r in Hx.
Qed.

Lemma search_from_no_match (s rp : str) :
  (forall x, In x s -> In x text) -> found (search_from r (st rp s) s) = false.
Proof using no_match.
  revert rp. induction s as [|c s IH]; intros rp Hs; cbn [search_from].
  - now rewrite no_match by assumption.
  - rewrite no_match by assumption.
    change (advance c s (st rp (c :: s))) with (st (c :: rp) s).
    apply IH. intros x Hx. apply Hs. now right.
Qed.

Lemma re_search_no_match : found (re_search r text) = false.
Proof using no_match.
  unfold re_search. change (start_of text) with (st [] text).
  now apply search_from_no_match.
Qed.

End NoMatch.

Lemma In_rest_skipn (x : ascii) (n : nat) (m : mstate) :
  In x (rest (forward n m)) -> In x (rest m).
Proof. rewrite forward_rest_skipn. apply In_skipn_In. Qed.

(** A node definition needs its opening symbol, a labeled edge a pipe,
    and text after a closing symbol the closing symbol. *)
Lemma node_def_needs_open (o cl : ascii) (m : mstate) (x : rmatch) :
  match_at (re_node_def o cl) m = Some x -> In o (rest m).
Proof.
  unfold match_at, re_node_def.
  destruct (run _ Some m) as [e|] eqn:H; [intros _|discriminate].
  rewrite run_seq_cons, run_Grp in H. unfold star in H. rewrite run_Star_greedy in H.
  apply star_greedy_inv in H as (j & _ & _ & H); [|reflexivity].
  rewrite run_seq_cons, run_Grp in H. unfold plus in H. rewrite run_Seq in H.
  apply run_Cls_inv in H as (c & s' & _ & _ & H).
  rewrite run_Star_greedy in H.
  apply star_greedy_inv in H as (j2 & _ & _ & H); [|reflexivity].
  rewrite run_seq_cons in H.
  apply run_Cls_inv in H as (c2 & s2 & Hrest & Hc2 & _).
  apply is_chr_true in Hc2. subst c2.
  assert (Hin : In o (rest (capture 2 (capture 1 m (forward j m))
                              (forward j2 (forward 1 (capture 1 m (forward j m))))))).
  { rewrite Hrest. now left. }
  unfold capture in Hin at 1. cbn [rest] in Hin.
  apply In_rest_skipn, In_rest_skipn in Hin.
  unfold capture in Hin. cbn [rest] in Hin.
  now apply In_rest_skipn in Hin.
Qed.

Lemma labeled_edge_needs_pipe (m : mstate) (x : rmatch) :
  match_at re_labeled_edge m = Some x -> In "|"%char (rest m).
Proof.
  unfold match_at, re_labeled_edge.
  destruct (run _ Some m) as [e|] eqn:H; [intros _|discriminate].
  rewrite run_seq_cons, run_Grp in H. unfold star at 1 in H. rewrite run_Star_greedy in H.
  apply star_greedy_inv in H as (j & _ & _ & H); [|reflexivity].
  rewrite run_seq_cons, run_Grp in H. unfold plus_l in H. rewrite run_Seq in H.
  apply run_Cls_inv in H as (c & s' & _ & _ & H).
  rewrite run_Star_lazy in H.
  apply star_lazy_inv in H as (j2 & _ & _ & H); [|reflexivity].
  rewrite run_seq_cons in H. unfold star at 1 in H. rewrite run_Star_greedy in H.
  apply star_greedy_inv in H as (j3 & _ & _ & H); [|reflexivity].
  rewrite run_seq_cons, run_lit in H.
  destruct (startswith _ _); [|discriminate].
  rewrite run_seq_cons in H. unfold star at 1 in H. rewrite run_Star_greedy in H.
  apply star_greedy_inv in H as (j4 & _ & _ & H); [|reflexivity].
  rewrite run_seq_cons in H.
  apply run_Cls_inv in H as (c2 & s2 & Hrest & Hc2 & _).
  apply is_chr_true in Hc2. subst c2.
  match type of Hrest with rest ?m' = _ => assert (Hin : In "|"%char (rest m')) end.
  { rewrite Hrest. now left. }
  apply In_rest_skipn, In_rest_skipn, In_rest_skipn in Hin.
  unfold capture in Hin at 1. cbn [rest] in Hin.
  apply In_rest_skipn, In_rest_skipn in Hin.
  unfold capture in Hin. cbn [rest] in Hin.
  now apply In_rest_skipn in Hin.
Qed.

Lemma after_close_needs_close (close : ascii) (m : mstate) (x : rmatch) :
  match_at (re_after_close close) m = Some x -> In close (rest m).
Proof.
  unfold match_at, re_after_close.
  destruct (run _ Some m) as [e|] eqn:H; [intros _|discriminate].
  rewrite run_seq_cons in H.
  apply run_Cls_inv in H as (c & s' & Hrest & Hc & _).
  apply is_chr_true in Hc. subst c. rewrite Hrest. now left.
Qed.

Lemma edge_text_plain (a c : str) (x : ascii) :
  is_identifier a = true -> is_identifier c = true ->
  mem x "[]{}()|" = true -> ~ In x (a ++ " --> " ++ c).
Proof.
  intros Ha Hc Hx Hin.
  assert (Hp : mem x "[]{}()|->\ " = true).
  { apply mem_In in Hx. apply mem_In. cbn in Hx |- *. intuition. }
  apply in_app_or in Hin as [Hin|Hin].
  - now apply (identifier_no_punct a x (identifier_chars a Ha) Hp).
  - apply in_app_or in Hin as [Hin|Hin].
    + apply mem_In in Hx. cbn in Hx, Hin. intuition (subst; discriminate).
    + now apply (identifier_no_punct c x (identifier_chars c Hc) Hp).
Qed.

Lemma strip_edge_text (a c : str) :
  is_identifier a = true -> is_identifier c = true ->
  strip (a ++ " --> " ++ c) = a ++ " --> " ++ c.
Proof.
  intros Ha Hc. rewrite <- (strip_edge_line a c Ha Hc) at 2.
  rewrite <- (strip_edge_line a c Ha Hc). apply strip_idem.
Qed.

Lemma wrap_line_edge (a c : str) :
  is_identifier a = true -> is_identifier c = true -> startswith a keyword = false ->
  wrap_line (a ++ " --> " ++ c) = a ++ " --> " ++ c.
Proof.
  intros Ha Hc Hkw. unfold wrap_line.
  rewrite strip_edge_text by assumption.
  rewrite is_empty_identifier by assumption.
  rewrite not_keyword_token; [|assumption|intros ? ? [= <- _]; reflexivity].
  cbn [orb]. cbv zeta.
  assert (Hnode : forall o cl repl, mem o "[]{}()|" = true ->
             re_sub (re_node_def o cl) repl (a ++ " --> " ++ c) = a ++ " --> " ++ c).
  { intros o cl repl Ho. apply re_sub_no_match. intros rp s Hs.
    destruct (match_at (re_node_def o cl) (st rp s)) as [x|] eqn:E; [|reflexivity].
    exfalso. apply node_def_needs_open in E. cbn [st rest] in E.
    now apply (edge_text_plain a c o Ha Hc Ho), Hs. }
  rewrite (Hnode "["%char), (Hnode "{"%char), (Hnode "("%char) by reflexivity.
  apply re_sub_no_match. intros rp s Hs.
  destruct (match_at re_labeled_edge (st rp s)) as [x|] eqn:E; [|reflexivity].
  exfalso. apply labeled_edge_needs_pipe in E. cbn [st rest] in E.
  now apply (edge_text_plain a c "|" Ha Hc eq_refl), Hs.
Qed.

Lemma count_absent (s : str) (x : ascii) : ~ In x s -> count s x = 0.
Proof.
  intros H. unfold count. induction s as [|c s IH]; [reflexivity|].
  cbn [List.filter]. destruct (Ascii.eqb_spec x c) as [->|Hne].
  - exfalso. apply H. now left.
  - apply IH. intros Hin. apply H. now right.
Qed.

Lemma line_errors_edge (i : nat) (a c : str) :
  is_identifier a = true -> is_identifier c = true -> startswith a keyword = false ->
  line_errors i (a ++ " --> " ++ c) = [].
Proof.
  intros Ha Hc Hkw. unfold line_errors.
  rewrite strip_edge_text by assumption.
  rewrite is_empty_identifier by assumption.
  rewrite not_keyword_token; [|assumption|intros ? ? [= <- _]; reflexivity].
  assert (Hpc : startswith (a ++ " --> " ++ c) "%%" = false).
  { destruct (identifier_inv a Ha) as (a0 & t & -> & Ha0 & _).
    destruct (startswith _ "%%") eqn:E; [|reflexivity].
    apply startswith_iff in E as (q & E). injection E as -> _. discriminate Ha0. }
  rewrite Hpc. cbn [orb].
  rewrite !count_absent by (apply edge_text_plain; auto).
  cbn [Nat.eqb app].
  assert (Hsearch : forall close, mem close "[]{}()|" = true ->
             found (re_search (re_after_close close) (a ++ " --> " ++ c)) = false).
  { intros close Hcl. apply re_search_no_match. intros rp s Hs.
    destruct (match_at (re_after_close close) (st rp s)) as [x|] eqn:E; [|reflexivity].
    exfalso. apply after_close_needs_close in E. cbn [st rest] in E.
    now apply (edge_text_plain a c close Ha Hc Hcl), Hs. }
  rewrite (Hsearch "]"%char), (Hsearch "}"%char) by reflexivity.
  now destruct (contains _ "-->").
Qed.

Lemma simple_edge_inv (e : str * str) :
  simple_edge e = true ->
  is_identifier (fst e) = true /\ is_identifier (snd e) = true
  /\ startswith (fst e) keyword = false.
Proof.
  unfold simple_edge. rewrite !andb_true_iff, negb_true_iff. tauto.
Qed.

Lemma edge_text_one_line (e : str * str) : simple_edge e = true -> ~ In nl (edge_text e).
Proof.
  intros H Hin. apply simple_edge_inv in H as (Ha & Hc & _). unfold edge_text in Hin.
  apply in_app_or in Hin as [Hin|Hin]; [now apply (identifier_one_line (fst e))|].
  apply in_app_or in Hin as [Hin|Hin]; [cbn in Hin; intuition discriminate|].
  now apply (identifier_one_line (snd e)).
Qed.

Lemma edge_line_one_line (e : str * str) :
  simple_edge e = true -> ~ In nl (edge_line (fst e) (snd e)).
Proof.
  intros H Hin. unfold edge_line in Hin.
  apply in_app_or in Hin as [Hin|Hin]; [cbn in Hin; intuition discriminate|].
  now apply (edge_text_one_line e H).
Qed.

Lemma simple_chart_lines (edges : list (str * str)) :
  forallb simple_edge edges = true ->
  split_chr nl (simple_chart edges)
  = ("flowchart TD" : str) :: map (fun e => edge_line (fst e) (snd e)) edges
  /\ split_chr nl (simple_chart_trimmed edges) = ("flowchart TD" : str) :: map edge_text edges.
Proof.
  intros H. rewrite forallb_forall in H.
  unfold simple_chart, simple_chart_trimmed, unlines. split; apply split_chr_join;
    try discriminate; (constructor; [cbn; intuition discriminate|]);
    apply List.Forall_forall; intros l Hl; apply in_map_iff in Hl as (e & <- & Hin).
  - now apply edge_line_one_line, H.
  - now apply edge_text_one_line, H.
Qed.

Lemma check_lines_edges (edges : list (str * str)) (i : nat) :
  forallb simple_edge edges = true -> check_lines i (map edge_text edges) = [].
Proof.
  revert i. induction edges as [|e edges IH]; intros i H; [reflexivity|].
  cbn [forallb] in H. apply andb_true_iff in H as [He H].
  apply simple_edge_inv in He as (Ha & Hc & Hkw).
  cbn [map check_lines]. unfold edge_text at 1.
  rewrite line_errors_edge by assumption. now apply IH.
Qed.

Lemma simple_chart_checks (edges : list (str * str)) :
  forallb simple_edge edges = true ->
  _check_syntax_errors (simple_chart_trimmed edges) = [].
Proof.
  intros H. unfold _check_syntax_errors.
  rewrite (proj2 (simple_chart_lines edges H)). cbn [check_lines].
  change (line_errors 1 "flowchart TD") with (@nil str). now rewrite check_lines_edges.
Qed.

Lemma simple_chart_wrapped (edges : list (str * str)) :
  forallb simple_edge edges = true ->
  _wrap_special_labels (simple_chart_trimmed edges) = simple_chart_trimmed edges.
Proof.
  intros H. unfold _wrap_special_labels.
  rewrite (proj2 (simple_chart_lines edges H)). cbn [map].
  change (wrap_line "flowchart TD") with ("flowchart TD" : str).
  unfold simple_chart_trimmed, unlines. do 2 f_equal.
  rewrite map_map. apply map_ext_in. intros e He.
  rewrite forallb_forall in H. apply H in He.
  apply simple_edge_inv in He as (Ha & Hc & Hkw). now apply wrap_line_edge.
Qed.

Lemma simple_chart_header (edges : list (str * str)) :
  forallb simple_edge edges = true ->
  _normalize_flowchart_header (simple_chart_trimmed edges) = simple_chart_trimmed edges.
Proof.
  intros H. unfold _normalize_flowchart_header.
  rewrite (proj2 (simple_chart_lines edges H)). cbn [normalize_header_lines].
  change (strip "flowchart TD") with ("flowchart TD" : str).
  change (startswith ("flowchart TD" : str) "flowchart") with true. cbn iota.
  assert (E : clean_header "flowchart TD" = "flowchart TD") by (vm_compute; reflexivity).
  now rewrite E.
Qed.

Lemma normalize_spacing_edge (a c : str) :
  is_identifier a = true -> is_identifier c = true -> startswith a keyword = false ->
  normalize_spacing_line (a ++ " --> " ++ c) = edge_line a c.
Proof.
  intros Ha Hc Hkw. rewrite normalize_spacing_line_cases. cbv zeta.
  assert (Hx : expand_tabs (a ++ " --> " ++ c) = a ++ " --> " ++ c).
  { apply replace_chr_absent. intros Hin.
    apply in_app_or in Hin as [Hin|Hin].
    - pose proof (identifier_chars a Ha) as Hall. rewrite forallb_forall in Hall.
      specialize (Hall tab Hin). discriminate.
    - apply in_app_or in Hin as [Hin|Hin]; [cbn in Hin; intuition discriminate|].
      pose proof (identifier_chars c Hc) as Hall. rewrite forallb_forall in Hall.
      specialize (Hall tab Hin). discriminate. }
  rewrite Hx, strip_edge_text by assumption.
  rewrite not_keyword_token; [|assumption|intros ? ? [= <- _]; reflexivity].
  rewrite is_empty_identifier by assumption.
  unfold indent_units.
  assert (Hsp : startswith (a ++ " --> " ++ c) " " = false).
  { destruct (identifier_first a Ha) as (a0 & t & -> & Ha0).
    destruct (startswith _ " ") eqn:E; [|reflexivity].
    apply startswith_iff in E as (q & E). injection E as -> _. discriminate Ha0. }
  rewrite Hsp. reflexivity.
Qed.

Lemma simple_chart_spaced (edges : list (str * str)) :
  forallb simple_edge edges = true ->
  _normalize_spacing (simple_chart_trimmed edges) = simple_chart edges.
Proof.
  intros H. unfold _normalize_spacing.
  rewrite (proj2 (simple_chart_lines edges H)). cbn [map].
  change (normalize_spacing_line "flowchart TD") with ("flowchart TD" : str).
  unfold simple_chart, unlines. do 2 f_equal.
  rewrite map_map. apply map_ext_in. intros e He.
  rewrite forallb_forall in H. apply H in He.
  apply simple_edge_inv in He as (Ha & Hc & Hkw). now apply normalize_spacing_edge.
Qed.

Lemma validate_two_edges (l1 l2 : str) (rest : list str) :
  List.Forall (fun l => ~ In nl l) (l1 :: l2 :: rest) ->
  negb (is_empty (strip l1)) && negb (startswith (strip l1) "%%") = true ->
  negb (is_empty (strip l2)) && negb (startswith (strip l2) "%%") = true ->
  contains l1 "-->" = true -> contains l2 "-->" = true ->
  _validate_mermaid (join [nl] (("flowchart TD" : str) :: l1 :: l2 :: rest)) = true.
Proof.
  intros Hall Hk1 Hk2 Ha1 Ha2.
  set (code := join [nl] (("flowchart TD" : str) :: l1 :: l2 :: rest)).
  assert (Hcode : code = "flowchart TD" ++ [nl] ++ l1 ++ [nl] ++ join [nl] (l2 :: rest))
    by reflexivity.
  destruct (strip_keeps_header ([nl] ++ l1 ++ [nl] ++ join [nl] (l2 :: rest))) as (t' & Ht').
  apply (validate_intro code t').
  - now rewrite Hcode.
  - rewrite Hcode. apply contains_iff in Ha1 as (p & q & ->). apply contains_iff.
    exists ("flowchart TD" ++ [nl] ++ p), (q ++ [nl] ++ join [nl] (l2 :: rest)).
    now rewrite <- !app_assoc.
  - cbv zeta. unfold code. rewrite split_chr_join.
    + cbn [List.filter].
      change (negb (is_empty (strip "flowchart TD")) && negb (startswith (strip "flowchart TD") "%%"))
        with true. cbn iota.
      rewrite Hk1, Hk2. cbn [List.filter].
      assert (Hl1 : looks_like_node_or_edge l1 = true)
        by (unfold looks_like_node_or_edge; now rewrite Ha1).
      assert (Hl2 : looks_like_node_or_edge l2 = true)
        by (unfold looks_like_node_or_edge; now rewrite Ha2).
      rewrite Hl1, Hl2.
      split; [cbn [length]; lia|].
      destruct (looks_like_node_or_edge "flowchart TD"); cbn [length]; lia.
    + discriminate.
    + constructor; [cbn; intuition discriminate|assumption].
Qed.

Lemma edge_kept (a c : str) (indent : str) :
  is_identifier a = true -> is_identifier c = true ->
  forallb isspace indent = true ->
  let l := indent ++ a ++ " --> " ++ c in
  strip l = a ++ " --> " ++ c
  /\ negb (is_empty (strip l)) && negb (startswith (strip l) "%%") = true
  /\ contains l "-->" = true
  /\ chart_text_line l = true.
Proof.
  intros Ha Hc Hi l.
  assert (Hs : strip l = a ++ " --> " ++ c).
  { unfold l. rewrite strip_left by assumption. now apply strip_edge_text. }
  destruct (identifier_inv a Ha) as (a0 & t & Ea & Ha0 & _).
  assert (Hfirst : forall p x q, p = x :: q -> ident_chr x = false ->
             startswith (a ++ " --> " ++ c) p = false).
  { intros p x q -> Hx. subst a.
    destruct (startswith _ _) eqn:E; [|reflexivity].
    apply startswith_iff in E as (q' & E). injection E as -> _. congruence. }
  split; [assumption|]. split; [|split].
  - rewrite Hs, is_empty_identifier by assumption.
    now rewrite (Hfirst "%%" "%"%char "%" eq_refl eq_refl).
  - apply contains_iff. exists (indent ++ a ++ " "), (" " ++ c). unfold l.
    now rewrite <- !app_assoc.
  - unfold chart_text_line. rewrite Hs, is_empty_identifier by assumption.
    rewrite (Hfirst "#" "#"%char "" eq_refl eq_refl).
    now rewrite (Hfirst fence "`"%char "``" eq_refl eq_refl).
Qed.

Lemma simple_charts_validate (edges : list (str * str)) :
  forallb simple_edge edges = true -> 2 <= length edges ->
  _validate_mermaid (simple_chart edges) = true
  /\ _validate_mermaid (simple_chart_trimmed edges) = true.
Proof.
  intros H Hlen. destruct (simple_chart_lines edges H) as [H4 H0].
  apply (f_equal (List.Forall (fun l => ~ In nl l))) in H4, H0.
  pose proof (split_chr_Forall_no_sep nl (simple_chart edges)) as F4.
  pose proof (split_chr_Forall_no_sep nl (simple_chart_trimmed edges)) as F0.
  rewrite H4 in F4. rewrite H0 in F0. clear H4 H0.
  destruct edges as [|e1 [|e2 more]]; cbn [length] in Hlen; try lia.
  cbn [forallb] in H. apply andb_true_iff in H as [H1 H].
  apply andb_true_iff in H as [H2 H].
  apply simple_edge_inv in H1 as (Ha1 & Hc1 & _).
  apply simple_edge_inv in H2 as (Ha2 & Hc2 & _).
  inversion F4 as [|? ? _ F4']; subst. inversion F0 as [|? ? _ F0']; subst.
  split.
  - destruct (edge_kept (fst e1) (snd e1) "    " Ha1 Hc1 eq_refl) as (_ & Hk1 & Hr1 & _).
    destruct (edge_kept (fst e2) (snd e2) "    " Ha2 Hc2 eq_refl) as (_ & Hk2 & Hr2 & _).
    now apply validate_two_edges.
  - destruct (edge_kept (fst e1) (snd e1) [] Ha1 Hc1 eq_refl) as (_ & Hk1 & Hr1 & _).
    destruct (edge_kept (fst e2) (snd e2) [] Ha2 Hc2 eq_refl) as (_ & Hk2 & Hr2 & _).
    now apply validate_two_edges.
Qed.

Lemma ident_chr_no_linebreak (c : ascii) : ident_chr c = true -> is_linebreak c = false.
Proof. destruct c as [[] [] [] [] [] [] [] []]; vm_compute; congruence. Qed.

Lemma identifier_no_linebreak (id : str) :
  is_identifier id = true -> forallb (fun c => negb (is_linebreak c)) id = true.
Proof.
  intros H. destruct (identifier_inv id H) as (c & t & -> & Hc & Ht).
  cbn [forallb]. rewrite (ident_chr_no_linebreak c Hc). cbn [negb andb].
  rewrite forallb_forall in *. intros x Hx. now rewrite (ident_chr_no_linebreak x (Ht x Hx)).
Qed.

Lemma edge_line_no_linebreak (e : str * str) :
  simple_edge e = true ->
  forallb (fun c => negb (is_linebreak c)) (edge_line (fst e) (snd e)) = true.
Proof.
  intros H. apply simple_edge_inv in H as (Ha & Hc & _). unfold edge_line.
  rewrite !forallb_app, (identifier_no_linebreak _ Ha), (identifier_no_linebreak _ Hc). reflexivity.
Qed.

Lemma strip_simple_chart (edges : list (str * str)) :
  forallb simple_edge edges = true -> strip (simple_chart edges) = simple_chart edges.
Proof.
  intros H. unfold simple_chart, unlines.
  destruct edges as [|e0 es]; [reflexivity|].
  destruct (@exists_last _ (e0 :: es)) as (init & e & E); [discriminate|].
  rewrite E in *. clear E e0 es.
  rewrite forallb_app in H. apply andb_true_iff in H as [_ H]. cbn [forallb] in H.
  rewrite andb_true_r in H. apply simple_edge_inv in H as (Ha & Hc & _).
  destruct (identifier_end (snd e) Hc) as (r & d & Er & Hd).
  rewrite map_app. cbn [map].
  change (("flowchart TD" : str) :: map (fun e => edge_line (fst e) (snd e)) init
            ++ [edge_line (fst e) (snd e)])
    with ((("flowchart TD" : str) :: map (fun e => edge_line (fst e) (snd e)) init)
            ++ [edge_line (fst e) (snd e)]).
  rewrite join_snoc by discriminate.
  set (pre := join [nl] (("flowchart TD" : str) :: map (fun e => edge_line (fst e) (snd e)) init)).
  assert (Hpre : exists t, pre = "f"%char :: t).
  { unfold pre. destruct (map _ init) as [|l ls]; [now eexists|].
    now exists ("lowchart TD" ++ [nl] ++ join [nl] (l :: ls)). }
  destruct Hpre as (t & ->). unfold edge_line. rewrite Er.
  pose proof (strip_core [] [] "f" d (t ++ [nl] ++ "    " ++ fst e ++ " --> " ++ r)
                eq_refl eq_refl eq_refl Hd) as S.
  rewrite app_nil_r in S. cbn [app] in S.
  replace (("f"%char :: t) ++ [nl] ++ "    " ++ fst e ++ " --> " ++ r ++ [d])
    with ("f"%char :: (t ++ nl :: " "%char :: " "%char :: " "%char :: " "%char
                            :: fst e ++ " --> " ++ r) ++ [d]).
  - exact S.
  - cbn [app]. f_equal. repeat (rewrite <- ?app_assoc, <- ?app_comm_cons). reflexivity.
Qed.

Lemma extract_simple_chart (info : str) (edges : list (str * str)) :
  forallb simple_edge edges = true ->
  forallb (fun c => negb (is_linebreak c)) info = true ->
  _extract_mermaid (simple_chart edges) = simple_chart_trimmed edges
  /\ _extract_mermaid (fence ++ info ++ [nl] ++ simple_chart edges ++ [nl] ++ fence)
     = simple_chart_trimmed edges.
Proof.
  intros H Hinfo.
  assert (Hx : extracted_chart "flowchart TD" (map (fun e => edge_line (fst e) (snd e)) edges)
               = simple_chart_trimmed edges).
  { unfold extracted_chart.
    assert (E : join [nl] (map strip (("flowchart TD" : str)
                   :: map (fun e => edge_line (fst e) (snd e)) edges))
                = simple_chart_trimmed edges).
    { unfold simple_chart_trimmed, unlines. cbn [map].
      change (strip "flowchart TD") with ("flowchart TD" : str). do 2 f_equal.
      rewrite map_map. apply map_ext_in. intros e He.
      rewrite forallb_forall in H. specialize (H e He).
      apply simple_edge_inv in H as (Ha & Hc & _). now apply strip_edge_line. }
    cbv zeta. rewrite E, (simple_chart_checks edges H). reflexivity. }
  rewrite <- Hx.
  apply (extract_chart_lines info "flowchart TD" (map (fun e => edge_line (fst e) (snd e)) edges)).
  - now apply strip_simple_chart.
  - reflexivity.
  - reflexivity.
  - constructor; [assumption|]. constructor; [reflexivity|].
    apply List.Forall_forall. intros l Hl. apply in_map_iff in Hl as (e & <- & He).
    rewrite forallb_forall in H. now apply edge_line_no_linebreak, H.
  - rewrite forallb_forall. intros l Hl. apply in_map_iff in Hl as (e & <- & He).
    rewrite forallb_forall in H. specialize (H e He).
    apply simple_edge_inv in H as (Ha & Hc & _).
    now destruct (edge_kept (fst e) (snd e) "    " Ha Hc eq_refl) as (_ & _ & _ & Hk).
Qed.

Lemma from_response_simple_chart (description full_response : str) (edges : list (str * str)) :
  forallb simple_edge edges = true -> 2 <= length edges ->
  _extract_mermaid full_response = simple_chart_trimmed edges ->
  from_response description full_response = Ok (simple_chart edges).
Proof.
  intros H Hlen Hx. unfold from_response. rewrite Hx.
  destruct (simple_charts_validate edges H Hlen) as [V4 V0].
  assert (Hne : is_empty (simple_chart_trimmed edges) = false)
    by (destruct edges; reflexivity).
  assert (Hkw : startswith (simple_chart_trimmed edges) "flowchart" = true)
    by (destruct edges; reflexivity).
  rewrite Hne, Hkw. cbn [negb]. cbv iota zeta.
  rewrite (simple_chart_wrapped edges H), (simple_chart_checks edges H), V0.
  cbn [is_empty andb bind]. cbv iota.
  rewrite (simple_chart_header edges H), (simple_chart_spaced edges H).
  cbn [bind]. rewrite V4. reflexivity.
Qed.

(** When the model answers with a chart of two or more simple edges under
    the header [flowchart TD], each edge on a line of its own indented by
    four spaces, bare or inside a fenced block, [_generate_mermaid] returns
    that chart unchanged: the extractor trims its lines, the syntax check
    and the validator accept it, and the spacing pass puts the indentation
    back. *)
Theorem simple_chart_returned
    (self : FlowchartAgent) (model : Prompt -> result str) (d level : str) (mode : FlowchartMode)
    (info response : str) (edges : list (str * str)) :
  ai_model self = Some model ->
  strip d <> [] ->
  _resolve_mode level = Ok mode ->
  forallb simple_edge edges = true ->
  2 <= length edges ->
  forallb (fun c => negb (is_linebreak c)) info = true ->
  response = simple_chart edges
  \/ response = fence ++ info ++ [nl] ++ simple_chart edges ++ [nl] ++ fence ->
  model {| prompt_mode := mode;
           prompt_description := strip d;
           prompt_complexity_hint := wants_detail (strip d) |} = Ok response ->
  _generate_mermaid self (VStr d) level = Ok (simple_chart edges).
Proof.
  intros Hm Hd Hl H Hlen Hinfo Hr Hreply.
  unfold _generate_mermaid. rewrite Hm.
  destruct (strip d) as [|c t] eqn:Es; [congruence|]. cbn [is_empty].
  rewrite Hl. cbn [bind]. rewrite Hreply. cbn [bind].
  destruct (extract_simple_chart info edges H Hinfo) as [X1 X2].
  rewrite (from_response_simple_chart (c :: t) response edges H Hlen); [reflexivity|].
  destruct Hr as [->| ->]; assumption.
Qed.

Lemma simple_chart_returned_witness :
  let chart := simple_chart [("A" : str, "B" : str); ("B" : str, "C" : str)] in
  let self := example_agent (fun _ => Ok (fence ++ "mermaid" ++ [nl] ++ chart ++ [nl] ++ fence))
                            (Ok tt) in
  _generate_mermaid self (VStr " boil, then pour ") "basic" = Ok chart.
Proof.
  intros chart self.
  exact (simple_chart_returned self
           (fun _ => Ok (fence ++ "mermaid" ++ [nl] ++ chart ++ [nl] ++ fence))
           " boil, then pour " "basic" basic "mermaid"
           (fence ++ "mermaid" ++ [nl] ++ chart ++ [nl] ++ fence)
           [("A" : str, "B" : str); ("B" : str, "C" : str)]
           eq_refl ltac:(discriminate) eq_refl eq_refl (le_n 2) eq_refl
           (or_intror eq_refl) eq_refl).
Defined.

(** ** Closing a bracket left open *)

Lemma find_from_first (c : ascii) (a b : str) (i : Z) :
  ~ In c a -> find_from i (a ++ c :: b) [c] = (i + Z.of_nat (length a))%Z.
Proof.
  revert i. induction a as [|x a IH]; intros i Hc.
  - cbn [app find_from length]. 
    assert (H : startswith (c :: b) [c] = true) by (apply startswith_iff; now exists b).
    rewrite H. cbn. lia.
  - cbn [app find_from].
    destruct (startswith (x :: a ++ c :: b) [c]) eqn:E.
    + apply startswith_iff in E as (q & E). injection E as -> _.
      exfalso. apply Hc. now left.
    + rewrite IH by (intros Hin; apply Hc; now right). cbn [length]. lia.
Qed.

Lemma contains_chr_true (a b : str) (c : ascii) : contains (a ++ c :: b) [c] = true.
Proof. apply contains_iff. now exists a, b. Qed.

(** What [re_trailing] matches begins with a closing symbol that is not
    the last character. *)
Lemma trailing_needs_more (m : mstate) (x : rmatch) :
  match_at re_trailing m = Some x ->
  exists c s, rest m = c :: s /\ mem c "]})" = true /\ s <> [].
Proof.
  unfold match_at, re_trailing.
  destruct (run _ Some m) as [e|] eqn:H; [intros _|discriminate].
  rewrite run_seq_cons, run_Grp in H.
  apply run_Cls_inv in H as (c & s & Hrest & Hc & H).
  exists c, s. split; [assumption|]. split; [exact Hc|].
  rewrite run_seq_cons in H. unfold star in H. rewrite run_Star_greedy in H.
  apply star_greedy_inv in H as (j & Hj & _ & H); [|reflexivity].
  rewrite run_seq_cons in H.
  apply run_Cls_inv in H as (d & s2 & Hrest2 & _ & _).
  intros ->. 
  rewrite forward_rest_skipn in Hrest2. cbn [rest capture] in Hrest2.
  rewrite forward_rest_skipn in Hrest2. rewrite Hrest in Hrest2.
  cbn [skipn] in Hrest2. now rewrite skipn_nil in Hrest2.
Qed.

Lemma not_last_In (a1 a2 body : str) (c cl : ascii) :
  a1 ++ c :: a2 = body ++ [cl] -> a2 <> [] -> In c body.
Proof.
  intros E Hne. destruct (@exists_last _ a2 Hne) as (a2' & z & ->).
  change (a1 ++ c :: a2' ++ [z]) with (a1 ++ (c :: a2') ++ [z]) in E.
  rewrite app_assoc in E. apply app_inj_tail in E as [<- _].
  apply in_or_app. right. now left.
Qed.

Lemma sub_trailing_closed (body : str) (cl : ascii) (repl : rmatch -> str) :
  (forall c, In c body -> mem c "]})" = false) ->
  re_sub re_trailing repl (body ++ [cl]) = body ++ [cl].
Proof.
  intros Hbody. unfold re_sub. change (start_of (body ++ [cl])) with (st [] (body ++ [cl])).
  pose proof (sub_go_copy_all re_trailing repl [] (body ++ [cl]) []) as H.
  rewrite !app_nil_r in H. rewrite H.
  - reflexivity.
  - intros a1 c a2 E. rewrite !app_nil_r.
    destruct (match_at re_trailing _) as [x|] eqn:M; [|reflexivity].
    apply trailing_needs_more in M as (c' & s & Hr & Hc & Hs).
    cbn [rest st] in Hr. injection Hr as <- <-.
    symmetry in E. apply not_last_In in E; [|assumption].
    rewrite (Hbody c E) in Hc. discriminate.
Qed.

Lemma drop_not_allowed_In (label : str) (c : ascii) :
  In c (drop_not_allowed label) -> In c label.
Proof.
  unfold drop_not_allowed, re_not_allowed, re_sub.
  rewrite sub_class_deletes by reflexivity. intros H. now apply filter_In in H as [H _].
Qed.

Lemma unclosed_node_inv (e : str * str) :
  unclosed_node e = true ->
  is_identifier (fst e) = true /\ startswith (fst e) keyword = false
  /\ (forall c, In c (snd e) -> mem c "[]{})" = false /\ c <> nl)
  /\ contains (snd e) "-->" = false
  /\ strip (open_node e) = open_node e.
Proof.
  unfold unclosed_node. rewrite !andb_true_iff, !negb_true_iff, eqb_eq, forallb_forall.
  intros ((((Hid & Hkw) & Hl) & Ha) & Hs). repeat split; try assumption.
  - specialize (Hl c H). apply andb_true_iff in Hl as [Hl _]. now apply negb_true_iff in Hl.
  - specialize (Hl c H). apply andb_true_iff in Hl as [_ Hl]. intros ->. discriminate Hl.
Qed.

Lemma slice_after_open (id label : str) :
  upto (length id + 1) (id ++ "[" ++ label) = id ++ "["
  /\ from (length id + 1) (id ++ "[" ++ label) = label.
Proof.
  unfold upto, from.
  assert (L : length id + 1 = length (id ++ "[")) by (rewrite length_app; reflexivity).
  rewrite L. replace (id ++ "[" ++ label) with ((id ++ "[") ++ label)
    by now rewrite <- app_assoc.
  split; [apply take_app_length|apply drop_app_length].
Qed.

Lemma close_open_node (e : str * str) :
  unclosed_node e = true ->
  re_sub re_trailing (fun m => group m 1)
    (close_unmatched "{" "}" drop_not_allowed_q
       (close_unmatched "[" "]" drop_not_allowed (open_node e)))
  = closed_node e.
Proof.
  intros H. apply unclosed_node_inv in H as (Hid & _ & Hl & Ha & _).
  destruct e as [id label]. cbn [fst snd] in *. unfold open_node, closed_node. cbn [fst snd].
  pose proof (identifier_no_punct id) as Hp. specialize (fun x => Hp x (identifier_chars id Hid)).
  assert (Hopen : ~ In "["%char id) by now apply Hp.
  assert (Hno : forall x, mem x "]{})" = true -> ~ In x (id ++ "[" ++ drop_not_allowed label)).
  { intros x Hx Hin. apply mem_In in Hx.
    apply in_app_or in Hin as [Hin|[<-|Hin]].
    - apply (Hp x); [|assumption]. apply mem_In. cbn in Hx |- *. intuition.
    - cbn in Hx. intuition discriminate.
    - apply drop_not_allowed_In, Hl in Hin as [Hin _].
      assert (mem x "[]{})" = true) by (apply mem_In; cbn in Hx |- *; intuition).
      congruence. }
  assert (E1 : close_unmatched "[" "]" drop_not_allowed (id ++ "[" ++ label)
               = id ++ "[" ++ drop_not_allowed label ++ "]").
  { unfold close_unmatched.
    change (id ++ "[" ++ label) with (id ++ "["%char :: label).
    rewrite contains_chr_true.
    rewrite contains_chr_false.
    2:{ intros Hin. apply in_app_or in Hin as [Hin|[Hin|Hin]].
        - now apply (Hp "]"%char).
        - discriminate.
        - apply Hl in Hin as [Hin _]. discriminate. }
    cbn [andb negb]. unfold find. rewrite find_from_first by assumption.
    rewrite Z.add_0_l.
    assert (Hz : (Z.of_nat (length id) =? -1)%Z = false) by (apply Z.eqb_neq; lia).
    rewrite Hz.
    cbn [negb]. rewrite Nat2Z.id.
    change (id ++ "["%char :: label) with (id ++ "[" ++ label).
    destruct (slice_after_open id label) as [-> ->].
    rewrite Ha. now rewrite <- !app_assoc. }
  rewrite E1.
  assert (E2 : close_unmatched "{" "}" drop_not_allowed_q
                 (id ++ "[" ++ drop_not_allowed label ++ "]")
               = id ++ "[" ++ drop_not_allowed label ++ "]").
  { unfold close_unmatched. rewrite contains_chr_false; [reflexivity|].
    intros Hin.
    replace (id ++ "[" ++ drop_not_allowed label ++ "]")
      with ((id ++ "[" ++ drop_not_allowed label) ++ "]") in Hin
      by now rewrite <- !app_assoc.
    apply in_app_or in Hin as [Hin|[Hin|[]]]; [|discriminate].
    now apply (Hno "{"%char). }
  rewrite E2.
  replace (id ++ "[" ++ drop_not_allowed label ++ "]")
    with ((id ++ "[" ++ drop_not_allowed label) ++ ["]"%char])
    by now rewrite <- !app_assoc.
  apply sub_trailing_closed. intros c Hc.
  destruct (mem c "]})") eqn:E; [|reflexivity]. exfalso.
  apply (Hno c); [|assumption]. apply mem_In in E. apply mem_In. cbn in E |- *. intuition.
Qed.

Lemma fix_common_lines_open (nodes : list (str * str)) :
  forallb unclosed_node nodes = true ->
  fix_common_lines (map open_node nodes) = map closed_node nodes.
Proof.
  induction nodes as [|e nodes IH]; intros H; [reflexivity|].
  cbn [forallb] in H. apply andb_true_iff in H as [He H].
  cbn [map fix_common_lines]. cbv zeta.
  destruct (unclosed_node_inv e He) as (Hid & Hkw & _ & _ & Hs).
  rewrite Hs.
  assert (Hne : is_empty (open_node e) = false) by now apply is_empty_identifier.
  assert (Hk : startswith (open_node e) "flowchart" = false).
  { apply not_keyword_token; [assumption|]. intros c r' [= <- _]. reflexivity. }
  rewrite Hne, Hk, (close_open_node e He), IH by assumption. reflexivity.
Qed.

Lemma open_node_one_line (e : str * str) : unclosed_node e = true -> ~ In nl (open_node e).
Proof.
  intros H Hin. apply unclosed_node_inv in H as (Hid & _ & Hl & _ & _).
  unfold open_node in Hin. apply in_app_or in Hin as [Hin|[Hin|Hin]].
  - now apply (identifier_one_line (fst e)).
  - discriminate.
  - now apply Hl in Hin as [_ Hin].
Qed.

(** [_fix_common_syntax_errors] closes a square bracket left open: on a
    line made of an identifier, the opening bracket and a label without
    bracket, brace, closing parenthesis or arrow, the label loses the
    characters outside the allow-list and the closing bracket is put at the
    end of the line; the header is kept. *)
Theorem open_brackets_are_closed (nodes : list (str * str)) :
  forallb unclosed_node nodes = true ->
  _fix_common_syntax_errors (unlines (("flowchart TD" : str) :: map open_node nodes))
  = unlines (("flowchart TD" : str) :: map closed_node nodes).
Proof.
  intros H. unfold _fix_common_syntax_errors, unlines. rewrite split_chr_join.
  - cbn [fix_common_lines]. cbv zeta.
    change (strip "flowchart TD") with ("flowchart TD" : str).
    change (is_empty ("flowchart TD" : str)) with false.
    change (startswith ("flowchart TD" : str) "flowchart") with true. cbv iota.
    now rewrite fix_common_lines_open.
  - discriminate.
  - constructor; [cbn; intuition discriminate|].
    apply List.Forall_forall. intros l Hl. apply in_map_iff in Hl as (e & <- & Hin).
    rewrite forallb_forall in H. now apply open_node_one_line, H.
Qed.

Lemma open_brackets_are_closed_witness :
  _fix_common_syntax_errors
    (unlines ["flowchart TD" : str; "A[Start: now!" : str; "B[Stop (all" : str])
  = unlines ["flowchart TD" : str; "A[Start now]" : str; "B[Stop (all]" : str].
Proof.
  exact (open_brackets_are_closed
           [("A" : str, "Start: now!" : str); ("B" : str, "Stop (all" : str)] eq_refl).
Defined.

(** ** The final cleanup of a simple chart *)

Lemma find_from_sub (c : ascii) (t a b : str) (i : Z) :
  ~ In c a -> find_from i (a ++ (c :: t) ++ b) (c :: t) = (i + Z.of_nat (length a))%Z.
Proof.
  revert i. induction a as [|x a IH]; intros i Hc.
  - cbn [app length].
    assert (H : startswith (c :: t ++ b) (c :: t) = true) by (apply startswith_iff; now exists b).
    change (find_from i (c :: t ++ b) (c :: t))
      with (if startswith (c :: t ++ b) (c :: t) then i
            else find_from (i + 1)%Z (t ++ b) (c :: t)).
    rewrite H. cbn. lia.
  - assert (E : startswith ((x :: a) ++ (c :: t) ++ b) (c :: t) = false).
    { destruct (startswith _ _) eqn:E; [|reflexivity].
      apply startswith_iff in E as (q & E). injection E as -> _.
      exfalso. apply Hc. now left. }
    change (find_from i ((x :: a) ++ (c :: t) ++ b) (c :: t))
      with (if startswith ((x :: a) ++ (c :: t) ++ b) (c :: t) then i
            else find_from (i + 1)%Z (a ++ (c :: t) ++ b) (c :: t)).
    rewrite E, IH by (intros Hin; apply Hc; now right). cbn [length]. lia.
Qed.

Lemma split1_edge_text (a c : str) :
  ~ In "-"%char a -> split1 (a ++ " --> " ++ c) "-->" = [a ++ " "; " " ++ c].
Proof.
  intros Ha. unfold split1, find.
  replace (a ++ " --> " ++ c) with ((a ++ " ") ++ "-->" ++ " " ++ c)
    by now rewrite <- !app_assoc.
  assert (Hd : ~ In "-"%char (a ++ " ")).
  { intros Hin. apply in_app_or in Hin as [Hin|[Hin|[]]]; [contradiction|discriminate]. }
  pose proof (find_from_sub "-" "->" (a ++ " ") (" " ++ c) 0 Hd) as F.
  change ("-"%char :: ("->" : str)) with ("-->" : str) in F.
  rewrite F, Z.add_0_l.
  assert (Hz : (Z.of_nat (length (a ++ " ")) <? 0)%Z = false) by (apply Z.ltb_ge; lia).
  rewrite Hz, Nat2Z.id. unfold upto, from. f_equal; [apply take_app_length|].
  f_equal. rewrite <- drop_drop, drop_app_length. reflexivity.
Qed.

(** The patterns that begin with a closing symbol match only where one
    stands. *)
Lemma closer_needs_close (rs : list regex) (m : mstate) (x : rmatch) :
  match_at (seq (re_closer :: rs)) m = Some x ->
  exists c, In c (rest m) /\ mem c "]})" = true.
Proof.
  unfold match_at. destruct (run _ Some m) as [e|] eqn:H; [intros _|discriminate].
  rewrite run_seq_cons in H. unfold re_closer in H. rewrite run_Grp in H.
  cbn [alt] in H. rewrite !run_Alt in H.
  destruct (run (Cls (is_chr "]")) _ m) as [e1|] eqn:H1.
  { apply run_Cls_inv in H1 as (c & s & Hr & Hc & _). apply is_chr_true in Hc. subst c.
    exists "]"%char. rewrite Hr. split; [now left|reflexivity]. }
  destruct (run (Cls (is_chr "}")) _ m) as [e2|] eqn:H2.
  { apply run_Cls_inv in H2 as (c & s & Hr & Hc & _). apply is_chr_true in Hc. subst c.
    exists "}"%char. rewrite Hr. split; [now left|reflexivity]. }
  apply run_Cls_inv in H as (c & s & Hr & Hc & _). apply is_chr_true in Hc. subst c.
  exists ")"%char. rewrite Hr. split; [now left|reflexivity].
Qed.

Lemma sub_after_identifier (id : str) (repl : rmatch -> str) :
  is_identifier id = true ->
  re_sub re_after1 repl id = id /\ re_sub re_after2 repl id = id.
Proof.
  intros Hid.
  assert (Hno : forall rs rp s, (forall x, In x s -> In x id) ->
                  match_at (seq (re_closer :: rs)) (st rp s) = None).
  { intros rs rp s Hs. destruct (match_at _ _) as [x|] eqn:M; [|reflexivity].
    apply closer_needs_close in M as (c & Hc & Hm). exfalso.
    apply (identifier_no_punct id c (identifier_chars id Hid)); [|now apply Hs].
    apply mem_In in Hm. apply mem_In. cbn in Hm |- *. intuition. }
  split; apply re_sub_no_match; apply Hno.
Qed.

Lemma final_cleanup_edge (indent : str) (e : str * str) :
  simple_edge e = true -> forallb isspace indent = true ->
  final_cleanup_line (indent ++ edge_text e) = edge_line (fst e) (snd e).
Proof.
  intros H Hi. apply simple_edge_inv in H as (Ha & Hc & Hkw).
  unfold final_cleanup_line, edge_text.
  destruct (edge_kept (fst e) (snd e) indent Ha Hc Hi) as (Hs & _ & _ & _).
  rewrite Hs. rewrite is_empty_identifier by assumption.
  rewrite not_keyword_token; [|assumption|intros ? ? [= <- _]; reflexivity].
  cbn [orb].
  assert (Harrow : contains (fst e ++ " --> " ++ snd e) "-->" = true).
  { apply contains_iff. exists (fst e ++ " "), (" " ++ snd e). now rewrite <- !app_assoc. }
  rewrite Harrow, split1_edge_text.
  2:{ apply (identifier_no_punct _ _ (identifier_chars _ Ha)). reflexivity. }
  cbv zeta.
  rewrite (strip_right (fst e) " " eq_refl), (strip_left " " (snd e) eq_refl).
  rewrite !strip_identifier by assumption.
  destruct (sub_after_identifier (fst e) (fun m => group m 1) Ha) as [-> ->].
  reflexivity.
Qed.

(** The final cleanup leaves the edges between identifiers as they are:
    it indents each by four spaces and changes nothing in a chart whose
    edges are indented so. *)
Theorem final_cleanup_simple_chart (edges : list (str * str)) :
  forallb simple_edge edges = true ->
  _final_cleanup (simple_chart_trimmed edges) = simple_chart edges
  /\ _final_cleanup (simple_chart edges) = simple_chart edges.
Proof.
  intros H. destruct (simple_chart_lines edges H) as [L4 L0].
  unfold _final_cleanup. rewrite L4, L0. cbn [map].
  assert (Hh : final_cleanup_line "flowchart TD" = ("flowchart TD" : str)) by reflexivity.
  rewrite Hh, !map_map. unfold simple_chart, unlines.
  rewrite forallb_forall in H.
  split; do 2 f_equal; apply map_ext_in; intros e He.
  - apply (final_cleanup_edge [] e (H e He) eq_refl).
  - apply (final_cleanup_edge "    " e (H e He) eq_refl).
Qed.

Lemma final_cleanup_simple_chart_witness :
  _final_cleanup (unlines ["flowchart TD" : str; "A --> B" : str; "B --> C" : str])
  = unlines ["flowchart TD" : str; "    A --> B" : str; "    B --> C" : str]
  /\ _final_cleanup (unlines ["flowchart TD" : str; "    A --> B" : str; "    B --> C" : str])
     = unlines ["flowchart TD" : str; "    A --> B" : str; "    B --> C" : str].
Proof.
  exact (final_cleanup_simple_chart [("A" : str, "B" : str); ("B" : str, "C" : str)] eq_refl).
Defined.

(** ** The matcher as a relation *)

Lemma run_matches (r : regex) (k : mstate -> option mstate) (m e : mstate) :
  run r k m = Some e -> exists t m', matches r m t m' /\ k m' = Some e.
Proof.
  revert k m. induction r as [|p|a IHa b IHb|a IHa b IHb|g p|n a IHa| | |];
    intros k m H; cbn [run] in H.
  - exists [], m. split; [constructor|assumption].
  - destruct (rest m) as [|c s] eqn:E; [discriminate|].
    destruct (p c) eqn:Hp; [|discriminate].
    exists [c], (advance c s m). split; [now constructor|assumption].
  - apply IHa in H as (t1 & m1 & H1 & H). apply IHb in H as (t2 & m2 & H2 & H).
    exists (t1 ++ t2), m2. split; [econstructor; eassumption|assumption].
  - destruct (run a k m) as [e'|] eqn:E.
    + injection H as ->. apply IHa in E as (t & m' & H1 & H).
      exists t, m'. split; [now apply M_AltL|assumption].
    + apply IHb in H as (t & m' & H1 & H).
      exists t, m'. split; [now apply M_AltR|assumption].
  - assert (Hj : exists j, j <= length (rest m)
                           /\ forallb p (firstn j (rest m)) = true
                           /\ k (forward j m) = Some e).
    { destruct g; [now apply (star_greedy_inv k p (rest m) m e)
                  |now apply (star_lazy_inv k p (rest m) m e)]. }
    destruct Hj as (j & Hj & Hp & Hk).
    exists (firstn j (rest m)), (forward j m). split; [|assumption].
    replace j with (length (firstn j (rest m))) at 2 by (rewrite length_firstn; lia).
    apply (M_Star g p m _ (skipn j (rest m))); [now rewrite firstn_skipn|assumption].
  - apply IHa in H as (t & m1 & H1 & H).
    exists t, (capture n m m1). split; [now constructor|assumption].
  - destruct (prev m) eqn:E; [discriminate|].
    exists [], m. split; [now constructor|assumption].
  - destruct (rest m) as [|c0 [|d0 s0]] eqn:E; [| |discriminate].
    + exists [], m. split; [constructor; now left|assumption].
    + destruct (Ascii.eqb_spec c0 nl) as [->|]; [|discriminate].
      exists [], m. split; [constructor; now right|assumption].
  - destruct (xorb _ _) eqn:E; [|discriminate].
    exists [], m. split; [now constructor|assumption].
Qed.

(** The text taken stands at the head of the text ahead, and the offset
    moves by its length. *)
Lemma matches_span (r : regex) (m m' : mstate) (t : str) :
  matches r m t m' -> rest m = t ++ rest m' /\ pos m' = pos m + length t.
Proof.
  induction 1 as [m|p m c s Hr Hp|a b m m1 m2 t1 t2 _ [R1 P1] _ [R2 P2]
                 |a b m m' t _ IH|a b m m' t _ IH|g p m t s Hr Hp
                 |n a m m1 t _ [R P]|m|m|m].
  - split; [reflexivity|cbn; lia].
  - split; [exact Hr|cbn; lia].
  - split; [rewrite R1, R2; now rewrite app_assoc|rewrite P2, P1, length_app; lia].
  - exact IH.
  - exact IH.
  - split; [rewrite (forward_rest t s m Hr); exact Hr|now apply (forward_pos t s)].
  - split; assumption.
  - split; [reflexivity|cbn; lia].
  - split; [reflexivity|cbn; lia].
  - split; [reflexivity|cbn; lia].
Qed.

Lemma matches_capture (n : nat) (a : regex) (m m1 : mstate) (t : str) :
  matches a m t m1 ->
  capture n m m1 = MState (pos m1) (prev m1) (rest m1) ((n, t) :: caps m1).
Proof.
  intros H. apply matches_span in H as [R P]. unfold capture.
  rewrite R, P. replace (pos m + length t - pos m) with (length t) by lia.
  now rewrite take_app_length.
Qed.

Lemma match_at_matches (r : regex) (m : mstate) (x : rmatch) :
  match_at r m = Some x ->
  exists t, matches r m t (m_end x) /\ m_start x = m
            /\ width x = length t /\ firstn (width x) (rest m) = t.
Proof.
  unfold match_at. destruct (run r Some m) as [e|] eqn:H; [|discriminate].
  intros [= <-]. apply run_matches in H as (t & m' & H & [= ->]).
  exists t. split; [assumption|]. split; [reflexivity|].
  apply matches_span in H as [R P]. unfold width. cbn [m_start m_end].
  rewrite P, R. replace (pos m + length t - pos m) with (length t) by lia.
  split; [reflexivity|apply take_app_length].
Qed.

(** A group holds a piece of the text ahead of the place where the match
    began. *)
Lemma matches_caps (r : regex) (m m' : mstate) (t : str) :
  matches r m t m' ->
  forall n grp, In (n, grp) (caps m') ->
                In (n, grp) (caps m) \/ (forall c, In c grp -> In c (rest m)).
Proof.
  induction 1 as [m|p m c s Hr Hp|a b m m1 m2 t1 t2 H1 IH1 H2 IH2
                 |a b m m' t _ IH|a b m m' t _ IH|g p m t s Hr Hp
                 |n a m m1 t H IH|m|m|m]; intros k grp Hin; try (now left).
  - destruct (IH2 k grp Hin) as [Hc|Hc]; [now apply IH1|].
    right. intros c Hg. apply matches_span in H1 as [R _]. rewrite R.
    apply in_or_app. right. now apply Hc.
  - now apply IH.
  - now apply IH.
  - left. now rewrite forward_caps in Hin.
  - rewrite (matches_capture n a m m1 t H) in Hin. cbn [caps] in Hin.
    destruct Hin as [[= <- <-]|Hin]; [|now apply IH].
    right. intros c Hc. apply matches_span in H as [R _]. rewrite R.
    apply in_or_app. now left.
Qed.

Lemma group_In (r : regex) (m : mstate) (x : rmatch) (n : nat) (c : ascii) :
  match_at r m = Some x -> caps m = [] -> In c (group x n) -> In c (rest m).
Proof.
  intros H Hcaps Hin.
  destruct (match_at_matches r m x H) as (t & Hm & Hs & _).
  unfold group in Hin. destruct n as [|n].
  - rewrite Hs in Hin. rewrite <- (firstn_skipn (pos (m_end x) - pos m) (rest m)).
    apply in_or_app. now left.
  - destruct (List.find _ (caps (m_end x))) as [[k g]|] eqn:E; [|destruct Hin].
    apply find_some in E as [E _]. cbn [snd] in Hin.
    destruct (matches_caps r m (m_end x) t Hm k g E) as [Hc|Hc]; [|now apply Hc].
    rewrite Hcaps in Hc. destruct Hc.
Qed.

Lemma re_match_group_In (r : regex) (s : str) (x : rmatch) (n : nat) (c : ascii) :
  re_match r s = Some x -> In c (group x n) -> In c s.
Proof. intros H. now apply (group_In r (start_of s) x n c H). Qed.

(** ** Substitution and the characters it keeps *)

Section SubFilter.

Variable keep : ascii -> bool.
Variable r : regex.
Variable repl : rmatch -> str.
Variable subject : str.

Hypothesis replaced :
  forall m x, caps m = [] -> (forall c, In c (rest m) -> In c subject) ->
              match_at r m = Some x ->
              0 < width x
              /\ List.filter keep (repl x) = List.filter keep (firstn (width x) (rest m)).



End SubFilter.

(** ** What a match of a pattern is made of *)










(** ** What the wrapping pass keeps *)

Section WrapKeeps.

Variable keep : ascii -> bool.
Hypothesis keep_dquote : keep dquote = false.
Hypothesis keep_space : keep " " = false.





End WrapKeeps.








(** ** The sanitizer adds no line break *)

Lemma split_go_In (sep : str) (s : str) :
  forall skip cur l x,
    In l (split_go sep skip cur s) -> In x l -> In x cur \/ In x s.
Proof.
  induction s as [|c s IH]; intros skip cur l x Hl Hx.
  - cbn [split_go] in Hl. destruct Hl as [<-|[]]. left. now apply in_rev.
  - cbn [split_go] in Hl. destruct skip as [|n].
    + destruct (startswith (c :: s) sep).
      * destruct Hl as [<-|Hl]; [left; now apply in_rev|].
        destruct (IH _ _ _ _ Hl Hx) as [[]|H]. right. now right.
      * destruct (IH _ _ _ _ Hl Hx) as [[<-|H]|H]; [right; now left|now left|right; now right].
    + destruct (IH _ _ _ _ Hl Hx) as [H|H]; [now left|right; now right].
Qed.

Lemma split_In (s sep l : str) (x : ascii) : In l (split s sep) -> In x l -> In x s.
Proof. intros Hl Hx. now destruct (split_go_In sep s 0 [] l x Hl Hx) as [[]|H]. Qed.

Lemma hd_In (ls : list str) (x : ascii) : In x (hd [] ls) -> exists l, In l ls /\ In x l.
Proof. destruct ls as [|l ls]; [intros []|]. intros H. exists l. split; [now left|exact H]. Qed.

Lemma firstn_In (n : nat) (s : str) (x : ascii) : In x (firstn n s) -> In x s.
Proof. intros H. rewrite <- (firstn_skipn n s). apply in_or_app. now left. Qed.

Lemma split1_In (s sep l : str) (x : ascii) : In l (split1 s sep) -> In x l -> In x s.
Proof.
  unfold split1, upto, from. destruct (find s sep <? 0)%Z.
  - intros [<-|[]] Hx. exact Hx.
  - intros [<-|[<-|[]]] Hx; [now apply firstn_In in Hx|now apply In_skipn_In in Hx].
Qed.

Lemma clean_label_one_line (text : str) : ~ In nl text -> ~ In nl (clean_label text).
Proof.
  intros Hn Hin. unfold clean_label in Hin.
  destruct (is_empty text); [contradiction|].
  destruct (is_empty (strip _)); [cbn in Hin; intuition discriminate|].
  apply strip_In in Hin.
  apply re_sub_chars in Hin as [Hin|Hin]; [|cbn in Hin; intuition discriminate].
  apply rstrip_by_In in Hin.
  apply re_sub_chars in Hin as [Hin|Hin]; [|destruct Hin].
  apply re_sub_chars in Hin as [Hin|Hin]; [|destruct Hin].
  apply re_sub_chars in Hin as [Hin|Hin]; [|cbn in Hin; intuition discriminate].
  apply replace_chr_In in Hin as [Hin|[Hin _]]; [cbn in Hin; intuition discriminate|].
  apply replace_chr_In in Hin as [Hin|[Hin _]]; [cbn in Hin; intuition discriminate|].
  contradiction.
Qed.

Lemma drop_not_allowed_q_In (label : str) (c : ascii) :
  In c (drop_not_allowed_q label) -> In c label.
Proof.
  unfold drop_not_allowed_q, re_not_allowed_q, re_sub.
  rewrite sub_class_deletes by reflexivity. intros H. now apply filter_In in H as [H _].
Qed.

Lemma extract_node_id_one_line (seen_nodes : gset str) (node_str : str) :
  ~ In nl node_str -> ~ In nl (extract_node_id seen_nodes node_str).
Proof.
  intros Hn Hin. unfold extract_node_id in Hin.
  destruct (re_match re_lead_id (strip node_str)) as [m|] eqn:E.
  - apply (re_match_group_In _ _ _ _ _ E), strip_In in Hin. contradiction.
  - apply in_app_or in Hin as [Hin|Hin]; [cbn in Hin; intuition discriminate|].
    pose proof (str_of_nat_digits (size seen_nodes)) as Hd.
    rewrite forallb_forall in Hd. specialize (Hd nl Hin). discriminate.
Qed.

Lemma sanitize_shape_one_line (open close : ascii) (filter_label : str -> str)
      (node_id node_str : str) :
  open <> nl -> close <> nl ->
  (forall l, ~ In nl l -> ~ In nl (filter_label l)) ->
  ~ In nl node_id -> ~ In nl node_str ->
  ~ In nl (sanitize_shape open close filter_label node_id node_str).
Proof.
  intros Ho Hc Hf Hid Hn.
  assert (Hbuild : forall label, ~ In nl label ->
             ~ In nl (node_id ++ [open] ++ filter_label (clean_label label) ++ [close])).
  { intros label Hl Hin.
    apply in_app_or in Hin as [Hin|Hin]; [contradiction|].
    apply in_app_or in Hin as [[Hin|[]]|Hin]; [congruence|].
    apply in_app_or in Hin as [Hin|[Hin|[]]]; [|congruence].
    now apply (Hf (clean_label label) (clean_label_one_line label Hl)). }
  unfold sanitize_shape.
  destruct (_ <? _)%Z.
  - apply Hbuild. unfold slice. intros Hin. apply firstn_In, In_skipn_In in Hin. contradiction.
  - destruct (split1 node_str [open]) as [|p0 [|label_part [|p2 ps]]] eqn:E; try assumption.
    assert (Hlp : ~ In nl label_part).
    { intros Hin. apply Hn. apply (split1_In node_str [open] label_part); [|assumption].
      rewrite E. right. now left. }
    apply Hbuild.
    set (label := if contains label_part "-->"
                  then strip (hd [] (split label_part "-->")) else strip label_part).
    assert (Hlabel : ~ In nl label).
    { unfold label. destruct (contains label_part "-->"); intros Hin; apply strip_In in Hin.
      - apply hd_In in Hin as (l & Hl & Hin). apply Hlp. now apply (split_In label_part "-->" l).
      - contradiction. }
    destruct (contains label [close]); [|assumption].
    intros Hin. apply hd_In in Hin as (l & Hl & Hin). apply Hlabel.
    now apply (split_chr_In close label l).
Qed.

Lemma sanitize_node_one_line (seen_nodes : gset str) (node_str : str) :
  ~ In nl node_str -> ~ In nl (sanitize_node seen_nodes node_str).
Proof.
  intros Hn. unfold sanitize_node.
  assert (Hs : ~ In nl (strip node_str)) by (intros H; now apply strip_In in H).
  destruct (is_empty (strip node_str)); [intros []|].
  pose proof (extract_node_id_one_line seen_nodes (strip node_str) Hs) as Hid.
  assert (Hd : forall l, ~ In nl l -> ~ In nl (drop_not_allowed l))
    by (intros l Hl H; now apply drop_not_allowed_In in H).
  assert (Hq : forall l, ~ In nl l -> ~ In nl (drop_not_allowed_q l))
    by (intros l Hl H; now apply drop_not_allowed_q_In in H).
  destruct (contains _ "["); [apply sanitize_shape_one_line; try assumption; discriminate|].
  destruct (contains _ "{"); [apply sanitize_shape_one_line; try assumption; discriminate|].
  destruct (contains _ "("); [apply sanitize_shape_one_line; try assumption; discriminate|].
  destruct (re_match re_lead_id (strip node_str)) as [m|] eqn:E; [|assumption].
  intros Hin. now apply (re_match_group_In _ _ _ _ _ E) in Hin.
Qed.

Lemma sub_arrow_one_line (r : regex) (s : str) :
  ~ In nl s -> ~ In nl (re_sub r (fun _ => "-->") s).
Proof.
  intros Hs Hin. apply re_sub_chars in Hin as [Hin|Hin]; [contradiction|].
  cbn in Hin. intuition discriminate.
Qed.

Lemma sanitize_lines_one_line (seen_nodes : gset str) (lines : list str) :
  List.Forall (fun l => ~ In nl l) lines ->
  List.Forall (fun l => ~ In nl l) (sanitize_lines seen_nodes lines).
Proof.
  induction 1 as [|line rest Hline _ IH]; [constructor|].
  cbn [sanitize_lines]. cbv zeta.
  assert (Hs : ~ In nl (strip line)) by (intros H; now apply strip_In in H).
  destruct (is_empty (strip line) || startswith (strip line) "%%"); [assumption|].
  destruct (startswith (strip line) "flowchart"); [now constructor|].
  set (t := re_sub re_arrow3 _ _).
  assert (Ht : ~ In nl t) by (unfold t; now do 3 apply sub_arrow_one_line).
  assert (Hnode : forall s, ~ In nl s -> ~ In nl (sanitize_node seen_nodes (strip s))).
  { intros s Hn. apply sanitize_node_one_line. intros H. now apply strip_In in H. }
  destruct (contains t "-->").
  - destruct (re_match re_labeled t) as [m|] eqn:E.
    + assert (Hg : forall n, ~ In nl (group m n)).
      { intros n Hin. now apply (re_match_group_In _ _ _ _ _ E) in Hin. }
      constructor; [|assumption]. intros Hin.
      apply in_app_or in Hin as [Hin|Hin]; [cbn in Hin; intuition discriminate|].
      apply in_app_or in Hin as [Hin|Hin].
      { revert Hin. apply sanitize_node_one_line. intros H. apply strip_In in H.
        now apply (Hg 1). }
      apply in_app_or in Hin as [Hin|Hin]; [cbn in Hin; intuition discriminate|].
      apply in_app_or in Hin as [Hin|Hin].
      { revert Hin. apply clean_label_one_line, Hg. }
      apply in_app_or in Hin as [Hin|Hin]; [cbn in Hin; intuition discriminate|].
      revert Hin. apply Hnode, Hg.
    + destruct (split t "-->") as [|p0 [|p1 ps]] eqn:Ep; try assumption.
      constructor; [|assumption].
      assert (H0 : ~ In nl p0).
      { intros H. apply Ht, (split_In t "-->" p0); [rewrite Ep; now left|assumption]. }
      assert (H1 : ~ In nl p1).
      { intros H. apply Ht, (split_In t "-->" p1); [rewrite Ep; right; now left|assumption]. }
      intros Hin.
      apply in_app_or in Hin as [Hin|Hin]; [cbn in Hin; intuition discriminate|].
      apply in_app_or in Hin as [Hin|Hin]; [now apply (Hnode p0 H0)|].
      apply in_app_or in Hin as [Hin|Hin]; [cbn in Hin; intuition discriminate|].
      now apply (Hnode p1 H1).
  - destruct (negb (is_empty (sanitize_node seen_nodes t))); [|assumption].
    constructor; [|assumption]. intros Hin.
    apply in_app_or in Hin as [Hin|Hin]; [cbn in Hin; intuition discriminate|].
    revert Hin. now apply sanitize_node_one_line.
Qed.

(** The lines of a sanitized chart.  When the sanitizer returns a text that
    is not empty, each of its lines is a trimmed line that begins with the
    keyword or a line that begins with four spaces, and it has no more
    lines than the text has lines that are neither blank nor comments. *)
Theorem sanitized_lines_shape (code : str) :
  let lines := split_chr nl (_sanitize_mermaid code) in
  _sanitize_mermaid code <> [] ->
  List.Forall (fun l => (startswith l "flowchart" = true /\ strip l = l)
                        \/ exists body, l = "    " ++ body) lines
  /\ length lines
     <= length (List.filter (fun l => negb (is_empty (strip l))
                                      && negb (startswith (strip l) "%%"))
                            (split_chr nl code)).
Proof.
  intros lines Hne. unfold lines, _sanitize_mermaid in *. rewrite split_chr_join.
  - apply sanitize_lines_shape.
  - intros E. rewrite E in Hne. now apply Hne.
  - apply sanitize_lines_one_line, split_chr_Forall_no_sep.
Qed.

Lemma sanitized_lines_shape_witness :
  let code := unlines ["%% demo" : str; "flowchart TD" : str; "A[Start].   -> B{Go?}" : str;
                       "" : str; "B -->|yes| C[Done]" : str] in
  let lines := split_chr nl (_sanitize_mermaid code) in
  List.Forall (fun l => (startswith l "flowchart" = true /\ strip l = l)
                        \/ exists body, l = "    " ++ body) lines
  /\ length lines
     <= length (List.filter (fun l => negb (is_empty (strip l))
                                      && negb (startswith (strip l) "%%"))
                            (split_chr nl code)).
Proof.
  intros code lines.
  apply (sanitized_lines_shape code). vm_compute. discriminate.
Defined.

(** ** The minimal path, line by line *)


